(* ===== verification/_CoqProject ===== *)
-Q . S2P
Prelude.v
CString.v
Machine.v
SdsModel.v
Queue.v
Http.v
Settings.v
Logger.v
LoggerSafety.v
LoggerLife.v
LoggerDirect.v
LoggerApi.v
Worker.v
Socket.v
Exit.v
Client.v
WorkerProc.v
Monitor.v
Reaction.v
System.v
Fair.v
Exhaustion.v
DeadWorker.v
WorkerLife.v
Startup.v
Shutdown.v
Main.v
Errors.v
Examples.v
