(* ===== verification/Prelude.v ===== *)
(** * cewserver: a verification development

    The program is a small web server in C ([src/src], [src/include]).  A master process
    reads its settings, starts the logger, optionally becomes a daemon, forks its worker
    processes, listens on a TCP port and passes every accepted connection to one of the
    workers, in turn, as ancillary data on a Unix socket.  A worker runs an event loop
    over that socket and over its clients, answers one GET request per connection from
    the files under /opt/www, and closes the connection.  All processes log through a
    queue that a thread of their own writes to the log file.

    ** Files of the development and the code they model

    - [Prelude.v] (this file): bytes, machine integers, the monad [ST] of computations
      with state that return, end the process, run into undefined behaviour or use up
      their fuel, and the predicates [wp], [exits], [fails], [wpf] and [runs] on their
      outcomes: [wpf] and [runs] name the failures that are possible besides returning.
    - [CString.v]: what the sources use of string.h, ctype.h, stdlib.h and stdio.h:
      strings in memory up to their terminator, comparison and search, [strtol], decimal
      printing, [printf] formats with the conversions that occur, [vsnprintf].
    - [Machine.v]: the process.  The calls that leave the program ([ext_call]) are
      answered by an arbitrary environment ([Env]) that knows the trace so far, and are
      recorded in it.  [SdsLib] and [SdsSpec] are the interface of the sds string library
      with its documented behaviour; [LoggerAPI] and [LoggerSpec] are the interface of
      the logger and what the program relies on.  Ownership of strings ([heap_is]) and
      the tactics that run a computation through its rules ([wstep], [wsteps]).
    - [SdsModel.v]: two instances of the sds interface, one that grows strings in place
      and one that always moves them.
    - [Queue.v]: the [STAILQ] macros of sys/queue.h on a memory of entries, and the list
      a queue stands for.
    - [Http.v]: [cew_http.c] and the client structure of [cew_client.h].
    - [Settings.v]: [cew_settings.c]; libini is the parameter [LibIni].
    - [Logger.v], [LoggerSafety.v], [LoggerLife.v], [LoggerDirect.v], [LoggerApi.v]:
      [cew_logger.c].  The threads as steps and their interleavings, and a call as a function
      beside the writer; the invariant of all interleavings; flushing, starting and stopping beside the writing
      thread; the build that prints each message at once; and the entry points as the
      instance [cew_logger] of the interface.
    - [Worker.v]: [cew_worker.c] as the master runs it: descriptor passing, IPC sockets,
      routing, release.
    - [Socket.v]: [cew_socket.c].  [Exit.v]: [cew_exit.c].  [Client.v]: [cew_client.c].
    - [WorkerProc.v]: the rest of [cew_worker.c]: [worker_init] with both results of
      [fork], the worker process and its event loop, the monitor.  [Monitor.v]: what the
      monitor does.
    - [Reaction.v]: what one event makes a worker do, as a relation between the clients
      before and after and the calls made.
    - [System.v]: the master and its workers as communicating processes, with the kernel's
      part of it (descriptors, connections, messages on their way), and the abstract machine
      of connection fates that they refine.
    - [Fair.v]: endless runs of these processes with a fair kernel and event library.
      [Exhaustion.v]: the descriptors they leave open.  [DeadWorker.v]: runs in which workers
      end.
    - [WorkerLife.v]: the life of a worker process from its fork to its end.
    - [Startup.v]: the start-up of the master and its workers, in every interleaving of their
      calls and those of the workers' logging threads.  [Shutdown.v]: their end, likewise, with
      signals from outside.
    - [Main.v]: [cew_main.c].  [Errors.v]: [main] when calls fail.
    - [Examples.v]: surroundings in which the assumptions hold, and the theorems applied
      there, among them [main] with the program's own logger.

    ** How state and operations correspond

    Every C function is a definition of the same name; a function with a loop or a long
    conditional has named parts ([pairs_loop] in [settings_load], [http_respond] in
    [http_handle_client_request], [init_worker] in [worker_init]).  A static variable is
    a field of a record that the function takes and returns: [tsSSettings] for the
    settings, [lstate] for the logger, [worker_state] for the workers, [g_iFd] for the
    socket; [globals] puts together what the clean-up needs.  A structure that lives on
    the C heap is an entry of a finite map from addresses (strings, queue entries,
    clients) or of a table (workers); to use one after its release is the outcome
    [Undef UseAfterFree].  A pointer that may be null is an [option] or an inductive
    type.  Integers are [Z] with the conversions of the code written out ([u16], [i16],
    [u32], [i32]) where a value can leave its type.

    The two results of [fork] are both modelled: the environment's answer decides
    whether the model goes on as the parent or as the child, which has the variables of
    the parent and no writing thread ([logger_in_child]).

    In [System.v] a step of the system ([perform]) runs one callback of one process with the
    answers of some environment, and [master_call] and [worker_call] say which of these
    answers the kernel can give and what they change for the other processes: [accept] gives
    an unused descriptor for a new connection, [sendmsg] puts the connection behind the
    descriptor in the message into the inbox of the worker at the other end (as the kernel
    reads the control data, [kernel_takes]), [recvmsg] takes the oldest one out under an unused
    descriptor of the worker and writes the control data for it ([kernel_gives]), and data,
    what [send] took of an answer, and shutdowns that succeeded are recorded with the
    connection they belong to.  Steps that the kernel's
    answers exclude are not steps.  [Startup.v] does the same for the time before: there the
    calls of [worker_init] and of [workerp_start] (the part of [workerp_entry] before its event
    loop) interleave one by one, and [boot_call] is the kernel with its descriptors, socket
    files and waiting connections.  [Shutdown.v] does it for the time after, where the master
    runs [do_exit] and [end_call] is the kernel with its signals and waits.

    ** What the theorems show

    - The processes together: every interleaving refines the machine in which connection
      [n] belongs to worker [n] modulo the number of workers, is taken in the order of
      arrival and answered at most once ([system_refines]); every callback returns, or has one
      of the accidents listed in [accident] ([system_safe]); what is seen of each connection
      ([connections_answered_once]); a worker takes, answers and closes its connections whenever
      the kernel lets it ([worker_progress]), and in every fair endless run of callbacks that
      return each connection comes to its end ([every_connection_ends]); every interleaving of
      the start-up ends where these runs start ([startup_connects]), and when the master ends
      every worker is ended with it, by a signal that it does not handle
      ([shutdown_kills_workers]).  Over time: how many connections and files the limits of
      descriptors allow ([descriptors_run_out]), and what becomes of the connections of a
      worker that has ended ([dead_worker_starves]).
    - The program, in the foreground and as a daemon: the whole life of the master
      ([main_serves_and_ends]), its end for every cause of failure, undefined behaviour
      included ([main_error_exits]), the whole life of a worker ([worker_life]), the daemon
      ([daemonize_correct]).
    - Requests and clients: every request that fits the buffer is answered by one of six
      cases, with exactly one response and all strings released, unless the append of the
      media type moves the string ([request_handled]); the parser finds the target of a
      request ([target_roundtrip]); each event of a worker is one case of [reaction] or an
      accident ([dispatch_correct]); registering a client ([client_register_wp]).
    - Settings: loading refines an abstract configuration and ends
      ([settings_load_correct], [settings_reload]); one option ([parse_option_correct]);
      release ([settings_destroy_correct]).
    - Logger: over all interleavings with any number of callers which steps are undefined
      (none of the writer's, two kinds of the callers'), mutual exclusion, order of the
      messages, exact ownership of their strings, bounds of the queue ([logger_threads_safe],
      [logger_fifo_bounded]), progress of the writer ([logger_drains]); each function on every
      branch ([log_msg_correct], [logger_init_correct], [logger_destroy_correct]); every entry
      point returns, or formats a message that lacks arguments ([api_total]).
    - Workers and master: descriptor passing is a round trip ([fd_passing_roundtrip]),
      clients are dealt in turn ([round_robin]), start-up and release fit together
      ([worker_init_correct], [master_destroy_correct], [do_exit_correct],
      [ipc_path_agrees]); the socket ([socket_setup_correct], [port_reaches_resolver]); the
      monitor ([worker_monitor_correct]).
    - What the code does where it goes wrong is stated as theorems too: dropped results of
      [sdscat] ([mime_pointer_dangles]), descriptors that stay open
      ([served_file_stays_open], [accepted_fd_stays_open]), a full buffer
      ([full_buffer_overread]), an endless loop ([deregister_diverges]), a message that lacks an
      argument ([do_exit_correct]), a seed that overflows ([seed_overflows]), a fork inside the
      mutex ([fork_inside_mutex]), a log file on the descriptor of the worker's socket
      ([log_file_on_zero]), a flush that gives up
      ([logger_flush_gives_up]), workers that stop their siblings
      ([worker_destroy_kills_siblings]), too many workers ([too_many_workers]), a
      worker that cannot start ([failed_start_crashes]), the test of the arguments
      ([any_argument_daemonizes]), arguments that are read twice ([direct_output]).

    ** Fuel

    Loops whose number of rounds is not in the code's data have fuel, and the theorems
    say which fuel is enough: the two loops of [settings_load], one more than the size of
    the file (each section and pair found makes the rest smaller, [LibIniFinite]); the
    search for the last dot, one more than the length of the name; [join_writer], twenty
    steps and five for each queued message, which is more than the writer needs to reach
    its sleep from any position ([w_steps]); [free_queue], one more than the number of
    entries.  The loops that wait for the environment ([drain_socket], [wait_for_file],
    [monitor_loop]) get their fuel from the caller; a theorem about [wait_for_file] has the
    behaviour of the environment that makes it end as an assumption ([appears]), the monitor
    goes on whatever its fuel, and that a socket is not read to its end within the fuel is one
    of the accidents.  The twenty rounds of [logger_flush] are the code's
    own.  An event loop runs over a given list of events and returns at the event that
    breaks it; a list without one is the outcome [NoFuel].

    ** Assumptions

    The laws of the libraries are their documented behaviour: [SdsSpec] (a string may move
    whenever it is appended to), [LibIni], [LibIniFinite], [LoggerSpec] (discharged by
    [cew_logger_spec]).  Of the kernel, theorems assume by name: [kernel_ok] (a call stores no
    more bytes than asked for), [worker_call], [master_call], [boot_call] and [end_call] (which
    answers it can give), [parent], [joins], [listens], [becomes_daemon], [starts] (which calls
    succeed, and which process a fork returns to), [knows_peers] (the address of a peer can be
    found).  Of the logger's surroundings: [good] (mutex and [malloc] do not fail), [all_good]
    (and no file operation), [sane] (sizes that are not negative and fit 32 bits).

    ** What is not modelled

    - Code that is not in the repository: sds, libini and libev are parameters; of
      cmocka nothing is used.  Tests, build files and web pages.
    - The threads of the logger interleave in sequentially consistent steps, cut at every
      access to a shared variable that matters to another thread; the accesses without
      the mutex are data races for the C standard, and what a compiler may make of them
      is not modelled.  Beside a single caller the writer runs at the sleeps of the
      caller, between its calls, and while it waits for the mutex.  A join of the inherited
      thread in a forked child returns at once.
    - A format with too few arguments is undefined, in the logger (where it formats the
      message, [api_formats]) and elsewhere.  The text that the logger makes of an argument of
      the wrong type, or of a null pointer for a string, is a parameter
      ([IndeterminateText]).
    - Addresses of sockets (other than the path of a Unix socket), file modes and flags,
      signal delivery outside the event loops, buffering of stdio, and what happens to a
      process after [exit].
    - Of the system of processes: start-ups in which a call fails or two random names are
      equal (each side of such failures is in [Errors.v] and [failed_start_crashes]), a worker
      that cleans up while others run (in [DeadWorker.v] an ended worker just takes no more
      steps; its clean-up by itself is in [WorkerLife.v]), the signal that a broken connection
      may raise, and what clients see besides the data handed to the kernel.
    - [CLIENT_TIMEOUT] and other durations: a timer expires at some time.  The structure
      [tsWorkerEv] only carries a worker to its callback, which takes it as an argument.  The
      flag [bTerminateProg], which nothing sets, is a field of the logger's configuration and
      an argument of the monitor.  [SOCK_FAIL], [WORKER_MAX_CLIENTS] and [socket_poll] are
      declared and never used; [worker_dummy_send] is commented out.

    ** What could follow

    Every function of the program is modelled.  What remains is finer detail of the world
    around it: clean-ups of single workers as steps of the system, weak memory in the logger,
    and time. *)

From stdpp Require Export base tactics decidable numbers list gmap fin_maps strings.
From Stdlib Require Export ZArith Lia Ascii.

Local Open Scope Z_scope.

(** ** Bytes and string literals *)

(** A byte of memory is an [ascii] (eight bits); a block of memory is a list of bytes. *)
Abbreviation byte := ascii.
Abbreviation bytes := (list ascii).

Create HintDb cew.

(** The bytes of a C string literal, without its terminating NUL. *)
Definition lit (s : string) : bytes := String.list_ascii_of_string s.
#[global] Arguments lit : simpl never.

(** ** Machine integers *)

(** Reduction of an integer to [w] bits, unsigned and two's complement. *)
Definition uwrap (w : Z) (z : Z) : Z := z mod 2 ^ w.
Definition swrap (w : Z) (z : Z) : Z :=
  let u := z mod 2 ^ w in if u <? 2 ^ (w - 1) then u else u - 2 ^ w.

Definition u16 : Z → Z := uwrap 16.
Definition u32 : Z → Z := uwrap 32.
Definition i16 : Z → Z := swrap 16.
Definition i32 : Z → Z := swrap 32.

Definition in_i32 (z : Z) : Prop := - 2 ^ 31 ≤ z < 2 ^ 31.

Lemma uwrap_range w z : 0 < w → 0 ≤ uwrap w z < 2 ^ w.
Proof. intros. apply Z.mod_pos_bound. lia. Qed.

Lemma uwrap_small w z : 0 ≤ z < 2 ^ w → uwrap w z = z.
Proof. apply Z.mod_small. Qed.

Lemma swrap_small w z : 0 < w → - 2 ^ (w - 1) ≤ z < 2 ^ (w - 1) → swrap w z = z.
Proof.
  intros Hw Hz. unfold swrap.
  assert (2 ^ w = 2 * 2 ^ (w - 1)) as E
    by (rewrite <-Z.pow_succ_r by lia; f_equal; lia).
  destruct (decide (0 ≤ z)).
  - rewrite Z.mod_small by lia. destruct (Z.ltb_spec z (2 ^ (w - 1))); lia.
  - rewrite <-(Z.mod_add z 1 (2 ^ w)), Z.mod_small by lia.
    destruct (Z.ltb_spec (z + 1 * 2 ^ w) (2 ^ (w - 1))); lia.
Qed.

Lemma swrap_range w z : 0 < w → - 2 ^ (w - 1) ≤ swrap w z < 2 ^ (w - 1).
Proof.
  intros Hw. unfold swrap.
  assert (2 ^ w = 2 * 2 ^ (w - 1)) as E
    by (rewrite <-Z.pow_succ_r by lia; f_equal; lia).
  pose proof (Z.mod_pos_bound z (2 ^ w)). destruct (Z.ltb_spec (z mod 2 ^ w) (2 ^ (w - 1))); lia.
Qed.

Lemma uwrap_swrap w z : 0 < w → uwrap w (swrap w z) = uwrap w z.
Proof.
  intros Hw. unfold uwrap, swrap. case_match.
  - by rewrite Z.mod_mod by lia.
  - rewrite <-(Z.mod_add _ 1) by lia.
    replace (z mod 2 ^ w - 2 ^ w + 1 * 2 ^ w) with (z mod 2 ^ w) by lia.
    by rewrite Z.mod_mod by lia.
Qed.

#[export] Hint Resolve uwrap_range : cew.

(** ** Computations with state, process exit and undefined behaviour *)

(** The ways in which a C computation can go wrong that the sources can reach. *)
Inductive ub : Type :=
  | OutOfBounds       (** access outside an object *)
  | UseAfterFree      (** access to, or free of, a released object *)
  | NullDeref         (** access through a null pointer *)
  | DivByZero         (** [%] by zero *)
  | BadFree           (** [free] of something [malloc] did not return *)
  | SignedOverflow    (** a signed result outside its type *)
  | Unspecified.      (** a library function called outside its contract *)

(** The result of running a piece of the program: a value, the end of the process
    with its exit status, undefined behaviour, or (for the loops whose end depends on
    the environment) more iterations than the caller granted. *)
Inductive outcome (A : Type) : Type :=
  | Ok (a : A)
  | Exited (status : Z)
  | Undef (why : ub)
  | NoFuel.
Arguments Ok {_} _.
Arguments Exited {_} _.
Arguments Undef {_} _.
Arguments NoFuel {_}.

#[global] Instance ub_eq_dec : EqDecision ub.
Proof. solve_decision. Defined.

(** Stateful computations over a state [S]. *)
Definition ST (S A : Type) : Type := S → outcome A * S.

#[global] Instance ST_ret S : MRet (ST S) := λ A a s, (Ok a, s).
#[global] Instance ST_bind S : MBind (ST S) := λ A B f m s,
  match m s with
  | (Ok a, s') => f a s'
  | (Exited z, s') => (Exited z, s')
  | (Undef u, s') => (Undef u, s')
  | (NoFuel, s') => (NoFuel, s')
  end.
#[global] Instance ST_fmap S : FMap (ST S) := λ A B f m, m ≫= λ a, mret (f a).

Definition st_undef {S A} (u : ub) : ST S A := λ s, (Undef u, s).
Definition st_exit {S A} (z : Z) : ST S A := λ s, (Exited z, s).
Definition st_nofuel {S A} : ST S A := λ s, (NoFuel, s).

(** [wp m Q s]: from [s] the computation [m] returns normally, with a value and a
    state that satisfy [Q].  It excludes exit, undefined behaviour and lack of fuel. *)
Definition wp {S A} (m : ST S A) (Q : A → S → Prop) (s : S) : Prop :=
  match m s with
  | (Ok a, s') => Q a s'
  | _ => False
  end.

Section wp_rules.
Context {S : Type}.

Lemma wp_ret {A} (a : A) (Q : A → S → Prop) s : Q a s → wp (mret a) Q s.
Proof. done. Qed.

Lemma wp_bind {A B} (m : ST S A) (f : A → ST S B) Q s :
  wp m (λ a s', wp (f a) Q s') s → wp (m ≫= f) Q s.
Proof. unfold wp, mbind, ST_bind. by destruct (m s) as [[]?]. Qed.

Lemma wp_mono {A} (m : ST S A) (P Q : A → S → Prop) s :
  wp m P s → (∀ a s', P a s' → Q a s') → wp m Q s.
Proof. unfold wp. destruct (m s) as [[]?]; auto. Qed.

Lemma wp_and {A} (m : ST S A) (P Q : A → S → Prop) s :
  wp m P s → wp m Q s → wp m (λ a s', P a s' ∧ Q a s') s.
Proof. unfold wp. by destruct (m s) as [[]?]. Qed.

(** Whatever is said of the outcome of what follows can be said of the whole. *)
Lemma bind_result {A B} (P : outcome B * S → Prop) (m : ST S A) (f : A → ST S B) s :
  wp m (λ a s', P (f a s')) s → P ((m ≫= f) s).
Proof. unfold wp, mbind, ST_bind. by destruct (m s) as [[]?]. Qed.

Lemma wp_run {A} (m : ST S A) Q s :
  wp m Q s ↔ ∃ a s', m s = (Ok a, s') ∧ Q a s'.
Proof.
  unfold wp. destruct (m s) as [[a|z|u|] s'] eqn:E; split; try done.
  - by exists a, s'.
  - by intros (a2 & s2 & [= <- <-] & ?).
  - by intros (? & ? & ? & ?).
  - by intros (? & ? & ? & ?).
  - by intros (? & ? & ? & ?).
Qed.

(** [fails m u s]: from [s] the computation [m] runs into the undefined behaviour [u]. *)
Definition fails {A} (m : ST S A) (u : ub) (s : S) : Prop := ∃ s', m s = (Undef u, s').

Lemma fails_bind {A B} (m : ST S A) (f : A → ST S B) u s :
  wp m (λ a s', fails (f a) u s') s → fails (m ≫= f) u s.
Proof. unfold wp, fails, mbind, ST_bind. by destruct (m s) as [[]?]. Qed.

Lemma fails_bind_l {A B} (m : ST S A) (f : A → ST S B) u s :
  fails m u s → fails (m ≫= f) u s.
Proof. intros [s' Hm]. exists s'. unfold mbind, ST_bind. by rewrite Hm. Qed.

(** The ways not to return: undefined behaviour, or a loop that did not end in the rounds
    it was granted. *)
Inductive failure : Type := Bad (u : ub) | Endless.

(** [wpf m Q U s]: from [s] the computation [m] returns with [Q], or it fails in a way that
    [U] allows; it does not end the process. *)
Definition wpf {A} (m : ST S A) (Q : A → S → Prop) (U : failure → Prop) (s : S) : Prop :=
  match m s with
  | (Ok a, s') => Q a s'
  | (Undef u, _) => U (Bad u)
  | (NoFuel, _) => U Endless
  | (Exited _, _) => False
  end.

Lemma wpf_wp {A} (m : ST S A) (Q : A → S → Prop) U s : wp m Q s → wpf m Q U s.
Proof. unfold wp, wpf. by destruct (m s) as [[]?]. Qed.

(** Where no failure is allowed the computation returns. *)
Lemma wpf_returns {A} (m : ST S A) (Q : A → S → Prop) U s :
  (∀ f, ¬ U f) → wpf m Q U s → wp m Q s.
Proof. intros HU. unfold wp, wpf. destruct (m s) as [[]?]; try done; by intros ?%HU. Qed.

Lemma wpf_bind {A B} (m : ST S A) (f : A → ST S B) Q U s :
  wpf m (λ a s', wpf (f a) Q U s') U s → wpf (m ≫= f) Q U s.
Proof. unfold wpf, mbind, ST_bind. by destruct (m s) as [[]?]. Qed.

Lemma wpf_bind_wp {A B} (m : ST S A) (f : A → ST S B) Q U s :
  wp m (λ a s', wpf (f a) Q U s') s → wpf (m ≫= f) Q U s.
Proof. intros H. by apply wpf_bind, wpf_wp. Qed.

Lemma wpf_mono {A} (m : ST S A) (P Q : A → S → Prop) (U V : failure → Prop) s :
  wpf m P U s → (∀ a s', P a s' → Q a s') → (∀ f, U f → V f) → wpf m Q V s.
Proof. unfold wpf. destruct (m s) as [[]?]; auto. Qed.

Lemma wpf_undef {A} u (Q : A → S → Prop) (U : failure → Prop) s :
  U (Bad u) → wpf (st_undef u) Q U s.
Proof. done. Qed.

Lemma wpf_fails {A} (m : ST S A) u (Q : A → S → Prop) (U : failure → Prop) s :
  fails m u s → U (Bad u) → wpf m Q U s.
Proof. intros [s' Hm]. unfold wpf. by rewrite Hm. Qed.

(** [failing f r]: the result [r] is the failure [f]. *)
Definition failing {A} (f : failure) (r : outcome A * S) : Prop :=
  match f with Bad u => ∃ s', r = (Undef u, s') | Endless => r.1 = NoFuel end.

(** Whatever is said of the outcome of what follows, and of failures, can be said of the
    whole. *)
Lemma bind_failing {A B} (P : outcome B * S → Prop) (m : ST S A) (k : A → ST S B) s :
  wpf m (λ a s', P (k a s')) (λ f, ∀ r, failing f r → P r) s → P ((m ≫= k) s).
Proof.
  unfold wpf, mbind, ST_bind. destruct (m s) as [[a|z|u|] s'] eqn:E; [done|done|intros HU; apply HU..].
  - by exists s'.
  - done.
Qed.

(** The cases of a computation that returns or fails. *)
Lemma wpf_run {A} (m : ST S A) (Q : A → S → Prop) (U : failure → Prop) s :
  wpf m Q U s →
  (∃ a s', m s = (Ok a, s') ∧ Q a s') ∨ (∃ u, fails m u s ∧ U (Bad u)) ∨
  (m s).1 = NoFuel ∧ U Endless.
Proof.
  unfold wpf, fails. destruct (m s) as [[a|z|u|] s'] eqn:E; [intros HQ|done|intros HU..].
  - left. by exists a, s'.
  - right. left. exists u. split; [by exists s'|done].
  - right. by right.
Qed.

(** [exits m z Q s]: from [s] the computation [m] ends the process with status [z], in a
    state that satisfies [Q]. *)
Definition exits {A} (m : ST S A) (z : Z) (Q : S → Prop) (s : S) : Prop :=
  ∃ s', m s = (Exited z, s') ∧ Q s'.

Lemma exits_exit {A} z (Q : S → Prop) s : Q s → exits (A := A) (st_exit z) z Q s.
Proof. intros. by exists s. Qed.

Lemma exits_bind {A B} (m : ST S A) (f : A → ST S B) z Q s :
  wp m (λ a s', exits (f a) z Q s') s → exits (m ≫= f) z Q s.
Proof. unfold wp, exits, mbind, ST_bind. by destruct (m s) as [[]?]. Qed.

Lemma exits_bind_l {A B} (m : ST S A) (f : A → ST S B) z Q s :
  exits m z Q s → exits (m ≫= f) z Q s.
Proof. intros (s' & Hm & HQ). exists s'. unfold mbind, ST_bind. by rewrite Hm. Qed.

Lemma exits_mono {A} (m : ST S A) z (P Q : S → Prop) s :
  exits m z P s → (∀ s', P s' → Q s') → exits m z Q s.
Proof. intros (s' & ? & ?) HPQ. exists s'. auto. Qed.

(** [runs m Q X U s]: from [s] the computation [m] returns with [Q], or ends the process with
    [X], or runs into undefined behaviour in a way that [U] allows; it does not run out of
    fuel. *)
Definition runs {A} (m : ST S A) (Q : A → S → Prop) (X : Z → S → Prop) (U : ub → S → Prop)
    (s : S) : Prop :=
  match m s with
  | (Ok a, s') => Q a s'
  | (Exited z, s') => X z s'
  | (Undef u, s') => U u s'
  | (NoFuel, _) => False
  end.

Definition no_ub : ub → S → Prop := λ _ _, False.

Lemma runs_wp {A} (m : ST S A) (Q : A → S → Prop) X U s : wp m Q s → runs m Q X U s.
Proof. unfold wp, runs. by destruct (m s) as [[]?]. Qed.

Lemma runs_exits {A} (m : ST S A) (Q : A → S → Prop) X U z s :
  exits m z (X z) s → runs m Q X U s.
Proof. intros (s' & Hm & HX). unfold runs. by rewrite Hm. Qed.

Lemma runs_undef {A} (m : ST S A) (Q : A → S → Prop) X U u s s' :
  m s = (Undef u, s') → U u s' → runs m Q X U s.
Proof. intros Hm HU. unfold runs. by rewrite Hm. Qed.

Lemma runs_bind {A B} (m : ST S A) (f : A → ST S B) Q X U s :
  runs m (λ a s', runs (f a) Q X U s') X U s → runs (m ≫= f) Q X U s.
Proof. unfold runs, mbind, ST_bind. by destruct (m s) as [[]?]. Qed.

Lemma runs_bind_wp {A B} (m : ST S A) (f : A → ST S B) Q X U s :
  wp m (λ a s', runs (f a) Q X U s') s → runs (m ≫= f) Q X U s.
Proof. intros H. by apply runs_bind, runs_wp. Qed.

Lemma runs_mono {A} (m : ST S A) (P Q : A → S → Prop) (X Y : Z → S → Prop) (U V : ub → S → Prop) s :
  runs m P X U s → (∀ a s', P a s' → Q a s') → (∀ z s', X z s' → Y z s') →
  (∀ u s', U u s' → V u s') → runs m Q Y V s.
Proof. unfold runs. destruct (m s) as [[]?]; auto. Qed.

End wp_rules.

(** Loops bounded by an explicit list of iterations. *)
Fixpoint st_iter {S A B} (f : B → A → ST S B) (acc : B) (l : list A) : ST S B :=
  match l with
  | [] => mret acc
  | x :: l' => acc' ← f acc x; st_iter f acc' l'
  end.

Lemma wp_iter {S A B} (f : B → A → ST S B) (I : list A → B → S → Prop) l :
  (∀ x done acc s, I done acc s → done ++ [x] `prefix_of` l →
     wp (f acc x) (I (done ++ [x])) s) →
  ∀ acc s, I [] acc s → wp (st_iter f acc l) (I l) s.
Proof.
  intros Hstep. cut (∀ rest done acc s, done ++ rest = l → I done acc s →
    wp (st_iter f acc rest) (I l) s).
  { intros H acc s ?. by apply (H l []). }
  induction rest as [|x rest IH]; intros done acc s <- HI; simpl.
  - apply wp_ret. by rewrite app_nil_r.
  - apply wp_bind. eapply wp_mono.
    + apply Hstep; [done|]. exists rest. by rewrite <-app_assoc.
    + intros acc' s' HI'. apply (IH (done ++ [x])); [|done]. by rewrite <-app_assoc.
Qed.

(** ** Sets of the elements of a list *)

Section elements.
Context `{Countable A}.
Implicit Types (xs ys : list A) (x : A).

Lemma elements_add xs ys x :
  ys ≡ₚ x :: xs → {[x]} ∪ list_to_set xs = (list_to_set ys : gset A).
Proof. intros Hp. by rewrite (list_to_set_perm_L _ _ Hp). Qed.

Lemma elements_drop xs ys x :
  ys ≡ₚ x :: xs → NoDup ys → list_to_set ys ∖ {[x]} = (list_to_set xs : gset A).
Proof.
  intros Hp Hn. rewrite (list_to_set_perm_L _ _ Hp). rewrite Hp in Hn. apply NoDup_cons in Hn as [Hx _].
  rewrite list_to_set_cons, difference_union_distr_l_L, difference_diag_L, (left_id_L ∅ (∪)).
  apply difference_disjoint_L. by rewrite disjoint_singleton_r, elem_of_list_to_set.
Qed.

Lemma elements_perm xs ys : ys ≡ₚ xs → list_to_set xs = (list_to_set ys : gset A).
Proof. intros Hp. by rewrite (list_to_set_perm_L _ _ Hp). Qed.

Lemma NoDup_add xs ys x : ys ≡ₚ x :: xs → x ∉ xs → NoDup xs → NoDup ys.
Proof. intros -> ? ?. by apply NoDup_cons. Qed.

Lemma NoDup_drop xs ys x : ys ≡ₚ x :: xs → NoDup ys → (x ∉ xs) ∧ NoDup xs.
Proof. intros -> Hn. by apply NoDup_cons. Qed.

End elements.
