(* ===== verification/CString.v ===== *)
(** * The C library functions on strings and numbers that the sources use

    C strings as memory regions and their NUL-terminated prefix; [strncmp],
    [strcmp], [strstr], [tolower]; [strtol] with saturation at the range of [long];
    the conversions of the [printf] family that occur in the sources
    ([%s], [%d], [%i], [%ld]); [snprintf] truncation.  Lemmas characterise each
    function for its clients: when comparisons return zero, what [strstr] finds, and
    that [strtol] reads back what [%ld] prints. *)

From S2P Require Import Prelude.
Local Open Scope Z_scope.

Definition NUL : byte := "000"%char.
Definition code (c : byte) : Z := Z.of_N (N_of_ascii c).

(** ** Regions of memory and the strings they hold *)

(** The bytes before the first NUL, or the whole region when it has none. *)
Fixpoint cprefix (m : bytes) : bytes :=
  match m with
  | [] => []
  | c :: m' => if decide (c = NUL) then [] else c :: cprefix m'
  end.

(** Reading a region as a C string: [None] when the read runs off its end. *)
Fixpoint cstr (m : bytes) : option bytes :=
  match m with
  | [] => None
  | c :: m' => if decide (c = NUL) then Some [] else cons c <$> cstr m'
  end.

(** ** Comparison and search *)

Fixpoint strncmp (a b : bytes) (n : nat) : Z :=
  match n with
  | O => 0
  | S n' =>
    let x := default NUL (head a) in
    let y := default NUL (head b) in
    if decide (x = y)
    then if decide (x = NUL) then 0 else strncmp (tail a) (tail b) n'
    else code x - code y
  end.

Definition strcmp (a b : bytes) : Z :=
  strncmp a b (S (Nat.max (length a) (length b))).

Fixpoint is_prefix (p s : bytes) : bool :=
  match p, s with
  | [], _ => true
  | _, [] => false
  | x :: p', y :: s' => bool_decide (x = y) && is_prefix p' s'
  end.

(** [strstr]: the offset of the first occurrence of [needle]. *)
Fixpoint strstr (hay needle : bytes) : option nat :=
  if is_prefix needle hay then Some O
  else match hay with
       | [] => None
       | _ :: hay' => S <$> strstr hay' needle
       end.

Definition tolower (c : byte) : byte :=
  if (65 <=? code c) && (code c <=? 90)
  then ascii_of_N (Z.to_N (code c + 32)) else c.

Definition toupper (c : byte) : byte :=
  if (97 <=? code c) && (code c <=? 122)
  then ascii_of_N (Z.to_N (code c - 32)) else c.

(** ** Decimal numbers *)

Definition digit (d : Z) : byte := ascii_of_N (Z.to_N (48 + d)).
Definition is_digit (c : byte) : bool := (48 <=? code c) && (code c <=? 57).
Definition is_space (c : byte) : bool :=
  (code c =? 32) || ((9 <=? code c) && (code c <=? 13)).

Fixpoint dec_go (fuel : nat) (n : Z) (acc : bytes) : bytes :=
  match fuel with
  | O => acc
  | S f =>
    let acc' := digit (n mod 10) :: acc in
    if n / 10 =? 0 then acc' else dec_go f (n / 10) acc'
  end.

(** The decimal text of a natural number and of an integer ([%d], [%ld]). *)
Definition dec_nat (n : Z) : bytes := dec_go (S (Z.to_nat (Z.log2 n))) n [].
Definition dec (z : Z) : bytes :=
  if z <? 0 then "-"%char :: dec_nat (- z) else dec_nat z.

Definition LONG_MAX : Z := 2 ^ 63 - 1.
Definition LONG_MIN : Z := - 2 ^ 63.

Fixpoint skip_space (s : bytes) : bytes :=
  match s with
  | c :: s' => if is_space c then skip_space s' else s
  | [] => []
  end.

Fixpoint span_digits (s : bytes) : bytes :=
  match s with
  | c :: s' => if is_digit c then c :: span_digits s' else []
  | [] => []
  end.

Definition digits_val (ds : bytes) (a : Z) : Z :=
  foldl (λ a c, a * 10 + (code c - 48)) a ds.

(** [strtol(s, NULL, 10)]: white space, an optional sign, digits; 0 when there are no
    digits, and saturation at [LONG_MIN] and [LONG_MAX]. *)
Definition strtol (s : bytes) : Z :=
  let s1 := skip_space (cprefix s) in
  let '(neg, s2) := match s1 with
                    | "-"%char :: r => (true, r)
                    | "+"%char :: r => (false, r)
                    | _ => (false, s1)
                    end in
  let v := digits_val (span_digits s2) 0 in
  Z.max LONG_MIN (Z.min LONG_MAX (if neg : bool then - v else v)).

(** ** The printf family *)

(** An argument of a variadic call: an integer, a pointer to a region of memory
    (what lies from the pointer to the end of its object), or another pointer. *)
Inductive carg : Type :=
  | AInt (z : Z)
  | AStr (region : bytes)
  | APtr.

(** The text a format produces.  [None]: the call is outside the contract of [printf]
    (a conversion without an argument or with one of another type, or a string
    without terminator), so that the text is indeterminate. *)
Fixpoint format (f : bytes) (args : list carg) : option bytes :=
  match f with
  | [] => Some []
  | c :: f1 =>
    if decide (c ≠ "%"%char) then cons c <$> format f1 args else
    match f1, args with
    | d :: f2, AStr m :: args' =>
        if decide (d = "s"%char) then s ← cstr m; app s <$> format f2 args' else None
    | d :: f2, AInt z :: args' =>
        if decide (d = "d"%char ∨ d = "i"%char)
        then app (dec (i32 z)) <$> format f2 args'
        else if decide (d = "l"%char) then
          match f2 with
          | e :: f3 => if decide (e = "d"%char) then app (dec z) <$> format f3 args' else None
          | [] => None
          end
        else None
    | _, _ => None
    end
  end.

(** How many arguments the conversions of a format fetch. *)
Fixpoint conversions (f : bytes) : nat :=
  match f with
  | [] => 0
  | c :: f1 =>
    if decide (c ≠ "%"%char) then conversions f1 else
    match f1 with
    | d :: f2 => if decide (d = "%"%char) then conversions f2 else S (conversions f2)
    | [] => 0
    end
  end.

(** To fetch an argument that was not passed is undefined. *)
Definition args_missing (f : bytes) (args : list carg) : bool :=
  (length args <? conversions f)%nat.
#[global] Arguments args_missing : simpl never.

(** [vsnprintf] into a buffer of [size] bytes keeps at most [size - 1] of them. *)
Definition vsnprintf (size : nat) (f : bytes) (args : list carg) : option bytes :=
  take (size - 1) <$> format f args.

(** The region a string literal or an [sds] occupies: its bytes and a NUL. *)
Definition region (s : bytes) : bytes := s ++ [NUL].

(** ** Lemmas *)

(** A property of every byte, checked on the 256 of them. *)
Ltac by_bytes c := destruct c as [[][][][][][][][]]; vm_compute; try done; try tauto.

Section strings.
Implicit Types (a b s p m : bytes) (c : byte).

Lemma cprefix_no_nul s : NUL ∉ cprefix s.
Proof.
  induction s as [|c s IH]; simpl; [apply not_elem_of_nil|].
  case_decide; [apply not_elem_of_nil|]. apply not_elem_of_cons. split; congruence.
Qed.

Lemma cprefix_id s : NUL ∉ s → cprefix s = s.
Proof.
  induction s as [|c s IH]; simpl; [done|].
  intros [? ?]%not_elem_of_cons. rewrite decide_False by congruence. by rewrite IH.
Qed.

Lemma cstr_app_nul s m : cstr (s ++ NUL :: m) = Some (cprefix s).
Proof.
  induction s as [|c s IH]; simpl; [done|].
  case_decide; [done|]. by rewrite IH.
Qed.

Lemma cstr_region s : cstr (region s) = Some (cprefix s).
Proof. apply cstr_app_nul. Qed.

(** A read stays inside its region exactly when the region holds a NUL. *)
Lemma cstr_None m : cstr m = None ↔ NUL ∉ m.
Proof.
  induction m as [|c m IH]; simpl.
  - split; [intros _; apply not_elem_of_nil|done].
  - rewrite not_elem_of_cons. case_decide as E.
    + subst. naive_solver.
    + rewrite fmap_None, IH. naive_solver.
Qed.

Lemma cstr_Some m s : cstr m = Some s → (NUL ∉ s) ∧ (∃ r, m = s ++ NUL :: r).
Proof.
  revert s. induction m as [|c m IH]; simpl; intros s H; [done|].
  case_decide as E.
  - simplify_eq. split; [apply not_elem_of_nil|by exists m].
  - apply fmap_Some in H as (s' & H & ->). destruct (IH _ H) as (? & r & ->).
    split; [apply not_elem_of_cons; split; congruence|by exists r].
Qed.

Lemma is_prefix_spec p s : is_prefix p s = true ↔ p `prefix_of` s.
Proof.
  revert s. induction p as [|x p IH]; intros s; simpl.
  - split; [intros _; apply prefix_nil|done].
  - destruct s as [|y s].
    + split; [done|]. by intros ?%prefix_nil_not.
    + rewrite andb_true_iff, bool_decide_eq_true, IH. split.
      * intros [-> ?]. by apply prefix_cons.
      * intros H. split; [by eapply prefix_cons_inv_1|by eapply prefix_cons_inv_2].
Qed.

Lemma code_inj c c' : code c = code c' → c = c'.
Proof.
  unfold code. intros H%N2Z.inj.
  by rewrite <-(ascii_N_embedding c), H, ascii_N_embedding.
Qed.

(** [strncmp(p, s, strlen(p)) == 0] tests for a prefix. *)
Lemma strncmp_prefix p s :
  NUL ∉ p → (strncmp p s (length p) = 0 ↔ p `prefix_of` s).
Proof.
  revert s. induction p as [|x p IH]; intros s; simpl.
  { intros _. split; [intros _; apply prefix_nil|done]. }
  intros [Hx Hp]%not_elem_of_cons. destruct s as [|y s]; simpl.
  - rewrite decide_False by congruence. split; [|by intros ?%prefix_nil_not].
    intros H. exfalso. apply Hx, code_inj. lia.
  - case_decide as E.
    + subst y. rewrite decide_False by congruence. rewrite IH by done.
      split; [apply prefix_cons|apply prefix_cons_inv_2].
    + split; [intros; exfalso; apply E, code_inj; lia|].
      intros ?%prefix_cons_inv_1. congruence.
Qed.

Lemma strncmp_zero a b n :
  (length a < n)%nat → (length b < n)%nat →
  (strncmp a b n = 0 ↔ cprefix a = cprefix b).
Proof.
  revert a b. induction n as [|n IH]; intros a b Ha Hb; [lia|].
  assert (∀ x y, x ≠ y → (code x - code y = 0 ↔ False)) as Hne.
  { intros x y Hxy. split; [|done]. intros. apply Hxy, code_inj. lia. }
  destruct a as [|x a], b as [|y b]; simpl in *; [done|..].
  - destruct (decide (NUL = y)), (decide (y = NUL)); rewrite ?Hne by done; naive_solver.
  - destruct (decide (x = NUL)); rewrite ?Hne by done; naive_solver.
  - destruct (decide (x = y)) as [->|].
    + destruct (decide (y = NUL)); [done|]. rewrite IH by lia. split; congruence.
    + rewrite Hne by done.
      destruct (decide (x = NUL)), (decide (y = NUL)); naive_solver.
Qed.

(** [strcmp] returns zero exactly on equal C strings. *)
Lemma strcmp_zero a b : strcmp a b = 0 ↔ cprefix a = cprefix b.
Proof. apply strncmp_zero; lia. Qed.

(** [strstr] for a one-character needle finds the first occurrence. *)
Lemma strstr_char_Some s c i :
  strstr s [c] = Some i →
  ∃ pre post, s = pre ++ c :: post ∧ length pre = i ∧ c ∉ pre.
Proof.
  revert i. induction s as [|x s IH]; intros i; simpl; [done|].
  rewrite andb_true_r. case_bool_decide as E.
  - intros [= <-]. subst. exists [], s. split_and!; [done..|apply not_elem_of_nil].
  - intros (j & Hj & ->)%fmap_Some. destruct (IH _ Hj) as (pre & post & -> & <- & ?).
    exists (x :: pre), post. split_and!; [done..|]. by apply not_elem_of_cons.
Qed.

Lemma strstr_char_None s c : strstr s [c] = None ↔ c ∉ s.
Proof.
  induction s as [|x s IH]; simpl.
  - split; [intros _; apply not_elem_of_nil|done].
  - rewrite not_elem_of_cons, andb_true_r. case_bool_decide as E.
    + naive_solver.
    + rewrite fmap_None, IH. naive_solver.
Qed.

Lemma tolower_idemp c : tolower (tolower c) = tolower c.
Proof. by_bytes c. Qed.

Lemma tolower_toupper c : tolower (toupper c) = tolower c.
Proof. by_bytes c. Qed.

Lemma tolower_nul c : tolower c = NUL ↔ c = NUL.
Proof. by_bytes c. Qed.

Lemma map_tolower_no_nul s : NUL ∉ s → NUL ∉ map tolower s.
Proof.
  intros Hs. rewrite list_elem_of_In, in_map_iff. intros (c & Hc & Hin).
  apply (proj1 (tolower_nul _)) in Hc as ->. by apply Hs, list_elem_of_In.
Qed.

End strings.

(** *** Formats *)

Section formats.
Implicit Types (f p m : bytes) (args : list carg).

Lemma format_text p f args :
  "%"%char ∉ p → format (p ++ f) args = app p <$> format f args.
Proof.
  induction p as [|c p IH]; simpl; intros H.
  - by rewrite option_fmap_id.
  - apply not_elem_of_cons in H as [Hc Hp]. rewrite decide_True by congruence.
    rewrite IH by done. by rewrite <-option_fmap_compose.
Qed.

Lemma format_s f m args s :
  cstr m = Some s →
  format ("%"%char :: "s"%char :: f) (AStr m :: args) = app s <$> format f args.
Proof. intros Hs. simpl. by rewrite Hs. Qed.

(** A format that has a text has its arguments. *)
Lemma format_supplied f args t : format f args = Some t → args_missing f args = false.
Proof.
  intros Ht. apply Nat.ltb_ge. revert args t Ht. remember (length f) as n eqn:Hn. revert f Hn.
  induction (lt_wf n) as [n _ IH]; intros f -> args t Ht.
  assert (∀ g args t, (length g < length f)%nat → format g args = Some t →
    (conversions g ≤ length args)%nat) as IH' by (intros; by eapply IH).
  destruct f as [|x f]; simpl in *; [lia|]. case_decide as Hp.
  { apply fmap_Some in Ht as (t' & Ht & _). by eapply IH'; [|exact Ht]; lia. }
  destruct f as [|d f2]; [done|]. simpl in *. destruct args as [|[z|m|] args]; try done; simpl in *.
  - case_decide as Hd.
    + apply fmap_Some in Ht as (t' & Ht & _). apply IH' in Ht; [|lia].
      rewrite decide_False by (by intros ->; destruct Hd). lia.
    + case_decide as Hl; [|done]. subst d. destruct f2 as [|e f3]; [done|]. case_decide as He; [|done]. subst e.
      apply fmap_Some in Ht as (t' & Ht & _). apply IH' in Ht; [|simpl; lia]. simpl. lia.
  - case_decide as Hd; [|done]. subst d. apply bind_Some in Ht as (s & _ & Ht).
    apply fmap_Some in Ht as (t' & Ht & _). apply IH' in Ht; [|lia]. simpl. lia.
Qed.

End formats.

Section numbers.
Implicit Types (n z : Z) (s : bytes).

Lemma digit_spec d : 0 ≤ d < 10 → is_digit (digit d) = true ∧ code (digit d) = 48 + d.
Proof.
  intros H. assert (d = 0 ∨ d = 1 ∨ d = 2 ∨ d = 3 ∨ d = 4 ∨ d = 5 ∨ d = 6 ∨ d = 7
    ∨ d = 8 ∨ d = 9) as Hd by lia.
  destruct_or!; subst; by vm_compute.
Qed.

Lemma digits_val_cons c s a :
  digits_val (c :: s) a = digits_val s (a * 10 + (code c - 48)).
Proof. done. Qed.

Lemma dec_go_val f n acc :
  0 ≤ n < 2 ^ Z.of_nat f → digits_val (dec_go f n acc) 0 = digits_val acc n.
Proof.
  revert n acc. induction f as [|f IH]; intros n acc Hn.
  { assert (n = 0) as -> by (simpl in Hn; lia). done. }
  rewrite Nat2Z.inj_succ, Z.pow_succ_r in Hn by lia. simpl.
  destruct (digit_spec (n mod 10)) as [_ Hd]; [apply Z.mod_pos_bound; lia|].
  pose proof (Z.div_mod n 10).
  destruct (Z.eqb_spec (n / 10) 0) as [E|E].
  - rewrite digits_val_cons, Hd. f_equal. lia.
  - rewrite IH.
    + rewrite digits_val_cons, Hd. f_equal. lia.
    + split; [apply Z.div_pos; lia|]. apply Z.div_lt_upper_bound; lia.
Qed.

Lemma dec_go_digits f n acc :
  0 ≤ n → Forall (λ c, is_digit c = true) acc →
  Forall (λ c, is_digit c = true) (dec_go f n acc).
Proof.
  revert n acc. induction f as [|f IH]; intros n acc Hn Hacc; simpl; [done|].
  assert (Forall (λ c, is_digit c = true) (digit (n mod 10) :: acc)).
  { constructor; [|done]. apply digit_spec, Z.mod_pos_bound. lia. }
  case_match; [done|]. apply IH; [apply Z.div_pos; lia|done].
Qed.

Lemma dec_go_length f n acc k :
  0 ≤ n < 10 ^ Z.of_nat k → (0 < k)%nat →
  (length (dec_go f n acc) ≤ k + length acc)%nat.
Proof.
  revert n acc k. induction f as [|f IH]; intros n acc k Hn Hk; simpl; [lia|].
  destruct (Z.eqb_spec (n / 10) 0) as [E|E]; simpl; [lia|].
  destruct k as [|[|k]]; [lia| |].
  - exfalso. apply E, Z.div_small. simpl in Hn. lia.
  - transitivity (S k + length (digit (n mod 10) :: acc))%nat; [|simpl; lia].
    apply IH; [|lia]. rewrite Nat2Z.inj_succ, Z.pow_succ_r in Hn by lia.
    split; [apply Z.div_pos; lia|]. apply Z.div_lt_upper_bound; lia.
Qed.

Lemma dec_nat_val n : 0 ≤ n → digits_val (dec_nat n) 0 = n.
Proof.
  intros Hn. unfold dec_nat. rewrite dec_go_val; [done|]. split; [done|].
  rewrite Nat2Z.inj_succ, Z2Nat.id by apply Z.log2_nonneg.
  destruct (decide (n = 0)) as [->|]; [done|]. apply Z.log2_spec. lia.
Qed.

Lemma dec_nat_digits n : 0 ≤ n → Forall (λ c, is_digit c = true) (dec_nat n).
Proof. intros. by apply dec_go_digits. Qed.

Lemma dec_nat_length n k :
  0 ≤ n < 10 ^ Z.of_nat k → (0 < k)%nat → (length (dec_nat n) ≤ k)%nat.
Proof. intros. unfold dec_nat. etrans; [by apply dec_go_length|]. simpl. lia. Qed.

Lemma dec_go_cons f n acc : f ≠ O → ∃ c s, dec_go f n acc = c :: s.
Proof.
  revert n acc. induction f as [|f IH]; intros n acc Hf; [done|]. simpl.
  case_match; [by eauto|]. destruct f as [|f]; [simpl; by eauto|]. apply IH. done.
Qed.

Lemma digit_not_special c :
  is_digit c = true → is_space c = false ∧ c ≠ "-"%char ∧ c ≠ "+"%char ∧ c ≠ NUL
  ∧ c ≠ " "%char ∧ c ≠ "/"%char ∧ c ≠ "."%char ∧ c ≠ "%"%char.
Proof. by_bytes c. Qed.

Lemma span_digits_all s : Forall (λ c, is_digit c = true) s → span_digits s = s.
Proof. induction 1 as [|c s Hc _ IH]; simpl; [done|]. by rewrite Hc, IH. Qed.

Lemma digits_no_nul s : Forall (λ c, is_digit c = true) s → NUL ∉ s.
Proof.
  intros H Hin. rewrite Forall_forall in H. specialize (H _ Hin).
  by apply digit_not_special in H as (_ & _ & _ & ? & _).
Qed.

Lemma dec_no_nul z : NUL ∉ dec z.
Proof.
  unfold dec. case_match eqn:E.
  - apply not_elem_of_cons. split; [done|]. apply digits_no_nul, dec_nat_digits. lia.
  - apply digits_no_nul, dec_nat_digits. lia.
Qed.

(** [strtol] reads back what [%ld] prints. *)
Lemma strtol_dec z : LONG_MIN ≤ z ≤ LONG_MAX → strtol (dec z) = z.
Proof.
  intros Hz. unfold strtol. rewrite cprefix_id by apply dec_no_nul.
  unfold dec. destruct (Z.ltb_spec z 0) as [Hneg|Hpos].
  - simpl. rewrite span_digits_all by (apply dec_nat_digits; lia).
    rewrite dec_nat_val by lia. lia.
  - pose proof (dec_nat_digits z ltac:(lia)) as Hd.
    pose proof (dec_nat_val z ltac:(lia)) as Hv.
    destruct (dec_go_cons (S (Z.to_nat (Z.log2 z))) z [] ltac:(done)) as (c & s & E).
    fold (dec_nat z) in E. rewrite E in Hd, Hv |- *.
    assert (is_digit c = true) as Hc by (by inversion Hd).
    pose proof (digit_not_special c Hc) as (Hsp & Hm & Hp & _).
    simpl. rewrite Hsp.
    assert (span_digits (c :: s) = c :: s) as Hs by (by apply span_digits_all).
    revert Hm Hp Hs Hv. clear -Hz. intros Hm Hp Hs Hv.
    destruct c as [[][][][][][][][]]; cbv beta iota zeta;
      first [ by destruct Hm | by destruct Hp | rewrite Hs, Hv; lia ].
Qed.

End numbers.
