(* ===== verification/Machine.v ===== *)
(** * The process the server code runs in

    What every component shares: the calls that leave the program (system calls, libc
    calls with effects and libev calls), answered by an arbitrary environment and
    recorded in a trace; the [sds] string library, a git submodule and therefore a
    parameter with its documented behaviour as laws; and the interface of the logger,
    which [Logger.v] implements.  The state of a process is the [sds] heap, the state
    of the logger and the trace so far; a component's static variables are passed to
    and returned by its functions. *)

From S2P Require Import Prelude CString.
Local Open Scope Z_scope.

Definition EXIT_SUCCESS : Z := 0.
Definition EXIT_FAILURE : Z := 1.

(** ** Calls that leave the program *)

Inductive ext_call : Type :=
  (* files *)
  | X_access (path : bytes)
  | X_open (path : bytes)
  | X_fstat (fd : Z)
  | X_read (fd n : Z)
  | X_close (fd : Z)
  | X_unlink (path : bytes)
  | X_stat (path : bytes)
  | X_mkdir (path : bytes)
  | X_chmod (path : bytes)
  | X_chdir (path : bytes)
  | X_dup (fd : Z)
  (* sockets *)
  | X_socket
  | X_unix_socket
  | X_setsockopt (fd : Z)
  | X_getaddrinfo (service : bytes)
  | X_freeaddrinfo
  | X_bind (fd : Z)
  | X_bind_unix (fd : Z) (sun_path : bytes)
  | X_listen (fd backlog : Z)
  | X_accept (fd : Z)
  | X_connect_unix (fd : Z) (sun_path : bytes)
  | X_set_nonblock (fd : Z)
  | X_recv (fd n : Z)
  | X_send (fd : Z) (data : bytes)
  | X_sendmsg (fd : Z) (control : bytes)
  | X_recvmsg (fd : Z)
  | X_shutdown (fd : Z)
  | X_getpeername (fd : Z)
  | X_inet_ntop
  (* processes *)
  | X_fork
  | X_getpid
  | X_kill (pid sig : Z)
  | X_waitpid (pid : Z)
  | X_umask
  | X_getrlimit
  | X_setsid
  | X_sigaction
  | X_sleep
  (* libc *)
  | X_malloc
  | X_free (p : Z)
  | X_random
  | X_gettimeofday
  | X_srand (seed : Z)
  | X_regcomp
  | X_regfree
  | X_strerror (e : Z)
  | X_printf (text : bytes)
  (* libini *)
  | X_ini_close
  (* libev *)
  | X_ev_default_loop
  | X_ev_suspend
  | X_ev_loop_destroy
  | X_ev_signal_start (sig : Z)
  | X_ev_io_start (fd : Z)
  | X_ev_io_stop (fd : Z)
  | X_ev_timer_start (id : Z)
  | X_ev_timer_stop (id : Z)
  | X_ev_timer_again (id : Z)
  | X_ev_run
  | X_ev_break.

#[global] Instance ext_call_eq_dec : EqDecision ext_call.
Proof. solve_decision. Defined.

(** What a call hands back: its result, the value of [errno] after it, the number it
    stores through a pointer argument ([st_size] of [fstat], [rlim_max] of
    [getrlimit]), and the bytes it writes to the caller's buffer (the data of [read]
    and [recv], the ancillary data of [recvmsg], the text of [strerror]). *)
Record ext_ret : Type := ExtRet { x_ret : Z; x_errno : Z; x_out : Z; x_data : bytes }.

#[global] Instance ext_ret_eq_dec : EqDecision ext_ret.
Proof. solve_decision. Defined.

Definition event : Type := ext_call * ext_ret.

(** The environment answers a call knowing everything that happened before. *)
Class Env : Type := env : list event → ext_call → ext_ret.

(** The descriptors that the calls of a trace opened and closed. *)
Definition fds_opened (tr : list event) : list Z :=
  omap (λ e : event, match e.1 with
        | X_open _ | X_socket | X_unix_socket | X_accept _ | X_dup _ =>
            if x_ret e.2 =? -1 then None else Some (x_ret e.2)
        | _ => None
        end) tr.
Definition fds_closed (tr : list event) : list Z :=
  omap (λ e : event, match e.1 with X_close fd => Some fd | _ => None end) tr.

(** How often [fork] was called. *)
Definition fork_calls (tr : list event) : nat :=
  length (omap (λ e : event, match e.1 with X_fork => Some () | _ => None end) tr).

Lemma fork_calls_app tr tr' : fork_calls (tr ++ tr') = (fork_calls tr + fork_calls tr')%nat.
Proof. unfold fork_calls. by rewrite omap_app, length_app. Qed.

Lemma fork_calls_prefix n tr tr' :
  tr `prefix_of` tr' → (n ≤ fork_calls tr)%nat → (n ≤ fork_calls tr')%nat.
Proof. intros [new ->]. rewrite fork_calls_app. lia. Qed.

(** ** The sds library *)

(** An [sds] is the address of its bytes; addresses are positive, [NULL] is [None]. *)
Abbreviation sds := positive.

(** What lies behind a live [sds]: the string, and the allocated space after it. *)
Record sds_obj : Type := SdsObj { sds_buf : bytes; sds_spare : bytes }.

(** The functions of the library that the sources call, on an abstract heap whose
    live strings are [sds_view].  [sds_poke] and [sds_store] are writes of the program
    itself, behind the string (the [read] into [s + sdslen(s)]) and over its bytes. *)
Class SdsLib : Type := {
  sds_heap : Type;
  sds_view : sds_heap → gmap sds sds_obj;
  sdsempty : sds_heap → sds * sds_heap;
  sdsnewlen : bytes → sds_heap → sds * sds_heap;
  sdsdup : sds → sds_heap → sds * sds_heap;
  sdscat : sds → bytes → sds_heap → sds * sds_heap;
  sdscatlen : sds → bytes → sds_heap → sds * sds_heap;
  sdscatprintf : sds → bytes → sds_heap → sds * sds_heap;
  sdstolower : sds → sds_heap → sds_heap;
  sdsMakeRoomFor : sds → nat → sds_heap → sds * sds_heap;
  sdsIncrLen : sds → nat → sds_heap → sds_heap;
  sdsfree : sds → sds_heap → sds_heap;
  sds_poke : sds → bytes → sds_heap → sds_heap;
  sds_store : sds → bytes → sds_heap → sds_heap;
}.

(** An allocation adds one string at an address that was not in use. *)
Definition allocates `{SdsLib} (r : sds * sds_heap) (h : sds_heap) (b : bytes) : Prop :=
  sds_view h !! r.1 = None ∧
  ∃ sp, sds_view r.2 = <[r.1 := SdsObj b sp]> (sds_view h).

(** An append leaves the string at its address or moves it to one that was not in use;
    then the old address is no longer valid. *)
Definition appends `{SdsLib} (op : sds → bytes → sds_heap → sds * sds_heap) : Prop :=
  ∀ h l x o, sds_view h !! l = Some o →
    let r := op l x h in
    (r.1 = l ∨ sds_view h !! r.1 = None) ∧
    ∃ sp, sds_view r.2 = <[r.1 := SdsObj (sds_buf o ++ x) sp]> (delete l (sds_view h)).

(** The documented behaviour of the library. *)
Class SdsSpec (SL : SdsLib) : Prop := {
  sdsempty_law h : allocates (sdsempty h) h [];
  sdsnewlen_law b h : allocates (sdsnewlen b h) h b;
  sdsdup_law l h o : sds_view h !! l = Some o → allocates (sdsdup l h) h (sds_buf o);
  sdscat_law : appends sdscat;
  sdscatlen_law : appends sdscatlen;
  sdscatprintf_law : appends sdscatprintf;
  sdstolower_law l h o : sds_view h !! l = Some o →
    sds_view (sdstolower l h) =
      <[l := SdsObj (map tolower (sds_buf o)) (sds_spare o)]> (sds_view h);
  sdsMakeRoomFor_law l n h o : sds_view h !! l = Some o →
    let r := sdsMakeRoomFor l n h in
    (r.1 = l ∨ sds_view h !! r.1 = None) ∧
    ∃ sp, sds_view r.2 = <[r.1 := SdsObj (sds_buf o) sp]> (delete l (sds_view h))
          ∧ (n ≤ length sp)%nat;
  sdsIncrLen_law l n h o : sds_view h !! l = Some o → (n ≤ length (sds_spare o))%nat →
    sds_view (sdsIncrLen l n h) =
      <[l := SdsObj (sds_buf o ++ take n (sds_spare o)) (drop n (sds_spare o))]>
        (sds_view h);
  sdsfree_law l h : is_Some (sds_view h !! l) →
    sds_view (sdsfree l h) = delete l (sds_view h);
  sds_poke_law l d h o : sds_view h !! l = Some o →
    (length d ≤ length (sds_spare o))%nat →
    sds_view (sds_poke l d h) =
      <[l := SdsObj (sds_buf o) (d ++ drop (length d) (sds_spare o))]> (sds_view h);
  sds_store_law l b h o : sds_view h !! l = Some o → length b = length (sds_buf o) →
    sds_view (sds_store l b h) = <[l := SdsObj b (sds_spare o)]> (sds_view h);
}.

(** ** The interface of the logger *)

Inductive tLoggerType : Type := eERROR | eWARNING | eINFO | eDEBUG.

Definition level_num (t : tLoggerType) : Z :=
  match t with eERROR => 0 | eWARNING => 1 | eINFO => 2 | eDEBUG => 3 end.

(** The entry points of the logger, on a state of its own. *)
Class LoggerAPI : Type := {
  log_state : Type;
  api_formats : tLoggerType → log_state → bool;  (** whether a message is let through and formatted *)
  api_log_msg : tLoggerType → bytes → list carg → log_state → Z * log_state;
  api_logger_flush : log_state → Z * log_state;
  api_logger_init : bytes → Z → log_state → Z * log_state;
  api_logger_destroy : log_state → Z * log_state;
  api_logger_fork : log_state → log_state;  (** what a forked child inherits *)
}.

(** What a client of the logger relies on.  A stopped logger stays stopped while it is
    only asked to log, formats nothing, and starts when it is told to, on every file that can
    be opened; on another it stays stopped. *)
Class LoggerSpec (LA : LoggerAPI) : Type := {
  log_stopped : log_state → Prop;
  log_can_open : bytes → bool;
  stopped_formats t l : log_stopped l → api_formats t l = false;
  stopped_log_msg t f args l : log_stopped l → log_stopped (api_log_msg t f args l).2;
  stopped_init path lvl l : log_stopped l →
    (api_logger_init path lvl l).1 = if log_can_open path then EXIT_SUCCESS else EXIT_FAILURE;
  stopped_init_failed path lvl l : log_stopped l → log_can_open path = false →
    log_stopped (api_logger_init path lvl l).2;
}.

(** ** Processes *)

Record machine `{SdsLib, LoggerAPI} : Type := Machine {
  m_sds : sds_heap;
  m_log : log_state;
  m_trace : list event;
}.

Abbreviation M := (ST machine).

Section operations.
Context `{SL : SdsLib, LA : LoggerAPI, E : Env}.

Definition heap_of (s : machine) : gmap sds sds_obj := sds_view (m_sds s).

Definition upd_sds {A} (f : sds_heap → A * sds_heap) : M A := λ s,
  let '(a, h) := f (m_sds s) in (Ok a, Machine _ _ h (m_log s) (m_trace s)).

Definition upd_log {A} (f : log_state → A * log_state) : M A := λ s,
  let '(a, l) := f (m_log s) in (Ok a, Machine _ _ (m_sds s) l (m_trace s)).

(** Leaving the program: the answer of the environment, recorded. *)
Definition ext (c : ext_call) : M ext_ret := λ s,
  let r := env (m_trace s) c in
  (Ok r, Machine _ _ (m_sds s) (m_log s) (m_trace s ++ [(c, r)])).

(** The object behind an [sds]; to use a released one is undefined. *)
Definition deref (l : sds) : M sds_obj := λ s,
  match heap_of s !! l with
  | Some o => (Ok o, s)
  | None => (Undef UseAfterFree, s)
  end.

(** A nullable pointer that the code dereferences. *)
Definition non_null {A} (p : option A) : M A :=
  match p with Some a => mret a | None => st_undef NullDeref end.

Definition sds_empty : M sds := upd_sds sdsempty.
Definition sds_new (b : bytes) : M sds := upd_sds (sdsnewlen b).
Definition sds_dup (l : sds) : M sds := _ ← deref l; upd_sds (sdsdup l).
Definition sds_cat (l : sds) (t : bytes) : M sds := _ ← deref l; upd_sds (sdscat l t).
Definition sds_catlen (l : sds) (t : bytes) : M sds :=
  _ ← deref l; upd_sds (sdscatlen l t).

(** The formatted text is C's; a format outside its contract is undefined here. *)
Definition sds_catprintf (l : sds) (f : string) (args : list carg) : M sds :=
  _ ← deref l;
  match format (lit f) args with
  | Some t => upd_sds (sdscatprintf l t)
  | None => st_undef Unspecified
  end.

Definition sds_lower (l : sds) : M unit :=
  _ ← deref l; upd_sds (λ h, (tt, sdstolower l h)).
Definition sds_len (l : sds) : M Z := o ← deref l; mret (Z.of_nat (length (sds_buf o))).
Definition sds_room (l : sds) (n : nat) : M sds :=
  _ ← deref l; upd_sds (sdsMakeRoomFor l n).

(** [sdsIncrLen] asserts that the allocated space suffices. *)
Definition sds_incr (l : sds) (n : nat) : M unit :=
  o ← deref l;
  if decide (n ≤ length (sds_spare o))%nat
  then upd_sds (λ h, (tt, sdsIncrLen l n h)) else st_undef OutOfBounds.
Definition sds_write_spare (l : sds) (d : bytes) : M unit :=
  o ← deref l;
  if decide (length d ≤ length (sds_spare o))%nat
  then upd_sds (λ h, (tt, sds_poke l d h)) else st_undef OutOfBounds.
Definition sds_overwrite (l : sds) (b : bytes) : M unit :=
  o ← deref l;
  if decide (length b = length (sds_buf o))
  then upd_sds (λ h, (tt, sds_store l b h)) else st_undef OutOfBounds.
Definition sds_free (l : sds) : M unit :=
  _ ← deref l; upd_sds (λ h, (tt, sdsfree l h)).

(** The [log_error], [log_warning], [log_info] and [log_debug] macros; the sources
    ignore the result.  A message that is formatted with an argument missing is undefined. *)
Definition log_msg (t : tLoggerType) (f : string) (args : list carg) : M Z := λ s,
  if api_formats t (m_log s) && args_missing (lit f) args then (Undef Unspecified, s)
  else upd_log (api_log_msg t (lit f) args) s.
Definition log_error := log_msg eERROR.
Definition log_warning := log_msg eWARNING.
Definition log_info := log_msg eINFO.
Definition log_debug := log_msg eDEBUG.
Definition logger_flush : M Z := upd_log api_logger_flush.
Definition logger_init (path : bytes) (lvl : Z) : M Z := upd_log (api_logger_init path lvl).
Definition logger_destroy : M Z := upd_log api_logger_destroy.
Definition logger_in_child : M unit := upd_log (λ l, (tt, api_logger_fork l)).

(** A [%s] argument that points to an [sds]; to pass on the pointer is not yet to read
    it, and behind a released one there is nothing to read. *)
Definition sds_arg (l : sds) : M carg := λ s,
  match heap_of s !! l with
  | Some o => (Ok (AStr (region (sds_buf o))), s)
  | None => (Ok (AStr []), s)
  end.

End operations.

(** ** Properties of the logger's state

    [keeps P m]: the computation [m] preserves the property [P] of the logger's state. *)
Definition keeps `{SdsLib, LoggerAPI} {A} (P : log_state → Prop) (m : M A) : Prop :=
  ∀ s, P (m_log s) → P (m_log (m s).2).

Section keeps.
Context `{SL : SdsLib, LA : LoggerAPI, E : Env} (P : log_state → Prop).

Lemma keeps_ret {A} (a : A) : keeps P (mret a : M A).
Proof. by intros s. Qed.
Lemma keeps_undef {A} u : keeps P (st_undef u : M A).
Proof. by intros s. Qed.
Lemma keeps_exit {A} z : keeps P (st_exit z : M A).
Proof. by intros s. Qed.
Lemma keeps_nofuel {A} : keeps P (st_nofuel : M A).
Proof. by intros s. Qed.
Lemma keeps_ext c : keeps P (ext c).
Proof. by intros s. Qed.
Lemma keeps_deref l : keeps P (deref l).
Proof. intros s. unfold deref. by case_match. Qed.
Lemma keeps_sds_arg l : keeps P (sds_arg l).
Proof. intros s. unfold sds_arg. by case_match. Qed.
Lemma keeps_upd_sds {A} (f : sds_heap → A * sds_heap) : keeps P (upd_sds f).
Proof. intros s. unfold upd_sds. by destruct (f _). Qed.

Lemma keeps_bind {A B} (m : M A) (k : A → M B) :
  keeps P m → (∀ a, keeps P (k a)) → keeps P (m ≫= k).
Proof.
  intros Hm Hk s Hs. unfold mbind, ST_bind. specialize (Hm s Hs).
  destruct (m s) as [[a| | |] s']; [by apply Hk|done..].
Qed.

Lemma keeps_log t f args :
  (∀ l, P l → P (api_log_msg t (lit f) args l).2) → keeps P (log_msg t f args).
Proof.
  intros HP s Hs. unfold log_msg, upd_log. destruct (_ && _); [done|].
  specialize (HP _ Hs). by destruct (api_log_msg _ _ _ _).
Qed.

Lemma wp_keeps {A} (m : M A) (Q : A → machine → Prop) s :
  keeps P m → P (m_log s) → wp m Q s → wp m (λ a s', Q a s' ∧ P (m_log s')) s.
Proof.
  intros Hm Hs. unfold wp. specialize (Hm s Hs). by destruct (m s) as [[a| | |] s'].
Qed.

End keeps.

#[export] Hint Resolve keeps_ret keeps_undef keeps_exit keeps_nofuel keeps_ext keeps_deref
  keeps_sds_arg keeps_upd_sds keeps_log : cew.

(** Goes through a computation and leaves what is about its own loops. *)
Ltac keeps_tac :=
  repeat (cbv beta; first
    [ progress (unfold sds_empty, sds_new, sds_dup, sds_cat, sds_catlen, sds_catprintf, sds_lower,
        sds_overwrite, sds_free, log_error, log_warning, log_info, log_debug)
    | apply keeps_bind; [|intros ?]
    | solve [auto with cew]
    | progress case_match ]).

(** ** Ownership of strings

    [heap_is ps F m]: the heap [m] consists of the strings [ps], at pairwise distinct
    addresses, and of the rest [F]. *)
Fixpoint heap_is (ps : list (sds * sds_obj)) (F m : gmap sds sds_obj) : Prop :=
  match ps with
  | [] => m = F
  | (l, o) :: ps' => m !! l = Some o ∧ heap_is ps' F (delete l m)
  end.

Lemma heap_is_swap x y ps F m : heap_is (x :: y :: ps) F m → heap_is (y :: x :: ps) F m.
Proof.
  destruct x as [l1 o1], y as [l2 o2]; simpl. intros (H1 & H2 & H).
  assert (l1 ≠ l2) by (intros ->; by rewrite lookup_delete_eq in H2).
  rewrite lookup_delete_ne in H2 by done.
  rewrite lookup_delete_ne by done. by rewrite delete_delete.
Qed.

(** The order in which the strings are listed does not matter. *)
#[global] Arguments heap_is : simpl never.

#[global] Instance heap_is_proper : Proper ((≡ₚ) ==> (=) ==> (=) ==> iff) heap_is.
Proof.
  assert (∀ ps ps', ps ≡ₚ ps' → ∀ F m, heap_is ps F m → heap_is ps' F m) as Hp.
  { induction 1 as [|[l o] ps ps' _ IH|x y ps|ps ps' ps'' _ IH1 _ IH2]; intros F m.
    - done.
    - intros [? ?]. split; auto.
    - apply heap_is_swap.
    - auto. }
  intros ps ps' Hps F ? <- m ? <-. split; apply Hp; [done|by symmetry].
Qed.

Lemma heap_is_perm ps ps' F m : heap_is ps F m → ps ≡ₚ ps' → heap_is ps' F m.
Proof. by intros H <-. Qed.

(** Closes a goal about the heap from the hypothesis about it, in another order. *)
Ltac heap_done :=
  match goal with
  | H : heap_is _ ?F ?m |- heap_is _ ?F ?m =>
      apply (heap_is_perm _ _ _ _ H); solve_Permutation
  end.

Lemma heap_is_alloc ps F m l o :
  heap_is ps F m → m !! l = None → heap_is ((l, o) :: ps) F (<[l:=o]> m).
Proof. intros. split; [apply lookup_insert_eq|]. by rewrite delete_insert_id. Qed.

Lemma heap_is_move ps F m l o l' o' :
  heap_is ((l, o) :: ps) F m → l' = l ∨ m !! l' = None →
  heap_is ((l', o') :: ps) F (<[l':=o']> (delete l m)).
Proof.
  intros [Hl H] Hl'. apply heap_is_alloc; [done|].
  destruct Hl' as [->|Hl']; [apply lookup_delete_eq|].
  apply lookup_delete_None. by right.
Qed.

Lemma heap_is_write ps F m l o o' :
  heap_is ((l, o) :: ps) F m → heap_is ((l, o') :: ps) F (<[l:=o']> m).
Proof.
  intros [Hl H]. rewrite <-insert_delete_eq. apply heap_is_alloc; [done|].
  apply lookup_delete_eq.
Qed.

Lemma heap_is_lookup_ne ps F m l :
  heap_is ps F m → l ∉ ps.*1 → m !! l = F !! l.
Proof.
  revert m. induction ps as [|[l' o] ps IH]; intros m; [by intros ->|].
  intros [_ H] [Hl Hps]%not_elem_of_cons. rewrite <-(IH _ H Hps).
  by rewrite lookup_delete_ne by (simpl in Hl; congruence).
Qed.

Lemma heap_is_head ps F m l o :
  heap_is ((l, o) :: ps) F m → (l ∉ ps.*1) ∧ F !! l = None.
Proof.
  intros [_ H]. assert (l ∉ ps.*1) as Hl.
  { intros ([l' o'] & -> & (ps1 & ps2 & ->)%list_elem_of_split)%list_elem_of_fmap.
    rewrite <-Permutation_middle in H. destruct H as [H _].
    by rewrite lookup_delete_eq in H. }
  split; [done|]. rewrite <-(heap_is_lookup_ne _ _ _ _ H Hl). apply lookup_delete_eq.
Qed.

Lemma pick_here (l : sds) (o : sds_obj) ps : (l, o) :: ps ≡ₚ (l, o) :: ps.
Proof. done. Qed.

Lemma pick_skip (l : sds) (o : sds_obj) x ps ps' :
  ps ≡ₚ (l, o) :: ps' → x :: ps ≡ₚ (l, o) :: x :: ps'.
Proof. intros ->. apply Permutation_swap. Qed.

(** Finds the string at [l] among the owned ones. *)
Ltac pick := first [ apply pick_here | apply pick_skip; pick ].

Lemma pick_cons (l : sds) (o : sds_obj) ps ps1 ps2 :
  ps ≡ₚ (l, o) :: ps1 → ps1 ≡ₚ ps2 → ps ≡ₚ (l, o) :: ps2.
Proof. by intros -> ->. Qed.

(** Brings the strings a lemma asks for to the front, in its order. *)
Ltac picks := first [ reflexivity | eapply pick_cons; [pick|picks] ].
Ltac heap_picks :=
  match goal with
  | H : heap_is _ _ ?m |- heap_is _ _ ?m => eapply heap_is_perm; [exact H|picks]
  end.

Section rules.
Context `{SL : SdsLib, SS : !SdsSpec SL, LA : LoggerAPI, E : Env}.
Implicit Types (s : machine) (l : sds) (o : sds_obj) (ps : list (sds * sds_obj)).

Lemma wp_ext c (Q : ext_ret → machine → Prop) s :
  (∀ r s', r = env (m_trace s) c → heap_of s' = heap_of s → m_log s' = m_log s →
     m_trace s' = m_trace s ++ [(c, r)] → Q r s') →
  wp (ext c) Q s.
Proof. intros H. unfold wp, ext. by apply H. Qed.

(** A call that passes an argument for each conversion of its format. *)
Lemma wp_log t f args (Q : Z → machine → Prop) s :
  args_missing (lit f) args = false →
  (∀ z s', heap_of s' = heap_of s → m_trace s' = m_trace s → Q z s') →
  wp (log_msg t f args) Q s.
Proof.
  intros Hsup H. unfold wp, log_msg, upd_log. rewrite Hsup, andb_false_r.
  destruct (api_log_msg t (lit f) args (m_log s)). by apply H.
Qed.

(** A call with a missing argument, by what the logger does with the message. *)
Lemma wp_log_ignored t f args (Q : Z → machine → Prop) s :
  api_formats t (m_log s) = false →
  (∀ z s', heap_of s' = heap_of s → m_trace s' = m_trace s → Q z s') →
  wp (log_msg t f args) Q s.
Proof.
  intros Hf H. unfold wp, log_msg, upd_log. rewrite Hf.
  destruct (api_log_msg t (lit f) args (m_log s)). by apply H.
Qed.

Lemma log_undefined t f args s :
  api_formats t (m_log s) = true → args_missing (lit f) args = true →
  fails (log_msg t f args) Unspecified s.
Proof. intros Hf Ha. exists s. unfold log_msg. by rewrite Hf, Ha. Qed.

Lemma wp_upd_log {A} (f : log_state → A * log_state) (Q : A → machine → Prop) s :
  (∀ z s', heap_of s' = heap_of s → m_trace s' = m_trace s → Q z s') → wp (upd_log f) Q s.
Proof. intros H. unfold wp, upd_log. destruct (f (m_log s)). by apply H. Qed.

Lemma wp_deref l o ps ps' F (Q : sds_obj → machine → Prop) s :
  heap_is ps F (heap_of s) → ps ≡ₚ (l, o) :: ps' → Q o s → wp (deref l) Q s.
Proof. intros H Hp ?. rewrite Hp in H. unfold wp, deref. by rewrite (proj1 H). Qed.

Lemma wp_upd_sds {A} (f : sds_heap → A * sds_heap) Q s :
  (∀ s', heap_of s' = sds_view (f (m_sds s)).2 → m_log s' = m_log s →
     m_trace s' = m_trace s → Q (f (m_sds s)).1 s') →
  wp (upd_sds f) Q s.
Proof. intros H. unfold wp, upd_sds. destruct (f (m_sds s)) eqn:E1. by apply H. Qed.

Lemma wp_allocates (f : sds_heap → sds * sds_heap) b ps F (Q : sds → machine → Prop) s :
  (∀ h, allocates (f h) h b) →
  heap_is ps F (heap_of s) →
  (∀ l sp s', heap_is ((l, SdsObj b sp) :: ps) F (heap_of s') → m_log s' = m_log s →
     m_trace s' = m_trace s → Q l s') →
  wp (upd_sds f) Q s.
Proof.
  intros Hf Hh HQ. apply wp_upd_sds. intros s' Hs' ??.
  destruct (Hf (m_sds s)) as [Hn [sp Hv]]. eapply HQ; [|done..].
  rewrite Hs', Hv. by apply heap_is_alloc.
Qed.

Lemma wp_appends op l x o ps ps' F (Q : sds → machine → Prop) s :
  appends op → heap_is ps F (heap_of s) → ps ≡ₚ (l, o) :: ps' →
  (∀ l' sp s', heap_is ((l', SdsObj (sds_buf o ++ x) sp) :: ps') F (heap_of s') →
     m_log s' = m_log s → m_trace s' = m_trace s → Q l' s') →
  wp (_ ← deref l; upd_sds (op l x)) Q s.
Proof.
  intros Hop Hh Hp HQ. apply wp_bind. eapply wp_deref; [done..|].
  apply wp_upd_sds. intros s' Hs' ??. rewrite Hp in Hh.
  destruct (Hop (m_sds s) l x o (proj1 Hh)) as [Hl [sp Hv]].
  eapply HQ; [|done..]. rewrite Hs', Hv. by eapply heap_is_move.
Qed.

Lemma wp_sds_empty ps F (Q : sds → machine → Prop) s :
  heap_is ps F (heap_of s) →
  (∀ l sp s', heap_is ((l, SdsObj [] sp) :: ps) F (heap_of s') → m_log s' = m_log s →
     m_trace s' = m_trace s → Q l s') →
  wp sds_empty Q s.
Proof. apply wp_allocates, sdsempty_law. Qed.

Lemma wp_sds_new b ps F (Q : sds → machine → Prop) s :
  heap_is ps F (heap_of s) →
  (∀ l sp s', heap_is ((l, SdsObj b sp) :: ps) F (heap_of s') → m_log s' = m_log s →
     m_trace s' = m_trace s → Q l s') →
  wp (sds_new b) Q s.
Proof. apply wp_allocates, sdsnewlen_law. Qed.

Lemma wp_sds_dup l o ps ps' F (Q : sds → machine → Prop) s :
  heap_is ps F (heap_of s) → ps ≡ₚ (l, o) :: ps' →
  (∀ l' sp s', heap_is ((l', SdsObj (sds_buf o) sp) :: ps) F (heap_of s') →
     m_log s' = m_log s → m_trace s' = m_trace s → Q l' s') →
  wp (sds_dup l) Q s.
Proof.
  intros Hh Hp HQ. apply wp_bind. eapply wp_deref; [done..|].
  apply wp_upd_sds. intros s' Hs' ??.
  pose proof Hh as Hh'. rewrite Hp in Hh'.
  destruct (sdsdup_law l (m_sds s) o (proj1 Hh')) as [Hn [sp Hv]].
  eapply HQ; [|done..]. rewrite Hs', Hv. by apply heap_is_alloc.
Qed.

Lemma wp_sds_cat l x o ps ps' F (Q : sds → machine → Prop) s :
  heap_is ps F (heap_of s) → ps ≡ₚ (l, o) :: ps' →
  (∀ l' sp s', heap_is ((l', SdsObj (sds_buf o ++ x) sp) :: ps') F (heap_of s') →
     m_log s' = m_log s → m_trace s' = m_trace s → Q l' s') →
  wp (sds_cat l x) Q s.
Proof. apply wp_appends, sdscat_law. Qed.

Lemma wp_sds_catlen l x o ps ps' F (Q : sds → machine → Prop) s :
  heap_is ps F (heap_of s) → ps ≡ₚ (l, o) :: ps' →
  (∀ l' sp s', heap_is ((l', SdsObj (sds_buf o ++ x) sp) :: ps') F (heap_of s') →
     m_log s' = m_log s → m_trace s' = m_trace s → Q l' s') →
  wp (sds_catlen l x) Q s.
Proof. apply wp_appends, sdscatlen_law. Qed.

Lemma wp_sds_catprintf l f args t o ps ps' F (Q : sds → machine → Prop) s :
  format (lit f) args = Some t →
  heap_is ps F (heap_of s) → ps ≡ₚ (l, o) :: ps' →
  (∀ l' sp s', heap_is ((l', SdsObj (sds_buf o ++ t) sp) :: ps') F (heap_of s') →
     m_log s' = m_log s → m_trace s' = m_trace s → Q l' s') →
  wp (sds_catprintf l f args) Q s.
Proof. intros Hf. unfold sds_catprintf. rewrite Hf. apply wp_appends, sdscatprintf_law. Qed.

Lemma wp_sds_lower l o ps ps' F (Q : unit → machine → Prop) s :
  heap_is ps F (heap_of s) → ps ≡ₚ (l, o) :: ps' →
  (∀ s', heap_is ((l, SdsObj (map tolower (sds_buf o)) (sds_spare o)) :: ps') F (heap_of s') →
     m_log s' = m_log s → m_trace s' = m_trace s → Q tt s') →
  wp (sds_lower l) Q s.
Proof.
  intros Hh Hp HQ. apply wp_bind. eapply wp_deref; [done..|].
  apply wp_upd_sds. intros s' Hs' ??. rewrite Hp in Hh. apply HQ; [|done..].
  rewrite Hs'. simpl. rewrite (sdstolower_law l _ o (proj1 Hh)). by eapply heap_is_write.
Qed.

Lemma wp_sds_len l o ps ps' F (Q : Z → machine → Prop) s :
  heap_is ps F (heap_of s) → ps ≡ₚ (l, o) :: ps' →
  Q (Z.of_nat (length (sds_buf o))) s → wp (sds_len l) Q s.
Proof. intros. apply wp_bind. eapply wp_deref; [done..|]. by apply wp_ret. Qed.

Lemma wp_sds_arg l o ps ps' F (Q : carg → machine → Prop) s :
  heap_is ps F (heap_of s) → ps ≡ₚ (l, o) :: ps' →
  Q (AStr (region (sds_buf o))) s → wp (sds_arg l) Q s.
Proof. intros H Hp ?. rewrite Hp in H. unfold wp, sds_arg. by rewrite (proj1 H). Qed.

Lemma wp_sds_room l n o ps ps' F (Q : sds → machine → Prop) s :
  heap_is ps F (heap_of s) → ps ≡ₚ (l, o) :: ps' →
  (∀ l' sp s', heap_is ((l', SdsObj (sds_buf o) sp) :: ps') F (heap_of s') →
     (n ≤ length sp)%nat → m_log s' = m_log s → m_trace s' = m_trace s → Q l' s') →
  wp (sds_room l n) Q s.
Proof.
  intros Hh Hp HQ. apply wp_bind. eapply wp_deref; [done..|].
  apply wp_upd_sds. intros s' Hs' ??. rewrite Hp in Hh.
  destruct (sdsMakeRoomFor_law l n (m_sds s) o (proj1 Hh)) as [Hl (sp & Hv & Hsp)].
  eapply HQ; [|done..]. rewrite Hs', Hv. by eapply heap_is_move.
Qed.

Lemma wp_sds_incr l n o ps ps' F (Q : unit → machine → Prop) s :
  heap_is ps F (heap_of s) → ps ≡ₚ (l, o) :: ps' → (n ≤ length (sds_spare o))%nat →
  (∀ s', heap_is ((l, SdsObj (sds_buf o ++ take n (sds_spare o)) (drop n (sds_spare o)))
                  :: ps') F (heap_of s') →
     m_log s' = m_log s → m_trace s' = m_trace s → Q tt s') →
  wp (sds_incr l n) Q s.
Proof.
  intros Hh Hp Hn HQ. apply wp_bind. eapply wp_deref; [done..|].
  rewrite decide_True by done. apply wp_upd_sds. intros s' Hs' ??. rewrite Hp in Hh.
  apply HQ; [|done..]. rewrite Hs'. simpl.
  rewrite (sdsIncrLen_law l n _ o (proj1 Hh) Hn). by eapply heap_is_write.
Qed.

Lemma wp_sds_write_spare l d o ps ps' F (Q : unit → machine → Prop) s :
  heap_is ps F (heap_of s) → ps ≡ₚ (l, o) :: ps' →
  (length d ≤ length (sds_spare o))%nat →
  (∀ s', heap_is ((l, SdsObj (sds_buf o) (d ++ drop (length d) (sds_spare o))) :: ps')
           F (heap_of s') →
     m_log s' = m_log s → m_trace s' = m_trace s → Q tt s') →
  wp (sds_write_spare l d) Q s.
Proof.
  intros Hh Hp Hn HQ. apply wp_bind. eapply wp_deref; [done..|].
  rewrite decide_True by done. apply wp_upd_sds. intros s' Hs' ??. rewrite Hp in Hh.
  apply HQ; [|done..]. rewrite Hs'. simpl.
  rewrite (sds_poke_law l d _ o (proj1 Hh) Hn). by eapply heap_is_write.
Qed.

Lemma wp_sds_overwrite l b o ps ps' F (Q : unit → machine → Prop) s :
  heap_is ps F (heap_of s) → ps ≡ₚ (l, o) :: ps' → length b = length (sds_buf o) →
  (∀ s', heap_is ((l, SdsObj b (sds_spare o)) :: ps') F (heap_of s') →
     m_log s' = m_log s → m_trace s' = m_trace s → Q tt s') →
  wp (sds_overwrite l b) Q s.
Proof.
  intros Hh Hp Hn HQ. apply wp_bind. eapply wp_deref; [done..|].
  rewrite decide_True by done. apply wp_upd_sds. intros s' Hs' ??. rewrite Hp in Hh.
  apply HQ; [|done..]. rewrite Hs'. simpl.
  rewrite (sds_store_law l b _ o (proj1 Hh) Hn). by eapply heap_is_write.
Qed.

Lemma wp_sds_free l o ps ps' F (Q : unit → machine → Prop) s :
  heap_is ps F (heap_of s) → ps ≡ₚ (l, o) :: ps' →
  (∀ s', heap_is ps' F (heap_of s') → m_log s' = m_log s → m_trace s' = m_trace s →
     Q tt s') →
  wp (sds_free l) Q s.
Proof.
  intros Hh Hp HQ. apply wp_bind. eapply wp_deref; [done..|].
  apply wp_upd_sds. intros s' Hs' ??. rewrite Hp in Hh. destruct Hh as [Hl Hh].
  apply HQ; [|done..]. rewrite Hs'. simpl. by rewrite sdsfree_law.
Qed.

End rules.

(** ** Symbolic execution

    [wstep] performs one step of a computation, keeping one hypothesis about the heap
    of the current state and one about its trace. *)

(** Writes appended events as one list. *)
Ltac cons_trace H :=
  repeat match type of H with
         | context [@app event (?x :: ?xs) ?y] =>
             change ((x :: xs) ++ y) with (x :: (xs ++ y)) in H
         | context [@app (prod ext_call ext_ret) (?x :: ?xs) ?y] =>
             change ((x :: xs) ++ y) with (x :: (xs ++ y)) in H
         | context [@app event [] ?y] => change ([] ++ y) with y in H
         | context [@app (prod ext_call ext_ret) [] ?y] => change ([] ++ y) with y in H
         end.

(** Restates what is known of the state [s] as knowledge of its successor [s'].  The
    hypothesis about the heap is always called [Hheap], the one about the trace [Htr]. *)
Ltac carry s s' :=
  try match goal with
      | H : heap_is _ _ (heap_of s), H' : heap_of s' = heap_of s |- _ =>
          rewrite <-H' in H; clear H'
      end;
  try match goal with
      | H : m_trace s = _, H' : m_trace s' = _ |- _ =>
          rewrite H in H'; try rewrite H in *|-; clear H;
          repeat rewrite <-app_assoc in H';
          cons_trace H'
      end;
  try match goal with H' : m_trace s' = _ |- _ => rename H' into Htr end;
  cbn [sds_buf sds_spare] in *;
  repeat match goal with
         | H : context [@app byte [] ?x] |- _ => change ([] ++ x) with x in H
         end; cbv beta.

(** Replaces the knowledge of the heap of [s] by [Hh]. *)
Ltac new_heap s Hh :=
  match goal with H : heap_is _ _ (heap_of s) |- _ => clear H end;
  rename Hh into Hheap.

Ltac sds_intro s :=
  let l := fresh "l" in let sp := fresh "sp" in let s' := fresh "s" in
  let Hh := fresh "Hh" in let Ht := fresh "Ht" in
  intros l sp s' Hh _ Ht; new_heap s Hh; carry s s'.

Ltac sds_intro0 s :=
  let s' := fresh "s" in let Hh := fresh "Hh" in let Ht := fresh "Ht" in
  intros s' Hh _ Ht; new_heap s Hh; carry s s'.

(** A message of the sources: its arguments are counted. *)
Ltac log_step := apply wp_log; [vm_compute; reflexivity|].

Ltac wstep :=
  try progress unfold log_error, log_warning, log_info, log_debug;
  lazymatch goal with
  | |- wp (mret _) _ _ => apply wp_ret
  | |- wp (ext _) _ ?s =>
      let r := fresh "r" in let s' := fresh "s" in let Hr := fresh "Hr" in
      let Hh := fresh "Hh" in let Ht := fresh "Ht" in
      apply wp_ext; intros r s' Hr Hh _ Ht; carry s s'
  | |- wp (log_msg _ _ _) _ ?s =>
      let s' := fresh "s" in let Hh := fresh "Hh" in let Ht := fresh "Ht" in
      log_step; intros _ s' Hh Ht; carry s s'
  | |- wp (deref _) _ _ => eapply wp_deref; [eassumption|pick|]
  | |- wp (sds_arg _) _ _ => eapply wp_sds_arg; [eassumption|pick|]; cbn [sds_buf]
  | |- wp (sds_len _) _ _ => eapply wp_sds_len; [eassumption|pick|]; cbn [sds_buf]
  | |- wp sds_empty _ ?s => eapply wp_sds_empty; [eassumption|sds_intro s]
  | |- wp (sds_new _) _ ?s => eapply wp_sds_new; [eassumption|sds_intro s]
  | |- wp (sds_dup _) _ ?s => eapply wp_sds_dup; [eassumption|pick|sds_intro s]
  | |- wp (sds_cat _ _) _ ?s => eapply wp_sds_cat; [eassumption|pick|sds_intro s]
  | |- wp (sds_catlen _ _) _ ?s => eapply wp_sds_catlen; [eassumption|pick|sds_intro s]
  | |- wp (sds_lower _) _ ?s => eapply wp_sds_lower; [eassumption|pick|sds_intro0 s]
  | |- wp (sds_free _) _ ?s => eapply wp_sds_free; [eassumption|pick|sds_intro0 s]
  | |- wp (sds_room _ _) _ ?s =>
      let l := fresh "l" in let sp := fresh "sp" in let s' := fresh "s" in
      let Hh := fresh "Hh" in let Hl := fresh "Hlen" in let Ht := fresh "Ht" in
      eapply wp_sds_room; [eassumption|pick|intros l sp s' Hh Hl _ Ht; new_heap s Hh; carry s s']
  | |- wp (sds_write_spare _ _) _ ?s =>
      eapply wp_sds_write_spare; [eassumption|pick| |sds_intro0 s]; cbn [sds_buf sds_spare]
  | |- wp (sds_incr _ _) _ ?s =>
      eapply wp_sds_incr; [eassumption|pick| |sds_intro0 s]; cbn [sds_buf sds_spare]
  | |- wp (sds_overwrite _ _) _ ?s =>
      eapply wp_sds_overwrite; [eassumption|pick| |sds_intro0 s]; cbn [sds_buf sds_spare]
  | |- wp (sds_catprintf _ _ _) _ ?s =>
      eapply wp_sds_catprintf; [|eassumption|pick|sds_intro s]
  | |- wp (mbind _ _) _ _ => apply wp_bind
  end; cbv beta.

(** Runs until a step that needs more than one rule. *)
Ltac wsteps := repeat (wstep; [idtac]).

(** Runs a [sdscatprintf] whose text the lemma [H] gives. *)
Ltac wprintf H := wstep; [by apply H|].
