(* ===== verification/SdsModel.v ===== *)
(** * Two instances of the sds interface

    The library itself is not part of the sources; these instances show that its laws
    can hold and make the definitions that use it executable.  Both keep the live
    strings in a finite map.  In the first a string that grows stays where it is, in
    the second it always moves: the laws allow both, as [realloc] does. *)

From S2P Require Import Prelude CString Machine.
Local Open Scope Z_scope.

(** [moves]: whether growing a string gives it a new address. *)
Definition model_alloc (b sp : bytes) (h : gmap sds sds_obj) : sds * gmap sds sds_obj :=
  let l := fresh (dom h) in (l, <[l := SdsObj b sp]> h).

Definition model_grow (moves : bool) (l : sds) (x sp : bytes) (h : gmap sds sds_obj)
  : sds * gmap sds sds_obj :=
  match h !! l with
  | Some o =>
      let l' := if moves then fresh (dom h) else l in
      (l', <[l' := SdsObj (sds_buf o ++ x) sp]> (delete l h))
  | None => (l, h)
  end.

Definition model_write (f : sds_obj → sds_obj) (l : sds) (h : gmap sds sds_obj)
  : gmap sds sds_obj := alter f l h.

(** Fresh space is filled with a recognisable pattern. *)
Definition stale (n : nat) : bytes := replicate n "?"%char.

Definition sds_model (moves : bool) : SdsLib := {|
  sds_heap := gmap sds sds_obj;
  sds_view := id;
  sdsempty := model_alloc [] [];
  sdsnewlen b := model_alloc b [];
  sdsdup l h := model_alloc (from_option sds_buf [] (h !! l)) [] h;
  sdscat l x := model_grow moves l x [];
  sdscatlen l x := model_grow moves l x [];
  sdscatprintf l x := model_grow moves l x [];
  sdstolower := model_write (λ o, SdsObj (map tolower (sds_buf o)) (sds_spare o));
  sdsMakeRoomFor l n := model_grow moves l [] (stale n);
  sdsIncrLen l n := model_write (λ o,
    SdsObj (sds_buf o ++ take n (sds_spare o)) (drop n (sds_spare o))) l;
  sdsfree l h := delete l h;
  sds_poke l d := model_write (λ o,
    SdsObj (sds_buf o) (d ++ drop (length d) (sds_spare o))) l;
  sds_store l b := model_write (λ o, SdsObj b (sds_spare o)) l;
|}.

Lemma model_alloc_ok mv b sp h :
  @allocates (sds_model mv) (model_alloc b sp h) h b.
Proof.
  split; simpl; [|by exists sp].
  apply not_elem_of_dom, is_fresh.
Qed.

Lemma model_grow_ok mv l x sp (h : gmap sds sds_obj) o :
  h !! l = Some o →
  let r := model_grow mv l x sp h in
  (r.1 = l ∨ h !! r.1 = None) ∧
  r.2 = <[r.1 := SdsObj (sds_buf o ++ x) sp]> (delete l h).
Proof.
  intros Hl. unfold model_grow. rewrite Hl. simpl. split; [|done].
  destruct mv; [right|by left]. apply not_elem_of_dom, is_fresh.
Qed.

Lemma model_grow_moves l x sp (h : gmap sds sds_obj) o :
  h !! l = Some o → (model_grow true l x sp h).1 ≠ l.
Proof.
  intros Hl. unfold model_grow. rewrite Hl. simpl.
  assert (h !! (fresh (dom h)) = None) by (apply not_elem_of_dom, is_fresh). congruence.
Qed.

Lemma model_write_ok f l (h : gmap sds sds_obj) o :
  h !! l = Some o → model_write f l h = <[l := f o]> h.
Proof.
  intros Hl. apply map_eq. intros i. unfold model_write.
  rewrite lookup_alter, lookup_insert. case_decide; [|done]. subst. by rewrite Hl.
Qed.

#[export] Instance sds_model_spec mv : SdsSpec (sds_model mv).
Proof.
  assert (∀ op, (∀ l x h, op l x h = model_grow mv l x [] h) →
    @appends (sds_model mv) op) as Happ.
  { intros op Hop h l x o Hl. rewrite Hop.
    destruct (model_grow_ok mv l x [] h o Hl) as [? E]. split; [done|by exists []]. }
  split; simpl.
  - intros. apply model_alloc_ok.
  - intros. apply model_alloc_ok.
  - intros l h o Hl. rewrite Hl. apply model_alloc_ok.
  - by apply Happ.
  - by apply Happ.
  - by apply Happ.
  - intros l h o Hl. by rewrite (model_write_ok _ _ _ _ Hl).
  - intros l n h o Hl. destruct (model_grow_ok mv l [] (stale n) h o Hl) as [? E].
    split; [done|]. exists (stale n). rewrite app_nil_r in E. split; [done|].
    unfold stale. by rewrite length_replicate.
  - intros l n h o Hl _. by rewrite (model_write_ok _ _ _ _ Hl).
  - done.
  - intros l d h o Hl _. by rewrite (model_write_ok _ _ _ _ Hl).
  - intros l b h o Hl _. by rewrite (model_write_ok _ _ _ _ Hl).
Qed.

(** A logger that records nothing, for running the other components alone. *)
Definition null_logger : LoggerAPI := {|
  log_state := unit;
  api_formats _ _ := false;
  api_log_msg _ _ _ l := (0, l);
  api_logger_flush l := (0, l);
  api_logger_init _ _ l := (0, l);
  api_logger_destroy l := (0, l);
  api_logger_fork l := l;
|}.

(** A process with no strings and nothing done yet. *)
Definition start (mv : bool) : @machine (sds_model mv) null_logger :=
  @Machine (sds_model mv) null_logger (∅ : gmap sds sds_obj) tt [].

(** An environment that answers by the call alone. *)
Definition env_of (f : ext_call → ext_ret) : Env := λ _ c, f c.
