(* ===== verification/Queue.v ===== *)
(** * The tail queue of the logger: [STAILQ] of [sys/queue.h]

    The head and the links as the macros use them, on a memory of entries, and the
    proof that they implement a first-in first-out list.  [stqh_last] is the address of
    the last link: of the head's first pointer, or of the link inside an entry. *)

From S2P Require Import Prelude.
Local Open Scope Z_scope.

(** ** Data and operations *)

(** [struct sQEntry] ([cew_logger.c]): the address of the message and the link. *)
Record tsEntry : Type := Entry { msg : positive; stqe_next : option positive }.

(** Where a link is stored. *)
Inductive link : Type := LFirst | LNext (p : positive).

Record LogMsgQueue : Type := Stailq { stqh_first : option positive; stqh_last : link }.

Abbreviation memory := (gmap positive tsEntry).

Definition STAILQ_INIT : LogMsgQueue := Stailq None LFirst.

Definition STAILQ_FIRST (q : LogMsgQueue) : option positive := stqh_first q.

(** [(elm)->next = NULL; *(head)->stqh_last = elm; (head)->stqh_last = &(elm)->next]:
    every write goes through a pointer that must be valid. *)
Definition STAILQ_INSERT_TAIL (p : positive) : ST (LogMsgQueue * memory) unit := λ '(q, h),
  match h !! p with
  | None => (Undef UseAfterFree, (q, h))
  | Some e =>
    let h := <[p := Entry (msg e) None]> h in
    match stqh_last q with
    | LFirst => (Ok tt, (Stailq (Some p) (LNext p), h))
    | LNext t =>
      match h !! t with
      | None => (Undef UseAfterFree, (q, h))
      | Some e' => (Ok tt, (Stailq (stqh_first q) (LNext p), <[t := Entry (msg e') (Some p)]> h))
      end
    end
  end.

(** [if (((head)->stqh_first = (head)->stqh_first->next) == NULL)
      (head)->stqh_last = &(head)->stqh_first]. *)
Definition STAILQ_REMOVE_HEAD : ST (LogMsgQueue * memory) unit := λ '(q, h),
  match stqh_first q with
  | None => (Undef NullDeref, (q, h))
  | Some p =>
    match h !! p with
    | None => (Undef UseAfterFree, (q, h))
    | Some e =>
      (Ok tt, (Stailq (stqe_next e)
                 (match stqe_next e with None => LFirst | Some _ => stqh_last q end), h))
    end
  end.

(** ** The list a queue stands for *)

Fixpoint chain (h : memory) (p : option positive) (l : list (positive * positive)) : Prop :=
  match l with
  | [] => p = None
  | (a, m) :: l' => p = Some a ∧ ∃ nx, h !! a = Some (Entry m nx) ∧ chain h nx l'
  end.

Definition link_of (o : option positive) : link :=
  match o with None => LFirst | Some p => LNext p end.

Definition queue_is (q : LogMsgQueue) (h : memory) (l : list (positive * positive)) : Prop :=
  chain h (stqh_first q) l ∧ NoDup l.*1 ∧ stqh_last q = link_of (last l.*1).

Lemma chain_frame h h' p l :
  (∀ a, a ∈ l.*1 → h' !! a = h !! a) → chain h p l → chain h' p l.
Proof.
  revert p. induction l as [|[a m] l IH]; intros p Hh; simpl; [done|].
  intros [-> (nx & Ha & Hc)]. split; [done|]. exists nx. split.
  - rewrite Hh; [done|]. simpl. left.
  - apply IH; [|done]. intros b Hb. apply Hh. simpl. by right.
Qed.

Lemma queue_frame q h h' l :
  (∀ a, a ∈ l.*1 → h' !! a = h !! a) → queue_is q h l → queue_is q h' l.
Proof. intros Hh (Hc & ? & ?). split_and!; [by eapply chain_frame|done..]. Qed.

Lemma queue_is_init h : queue_is STAILQ_INIT h [].
Proof. split_and!; [done|constructor|done]. Qed.

Lemma chain_lookup h p l a m : chain h p l → (a, m) ∈ l → ∃ nx, h !! a = Some (Entry m nx).
Proof.
  revert p. induction l as [|[b m'] l IH]; intros p Hc Hin; [by apply elem_of_nil in Hin|].
  destruct Hc as [_ (nx & Hb & Hc)]. apply elem_of_cons in Hin as [[= -> ->]|Hin]; eauto.
Qed.

Lemma queue_first_None q h : queue_is q h [] → STAILQ_FIRST q = None.
Proof. intros [H _]. exact H. Qed.

Lemma queue_first_Some q h a m l :
  queue_is q h ((a, m) :: l) → STAILQ_FIRST q = Some a ∧ ∃ nx, h !! a = Some (Entry m nx).
Proof. intros [[H (nx & ? & _)] _]. split; [exact H|eauto]. Qed.

(** Linking one more entry behind the last one of a chain. *)
Lemma chain_snoc h p l t m' nx a m :
  chain h p (l ++ [(t, m')]) → NoDup (l ++ [(t, m')]).*1 → a ∉ (l ++ [(t, m')]).*1 →
  h !! t = Some (Entry m' nx) → h !! a = Some (Entry m None) →
  chain (<[t := Entry m' (Some a)]> h) p (l ++ [(t, m'); (a, m)]).
Proof.
  intros Hc Hnd Ha Ht Hm. revert p Hc. induction l as [|[b mb] l IH]; intros p Hc; simpl in *.
  - destruct Hc as [-> (nx' & ? & ?)]. apply not_elem_of_cons in Ha as [? _].
    split; [done|]. exists (Some a). rewrite lookup_insert_eq. split; [done|].
    split; [done|]. exists None. by rewrite lookup_insert_ne by congruence.
  - destruct Hc as [-> (nx' & Hb & Hc)]. apply NoDup_cons in Hnd as [Hb' Hnd].
    apply not_elem_of_cons in Ha as [? Ha]. split; [done|]. exists nx'.
    rewrite lookup_insert_ne; [split; [done|]; by apply IH|].
    intros <-. apply Hb'. rewrite fmap_app. set_solver.
Qed.

(** Inserting an allocated entry that is not yet linked appends it. *)
Lemma insert_tail_ok q h l a m nx :
  queue_is q h l → a ∉ l.*1 → h !! a = Some (Entry m nx) →
  ∃ q' h', STAILQ_INSERT_TAIL a (q, h) = (Ok tt, (q', h')) ∧
    queue_is q' h' (l ++ [(a, m)]) ∧ dom h' = dom h ∧
    (∀ b, b ∉ a :: l.*1 → h' !! b = h !! b).
Proof.
  intros (Hc & Hnd & Hl) Ha Hm. unfold STAILQ_INSERT_TAIL. rewrite Hm. simpl.
  set (h1 := <[a := Entry m None]> h).
  assert (chain h1 (stqh_first q) l) as Hc1.
  { eapply chain_frame; [|done]. intros b Hb. unfold h1. rewrite lookup_insert_ne; [done|].
    intros <-. done. }
  assert (h1 !! a = Some (Entry m None)) as Ha1 by apply lookup_insert_eq.
  assert (dom h1 = dom h) as Hdom.
  { unfold h1. rewrite dom_insert_lookup_L; [done|by eexists]. }
  assert (NoDup (l ++ [(a, m)]).*1) as Hnd'.
  { rewrite fmap_app. apply NoDup_app. split_and!; [done| |apply NoDup_singleton].
    intros b Hb [->|[]%elem_of_nil]%elem_of_cons. done. }
  destruct l as [|[t m'] l _] using rev_ind.
  - simpl in Hl, Hc1. rewrite Hl. eexists _, _. split_and!; [done| |done|].
    + split_and!; [|done..]. simpl. split; [done|]. by exists None.
    + intros b [Hb _]%not_elem_of_cons. unfold h1. by rewrite lookup_insert_ne.
  - rewrite fmap_app in Hl. csimpl in Hl. rewrite last_snoc in Hl. rewrite Hl.
    simpl link_of. cbv iota beta.
    destruct (chain_lookup _ _ _ t m' Hc1) as [nt Ht]; [set_solver|]. rewrite Ht. simpl.
    eexists _, _. split_and!; [done| | |].
    + split_and!; [|done|]; simpl.
      * rewrite <-app_assoc. simpl. by eapply chain_snoc.
      * rewrite fmap_app. csimpl. by rewrite last_snoc.
    + rewrite dom_insert_lookup_L; [done|by eexists].
    + intros b [Hb Hb']%not_elem_of_cons. rewrite fmap_app in Hb'.
      rewrite lookup_insert_ne by set_solver. unfold h1. by rewrite lookup_insert_ne.
Qed.

(** Removing the head takes off the first entry and leaves the memory alone. *)
Lemma remove_head_ok q h a m l :
  queue_is q h ((a, m) :: l) →
  ∃ q', STAILQ_REMOVE_HEAD (q, h) = (Ok tt, (q', h)) ∧ queue_is q' h l ∧ a ∉ l.*1.
Proof.
  intros ([Hf (nx & Ha & Hc)] & Hnd & Hl). unfold STAILQ_REMOVE_HEAD. rewrite Hf, Ha. simpl.
  apply NoDup_cons in Hnd as [Hn Hnd]. eexists. split_and!; [done| |done].
  split_and!; [done|done|]. simpl. destruct l as [|[b mb] l]; simpl in Hc.
  - by rewrite Hc.
  - destruct Hc as [-> _]. by rewrite Hl.
Qed.
