(* ===== verification/Http.v ===== *)
(** * HTTP requests: [src/src/cew_http.c]

    The matcher of the request line, stated against the meaning of the regular
    expression the code compiles; the choice of the file and of its media type; the
    whole request handler, with every [sds] it allocates, grows and frees and every
    call it makes. *)

From S2P Require Import Prelude CString Machine SdsModel.
Local Open Scope Z_scope.

(** ** The client structure ([include/cew_client.h]) *)

Definition RECV_BUFF_SIZE : Z := 4096.

Record tsClientStruct : Type := ClientStruct {
  iId : Z;
  iSockfd : Z;
  cIP : bytes;
  acSendBuff : option sds;
  acRecvBuff : bytes;
}.

(** ** The request line *)

(** Extended regular expressions, as far as the pattern of the source needs them,
    matched without regard to case ([REG_ICASE]). *)
Inductive re : Type :=
  | REps
  | RChr (c : byte)
  | RNot (c : byte)              (** any character but [c] *)
  | RStar (r : re)
  | RSeq (r1 r2 : re)
  | RGroup (r : re).

Definition re_lit (s : string) : re := foldr (λ c, RSeq (RChr c)) REps (lit s).

(** The pattern of [regcomp], its anchor apart: the text [GET /], a group of any
    number of characters other than a space, the text [ HTTP/1]. *)
Definition request_re : re :=
  RSeq (re_lit "GET /") (RSeq (RGroup (RStar (RNot " "%char))) (re_lit " HTTP/1")).

Definition ieq (a b : byte) : bool := bool_decide (tolower a = tolower b).

(** [re_match s r i j g]: [r] matches [s] from [i] to [j], its group spanning [g]. *)
Inductive re_match (s : bytes) : re → nat → nat → option (nat * nat) → Prop :=
  | m_eps i : re_match s REps i i None
  | m_chr c x i : s !! i = Some x → ieq x c = true → re_match s (RChr c) i (S i) None
  | m_not c x i : s !! i = Some x → ieq x c = false → re_match s (RNot c) i (S i) None
  | m_star_nil r i : re_match s (RStar r) i i None
  | m_star_cons r i k j g g' :
      re_match s r i k g → re_match s (RStar r) k j g' →
      re_match s (RStar r) i j (from_option Some g g')
  | m_seq r1 r2 i k j g g' :
      re_match s r1 i k g → re_match s r2 k j g' →
      re_match s (RSeq r1 r2) i j (from_option Some g g')
  | m_group r i j g : re_match s r i j g → re_match s (RGroup r) i j (Some (i, j)).

Fixpoint iprefix (p s : bytes) : bool :=
  match p, s with
  | [], _ => true
  | _, [] => false
  | x :: p', y :: s' => ieq y x && iprefix p' s'
  end.

Fixpoint to_space (s : bytes) : bytes :=
  match s with
  | [] => []
  | c :: s' => if ieq c " "%char then [] else c :: to_space s'
  end.

(** [regexec] for that pattern: the span of the group, when the string matches. *)
Definition regexec (s : bytes) : option (nat * nat) :=
  if iprefix (lit "GET /") s then
    let t := to_space (drop 5 s) in
    if iprefix (lit " HTTP/1") (drop (5 + length t) s)
    then Some (5, 5 + length t)%nat else None
  else None.

Section http.
Context `{SL : SdsLib, LA : LoggerAPI, E : Env}.

(** [regexec] scans its argument up to the NUL; without one in the buffer it reads on
    behind it. *)
Definition http_parse_request (psClient : tsClientStruct) (sFileName : sds)
  : M (Z * sds) :=
  rc ← ext X_regcomp;
  if x_ret rc =? 0 then
    match cstr (acRecvBuff psClient) with
    | None => st_undef OutOfBounds
    | Some str =>
      match regexec str with
      | Some (so, eo) =>
          sFileName ← sds_catlen sFileName (take (eo - so) (drop so (acRecvBuff psClient)));
          _ ← sds_lower sFileName;
          a ← sds_arg sFileName;
          _ ← log_debug "Requested file:%s" [a];
          _ ← ext X_regfree;
          mret (EXIT_SUCCESS, sFileName)
      | None =>
          _ ← ext X_regfree;
          mret (EXIT_FAILURE, sFileName)
      end
    end
  else mret (EXIT_FAILURE, sFileName).

(** ** The response *)

Definition crlf : string := String "013"%char (String "010"%char "").
Definition lf : string := String "010"%char "".

Definition text_404 : bytes :=
  lit ("HTTP/1.1 404 Not Found" +:+ crlf +:+ "Content-Type: text/plain" +:+ crlf
       +:+ crlf +:+ "404 Not Found").

Definition http_404 (sResponse : sds) : M (Z * sds) :=
  _ ← log_debug "sending 404" [];
  sResponse ← sds_cat sResponse text_404;
  mret (EXIT_SUCCESS, sResponse).

Definition cSearchPath : bytes := lit "/opt/www".

Definition http_check_access_file (sFileName sPath : sds) : M (Z * sds * sds) :=
  a ← sds_arg sFileName;
  _ ← log_debug "Checking file:%s" [a];
  o ← deref sFileName;
  sFileName ←
    (if strncmp (sds_buf o) [] 1 =? 0
     then sds_cat sFileName (lit "index.html") else mret sFileName);
  a ← sds_arg sFileName;
  sPath ← sds_catprintf sPath "%s/%s" [AStr (region cSearchPath); a];
  p ← sds_arg sPath;
  _ ← log_debug "Made path: %s" [p];
  o ← deref sPath;
  r ← ext (X_access (cprefix (sds_buf o)));
  if x_ret r =? -1 then
    _ ← log_error "No access to file: %s with errno:%d" [p; AInt (x_errno r)];
    mret (EXIT_FAILURE, sFileName, sPath)
  else mret (EXIT_SUCCESS, sFileName, sPath).

(** The loop that looks for the last dot; [None] when [fuel] iterations did not reach
    its end. *)
Fixpoint ext_loop (fuel : nat) (str : bytes) (cSearch : nat) (cExt : option nat)
  : option (option nat) :=
  match fuel with
  | O => None
  | S fuel' =>
    match strstr (drop cSearch str) (lit ".") with
    | None => Some cExt
    | Some k => ext_loop fuel' str (cSearch + k + 1) (Some (cSearch + k)%nat)
    end
  end.

(** The chain of comparisons on the extension. *)
Definition mime_of_ext (cExt : bytes) : option bytes :=
  if strcmp cExt (lit "html") =? 0 then Some (lit "text/html")
  else if strcmp cExt (lit "txt") =? 0 then Some (lit "image/txt")
  else if strcmp cExt (lit "css") =? 0 then Some (lit "text/css")
  else if strcmp cExt (lit "jpg") =? 0 then Some (lit "image/jpeg")
  else if strcmp cExt (lit "png") =? 0 then Some (lit "image/png")
  else None.

(** The results of [sdscat] are not stored back to [*sMime]. *)
Definition http_determine_mime (sFileName sMime : sds) : M Z :=
  _ ← log_debug "Determining mime type" [];
  o ← deref sFileName;
  let str := cprefix (sds_buf o) in
  match ext_loop (S (length str)) str 0 None with
  | None => st_nofuel
  | Some None => mret EXIT_FAILURE
  | Some (Some i) =>
    match mime_of_ext (drop (i + 1) str) with
    | Some m =>
        _ ← sds_cat sMime m;
        a ← sds_arg sMime;
        _ ← log_debug "Determined to be mime type: %s" [a];
        mret EXIT_SUCCESS
    | None =>
        a ← sds_arg sFileName;
        _ ← log_error "Didn't fine mime type for file %s" [a];
        mret EXIT_FAILURE
    end
  end.

(** The body of the innermost conditional: the header, and the file when it opens.
    The descriptor [fd] is not closed, and the result of [read] is not looked at. *)
Definition http_send_file (sFileName sPath sMime acSendBuff : sds) : M sds :=
  a ← sds_arg sFileName;
  _ ← log_info "Client requested: %s" [a];
  acSendBuff ← sds_cat acSendBuff (lit ("HTTP/1.1 200 OK" +:+ crlf));
  a ← sds_arg sMime;
  acSendBuff ← sds_catprintf acSendBuff ("Content-Type: %s" +:+ crlf) [a];
  acSendBuff ← sds_cat acSendBuff (lit ("Connection: Closed" +:+ crlf));
  o ← deref sPath;
  r ← ext (X_open (cprefix (sds_buf o)));
  if x_ret r =? -1 then mret acSendBuff
  else
    let fd := x_ret r in
    st ← ext (X_fstat fd);
    let st_size := x_out st in
    acSendBuff ← sds_catprintf acSendBuff ("Content-Length: %ld" +:+ crlf) [AInt st_size];
    acSendBuff ← sds_cat acSendBuff (lit crlf);
    if st_size <? 0 then st_undef Unspecified else
    acSendBuff ← sds_room acSendBuff (Z.to_nat st_size);
    rd ← ext (X_read fd st_size);
    _ ← sds_write_spare acSendBuff (x_data rd);
    _ ← sds_incr acSendBuff (Z.to_nat st_size);
    a ← sds_arg acSendBuff;
    _ ← log_debug ("Responding with: " +:+ lf +:+ "%s") [a];
    mret acSendBuff.

(** The conditional on the parsed request: the file name and the send buffer after it. *)
Definition http_respond (parsed : Z) (sFileName acSendBuff : sds) : M (sds * sds) :=
  if parsed =? EXIT_SUCCESS then
    sPath ← sds_empty;
    '(found, sFileName, sPath) ← http_check_access_file sFileName sPath;
    acSendBuff ←
      (if found =? EXIT_SUCCESS then
         sMime ← sds_empty;
         known ← http_determine_mime sFileName sMime;
         acSendBuff ←
           (if known =? EXIT_SUCCESS
            then http_send_file sFileName sPath sMime acSendBuff
            else mret acSendBuff);
         _ ← sds_free sMime;
         mret acSendBuff
       else
         '(_, acSendBuff) ← http_404 acSendBuff;
         mret acSendBuff);
    _ ← sds_free sPath;
    mret (sFileName, acSendBuff)
  else mret (sFileName, acSendBuff).

Definition http_handle_client_request (psClient : tsClientStruct)
  : M (Z * tsClientStruct) :=
  acSendBuff ← sds_empty;
  sFileName ← sds_empty;
  '(parsed, sFileName) ← http_parse_request psClient sFileName;
  '(sFileName, acSendBuff) ← http_respond parsed sFileName acSendBuff;
  _ ← sds_free sFileName;
  o ← deref acSendBuff;
  r ← ext (X_send (iSockfd psClient) (sds_buf o));
  _ ← (if x_ret r =? -1
       then log_debug "Sending error on client %d" [AInt (iId psClient)] else mret 0);
  _ ← sds_free acSendBuff;
  mret (EXIT_SUCCESS,
        ClientStruct (iId psClient) (iSockfd psClient) (cIP psClient) None
          (acRecvBuff psClient)).

End http.

(** ** The matcher and the regular expression *)

Section matcher.
Implicit Types (s t p : bytes) (i j k : nat).

Lemma re_chars_match s t i j g :
  re_match s (foldr (λ c, RSeq (RChr c)) REps t) i j g ↔
  iprefix t (drop i s) = true ∧ j = (i + length t)%nat ∧ g = None.
Proof.
  revert i j g. induction t as [|c t IH]; intros i j g; simpl.
  - split; [inversion 1; subst; by rewrite Nat.add_0_r|].
    intros (_ & -> & ->). rewrite Nat.add_0_r. constructor.
  - split.
    + inversion 1 as [| | | | |r1 r2 ? k ? g1 g2 H1 H2|]; subst.
      inversion H1 as [|? x ? Hx Hc| | | | |]; subst.
      apply IH in H2 as (Hp & -> & ->). rewrite (drop_S _ _ _ Hx). simpl.
      rewrite Hc, Hp. split_and!; [done|lia|done].
    + intros (Hp & -> & ->). destruct (s !! i) as [x|] eqn:Hx.
      2:{ by rewrite drop_ge in Hp by (by apply lookup_ge_None). }
      rewrite (drop_S _ _ _ Hx) in Hp. simpl in Hp.
      apply andb_true_iff in Hp as [Hc Hp].
      apply (m_seq _ _ _ _ (S i) _ None None); [by econstructor|].
      apply IH. split_and!; [done|lia|done].
Qed.

Lemma re_star_not_match s c i j g :
  re_match s (RStar (RNot c)) i j g ↔
  (i ≤ j)%nat ∧ g = None ∧
  (∀ k, (i ≤ k < j)%nat → ∃ x, s !! k = Some x ∧ ieq x c = false).
Proof.
  split.
  - remember (RStar (RNot c)) as r eqn:Er. induction 1; simplify_eq.
    + split_and!; [lia|done|lia].
    + destruct IHre_match2 as (? & -> & Hk); [done|].
      inversion H; subst. split_and!; [lia|done|]. intros k' ?.
      destruct (decide (k' = i)) as [->|]; [by eauto|]. apply Hk. lia.
  - intros (Hij & -> & Hk). remember (j - i)%nat as n eqn:En.
    revert i Hij Hk En. induction n as [|n IH]; intros i Hij Hk En.
    + replace j with i by lia. constructor.
    + destruct (Hk i) as (x & Hx & Hc); [lia|].
      apply (m_star_cons _ _ _ (S i) _ None None); [by econstructor|].
      apply IH; [lia| |lia]. intros k ?. apply Hk. lia.
Qed.

Lemma to_space_length s n :
  (∀ k, (k < n)%nat → ∃ x, s !! k = Some x ∧ ieq x " "%char = false) →
  (∃ x, s !! n = Some x ∧ ieq x " "%char = true) →
  length (to_space s) = n.
Proof.
  revert s. induction n as [|n IH]; intros s Hk (x & Hx & Hc).
  - destruct s; simplify_eq/=. by rewrite Hc.
  - destruct (Hk O) as (y & Hy & Hcy); [lia|]. destruct s; simplify_eq/=.
    rewrite Hcy. simpl. f_equal. apply IH; [|by eauto].
    intros k ?. apply (Hk (S k)). lia.
Qed.

Lemma to_space_lookup s k :
  (k < length (to_space s))%nat → ∃ x, s !! k = Some x ∧ ieq x " "%char = false.
Proof.
  revert k. induction s as [|c s IH]; simpl; intros k Hk; [lia|].
  destruct (ieq c " "%char) eqn:E; simpl in Hk; [lia|].
  destruct k as [|k]; [by eauto|]. apply IH. lia.
Qed.

Lemma to_space_prefix s : to_space s = take (length (to_space s)) s.
Proof.
  induction s as [|c s IH]; simpl; [done|]. destruct (ieq c " "%char); simpl; [done|].
  by f_equal.
Qed.

(** On every string, the matcher finds the span that the pattern of the source gives
    to its group under the meaning of extended regular expressions, anchored and
    without regard to case, and finds nothing when the pattern does not match. *)
Theorem regexec_correct s so eo :
  regexec s = Some (so, eo) ↔ ∃ j, re_match s request_re 0 j (Some (so, eo)).
Proof.
  unfold regexec, request_re, re_lit. split.
  - destruct (iprefix (lit "GET /") s) eqn:Hg; [|done].
    destruct (iprefix (lit " HTTP/1") _) eqn:Hh; [|done]. intros [= <- <-].
    set (n := length (to_space (drop 5 s))) in *.
    exists (5 + n + 7)%nat.
    apply (m_seq _ _ _ _ 5 _ None (Some (5, 5 + n))%nat).
    { by apply re_chars_match. }
    apply (m_seq _ _ _ _ (5 + n) _ (Some (5, 5 + n))%nat None).
    + apply (m_group _ _ _ _ None). apply re_star_not_match. split_and!; [lia|done|].
      intros k ?. destruct (to_space_lookup (drop 5 s) (k - 5)) as (x & Hx & ?); [lia|].
      rewrite lookup_drop in Hx. replace (5 + (k - 5))%nat with k in Hx by lia. by eauto.
    + by apply re_chars_match.
  - intros (j & Hm). inversion Hm as [| | | | |r1 r2 i0 k1 j0 g1 g2 H1 H2 E1 E2 Hg|]; subst.
    apply (re_chars_match s (lit "GET /")) in H1 as (H1 & -> & ->).
    inversion H2 as [| | | | |? ? ? k2 ? g3 g4 H3 H4|]; subst.
    apply (re_chars_match s (lit " HTTP/1")) in H4 as (H4 & -> & ->).
    inversion H3 as [| | | | | |? ? ? ? H5]; subst. simplify_eq/=.
    apply re_star_not_match in H5 as (Hle & -> & Hk).
    rewrite drop_0 in H1. simpl in *. rewrite H1.
    assert (length (to_space (drop 5 s)) = (eo - 5)%nat) as Hn.
    { apply to_space_length.
      - intros k ?. rewrite lookup_drop. apply Hk. lia.
      - destruct (drop eo s) as [|x r] eqn:Hd; simpl in H4; [done|].
        exists x. rewrite lookup_drop. replace (5 + (eo - 5))%nat with eo by lia.
        split; [|by apply andb_true_iff in H4 as [? _]].
        assert (drop eo s !! 0%nat = Some x) as Hx by (by rewrite Hd).
        by rewrite lookup_drop, Nat.add_0_r in Hx. }
    rewrite Hn. replace (S (S (S (S (S (eo - 5))))))%nat with eo by lia. by rewrite H4.
Qed.

End matcher.

(** ** What a request asks for and what it is answered *)

(** The file a request line names: the group, in lower case. *)
Definition target (req : bytes) : option bytes :=
  '(so, eo) ← regexec req; Some (map tolower (take (eo - so) (drop so req))).

Definition file_name (t : bytes) : bytes :=
  if decide (t = []) then lit "index.html" else t.
Definition file_path (t : bytes) : bytes := lit "/opt/www/" ++ file_name t.

(** The media types of the five known extensions. *)
Inductive media_type : bytes → bytes → Prop :=
  | mt_html : media_type (lit "html") (lit "text/html")
  | mt_txt : media_type (lit "txt") (lit "image/txt")
  | mt_css : media_type (lit "css") (lit "text/css")
  | mt_jpg : media_type (lit "jpg") (lit "image/jpeg")
  | mt_png : media_type (lit "png") (lit "image/png").

(** [name] ends in a dot and a known extension, the dot being the last one. *)
Definition name_type (name m : bytes) : Prop :=
  ∃ pre e, name = pre ++ "."%char :: e ∧ ("."%char ∉ e) ∧ media_type e m.

Definition header_200 (m : bytes) : bytes :=
  lit ("HTTP/1.1 200 OK" +:+ crlf) ++ (lit "Content-Type: " ++ m ++ lit crlf)
  ++ lit ("Connection: Closed" +:+ crlf).

Definition header_length (n : Z) : bytes :=
  (lit "Content-Length: " ++ dec n ++ lit crlf) ++ lit crlf.

(** [handled req evs resp]: how a request may go. [evs] are the calls the handler makes
    before it sends [resp]. *)
Inductive handled (req : bytes) : list event → bytes → Prop :=
  | h_no_regex rc :
      x_ret rc ≠ 0 → handled req [(X_regcomp, rc)] []
  | h_bad_request rc rf :
      x_ret rc = 0 → target req = None →
      handled req [(X_regcomp, rc); (X_regfree, rf)] []
  | h_not_found rc rf t ra :
      x_ret rc = 0 → target req = Some t → x_ret ra = -1 →
      handled req [(X_regcomp, rc); (X_regfree, rf); (X_access (file_path t), ra)] text_404
  | h_no_type rc rf t ra :
      x_ret rc = 0 → target req = Some t → x_ret ra ≠ -1 →
      (∀ m, ¬ name_type (file_name t) m) →
      handled req [(X_regcomp, rc); (X_regfree, rf); (X_access (file_path t), ra)] []
  | h_unreadable rc rf t ra m ro :
      x_ret rc = 0 → target req = Some t → x_ret ra ≠ -1 → name_type (file_name t) m →
      x_ret ro = -1 →
      handled req [(X_regcomp, rc); (X_regfree, rf); (X_access (file_path t), ra);
                   (X_open (file_path t), ro)] (header_200 m)
  | h_served rc rf t ra m ro st rd rest :
      x_ret rc = 0 → target req = Some t → x_ret ra ≠ -1 → name_type (file_name t) m →
      x_ret ro ≠ -1 →
      length (x_data rd ++ rest) = Z.to_nat (x_out st) →
      handled req [(X_regcomp, rc); (X_regfree, rf); (X_access (file_path t), ra);
                   (X_open (file_path t), ro); (X_fstat (x_ret ro), st);
                   (X_read (x_ret ro) (x_out st), rd)]
        (header_200 m ++ header_length (x_out st) ++ x_data rd ++ rest).

(** ** The steps of the handler *)

Lemma ext_loop_spec fuel str c e :
  (length (drop c str) < fuel)%nat →
  ∃ r, ext_loop fuel str c e = Some r ∧
    ((r = e ∧ "."%char ∉ drop c str) ∨
     (∃ i, r = Some i ∧ str !! i = Some "."%char ∧ "."%char ∉ drop (i + 1) str)).
Proof.
  revert c e. induction fuel as [|fuel IH]; intros c e Hf; [lia|]. simpl.
  change (lit ".") with ["."%char].
  destruct (strstr (drop c str) ["."%char]) as [k|] eqn:Hk.
  2:{ apply strstr_char_None in Hk. eexists. split; [done|]. by left. }
  apply strstr_char_Some in Hk as (pre & post & Hd & <- & Hpre).
  assert (drop (c + length pre + 1) str = post) as Hd'.
  { rewrite <-Nat.add_assoc, <-drop_drop, Hd.
    rewrite <-drop_drop, drop_app_length. done. }
  destruct (IH (c + length pre + 1)%nat (Some (c + length pre)%nat)) as (r & Hr & Hc).
  { rewrite Hd'. rewrite Hd, length_app in Hf. simpl in Hf. lia. }
  exists r. split; [done|]. right. destruct Hc as [[-> Hn]|?]; [|done].
  exists (c + length pre)%nat. split_and!; [done| |done].
  rewrite <-lookup_drop, Hd. rewrite lookup_app_r by lia. by rewrite Nat.sub_diag.
Qed.

Lemma mime_of_ext_spec e m : NUL ∉ e → (mime_of_ext e = Some m ↔ media_type e m).
Proof.
  intros He. unfold mime_of_ext.
  assert (∀ k, NUL ∉ lit k → (strcmp e (lit k) =? 0) = bool_decide (e = lit k)) as Heq.
  { intros k Hk. apply eq_bool_prop_intro.
    rewrite Is_true_true, Is_true_true, Z.eqb_eq, bool_decide_eq_true, strcmp_zero.
    by rewrite !cprefix_id. }
  rewrite !Heq by (by apply (bool_decide_unpack _); vm_compute).
  repeat case_bool_decide; subst; (split; [intros [= <-]; constructor|]);
    try done; inversion 1; subst; try done.
Qed.

Lemma last_dot_unique (p1 p2 e1 e2 : bytes) (c : byte) :
  p1 ++ c :: e1 = p2 ++ c :: e2 → c ∉ e1 → c ∉ e2 → e1 = e2.
Proof.
  revert p2. induction p1 as [|x p1 IH]; intros [|y p2] H H1 H2; simplify_eq/=; try done.
  - exfalso. apply H1, elem_of_app. right. by left.
  - exfalso. apply H2, elem_of_app. right. by left.
  - by eapply IH.
Qed.

Lemma name_type_last_dot str i m :
  str !! i = Some "."%char → "."%char ∉ drop (i + 1) str →
  (name_type str m ↔ media_type (drop (i + 1) str) m).
Proof.
  intros Hi Hn. pose proof (take_drop_middle _ _ _ Hi) as Hs.
  rewrite Nat.add_1_r in *. split.
  - intros (pre & e & He & Hne & Hm).
    by rewrite (last_dot_unique (take i str) pre (drop (S i) str) e "."%char)
      by (done || congruence).
  - intros Hm. by exists (take i str), (drop (S i) str).
Qed.

Lemma regexec_span s so eo : regexec s = Some (so, eo) → so = 5%nat ∧ (eo ≤ length s)%nat.
Proof.
  unfold regexec. case_match eqn:H1; [|done]. case_match eqn:H2; [|done].
  intros [= <- <-]. split; [done|].
  destruct (decide (5 + length (to_space (drop 5 s)) ≤ length s)%nat); [done|].
  rewrite drop_ge in H2 by lia. done.
Qed.

Lemma slice_in_string (req r : bytes) so eo :
  (eo ≤ length req)%nat →
  take (eo - so) (drop so (req ++ r)) = take (eo - so) (drop so req).
Proof.
  intros H. destruct (decide (so ≤ length req)%nat).
  - rewrite drop_app_le by lia. rewrite take_app_le; [done|]. rewrite length_drop. lia.
  - replace (eo - so)%nat with 0%nat by lia. done.
Qed.

(** A file name found in a C string holds no NUL. *)
Lemma target_no_nul req t : NUL ∉ req → target req = Some t → NUL ∉ t.
Proof.
  unfold target. intros Hn. destruct (regexec req) as [[so eo]|]; simpl; [|done].
  intros [= <-]. apply map_tolower_no_nul. intros H.
  apply elem_of_take in H as (i & H & _). apply Hn.
  rewrite lookup_drop in H. by apply list_elem_of_lookup_2 in H.
Qed.

Lemma file_name_no_nul t : NUL ∉ t → NUL ∉ file_name t.
Proof.
  intros. unfold file_name. case_decide; [|done]. by apply (bool_decide_unpack _).
Qed.

Lemma file_path_no_nul t : NUL ∉ t → NUL ∉ file_path t.
Proof.
  intros. apply not_elem_of_app. split; [|by apply file_name_no_nul].
  by apply (bool_decide_unpack _).
Qed.

Lemma path_format b :
  NUL ∉ b → format (lit "%s/%s") [AStr (region cSearchPath); AStr (region b)]
            = Some (lit "/opt/www/" ++ b).
Proof.
  intros Hb. change (lit "%s/%s") with ("%"%char :: "s"%char :: lit "/%s").
  rewrite (format_s _ _ _ cSearchPath) by done.
  change (lit "/%s") with (lit "/" ++ "%"%char :: "s"%char :: []).
  rewrite format_text by (by apply (bool_decide_unpack _)).
  rewrite (format_s _ _ _ b) by (by rewrite cstr_region, cprefix_id). simpl.
  by rewrite app_nil_r.
Qed.

Lemma type_format m :
  NUL ∉ m → format (lit ("Content-Type: %s" +:+ crlf)) [AStr (region m)]
            = Some (lit "Content-Type: " ++ m ++ lit crlf).
Proof.
  intros Hm. change (lit ("Content-Type: %s" +:+ crlf))
    with (lit "Content-Type: " ++ "%"%char :: "s"%char :: lit crlf).
  rewrite format_text by (by apply (bool_decide_unpack _)).
  rewrite (format_s _ _ _ m) by (by rewrite cstr_region, cprefix_id).
  by rewrite <-(app_nil_r (lit crlf)), format_text by (by apply (bool_decide_unpack _)).
Qed.

Lemma length_format n :
  format (lit ("Content-Length: %ld" +:+ crlf)) [AInt n]
  = Some (lit "Content-Length: " ++ dec n ++ lit crlf).
Proof.
  change (lit ("Content-Length: %ld" +:+ crlf))
    with (lit "Content-Length: " ++ lit "%ld" ++ lit crlf).
  rewrite format_text by (by apply (bool_decide_unpack _)).
  by rewrite <-(app_nil_r (lit crlf)).
Qed.

(** With the strings [F] of its caller and its own beside it, the append of the text [m] to
    an empty string of the handler gives it another address.  The library allows this: only
    the pointer that [sdscat] returns is valid afterwards. *)
Definition append_moved `{SdsLib} (F : gmap sds sds_obj) (m : bytes) : Prop :=
  ∃ h l sp ps, heap_is ((l, SdsObj [] sp) :: ps) F (sds_view h) ∧ (sdscat l m h).1 ≠ l.

(** The request asks for a file of a known type, and the append of the name of that type in
    [http_determine_mime] moves the string. *)
Definition type_moved `{SdsLib} (F : gmap sds sds_obj) (req : bytes) : Prop :=
  ∃ t m, target req = Some t ∧ name_type (file_name t) m ∧ append_moved F m.

(** The contract of the file calls: [read] stores no more than it was asked for, and
    the size that [fstat] reports is not negative. *)
Definition file_calls_ok `{Env} : Prop :=
  (∀ tr fd n, (length (x_data (env tr (X_read fd n))) ≤ Z.to_nat n)%nat) ∧
  (∀ tr fd, 0 ≤ x_out (env tr (X_fstat fd))).

Section handler.
Context `{SL : SdsLib, SS : !SdsSpec SL, LA : LoggerAPI, E : Env}.
Implicit Types (s : machine) (ps : list (sds * sds_obj)).

Lemma parse_wp c req lf sp ps F s :
  cstr (acRecvBuff c) = Some req →
  heap_is ((lf, SdsObj [] sp) :: ps) F (heap_of s) →
  wp (http_parse_request c lf) (λ r s', ∃ o rc,
    heap_is ((r.2, o) :: ps) F (heap_of s') ∧ rc = env (m_trace s) X_regcomp ∧
    ((r.1 = 1 ∧ (x_ret rc = 0 → target req = None) ∧
      ∃ evs, m_trace s' = m_trace s ++ evs ∧ handled req evs []) ∨
     (r.1 = 0 ∧ target req = Some (sds_buf o) ∧ x_ret rc = 0 ∧
      ∃ rf, m_trace s' = m_trace s ++ [(X_regcomp, rc); (X_regfree, rf)]))) s.
Proof.
  intros Hreq Hheap. unfold http_parse_request. wstep. wstep.
  rewrite Hreq. destruct (Z.eqb_spec (x_ret r) 0) as [Hrc|Hrc].
  2:{ wstep. exists (SdsObj [] sp), r. split_and!; [done..|]. left. split_and!; [done..|].
      exists [(X_regcomp, r)]. split; [done|]. by constructor. }
  destruct (regexec req) as [[so eo]|] eqn:Hm.
  - wsteps. eexists _, r. split_and!; [done..|]. right. simpl. split_and!; [done| |done|].
    + unfold target. rewrite Hm. simpl. f_equal. f_equal.
      apply cstr_Some in Hreq as (_ & rest & ->).
      apply regexec_span in Hm as [_ ?]. symmetry. by apply slice_in_string.
    + by eexists.
  - assert (target req = None) by (unfold target; by rewrite Hm).
    wsteps. exists (SdsObj [] sp), r. split_and!; [done..|]. left. split_and!; [done..|].
    eexists. split; [done|]. by constructor.
Qed.

Lemma check_wp lf lp nm sp ps F s :
  NUL ∉ sds_buf nm →
  heap_is ((lf, nm) :: (lp, SdsObj [] sp) :: ps) F (heap_of s) →
  wp (http_check_access_file lf lp) (λ r s', ∃ nm' sp' ra,
    sds_buf nm' = file_name (sds_buf nm) ∧
    heap_is ((r.1.2, nm') :: (r.2, SdsObj (file_path (sds_buf nm)) sp') :: ps) F (heap_of s') ∧
    m_trace s' = m_trace s ++ [(X_access (file_path (sds_buf nm)), ra)] ∧
    ra = env (m_trace s) (X_access (file_path (sds_buf nm))) ∧
    r.1.1 = (if x_ret ra =? -1 then 1 else 0)) s.
Proof.
  intros Hn Hheap. unfold http_check_access_file. wstep. wstep. wstep. wstep. wstep. wstep.
  apply wp_bind. eapply (wp_mono _ (λ l s', ∃ nm', sds_buf nm' = file_name (sds_buf nm) ∧
    heap_is ((l, nm') :: (lp, SdsObj [] sp) :: ps) F (heap_of s') ∧ m_trace s' = m_trace s)).
  { unfold file_name. destruct nm as [[|b nm] nsp]; simpl in *.
    - wstep. eexists. split; [|split; [done|congruence]]. done.
    - apply not_elem_of_cons in Hn as [Hb Hn]. rewrite decide_False by congruence.
      destruct (Z.eqb_spec (code b - code NUL) 0).
      { exfalso. apply Hb. symmetry. apply code_inj. lia. }
      wstep. eexists. split; [|split; [done|congruence]]. done. }
  clear Hheap. intros l' s1 (nm' & Hnm' & Hheap & Ht1). cbv beta.
  assert (NUL ∉ sds_buf nm') as Hn' by (rewrite Hnm'; by apply file_name_no_nul).
  wstep. wstep. wstep. eapply wp_sds_catprintf; [by apply path_format|done|pick|].
  rewrite Hnm'. fold (file_path (sds_buf nm)). sds_intro s1. wsteps.
  rewrite cprefix_id in * by (by apply file_path_no_nul).
  destruct (x_ret r =? -1) eqn:Hra; wsteps;
    exists nm', sp0, r; rewrite Hra; (split_and!; [done|heap_done|done..]).
Qed.

Lemma media_type_no_nul e m : media_type e m → NUL ∉ m.
Proof. destruct 1; by apply (bool_decide_unpack _). Qed.

(** The string [lm] is none of those allocated. *)
Definition dangling (lm : sds) ps (F : gmap sds sds_obj) : Prop := (lm ∉ ps.*1) ∧ F !! lm = None.

Lemma dangling_lookup lm ps F s : dangling lm ps F → heap_is ps F (heap_of s) → heap_of s !! lm = None.
Proof. intros [Hn HF] Hh. by rewrite (heap_is_lookup_ne _ _ _ _ Hh Hn). Qed.

(** An append whose result is dropped: the string is where it was, or the pointer dangles. *)
Lemma wp_sds_cat_dropped l x sp ps ps' F (Q : sds → machine → Prop) s :
  heap_is ps F (heap_of s) → ps ≡ₚ (l, SdsObj [] sp) :: ps' →
  (∀ sp' s', heap_is ((l, SdsObj x sp') :: ps') F (heap_of s') → m_trace s' = m_trace s → Q l s') →
  (∀ l' o' s', append_moved F x → heap_is ((l', o') :: ps') F (heap_of s') →
     dangling l ((l', o') :: ps') F → m_trace s' = m_trace s → Q l' s') →
  wp (sds_cat l x) Q s.
Proof.
  intros Hh Hp Hstay Hmove. apply wp_bind. eapply wp_deref; [done..|].
  apply wp_upd_sds. intros s' Hs' _ Ht. rewrite Hp in Hh.
  destruct (sdscat_law (m_sds s) l x _ (proj1 Hh)) as [Hl [sp' Hv]]. cbn [sds_buf app] in Hv.
  set (r := (sdscat l x (m_sds s)).1) in *.
  assert (heap_is ((r, SdsObj x sp') :: ps') F (heap_of s')) as Hh'
    by (rewrite Hs', Hv; by eapply heap_is_move).
  destruct (decide (r = l)) as [Hr|Hr]; [rewrite Hr in *; by eapply Hstay|].
  eapply Hmove; [by exists (m_sds s), l, sp, ps'|done| |done].
  destruct (heap_is_head _ _ _ _ _ Hh) as [Hn HF]. split; [|done]. by apply not_elem_of_cons.
Qed.

Lemma mime_wp lf lm nm sp ps F s :
  NUL ∉ sds_buf nm →
  heap_is ((lf, nm) :: (lm, SdsObj [] sp) :: ps) F (heap_of s) →
  wp (http_determine_mime lf lm) (λ z s',
    m_trace s' = m_trace s ∧
    ((z = 0 ∧ ∃ m, name_type (sds_buf nm) m ∧ (NUL ∉ m) ∧
        ((∃ sp', heap_is ((lf, nm) :: (lm, SdsObj m sp') :: ps) F (heap_of s')) ∨
         (append_moved F m ∧ ∃ lm' o, heap_is ((lf, nm) :: (lm', o) :: ps) F (heap_of s') ∧
            dangling lm ((lf, nm) :: (lm', o) :: ps) F))) ∨
     (z = 1 ∧ (∀ m, ¬ name_type (sds_buf nm) m) ∧
        heap_is ((lf, nm) :: (lm, SdsObj [] sp) :: ps) F (heap_of s')))) s.
Proof.
  intros Hn Hheap. unfold http_determine_mime. wsteps. rewrite cprefix_id by done.
  destruct (ext_loop_spec (S (length (sds_buf nm))) (sds_buf nm) 0 None)
    as (r & -> & Hr); [rewrite drop_0; lia|].
  destruct Hr as [[-> Hr]|(i & -> & Hi & Hr)].
  { wsteps. split; [done|]. right. split_and!; [done| |done].
    intros m (pre & e & He & _). rewrite drop_0 in Hr. apply Hr.
    rewrite He. apply elem_of_app. right. by left. }
  pose proof (λ m, name_type_last_dot _ _ m Hi Hr) as Hty.
  assert (NUL ∉ drop (i + 1) (sds_buf nm)) as Hne.
  { intros H. apply Hn. rewrite <-(take_drop (i + 1) (sds_buf nm)). apply elem_of_app. auto. }
  destruct (mime_of_ext (drop (i + 1) (sds_buf nm))) as [m|] eqn:Hm.
  2:{ wsteps. split; [done|]. right. split_and!; [done| |done].
      intros m Hnt. apply Hty, mime_of_ext_spec in Hnt; [congruence|done]. }
  apply mime_of_ext_spec in Hm; [|done]. pose proof (media_type_no_nul _ _ Hm) as Hnul.
  apply Hty in Hm. wstep. eapply wp_sds_cat_dropped; [eassumption|pick| |].
  - intros sp' s' Hheap' Htr'. new_heap s0 Hheap'. carry s0 s'. wsteps.
    split; [done|]. left. split; [done|]. exists m. split_and!; [done..|]. left. exists sp'. heap_done.
  - intros l' o' s' Hmv Hheap' Hd Htr'. new_heap s0 Hheap'. carry s0 s'.
    apply wp_bind. unfold wp at 1, sds_arg. rewrite (dangling_lookup _ _ _ _ Hd Hheap). wsteps.
    split; [done|]. left. split; [done|]. exists m. split_and!; [done..|]. right.
    split; [done|]. exists l', o'. split; [heap_done|]. destruct Hd as [Hd HF]. split; [set_solver|done].
Qed.

(** What a short [read] leaves behind the data is what the space held before. *)
Lemma take_app_spare n (d sp : bytes) :
  (length d ≤ n)%nat → (n ≤ length sp)%nat →
  ∃ rest, take n (d ++ drop (length d) sp) = d ++ rest ∧ length (d ++ rest) = n.
Proof.
  intros. exists (take (n - length d) (drop (length d) sp)). split.
  - by rewrite take_app_ge.
  - rewrite length_app, length_take, length_drop. lia.
Qed.

Lemma send_file_wp lf lp lm lb nm po m spm sp ps F s :
  file_calls_ok → NUL ∉ sds_buf po → NUL ∉ m →
  heap_is ((lf, nm) :: (lp, po) :: (lm, SdsObj m spm) :: (lb, SdsObj [] sp) :: ps) F (heap_of s) →
  wp (http_send_file lf lp lm lb) (λ lb' s', ∃ o ro,
    heap_is ((lf, nm) :: (lp, po) :: (lm, SdsObj m spm) :: (lb', o) :: ps) F (heap_of s') ∧
    ((x_ret ro = -1 ∧ sds_buf o = header_200 m ∧
      m_trace s' = m_trace s ++ [(X_open (sds_buf po), ro)]) ∨
     (x_ret ro ≠ -1 ∧ ∃ st rd rest,
      length (x_data rd ++ rest) = Z.to_nat (x_out st) ∧
      sds_buf o = header_200 m ++ header_length (x_out st) ++ x_data rd ++ rest ∧
      m_trace s' = m_trace s ++ [(X_open (sds_buf po), ro); (X_fstat (x_ret ro), st);
                                 (X_read (x_ret ro) (x_out st), rd)]))) s.
Proof.
  intros [Hrd Hst] Hpn Hmn Hheap. unfold http_send_file. wsteps.
  wprintf type_format. wsteps. rewrite cprefix_id in * by done.
  set (b := (lit ("HTTP/1.1 200 OK" +:+ crlf) ++ _) ++ _) in Hheap.
  assert (b = header_200 m) as Hb by (unfold b, header_200; by rewrite <-!app_assoc).
  clearbody b. subst b.
  destruct (Z.eqb_spec (x_ret r) (-1)) as [Hro|Hro].
  { wstep. eexists _, r. split; [heap_done|]. left. by split_and!. }
  wsteps. wprintf length_format. wsteps. rewrite <-app_assoc in Hheap.
  fold (header_length (x_out r0)) in Hheap.
  assert (0 ≤ x_out r0) as Hpos by (rewrite Hr0; apply Hst).
  rewrite (proj2 (Z.ltb_ge _ _)) by done. wsteps. wstep.
  { etrans; [|exact Hlen]. rewrite Hr1. apply Hrd. }
  assert (length (x_data r1) ≤ Z.to_nat (x_out r0))%nat as Hd by (rewrite Hr1; apply Hrd).
  destruct (take_app_spare _ _ _ Hd Hlen) as (rest & Erest & Hrest).
  wsteps. wstep.
  { rewrite length_app, length_drop. lia. }
  wsteps. eexists _, r. split; [heap_done|]. right. split; [done|].
  exists r0, r1, rest. split_and!; [done| |done].
  cbn [sds_buf]. by rewrite Erest, <-app_assoc.
Qed.

(** An argument and a text that nothing is known of. *)
Lemma wp_sds_arg_any l (Q : carg → machine → Prop) s : (∀ a, Q a s) → wp (sds_arg l) Q s.
Proof. intros HQ. unfold wp, sds_arg. destruct (heap_of s !! l); apply HQ. Qed.

Lemma wpf_catprintf_any l f args o ps ps' F (Q : sds → machine → Prop) s :
  heap_is ps F (heap_of s) → ps ≡ₚ (l, o) :: ps' →
  (∀ l' o' s', heap_is ((l', o') :: ps') F (heap_of s') → Q l' s') →
  wpf (sds_catprintf l f args) Q (λ x, ∃ u, x = Bad u) s.
Proof.
  intros Hh Hp HQ. destruct (format (lit f) args) as [t|] eqn:Hf.
  - apply wpf_wp. eapply wp_sds_catprintf; [done..|]. intros. by eapply HQ.
  - unfold sds_catprintf. apply wpf_bind_wp. eapply wp_deref; [done..|]. rewrite Hf. apply wpf_undef. by eexists.
Qed.

(** Sending a file with a pointer [lm] that dangles: when this returns at all, the strings
    are those it began with, the send buffer possibly at another address. *)
Lemma send_file_dangling lf lp lm lb nm po ob ps F s :
  file_calls_ok →
  heap_is ((lf, nm) :: (lp, po) :: (lb, ob) :: ps) F (heap_of s) →
  wpf (http_send_file lf lp lm lb) (λ lb' s', ∃ ob',
    heap_is ((lf, nm) :: (lp, po) :: (lb', ob') :: ps) F (heap_of s')) (λ x, ∃ u, x = Bad u) s.
Proof.
  intros [Hrd Hst] Hheap. unfold http_send_file. do 3 (apply wpf_bind_wp; wstep).
  apply wpf_bind_wp, wp_sds_arg_any. intros a. apply wpf_bind.
  eapply wpf_catprintf_any; [eassumption|pick|]. clear Hheap. intros l' o' s2 Hheap. apply wpf_wp.
  wsteps. destruct (Z.eqb_spec (x_ret r) (-1)) as [Hro|Hro].
  { wstep. eexists. heap_done. }
  wsteps. wprintf length_format. wsteps.
  assert (0 ≤ x_out r0) as Hpos by (rewrite Hr0; apply Hst).
  rewrite (proj2 (Z.ltb_ge _ _)) by done. wsteps. wstep.
  { etrans; [|exact Hlen]. rewrite Hr1. apply Hrd. }
  assert (length (x_data r1) ≤ Z.to_nat (x_out r0))%nat as Hd by (rewrite Hr1; apply Hrd).
  wsteps. wstep.
  { rewrite length_app, length_drop. lia. }
  wsteps. eexists. heap_done.
Qed.

(** To free the pointer that dangles is undefined, unless the send buffer has moved there;
    then it is the send buffer that is freed. *)
Lemma free_dangling lm l o ps F (Q : unit → machine → Prop) s :
  dangling lm ps F → heap_is ((l, o) :: ps) F (heap_of s) →
  (∀ s', l = lm → heap_is ps F (heap_of s') → Q tt s') →
  wpf (sds_free lm) Q (λ x, ∃ u, x = Bad u) s.
Proof.
  intros Hd Hh HQ. destruct (decide (l = lm)) as [->|Hl].
  - apply wpf_wp. eapply wp_sds_free; [eassumption|pick|]. intros. by apply HQ.
  - eapply wpf_fails; [|by eexists]. unfold sds_free. apply fails_bind_l. exists s. unfold deref.
    rewrite (dangling_lookup lm ((l, o) :: ps) F); [done| |done].
    destruct Hd. split; [|done]. by apply not_elem_of_cons.
Qed.

Lemma respond_wpf req lf lb nm rc rf sp F tr s :
  file_calls_ok → NUL ∉ req →
  x_ret rc = 0 → target req = Some (sds_buf nm) →
  heap_is [(lf, nm); (lb, SdsObj [] sp)] F (heap_of s) →
  m_trace s = tr ++ [(X_regcomp, rc); (X_regfree, rf)] →
  wpf (http_respond 0 lf lb) (λ p s', (∃ nm' ob evs,
    heap_is [(p.1, nm'); (p.2, ob)] F (heap_of s') ∧
    handled req evs (sds_buf ob) ∧ m_trace s' = tr ++ evs) ∨
    (type_moved F req ∧ ∃ nm' lm' o, heap_is [(p.1, nm'); (lm', o)] F (heap_of s') ∧
       dangling p.2 [(p.1, nm'); (lm', o)] F))
    (λ x, (∃ u, x = Bad u) ∧ type_moved F req) s.
Proof.
  intros Hfile Hnul Hrc Hto Hheap Htr.
  pose proof (target_no_nul _ _ Hnul Hto) as Hnt. unfold http_respond. simpl.
  apply wpf_bind_wp. wsteps. apply wpf_bind_wp.
  eapply wp_mono; [eapply check_wp; [exact Hnt|heap_picks]|].
  intros [[z2 lf2] lp2] s4 (nm' & sp' & ra & Hnm' & Hh & Htr' & Hra' & Hz2). cbn [fst snd] in *.
  new_heap s0 Hh. carry s0 s4.
  destruct (Z.eqb_spec (x_ret ra) (-1)) as [Hra|Hra]; subst z2; simpl.
  { apply wpf_wp. unfold http_404. wsteps. left. eexists _, _, _. split; [heap_done|]. split; [|done].
    cbn [sds_buf]. by econstructor. }
  assert (NUL ∉ sds_buf nm') as Hn' by (rewrite Hnm'; by apply file_name_no_nul).
  apply wpf_bind, wpf_bind_wp. wstep. apply wpf_bind_wp.
  eapply wp_mono; [eapply mime_wp; [exact Hn'|heap_picks]|].
  rewrite Hnm'. intros z3 s6 [Ht6 [(-> & m & Hty & Hmn & [[spm Hh]|(Hmv & lm' & o & Hh & Hd)])|(-> & Hty & Hh)]];
    new_heap s1 Hh; carry s1 s6; simpl.
  3:{ apply wpf_wp. wsteps. apply wpf_wp. wsteps. left. eexists _, _, _. split; [heap_done|]. split; [|exact Htr].
      by econstructor. }
  - apply wpf_wp. wsteps. eapply wp_mono; [eapply send_file_wp; [done| |exact Hmn|heap_picks]|].
    { by apply file_path_no_nul. }
    intros lb' s7 (ob & ro & Hh & Hres). clear Hheap. rename Hh into Hheap.
    rewrite Htr in Hres. clear Htr. cbn [sds_buf] in Hres. wsteps. apply wpf_wp. wsteps. left.
    destruct Hres as [(Hro & Hbuf & Ht7)|(Hro & st & rd & rest & Hlen & Hbuf & Ht7)];
      rewrite Ht7, <-app_assoc in Htr; eexists _, ob, _;
      (split; [heap_done|split; [rewrite Hbuf|exact Htr]]); by econstructor.
  - assert (type_moved F req) as Hmoved by (by exists (sds_buf nm), m).
    eapply wpf_mono; [|intros ? ? H; exact H|intros x Hx; split; [exact Hx|done]].
    apply wpf_bind. eapply wpf_mono; [eapply send_file_dangling; [done|heap_picks]| |done].
    intros lb' s7 (ob & Hh). clear Hheap Htr. rename Hh into Hheap. cbv beta.
    apply wpf_bind. eapply (free_dangling _ lb' ob); [|heap_picks|].
    { destruct Hd as [Hd HF]. split; [set_solver|done]. }
    intros s8 <- Hh. clear Hheap. rename Hh into Hheap. apply wpf_wp. wsteps. apply wpf_wp. wsteps. right.
    split; [done|]. eexists nm', lm', o. split; [heap_done|].
    destruct Hd as [Hd HF]. split; [set_solver|done].
Qed.

(** The body of the handler: it answers, or is undefined because the append of the media
    type moved. *)
Lemma handle_wpf c req s :
  file_calls_ok → cstr (acRecvBuff c) = Some req →
  wpf (http_handle_client_request c) (λ r s', ∃ evs resp rs,
    r = (EXIT_SUCCESS, ClientStruct (iId c) (iSockfd c) (cIP c) None (acRecvBuff c)) ∧
    handled req evs resp ∧
    m_trace s' = m_trace s ++ evs ++ [(X_send (iSockfd c) resp, rs)] ∧
    heap_of s' = heap_of s) (λ x, (∃ u, x = Bad u) ∧ type_moved (heap_of s) req) s.
Proof.
  intros Hfile Hreq.
  pose proof (cstr_Some _ _ Hreq) as [Hnul _].
  assert (heap_is [] (heap_of s) (heap_of s)) as Hheap by done.
  unfold http_handle_client_request. do 2 (apply wpf_bind_wp; wstep). apply wpf_bind_wp.
  eapply wp_mono; [by eapply parse_wp|].
  intros [z1 lf1] s2 (nm & rc & Hh & Hrc0 & Hcase). cbn [fst snd] in *. clear Hheap.
  rewrite Htr in Hcase. apply wpf_bind.
  eapply (wpf_mono _ (λ p s', (∃ nm' ob evs, heap_is [(p.1, nm'); (p.2, ob)] (heap_of s) (heap_of s')
    ∧ handled req evs (sds_buf ob) ∧ m_trace s' = m_trace s ++ evs) ∨
    (type_moved (heap_of s) req ∧ ∃ nm' lm' o, heap_is [(p.1, nm'); (lm', o)] (heap_of s) (heap_of s') ∧
       dangling p.2 [(p.1, nm'); (lm', o)] (heap_of s))) _ (λ x, (∃ u, x = Bad u) ∧ type_moved (heap_of s) req)); [| |done].
  - destruct Hcase as [(-> & _ & evs & Ht & Hev)|(-> & Hto & Hrc & rf & Ht)].
    + unfold http_respond. simpl. apply wpf_wp. wsteps. left. eexists _, _, evs. split; [heap_done|]. done.
    + by eapply respond_wpf.
  - clear Htr. intros [lf2 lb2] s3 [(nm' & ob & evs & Hheap & Hhd & Htr)|(Hmv & nm' & lm' & o & Hheap & Hd)];
      cbn [fst snd] in *.
    + apply wpf_wp. wsteps. destruct (x_ret r =? -1); wsteps; exists evs, (sds_buf ob), r; done.
    + apply wpf_bind_wp. wstep. eapply wpf_fails; [|split; [by eexists|done]].
      apply fails_bind_l. eexists. unfold deref. rewrite (dangling_lookup lb2 [(lm', o)] (heap_of s)); [done| |done].
      destruct Hd as [Hd HF]. split; [set_solver|done].
Qed.

(** C2: For every request that ends before the receive buffer does, and every behaviour of
    the file calls within their contract, the request handler returns or is undefined.  When
    it returns it made the calls of one of the six cases of [handled], then sent exactly one
    response, the one that case prescribes, and it leaves the [sds] heap as it found it: every
    string it allocates it also frees, once.  It is undefined only for a request for a file of
    a known type, and only where [sdscat] moved the string for the type, whose new address
    [http_determine_mime] drops. *)
Theorem request_handled c req s :
  file_calls_ok → cstr (acRecvBuff c) = Some req →
  (∃ evs resp rs s',
    http_handle_client_request c s =
      (Ok (EXIT_SUCCESS, ClientStruct (iId c) (iSockfd c) (cIP c) None (acRecvBuff c)), s') ∧
    handled req evs resp ∧
    m_trace s' = m_trace s ++ evs ++ [(X_send (iSockfd c) resp, rs)] ∧
    heap_of s' = heap_of s) ∨
  (∃ u, fails (http_handle_client_request c) u s ∧ type_moved (heap_of s) req).
Proof.
  intros Hfile Hreq. destruct (wpf_run _ _ _ _ (handle_wpf c req s Hfile Hreq))
    as [(r & s' & Hrun & evs & resp & rs & -> & ?)|[(u & Hu & _ & Hmv)|[_ [[u [=]] _]]]].
  - left. by exists evs, resp, rs, s'.
  - right. by exists u.
Qed.

(** A buffer that is not a string is read beyond its end, unless the pattern cannot be
    compiled. *)
Lemma handle_unterminated c req s :
  cstr (acRecvBuff c) = None →
  wpf (http_handle_client_request c) (λ r s', ∃ evs resp rs,
    r = (EXIT_SUCCESS, ClientStruct (iId c) (iSockfd c) (cIP c) None (acRecvBuff c)) ∧
    handled req evs resp ∧
    m_trace s' = m_trace s ++ evs ++ [(X_send (iSockfd c) resp, rs)] ∧
    heap_of s' = heap_of s) (λ x, x = Bad OutOfBounds) s.
Proof.
  intros Hreq. assert (heap_is [] (heap_of s) (heap_of s)) as Hheap by done.
  unfold http_handle_client_request, http_parse_request. do 2 (apply wpf_bind_wp; wstep).
  apply wpf_bind, wpf_bind_wp. wstep. rewrite Hreq. destruct (Z.eqb_spec (x_ret r) 0) as [Hrc|Hrc].
  { by apply wpf_undef. }
  apply wpf_wp. wsteps. apply wpf_wp. unfold http_respond. simpl. wsteps.
  destruct (x_ret r0 =? -1); wsteps; exists [(X_regcomp, r)], [], r0; (split_and!; [done|by constructor|done..]).
Qed.

(** The handler closes no descriptor, and a file whose size it asked for, that is,
    every file it serves, is one it opened itself: each page served leaves one more
    descriptor open in the worker. *)
Lemma served_file_stays_open c req s :
  file_calls_ok → cstr (acRecvBuff c) = Some req →
  wpf (http_handle_client_request c) (λ _ s', ∃ new,
    m_trace s' = m_trace s ++ new ∧ fds_closed new = [] ∧
    ∀ fd st, (X_fstat fd, st) ∈ new → fds_opened new = [fd]) (λ _, type_moved (heap_of s) req) s.
Proof.
  intros Hfile Hreq.
  eapply wpf_mono; [by apply (handle_wpf c req)| |by intros f [_ ?]].
  intros r s' (evs & resp & rs & _ & Hh & Ht & _).
  exists (evs ++ [(X_send (iSockfd c) resp, rs)]). split; [done|].
  destruct Hh; (split; [done|]); intros fd st'; rewrite list_elem_of_In; simpl;
    intros; destruct_or?; simplify_eq; try done.
  unfold fds_opened. simpl. by rewrite (proj2 (Z.eqb_neq _ _)).
Qed.

(** [sdscat] to an empty string, which has no space to spare, moves it. *)
Definition append_moves : Prop := ∀ h l o x,
  sds_view h !! l = Some o → sds_buf o = [] → x ≠ [] → (sdscat l x h).1 ≠ l.

(** C38: The results of [sdscat] in [http_determine_mime] are dropped.  When the append
    moves the string, which the library's contract allows, the function reports success
    for a name of a known type and leaves its caller with a pointer to a released
    string, while the string that holds the media type is at an address nobody keeps. *)
Theorem mime_pointer_dangles lf lm nm sp m ps F s :
  append_moves → NUL ∉ sds_buf nm → name_type (sds_buf nm) m →
  heap_is ((lf, nm) :: (lm, SdsObj [] sp) :: ps) F (heap_of s) →
  wp (http_determine_mime lf lm) (λ z s', z = 0 ∧ heap_of s' !! lm = None ∧
    ∃ lm' o, heap_is ((lf, nm) :: (lm', o) :: ps) F (heap_of s')) s.
Proof.
  intros Hmv Hn Hty Hheap. unfold http_determine_mime. wsteps. rewrite cprefix_id by done.
  destruct (ext_loop_spec (S (length (sds_buf nm))) (sds_buf nm) 0 None)
    as (r & -> & Hr); [rewrite drop_0; lia|].
  destruct Hr as [[-> Hr]|(i & -> & Hi & Hr)].
  { exfalso. destruct Hty as (pre & e & He & _). rewrite drop_0 in Hr. apply Hr.
    rewrite He. apply elem_of_app. right. by left. }
  apply (name_type_last_dot _ _ m Hi Hr) in Hty.
  assert (mime_of_ext (drop (i + 1) (sds_buf nm)) = Some m) as ->.
  { apply mime_of_ext_spec; [|done]. intros H. apply Hn.
    rewrite <-(take_drop (i + 1) (sds_buf nm)). apply elem_of_app. auto. }
  assert (heap_is ((lm, SdsObj [] sp) :: (lf, nm) :: ps) F (heap_of s0)) as Hh by heap_done.
  pose proof (heap_is_head _ _ _ _ _ Hh) as [Hlm HF]. unfold sds_cat. wsteps.
  apply wp_upd_sds. intros s1 Hs1 _ Ht1.
  destruct (sdscat_law (m_sds s0) lm m _ (proj1 Hh)) as [Hl [sp' Hv]].
  pose proof (Hmv _ _ _ m (proj1 Hh) eq_refl ltac:(by destruct Hty)) as Hne.
  rewrite Hv in Hs1. clear Hheap.
  assert (heap_is (((sdscat lm m (m_sds s0)).1, SdsObj m sp') :: (lf, nm) :: ps) F (heap_of s1))
    as Hheap by (rewrite Hs1; by eapply heap_is_move).
  assert (lm ∉ ((sdscat lm m (m_sds s0)).1, SdsObj m sp').1 :: ((lf, nm) :: ps).*1) as Hni
    by (by apply not_elem_of_cons).
  rewrite <-fmap_cons in Hni.
  wstep. unfold wp at 1, sds_arg. rewrite (heap_is_lookup_ne _ _ _ _ Hheap Hni), HF.
  wsteps. rewrite (heap_is_lookup_ne _ _ _ _ Hheap Hni).
  split_and!; [done|done|]. eexists _, _. heap_done.
Qed.

End handler.

(** ** Consequences *)

Lemma iprefix_app (p q r : bytes) :
  map tolower p = map tolower q → iprefix q (p ++ r) = true.
Proof.
  revert q. induction p as [|x p IH]; intros [|y q] H; simplify_eq/=; [done|].
  unfold ieq. by rewrite bool_decide_true, IH.
Qed.

Lemma to_space_app (t r : bytes) x :
  Forall (λ c, ieq c " "%char = false) t → ieq x " "%char = true → to_space (t ++ x :: r) = t.
Proof.
  intros Ht Hx. induction Ht as [|c t Hc _ IH]; cbn [to_space app]; [by rewrite Hx|].
  by rewrite Hc, IH.
Qed.

Lemma request_target (g t v rest : bytes) :
  map tolower g = lit "get /" → map tolower v = lit " http/1" →
  Forall (λ c, ieq c " "%char = false) t →
  target (g ++ t ++ v ++ rest) = Some (map tolower t).
Proof.
  intros Hg Hv Ht. assert (length g = 5%nat) as Hlen
    by (rewrite <-(length_map tolower g), Hg; done).
  unfold target, regexec. rewrite iprefix_app by (by rewrite Hg).
  rewrite <-Hlen, drop_app_length, <-drop_drop, drop_app_length.
  destruct v as [|x v]; [done|].
  assert (ieq x " "%char = true) as Hx.
  { apply (f_equal head) in Hv. injection Hv as Hv. unfold ieq. by rewrite Hv. }
  cbn [app]. rewrite (to_space_app t (v ++ rest) x) by done.
  rewrite drop_app_length. change (x :: v ++ rest) with ((x :: v) ++ rest).
  rewrite iprefix_app by (by rewrite Hv).
  cbn [mbind option_bind]. rewrite drop_app_length.
  by replace (length g + length t - length g)%nat with (length t) by lia; rewrite take_app_length.
Qed.

(** C37: A request line of the usual form is parsed to its target: for every buffer that
    holds a method in any case, a target without a space, the protocol in any case, and
    whatever follows up to a NUL, and when the pattern can be compiled, [http_parse_request]
    succeeds, and the string it gives back is the target, in lower case. *)
Theorem target_roundtrip `{SL : SdsLib, SS : !SdsSpec SL, LA : LoggerAPI, E : Env}
    c (g t v rest after : bytes) lf sp ps F s :
  acRecvBuff c = (g ++ t ++ v ++ rest) ++ NUL :: after → NUL ∉ g ++ t ++ v ++ rest →
  map tolower g = lit "get /" → map tolower v = lit " http/1" →
  Forall (λ c, ieq c " "%char = false) t →
  x_ret (env (m_trace s) X_regcomp) = 0 → heap_is ((lf, SdsObj [] sp) :: ps) F (heap_of s) →
  wp (http_parse_request c lf) (λ r s', r.1 = EXIT_SUCCESS ∧ ∃ sp',
    heap_is ((r.2, SdsObj (map tolower t) sp') :: ps) F (heap_of s')) s.
Proof.
  intros Hbuf Hnul Hg Hv Ht Hrc Hheap. pose proof (request_target g t v rest Hg Hv Ht) as Htgt.
  eapply wp_mono; [eapply (parse_wp c (g ++ t ++ v ++ rest)); [|exact Hheap]|].
  - by rewrite Hbuf, cstr_app_nul, cprefix_id.
  - intros r s' ([b sp'] & rc & Hh & -> & [(_ & Hno & _)|(Hz & Hto & _)]).
    + by rewrite Hno in Htgt.
    + rewrite Htgt in Hto. injection Hto as Hb. cbn in Hb. subst b. split; [done|]. by exists sp'.
Qed.

(** ** A server directory with one file, for concrete runs *)

Module HttpExample.

Definition page : bytes := lit "hello".

(** [/opt/www/index.html] exists and holds [page]; everything else does not. *)
Definition answer (c : ext_call) : ext_ret :=
  match c with
  | X_access p | X_open p =>
      if decide (p = lit "/opt/www/index.html") then ExtRet 7 0 0 [] else ExtRet (-1) 2 0 []
  | X_fstat _ => ExtRet 0 0 5 []
  | X_read _ n => let d := take (Z.to_nat n) page in ExtRet (Z.of_nat (length d)) 0 0 d
  | X_send _ d => ExtRet (Z.of_nat (length d)) 0 0 []
  | _ => ExtRet 0 0 0 []
  end.

#[export] Instance world : Env := env_of answer.

(** A client whose receive buffer holds the text, filled up with zeros. *)
Definition client (text : string) : tsClientStruct :=
  ClientStruct 1 9 (lit "127.0.0.1") None
    (take 4096 (lit text ++ replicate 4096 NUL)).

Definition get_index : tsClientStruct := client ("GET / HTTP/1.1" +:+ crlf +:+ crlf).

(** In this instance no append moves. *)
Lemma model_in_place F m : ¬ @append_moved (sds_model false) F m.
Proof.
  intros (h & l & sp & ps & [Hl _] & Hne). apply Hne. simpl. unfold model_grow. simpl in Hl. by rewrite Hl.
Qed.

Lemma model_type_in_place F req : ¬ @type_moved (sds_model false) F req.
Proof. intros (t & m & _ & _ & Hm). by eapply model_in_place. Qed.

Lemma model_moves : @append_moves (sds_model true).
Proof.
  intros h l o x Hl _ _. exact (model_grow_moves l x [] h o Hl).
Qed.

Lemma files_ok : @file_calls_ok world.
Proof.
  split; [|done]. intros tr fd n. unfold env, world, env_of. simpl.
  rewrite length_take. lia.
Qed.

(** The response to the request for the index page. *)
Example index_response :
  let '(r, s') := @http_handle_client_request (sds_model false) null_logger world
                    get_index (start false) in
  last (m_trace s') =
    Some (X_send 9 (header_200 (lit "text/html") ++ header_length 5 ++ page), ExtRet 88 0 0 []).
Proof. vm_compute. done. Qed.

Definition is_ok {A} (r : outcome A) : bool := match r with Ok _ => true | _ => false end.

Lemma request_handled_witness :
  (∃ evs resp rs s',
    @http_handle_client_request (sds_model false) null_logger world get_index (start false) =
      (Ok (EXIT_SUCCESS, get_index), s') ∧
    handled (lit ("GET / HTTP/1.1" +:+ crlf +:+ crlf)) evs resp ∧
    m_trace s' = [] ++ evs ++ [(X_send 9 resp, rs)] ∧ heap_of s' = ∅) ∧
  (∃ u, fails (@http_handle_client_request (sds_model true) null_logger world get_index) u (start true) ∧
    @type_moved (sds_model true) ∅ (lit ("GET / HTTP/1.1" +:+ crlf +:+ crlf))).
Proof.
  split.
  - destruct (@request_handled (sds_model false) _ null_logger world get_index
      (lit ("GET / HTTP/1.1" +:+ crlf +:+ crlf)) (start false) files_ok) as [H|(u & _ & H)].
    + vm_compute. reflexivity.
    + exact H.
    + by apply model_type_in_place in H.
  - destruct (@request_handled (sds_model true) _ null_logger world get_index
      (lit ("GET / HTTP/1.1" +:+ crlf +:+ crlf)) (start true) files_ok) as [(evs & resp & rs & s' & H & _)|H].
    + vm_compute. reflexivity.
    + exfalso. apply (f_equal (λ r, is_ok r.1)) in H. revert H. vm_compute. discriminate.
    + exact H.
Defined.

(** With an allocator that moves strings, the request for the index page is undefined. *)
Definition two_strings : @machine (sds_model true) null_logger :=
  @Machine (sds_model true) null_logger
    ({[ 1%positive := SdsObj (lit "index.html") []; 2%positive := SdsObj [] [] ]}
     : gmap sds sds_obj) tt [].

Lemma mime_pointer_dangles_witness :
  wp (@http_determine_mime (sds_model true) null_logger 1%positive 2%positive)
    (λ z s', z = 0 ∧ heap_of s' !! 2%positive = None ∧
       ∃ lm' o, heap_is [(1%positive, SdsObj (lit "index.html") []); (lm', o)] ∅ (heap_of s'))
    two_strings ∧
  (@http_handle_client_request (sds_model true) null_logger world get_index (start true)).1
    = Undef Unspecified.
Proof.
  split; [|vm_compute; reflexivity].
  apply (@mime_pointer_dangles (sds_model true) _ null_logger 1%positive 2%positive
           (SdsObj (lit "index.html") []) [] (lit "text/html") []).
  - apply model_moves.
  - by apply (bool_decide_unpack _).
  - exists (lit "index"), (lit "html"). split_and!; [done| |constructor].
    by apply (bool_decide_unpack _).
  - vm_compute. done.
Defined.

Definition one_string : @machine (sds_model false) null_logger :=
  @Machine (sds_model false) null_logger ({[ 1%positive := SdsObj [] [] ]} : gmap sds sds_obj) tt [].

Lemma target_roundtrip_witness :
  wp (@http_parse_request (sds_model false) null_logger world (client "GeT /Doc/A.txt HTTP/1.1") 1%positive)
    (λ r s', r.1 = EXIT_SUCCESS ∧ ∃ sp',
       heap_is [(r.2, SdsObj (lit "doc/a.txt") sp')] ∅ (heap_of s')) one_string.
Proof.
  apply (@target_roundtrip (sds_model false) _ null_logger world (client "GeT /Doc/A.txt HTTP/1.1")
    (lit "GeT /") (lit "Doc/A.txt") (lit " HTTP/1") (lit ".1") (replicate 4072 NUL) 1%positive [] []).
  - vm_compute. reflexivity.
  - by apply (bool_decide_unpack _).
  - reflexivity.
  - reflexivity.
  - repeat constructor.
  - reflexivity.
  - vm_compute. done.
Defined.

End HttpExample.
