(* ===== verification/Settings.v ===== *)
(** * Settings: [src/src/cew_settings.c]

    The table of known options, the parsing of one option with its prefix comparisons,
    the loading of a settings file through libini (a parameter, being a submodule), and
    the life of the one string the settings own, the name of the log file.  An abstract
    configuration, with the name by value, is the specification that loading refines. *)

From S2P Require Import Prelude CString Machine SdsModel.
Local Open Scope Z_scope.

(** ** Data ([include/cew_settings.h]) *)

Record tsSSettings : Type := SSettings {
  lMaxClientsPerThread : Z;
  lWorkerThreads : Z;
  lLogLevel : Z;
  lPort : Z;
  pcLogfile : option sds;
}.

Definition SET_EXIT_SUCCESS : Z := EXIT_SUCCESS.
Definition SET_EXIT_FAILURE : Z := EXIT_FAILURE.
Definition SET_NOTYPE : Z := -1.
Definition SET_NOMAP : Z := -2.
Definition SET_NOFILE : Z := -3.

(** The static variable before anything is loaded. *)
Definition settings_zero : tsSSettings := SSettings 0 0 0 0 None.

Inductive eSettingsType : Type := TYPE_NONE | TYPE_LONG | TYPE_STRING.

(** The field a destination pointer of the table points to. *)
Inductive opt_dst : Type := D_workers | D_clients | D_port | D_logfile | D_level.

Record tsOptionMapping : Type := OptionMapping {
  pSection : option bytes;
  pKey : bytes;
  eType : eSettingsType;
  pvDst : option opt_dst;
}.

Definition sKnownOptions : list tsOptionMapping := [
  OptionMapping (Some (lit "general")) (lit "workers") TYPE_LONG (Some D_workers);
  OptionMapping (Some (lit "general")) (lit "clients") TYPE_LONG (Some D_clients);
  OptionMapping (Some (lit "general")) (lit "port") TYPE_LONG (Some D_port);
  OptionMapping (Some (lit "logging")) (lit "logfile") TYPE_STRING (Some D_logfile);
  OptionMapping (Some (lit "logging")) (lit "level") TYPE_LONG (Some D_level);
  OptionMapping None [] TYPE_NONE None ].

(** [memcpy] of a long to the field. *)
Definition store_long (d : opt_dst) (v : Z) (st : tsSSettings) : tsSSettings :=
  let '(SSettings c w l p f) := st in
  match d with
  | D_workers => SSettings c v l p f
  | D_clients => SSettings v w l p f
  | D_port => SSettings c w l v f
  | D_level => SSettings c w v p f
  | D_logfile => st
  end.

Definition store_logfile (f : option sds) (st : tsSSettings) : tsSSettings :=
  let '(SSettings c w l p _) := st in SSettings c w l p f.

Definition load_long (d : opt_dst) (st : tsSSettings) : Z :=
  match d with
  | D_workers => lWorkerThreads st
  | D_clients => lMaxClientsPerThread st
  | D_port => lPort st
  | D_level => lLogLevel st
  | D_logfile => 0
  end.

(** ** libini *)

(** The calls the source makes: the file, the next section (positive: found, zero: end
    of file, negative: error), the next key and value of the section (the same). *)
Class LibIni : Type := {
  ini : Type;
  ini_open : bytes → option ini;
  ini_next_section : ini → Z * bytes * ini;
  ini_read_pair : ini → Z * (bytes * bytes) * ini;
}.

(** Reading consumes a finite file: each section or pair found makes it smaller. *)
Class LibIniFinite (LI : LibIni) (size : ini → nat) : Prop := {
  next_section_shrinks i z b i' :
    ini_next_section i = (z, b, i') → 0 < z → (size i' < size i)%nat;
  read_pair_shrinks i z p i' :
    ini_read_pair i = (z, p, i') → 0 < z → (size i' < size i)%nat;
  read_pair_end i z p i' :
    ini_read_pair i = (z, p, i') → z = 0 → (size i' ≤ size i)%nat;
}.

(** Lower case up to the terminator, as the loops of the source write it. *)
Definition lower_cstr (b : bytes) : bytes :=
  map tolower (cprefix b) ++ drop (length (cprefix b)) b.

Section settings.
Context `{SL : SdsLib, LA : LoggerAPI, E : Env, LI : LibIni}.

(** The table without its last row, which the loops leave out. *)
Definition options_walked : list tsOptionMapping := take 5 sKnownOptions.

(** A failed [assert] aborts the process. *)
Definition ABORTED : Z := 134.

Fixpoint log_options (opts : list tsOptionMapping) (st : tsSSettings) : M unit :=
  match opts with
  | [] => mret tt
  | o :: opts' =>
    match pSection o, pvDst o with
    | None, _ => st_exit ABORTED
    | Some _, None => st_undef NullDeref
    | Some sec, Some d =>
      _ ← match eType o with
          | TYPE_LONG =>
              log_info "Setting %s:%s = %ld"
                [AStr (region sec); AStr (region (pKey o)); AInt (load_long d st)]
          | TYPE_STRING =>
              a ← match pcLogfile st with Some l => sds_arg l | None => mret (AStr []) end;
              log_info "Setting %s:%s = %s" [AStr (region sec); AStr (region (pKey o)); a]
          | TYPE_NONE => mret 0
          end;
      log_options opts' st
    end
  end.

Definition settings_to_log (st : tsSSettings) : M unit := log_options options_walked st.

(** The loop over the table; [break] in the string case leaves the [switch], not the
    loop. *)
Fixpoint parse_loop (opts : list tsOptionMapping) (sec key val : bytes) (cpcValue : sds)
    (st : tsSSettings) : M (Z * tsSSettings) :=
  match opts with
  | [] => mret (SET_NOMAP, st)
  | o :: opts' =>
    match pSection o, pvDst o with
    | None, _ => st_exit ABORTED
    | Some _, None => st_undef NullDeref
    | Some s, Some d =>
      if (strncmp s sec (length s) =? 0) && (strncmp (pKey o) key (length (pKey o)) =? 0)
      then
        match eType o with
        | TYPE_LONG => mret (SET_EXIT_SUCCESS, store_long d (strtol val) st)
        | TYPE_STRING =>
            _ ← match pcLogfile st with Some l => sds_free l | None => mret tt end;
            l ← sds_dup cpcValue;
            parse_loop opts' sec key val cpcValue (store_logfile (Some l) st)
        | TYPE_NONE => mret (SET_NOTYPE, st)
        end
      else parse_loop opts' sec key val cpcValue st
    end
  end.

Definition parse_option (cpcSection cpcKey cpcValue : sds) (st : tsSSettings)
  : M (Z * tsSSettings) :=
  osec ← deref cpcSection;
  okey ← deref cpcKey;
  oval ← deref cpcValue;
  parse_loop options_walked (sds_buf osec) (sds_buf okey) (sds_buf oval) cpcValue st.

Definition lower_in_place (l : sds) : M unit :=
  o ← deref l; sds_overwrite l (lower_cstr (sds_buf o)).

(** The inner [while (1)]; [false] stands for the jump to [error]. *)
Fixpoint pairs_loop (fuel : nat) (i : ini) (Section_ : sds) (st : tsSSettings)
  : M (bool * ini * tsSSettings) :=
  match fuel with
  | O => st_nofuel
  | S fuel' =>
    let '(iRet, (kbuf, vbuf), i') := ini_read_pair i in
    if iRet =? 0 then
      _ ← log_debug "No more data." [];
      mret (true, i', st)
    else if iRet <? 0 then
      _ ← log_error "ERROR: code %i" [AInt iRet];
      mret (false, i', st)
    else
      Key ← sds_new kbuf;
      Value ← sds_new vbuf;
      ak ← sds_arg Key; av ← sds_arg Value;
      _ ← log_info "Reading Key: '%s' Value: '%s'" [ak; av];
      _ ← lower_in_place Section_;
      _ ← lower_in_place Key;
      '(r, st) ← parse_option Section_ Key Value st;
      _ ← (if r =? 0 then mret 0 else log_error "Error parsing option" []);
      _ ← sds_free Key;
      _ ← sds_free Value;
      pairs_loop fuel' i' Section_ st
  end.

(** The outer [while (1)]. The section name is not freed on the way to [error]. *)
Fixpoint sections_loop (fuel : nat) (i : ini) (st : tsSSettings)
  : M (bool * ini * tsSSettings) :=
  match fuel with
  | O => st_nofuel
  | S fuel' =>
    let '(iRet, sbuf, i') := ini_next_section i in
    if iRet =? 0 then
      _ ← log_debug "End of file." [];
      mret (true, i', st)
    else if iRet <? 0 then
      _ ← log_debug "ERROR: code %i" [AInt iRet];
      mret (false, i', st)
    else
      Section_ ← sds_new sbuf;
      a ← sds_arg Section_;
      _ ← log_debug "Opening section: '%s'" [a];
      '(ok, i'', st) ← pairs_loop fuel i' Section_ st;
      if ok : bool then
        _ ← sds_free Section_;
        sections_loop fuel' i'' st
      else mret (false, i'', st)
  end.

Definition settings_load (fuel : nat) (cpcSettingsFile : bytes) (st : tsSSettings)
  : M (Z * tsSSettings) :=
  match ini_open cpcSettingsFile with
  | None => mret (SET_NOFILE, st)
  | Some i =>
    _ ← log_debug "INI file %s opened." [AStr (region cpcSettingsFile)];
    '(ok, _, st) ← sections_loop fuel i st;
    _ ← ext X_ini_close;
    if ok : bool then
      _ ← settings_to_log st;
      mret (SET_EXIT_SUCCESS, st)
    else mret (SET_EXIT_FAILURE, st)
  end.

Definition settings_init : M Z := mret SET_EXIT_SUCCESS.

Definition settings_destroy (st : tsSSettings) : M (Z * tsSSettings) :=
  _ ← match pcLogfile st with Some l => sds_free l | None => mret tt end;
  pid ← ext X_getpid;
  _ ← log_info "Destroying settings from pid %d" [AInt (x_ret pid)];
  mret (SET_EXIT_SUCCESS, settings_zero).

(** A copy of the structure: the numbers, and the pointer to the same string. *)
Definition settings_get (st : tsSSettings) : tsSSettings := st.

Definition settings_set (sNewSettings _st : tsSSettings) : Z * tsSSettings :=
  (SET_EXIT_SUCCESS, sNewSettings).

End settings.

(** ** Loading and the logger

    The settings are loaded before the logger is started; it is only asked to log. *)

Section keeps.
Context `{SL : SdsLib, LA : LoggerAPI, E : Env, LI : LibIni} (P : log_state → Prop).
Hypothesis P_log : ∀ t f args l, P l → P (api_log_msg t f args l).2.
#[local] Hint Resolve P_log : cew.

Lemma log_options_keeps opts st : keeps P (log_options opts st).
Proof. induction opts as [|o opts IH]; cbn; keeps_tac; done. Qed.

Lemma parse_loop_keeps opts sec key val l st : keeps P (parse_loop opts sec key val l st).
Proof. revert st. induction opts as [|o opts IH]; intros st; cbn; keeps_tac; done. Qed.

Lemma pairs_loop_keeps fuel i l st : keeps P (pairs_loop fuel i l st).
Proof.
  revert i st. induction fuel as [|fuel IH]; intros i st; cbn; unfold lower_in_place, parse_option;
    keeps_tac; first [apply parse_loop_keeps|apply IH].
Qed.

Lemma sections_loop_keeps fuel i st : keeps P (sections_loop fuel i st).
Proof.
  revert i st. induction fuel as [|fuel IH]; intros i st; cbn [sections_loop]; keeps_tac;
    first [apply pairs_loop_keeps|apply IH].
Qed.

Lemma settings_load_keeps fuel path st : keeps P (settings_load fuel path st).
Proof.
  unfold settings_load, settings_to_log. keeps_tac;
    first [apply sections_loop_keeps|apply log_options_keeps].
Qed.

End keeps.

(** ** The specification: configurations by value *)

Record config : Type := Config {
  c_clients : Z; c_workers : Z; c_level : Z; c_port : Z; c_logfile : option bytes }.

#[global] Instance config_eq_dec : EqDecision config.
Proof. solve_decision. Defined.

Definition config_zero : config := Config 0 0 0 0 None.

(** The option a section and key name: both need only begin with the names of the
    table. *)
Definition option_of (sec key : bytes) : option opt_dst :=
  let general := bool_decide (lit "general" `prefix_of` sec) in
  let logging := bool_decide (lit "logging" `prefix_of` sec) in
  let named k := bool_decide (lit k `prefix_of` key) in
  if general && named "workers" then Some D_workers
  else if general && named "clients" then Some D_clients
  else if general && named "port" then Some D_port
  else if logging && named "logfile" then Some D_logfile
  else if logging && named "level" then Some D_level
  else None.

Definition set_option (d : opt_dst) (val : bytes) (cfg : config) : config :=
  let '(Config c w l p f) := cfg in
  match d with
  | D_workers => Config c (strtol val) l p f
  | D_clients => Config (strtol val) w l p f
  | D_port => Config c w l (strtol val) f
  | D_level => Config c w (strtol val) p f
  | D_logfile => Config c w l p (Some val)
  end.

Definition apply_option (sec key val : bytes) (cfg : config) : config :=
  from_option (λ d, set_option d val cfg) cfg (option_of sec key).

(** What [parse_option] returns. *)
Definition option_code (o : option opt_dst) : Z :=
  match o with
  | Some D_logfile | None => SET_NOMAP
  | Some _ => SET_EXIT_SUCCESS
  end.

(** The settings [st] stand for [cfg], and [xs] is the string they own. *)
Definition represents (st : tsSSettings) (cfg : config) (xs : list (sds * sds_obj)) : Prop :=
  lMaxClientsPerThread st = c_clients cfg ∧ lWorkerThreads st = c_workers cfg ∧
  lLogLevel st = c_level cfg ∧ lPort st = c_port cfg ∧
  match pcLogfile st, c_logfile cfg with
  | Some l, Some b => ∃ sp, xs = [(l, SdsObj b sp)]
  | None, None => xs = []
  | _, _ => False
  end.

Section parse.
Context `{SL : SdsLib, SS : !SdsSpec SL, LA : LoggerAPI, E : Env}.
Implicit Types (s : machine) (ps xs : list (sds * sds_obj)) (st : tsSSettings).

Lemma strncmp_lit k b :
  NUL ∉ lit k → (strncmp (lit k) b (length (lit k)) =? 0) = bool_decide (lit k `prefix_of` b).
Proof.
  intros Hk. apply eq_bool_prop_intro.
  by rewrite !Is_true_true, Z.eqb_eq, bool_decide_eq_true, strncmp_prefix.
Qed.

Lemma prefix_clash (p q b : bytes) :
  p `prefix_of` b → q `prefix_of` b → is_prefix p q = false → is_prefix q p = false → False.
Proof.
  intros Hp Hq Hpq Hqp. destruct (prefix_weak_total _ _ _ Hp Hq) as [H|H];
    apply is_prefix_spec in H; congruence.
Qed.

Lemma represents_store_long st cfg xs d v :
  d ≠ D_logfile → represents st cfg xs →
  represents (store_long d (strtol v) st) (set_option d v cfg) xs.
Proof. destruct st, cfg, d; unfold represents; simpl; intros; naive_solver. Qed.

(** Replacing the name of the log file releases the old one. *)
Lemma replace_logfile_wp {A} (k : tsSSettings → M A) (Q : A → machine → Prop) lv ov st cfg xs ps F s :
  represents st cfg xs →
  heap_is ((lv, ov) :: xs ++ ps) F (heap_of s) →
  (∀ st' xs' s', represents st' (set_option D_logfile (sds_buf ov) cfg) xs' →
     heap_is ((lv, ov) :: xs' ++ ps) F (heap_of s') → m_trace s' = m_trace s →
     wp (k st') Q s') →
  wp (_ ← match pcLogfile st with Some l => sds_free l | None => mret tt end;
      l ← sds_dup lv; k (store_logfile (Some l) st)) Q s.
Proof.
  intros Hr Hheap HQ. destruct st as [c w l p [f|]], cfg as [c' w' l' p' [b|]];
    destruct Hr as (? & ? & ? & ? & Hx); simplify_eq/=; try done.
  - destruct Hx as [sp ->]. cbn [app] in Hheap. wsteps.
    eapply (HQ _ [(_, SdsObj (sds_buf ov) _)]); [|cbn [app]; heap_picks|done].
    unfold represents. simpl. split_and!; [done..|by eexists].
  - wsteps. eapply (HQ _ [(_, SdsObj (sds_buf ov) _)]); [|cbn [app]; heap_picks|done].
    unfold represents. simpl. split_and!; [done..|by eexists].
Qed.

Lemma parse_option_wp ls lk lv os ok ov st cfg xs ps F s :
  represents st cfg xs →
  heap_is ((ls, os) :: (lk, ok) :: (lv, ov) :: xs ++ ps) F (heap_of s) →
  wp (parse_option ls lk lv st) (λ r s', ∃ xs',
    represents r.2 (apply_option (sds_buf os) (sds_buf ok) (sds_buf ov) cfg) xs' ∧
    r.1 = option_code (option_of (sds_buf os) (sds_buf ok)) ∧
    heap_is ((ls, os) :: (lk, ok) :: (lv, ov) :: xs' ++ ps) F (heap_of s') ∧
    m_trace s' = m_trace s) s.
Proof.
  intros Hr Hheap. unfold parse_option. wsteps.
  unfold options_walked, apply_option, option_of. cbn [take sKnownOptions parse_loop].
  cbn [pSection pKey pvDst eType].
  rewrite !strncmp_lit by (by apply (bool_decide_unpack _)).
  assert (lit "logfile" `prefix_of` sds_buf ok → ¬ lit "level" `prefix_of` sds_buf ok) as Hclash
    by (intros ? ?; eapply (prefix_clash (lit "logfile") (lit "level")); done).
  repeat (case_bool_decide; cbn [andb from_option option_code]);
    try (apply wp_ret; exists xs; split_and!; try done; by apply represents_store_long);
    try (by exfalso; apply Hclash).
  all: eapply (replace_logfile_wp (λ st', mret (SET_NOMAP, st')) _ lv ov st cfg xs
                 ((ls, os) :: (lk, ok) :: ps) F); [done|heap_done|].
  all: intros st' xs' s' Hr' Hheap' Ht'; apply wp_ret; exists xs';
    split_and!; [done|done|heap_done|done].
Qed.

(** C31: [parse_option] on every input: it sets the option whose section and key names
    begin the given ones (a number is read by [strtol]; a new log file name replaces
    and releases the old one) and changes nothing else; an unknown option changes
    nothing.  It returns success for the numeric options and [SET_NOMAP] for an unknown
    option, but [SET_NOMAP] also for the log file, which it did set. *)
Theorem parse_option_correct ls lk lv os ok ov st cfg xs ps F s :
  represents st cfg xs →
  heap_is ((ls, os) :: (lk, ok) :: (lv, ov) :: xs ++ ps) F (heap_of s) →
  ∃ st' s' xs',
    parse_option ls lk lv st s =
      (Ok (option_code (option_of (sds_buf os) (sds_buf ok)), st'), s') ∧
    represents st' (apply_option (sds_buf os) (sds_buf ok) (sds_buf ov) cfg) xs' ∧
    heap_is ((ls, os) :: (lk, ok) :: (lv, ov) :: xs' ++ ps) F (heap_of s') ∧
    m_trace s' = m_trace s.
Proof.
  intros Hr Hheap. pose proof (parse_option_wp _ _ _ _ _ _ _ _ _ _ _ _ Hr Hheap) as H.
  apply wp_run in H as ([z st'] & s' & Hrun & xs' & ? & Hz & ?).
  exists st', s', xs'. simpl in *. by rewrite <-Hz.
Qed.

End parse.

(** ** Loading a file *)

(** What a file contains: the pairs up to the end of a section, or up to an error; and
    the sections up to the end of the file, or up to an error. *)
Inductive read_end : Type := AtEnd | AtError | AtPairError.

#[global] Instance read_end_eq_dec : EqDecision read_end.
Proof. solve_decision. Defined.

Section documents.
Context `{LI : LibIni}.

Inductive reads_pairs : ini → list (bytes * bytes) → read_end → ini → Prop :=
  | rp_end i p i' : ini_read_pair i = (0, p, i') → reads_pairs i [] AtEnd i'
  | rp_error i z p i' : ini_read_pair i = (z, p, i') → z < 0 → reads_pairs i [] AtPairError i'
  | rp_pair i z p i' ps e i'' :
      ini_read_pair i = (z, p, i') → 0 < z → reads_pairs i' ps e i'' →
      reads_pairs i (p :: ps) e i''.

Inductive reads_sections : ini → list (bytes * list (bytes * bytes)) → read_end → Prop :=
  | rs_end i b i' : ini_next_section i = (0, b, i') → reads_sections i [] AtEnd
  | rs_error i z b i' : ini_next_section i = (z, b, i') → z < 0 → reads_sections i [] AtError
  | rs_bad_pair i z b i' ps i'' :
      ini_next_section i = (z, b, i') → 0 < z → reads_pairs i' ps AtPairError i'' →
      reads_sections i [(b, ps)] AtPairError
  | rs_section i z b i' ps i'' doc e :
      ini_next_section i = (z, b, i') → 0 < z → reads_pairs i' ps AtEnd i'' →
      reads_sections i'' doc e → reads_sections i ((b, ps) :: doc) e.

(** A finite file can be read to its end. *)
Lemma pairs_total size `{!LibIniFinite LI size} n i :
  (size i < n)%nat →
  ∃ ps e i', reads_pairs i ps e i' ∧ (length ps < n)%nat ∧ (e = AtEnd ∨ e = AtPairError) ∧
    (e = AtEnd → size i' ≤ size i)%nat.
Proof.
  revert i. induction n as [|n IH]; intros i Hn; [lia|].
  destruct (ini_read_pair i) as [[z p] i'] eqn:Hi.
  destruct (Z.lt_trichotomy z 0) as [Hz|[->|Hz]].
  - exists [], AtPairError, i'. split_and!; [by eapply rp_error|simpl; lia|by right|done].
  - exists [], AtEnd, i'. split_and!; [by eapply rp_end|simpl; lia|by left|].
    intros _. by eapply read_pair_end.
  - pose proof (read_pair_shrinks _ _ _ _ Hi Hz).
    destruct (IH i') as (ps & e & i'' & Hr & Hl & He & Hs); [lia|].
    exists (p :: ps), e, i''. split_and!; [by eapply rp_pair|simpl; lia|done|].
    intros He'. specialize (Hs He'). lia.
Qed.

(** The size a document needs as fuel. *)
Fixpoint doc_fuel (doc : list (bytes * list (bytes * bytes))) : nat :=
  match doc with
  | [] => 1
  | (_, ps) :: doc' => S (Nat.max (length ps) (doc_fuel doc'))
  end.

Lemma sections_total size `{!LibIniFinite LI size} n i :
  (size i < n)%nat →
  ∃ doc e, reads_sections i doc e ∧ (doc_fuel doc ≤ n)%nat.
Proof.
  revert i. induction n as [|n IH]; intros i Hn; [lia|].
  destruct (ini_next_section i) as [[z b] i'] eqn:Hi.
  destruct (Z.lt_trichotomy z 0) as [Hz|[->|Hz]].
  - exists [], AtError. split; [by eapply rs_error|simpl; lia].
  - exists [], AtEnd. split; [by eapply rs_end|simpl; lia].
  - pose proof (next_section_shrinks _ _ _ _ Hi Hz).
    destruct (pairs_total size n i') as (ps & e & i'' & Hr & Hl & [-> | ->] & Hs); [lia| |].
    + destruct (IH i'') as (doc & e & Hd & Hf); [specialize (Hs eq_refl); lia|].
      exists ((b, ps) :: doc), e. split; [by eapply rs_section|simpl; lia].
    + exists [(b, ps)], AtPairError. split; [by eapply rs_bad_pair|simpl; lia].
Qed.

End documents.

(** *** Lower case in place *)

Lemma cprefix_split (b : bytes) :
  ∃ r, b = cprefix b ++ r ∧ (r = [] ∨ ∃ r', r = NUL :: r').
Proof.
  induction b as [|c b (r & Hb & Hr)]; simpl; [exists []; auto|].
  case_decide as Hc; [subst; exists (NUL :: b); eauto|].
  exists r. split; [simpl; congruence|done].
Qed.

Lemma cprefix_app_end (p r : bytes) :
  NUL ∉ p → (r = [] ∨ ∃ r', r = NUL :: r') → cprefix (p ++ r) = p.
Proof.
  intros Hp Hr. induction p as [|c p IH]; simpl.
  - by destruct Hr as [->|[r' ->]].
  - apply not_elem_of_cons in Hp as [? ?]. rewrite decide_False by congruence.
    by rewrite IH.
Qed.

Lemma lower_cstr_split (p r : bytes) :
  NUL ∉ p → (r = [] ∨ ∃ r', r = NUL :: r') → lower_cstr (p ++ r) = map tolower p ++ r.
Proof.
  intros Hp Hr. unfold lower_cstr. rewrite cprefix_app_end by done.
  by rewrite drop_app_length.
Qed.

Lemma lower_cstr_idemp b : lower_cstr (lower_cstr b) = lower_cstr b.
Proof.
  destruct (cprefix_split b) as (r & Hb & Hr). pose proof (cprefix_no_nul b) as Hp.
  rewrite Hb. rewrite (lower_cstr_split (cprefix b)) by done.
  rewrite lower_cstr_split by (done || by apply map_tolower_no_nul).
  rewrite map_map. f_equal. apply map_ext. apply tolower_idemp.
Qed.

Lemma length_lower_cstr b : length (lower_cstr b) = length b.
Proof.
  destruct (cprefix_split b) as (r & Hb & Hr). pose proof (cprefix_no_nul b) as Hp.
  rewrite Hb at 1. rewrite lower_cstr_split by done.
  rewrite length_app, length_map, <-length_app. by rewrite <-Hb.
Qed.

(** The configuration after a section, and after a file. *)
Definition apply_pairs (sec : bytes) (ps : list (bytes * bytes)) (cfg : config) : config :=
  foldl (λ cfg p, apply_option (lower_cstr sec) (lower_cstr p.1) p.2 cfg) cfg ps.
Definition load_doc (doc : list (bytes * list (bytes * bytes))) (cfg : config) : config :=
  foldl (λ cfg s, apply_pairs s.1 s.2 cfg) cfg doc.

Definition load_code (e : read_end) : Z :=
  match e with AtEnd => SET_EXIT_SUCCESS | _ => SET_EXIT_FAILURE end.

(** How many strings a load that ends this way leaves behind. *)
Definition strings_lost (e : read_end) : nat :=
  match e with AtPairError => 1 | _ => 0 end.

Section load.
Context `{SL : SdsLib, SS : !SdsSpec SL, LA : LoggerAPI, E : Env, LI : LibIni}.
Implicit Types (s : machine) (ps xs : list (sds * sds_obj)) (st : tsSSettings).

Lemma lower_in_place_wp l o ps ps' F (Q : unit → machine → Prop) s :
  heap_is ps F (heap_of s) → ps ≡ₚ (l, o) :: ps' →
  (∀ s', heap_is ((l, SdsObj (lower_cstr (sds_buf o)) (sds_spare o)) :: ps') F (heap_of s') →
     m_log s' = m_log s → m_trace s' = m_trace s → Q tt s') →
  wp (lower_in_place l) Q s.
Proof.
  intros Hh Hp HQ. unfold lower_in_place. apply wp_bind. eapply wp_deref; [done..|].
  eapply wp_sds_overwrite; [done|done|apply length_lower_cstr|done].
Qed.

Lemma pairs_loop_wp fuel i pairs e i' ls b sp sec st cfg xs ps F s :
  reads_pairs i pairs e i' → (length pairs < fuel)%nat →
  lower_cstr b = lower_cstr sec → represents st cfg xs →
  heap_is ((ls, SdsObj b sp) :: xs ++ ps) F (heap_of s) →
  wp (pairs_loop fuel i ls st) (λ r s', ∃ xs' b' sp',
    r.1 = (bool_decide (e = AtEnd), i') ∧
    represents r.2 (apply_pairs sec pairs cfg) xs' ∧
    heap_is ((ls, SdsObj b' sp') :: xs' ++ ps) F (heap_of s') ∧ m_trace s' = m_trace s) s.
Proof.
  intros Hread. revert fuel b sp st cfg xs s.
  induction Hread as [i p i' Hi|i z p i' Hi Hz|i z [k v] i' pairs e i'' Hi Hz Hread IH];
    intros [|fuel] b sp st cfg xs s Hf Hb Hr Hheap; simpl in Hf; try lia; simpl; rewrite Hi.
  - destruct p. simpl. wsteps. by exists xs, b, sp.
  - destruct p. rewrite (proj2 (Z.eqb_neq _ _)), (proj2 (Z.ltb_lt _ _)) by lia.
    wsteps. by exists xs, b, sp.
  - rewrite (proj2 (Z.eqb_neq _ _)), (proj2 (Z.ltb_ge _ _)) by lia. wsteps.
    eapply lower_in_place_wp; [eassumption|pick|]. sds_intro0 s2. wsteps.
    eapply lower_in_place_wp; [eassumption|pick|]. sds_intro0 s3. wsteps.
    eapply wp_mono; [eapply (parse_option_wp ls _ _ _ _ _ _ _ xs ps F); [exact Hr|heap_picks]|].
    intros [z' st'] s5 (xs' & Hr' & Hz' & Hheap' & Ht'). cbn [fst snd sds_buf] in *.
    new_heap s4 Hheap'. carry s4 s5.
    wstep. eapply (wp_mono _ (λ _ s', heap_of s' = heap_of s5 ∧ m_trace s' = m_trace s5)).
    { destruct (z' =? 0); [by apply wp_ret|by log_step]. }
    intros _ s6 [Hh6 Ht6]. rewrite <-Hh6 in Hheap. rewrite Htr in Ht6. clear Htr. wsteps.
    eapply wp_mono; [eapply (IH fuel (lower_cstr b) sp st' _ xs'); [lia| |exact Hr'|heap_picks]|].
    + by rewrite lower_cstr_idemp.
    + rewrite Hb. intros r s9 (xs2 & b2 & sp2 & ? & ? & ? & Ht9). exists xs2, b2, sp2.
      split_and!; [done|done|done|congruence].
Qed.

(** What is on the heap after a load that ends with [e]: the settings' own string, and
    what was lost. *)
Definition loaded (e : read_end) (cfg : config) (st : tsSSettings) ps F s : Prop :=
  ∃ xs lost, represents st cfg xs ∧ length lost = strings_lost e ∧
    heap_is (xs ++ lost ++ ps) F (heap_of s).

Lemma sections_loop_wp fuel i doc e st cfg xs ps F s :
  reads_sections i doc e → (doc_fuel doc ≤ fuel)%nat →
  represents st cfg xs → heap_is (xs ++ ps) F (heap_of s) →
  wp (sections_loop fuel i st) (λ r s',
    r.1.1 = bool_decide (e = AtEnd) ∧ loaded e (load_doc doc cfg) r.2 ps F s' ∧
    m_trace s' = m_trace s) s.
Proof.
  intros Hread. revert fuel st cfg xs s.
  induction Hread as [i b i' Hi|i z b i' Hi Hz|i z b i' pairs i'' Hi Hz Hp
    |i z b i' pairs i'' doc e Hi Hz Hp Hread IH];
    intros [|fuel] st cfg xs s Hf Hr Hheap; simpl in Hf; try lia; cbn [sections_loop];
    rewrite Hi.
  - simpl. wsteps. split_and!; [done| |done]. by exists xs, [].
  - rewrite (proj2 (Z.eqb_neq _ _)), (proj2 (Z.ltb_lt _ _)) by lia.
    wsteps. split_and!; [done| |done]. by exists xs, [].
  - rewrite (proj2 (Z.eqb_neq _ _)), (proj2 (Z.ltb_ge _ _)) by lia. wsteps.
    eapply wp_mono; [eapply pairs_loop_wp; [exact Hp|lia|reflexivity|exact Hr|heap_picks]|].
    intros [[ok j] st'] s5 (xs' & b' & sp' & [= -> ->] & Hr' & Hh & Ht'). cbn [fst snd] in *.
    apply wp_ret. split_and!; [done| |congruence].
    exists xs', [(l, SdsObj b' sp')]. split_and!; [done..|].
    eapply heap_is_perm; [exact Hh|]. solve_Permutation.
  - rewrite (proj2 (Z.eqb_neq _ _)), (proj2 (Z.ltb_ge _ _)) by lia. wsteps.
    eapply wp_mono; [eapply pairs_loop_wp; [exact Hp|lia|reflexivity|exact Hr|heap_picks]|].
    intros [[ok j] st'] s5 (xs' & b' & sp' & [= -> ->] & Hr' & Hh & Ht'). cbn [fst snd] in *.
    new_heap s1 Hh. carry s1 s5. wsteps.
    eapply wp_mono; [eapply IH; [lia|exact Hr'|exact Hheap]|].
    intros r s7 (? & ? & Ht7). split_and!; [done|done|congruence].
Qed.

Lemma settings_to_log_wp st s (Q : unit → machine → Prop) :
  (∀ s', heap_of s' = heap_of s → m_trace s' = m_trace s → Q tt s') →
  wp (settings_to_log st) Q s.
Proof.
  intros HQ. unfold settings_to_log, options_walked. cbn [take sKnownOptions log_options].
  cbn [pSection pKey pvDst eType].
  assert (∀ (k : carg → machine → Prop) s', (∀ a, k a s') →
    wp match pcLogfile st with Some l => sds_arg l | None => mret (AStr []) end k s') as Harg.
  { intros k s' Hk. destruct (pcLogfile st) as [lf|]; [|by apply wp_ret].
    unfold wp, sds_arg. destruct (heap_of s' !! lf); apply Hk. }
  repeat first [apply Harg; intros | apply wp_bind | log_step; intros | apply wp_ret].
  apply HQ; congruence.
Qed.

Lemma settings_load_wp fuel path i doc e st cfg xs ps F s :
  ini_open path = Some i → reads_sections i doc e → (doc_fuel doc ≤ fuel)%nat →
  represents st cfg xs → heap_is (xs ++ ps) F (heap_of s) →
  wp (settings_load fuel path st) (λ r s',
    r.1 = load_code e ∧ loaded e (load_doc doc cfg) r.2 ps F s' ∧
    ∃ x, m_trace s' = m_trace s ++ [(X_ini_close, x)]) s.
Proof.
  intros Hi Hd Hf Hr Hheap. unfold settings_load. rewrite Hi. wsteps.
  eapply wp_mono; [by eapply sections_loop_wp|].
  intros [[ok j] st'] s1 (Hok & (xs' & lost & ? & ? & Hh) & Ht1). simpl in Hok, Ht1. subst ok.
  cbn [fst snd]. apply wp_bind, wp_ext. intros r s2 _ Hh2 _ Ht2.
  assert (loaded e (load_doc doc cfg) st' ps F s2) as Hl
    by (exists xs', lost; split_and!; [done..|by rewrite Hh2]).
  assert (m_trace s2 = m_trace s ++ [(X_ini_close, r)]) as Ht3 by congruence.
  case_bool_decide as He; subst.
  - apply wp_bind, settings_to_log_wp. intros s3 Hh3 Ht3'. apply wp_ret.
    split_and!; [done| |exists r; congruence].
    destruct Hl as (xs2 & l2 & ? & ? & ?). exists xs2, l2. by rewrite Hh3.
  - apply wp_ret. split_and!; [by destruct e|done|by exists r].
Qed.

End load.

(** ** Theorems *)

Section theorems.
Context `{SL : SdsLib, SS : !SdsSpec SL, LA : LoggerAPI, E : Env, LI : LibIni}.
Implicit Types (s : machine) (ps xs : list (sds * sds_obj)) (st : tsSSettings).

(** C14: Loading a settings file that exists always ends, within a number of iterations
    of each loop bounded by the size of the file, and refines the specification: the
    settings then stand for the configuration in which the pairs of the file were
    applied in their order, the result tells whether the file was read to its end, the
    file is closed, and the heap holds exactly what it held before, the name of the log
    file, and, after an error inside a section only, one string more, the section name
    that was not released. *)
Theorem settings_load_correct size `{!LibIniFinite LI size} path i st cfg xs ps F s :
  ini_open path = Some i → represents st cfg xs → heap_is (xs ++ ps) F (heap_of s) →
  ∃ doc e, reads_sections i doc e ∧
    ∀ fuel, (S (size i) ≤ fuel)%nat → ∃ st' s' x,
      settings_load fuel path st s = (Ok (load_code e, st'), s') ∧
      loaded e (load_doc doc cfg) st' ps F s' ∧
      m_trace s' = m_trace s ++ [(X_ini_close, x)].
Proof.
  intros Hi Hr Hh. destruct (sections_total size (S (size i)) i) as (doc & e & Hd & Hf); [lia|].
  exists doc, e. split; [done|]. intros fuel Hfuel.
  pose proof (settings_load_wp fuel path i doc e st cfg xs ps F s Hi Hd ltac:(lia) Hr Hh) as H.
  apply wp_run in H as ([z st'] & s' & Hrun & Hz & Hl & x & Ht). simpl in *.
  exists st', s', x. by rewrite <-Hz.
Qed.

Lemma settings_destroy_wp st cfg xs ps F s :
  represents st cfg xs → heap_is (xs ++ ps) F (heap_of s) →
  wp (settings_destroy st) (λ r s',
    r = (SET_EXIT_SUCCESS, settings_zero) ∧ heap_is ps F (heap_of s') ∧
    (∀ l, pcLogfile st = Some l → heap_of s' !! l = None) ∧
    ∃ x, m_trace s' = m_trace s ++ [(X_getpid, x)]) s.
Proof.
  intros Hr Hheap. unfold settings_destroy.
  assert (wp match pcLogfile st with Some l => sds_free l | None => mret tt end (λ _ s',
    heap_is ps F (heap_of s') ∧ m_trace s' = m_trace s ∧
    ∀ l, pcLogfile st = Some l → heap_of s' !! l = None) s) as Hfree.
  { destruct Hr as (_ & _ & _ & _ & Hx).
    destruct (pcLogfile st) as [l|], (c_logfile cfg); try done; [|subst xs; by apply wp_ret].
    destruct Hx as [sp ->]. pose proof (heap_is_head _ _ _ _ _ Hheap) as [Hl HF].
    cbn [app] in *. eapply wp_sds_free; [exact Hheap|apply pick_here|].
    intros s' Hh' _ Ht. split_and!; [done|done|]. intros ? [= <-].
    by rewrite (heap_is_lookup_ne _ _ _ _ Hh' Hl). }
  apply wp_bind. eapply wp_mono; [exact Hfree|]. intros _ s1 (Hh1 & Ht1 & Hl1).
  apply wp_bind, wp_ext. intros r s2 _ Hh2 _ Ht2. apply wp_bind; log_step. intros _ s3 Hh3 Ht3.
  apply wp_ret. split_and!; [done|by rewrite Hh3, Hh2| |].
  - intros l Hl. by rewrite Hh3, Hh2, (Hl1 _ Hl).
  - exists r. by rewrite Ht3, Ht2, Ht1.
Qed.

(** C26: Destroying the settings releases the string they own and nothing else, makes
    every field zero, and can be repeated; a copy of the settings taken before with
    [settings_get] keeps the pointer to the released string, and to use it is a use
    after free. *)
Theorem settings_destroy_correct st cfg xs ps F s :
  represents st cfg xs → heap_is (xs ++ ps) F (heap_of s) →
  wp (settings_destroy st) (λ r s',
    r = (SET_EXIT_SUCCESS, settings_zero) ∧ represents settings_zero config_zero [] ∧
    heap_is ps F (heap_of s') ∧
    (∀ l, pcLogfile (settings_get st) = Some l → fails (deref l) UseAfterFree s') ∧
    wp (settings_destroy r.2) (λ r2 s2,
      r2 = (SET_EXIT_SUCCESS, settings_zero) ∧ heap_of s2 = heap_of s') s') s.
Proof.
  intros Hr Hheap. eapply wp_mono; [by apply (settings_destroy_wp st cfg xs ps F)|].
  intros r s1 (-> & Hh1 & Hl1 & _). split_and!; try done.
  - intros l Hl. exists s1. unfold deref. by rewrite (Hl1 _ Hl).
  - assert (represents settings_zero config_zero []) as Hz by done.
    eapply wp_mono; [apply (settings_destroy_wp _ _ [] [] (heap_of s1) s1 Hz); done|].
    by intros r s2 (-> & ? & _).
Qed.

End theorems.

(** *** Which value an option gets *)

#[global] Instance opt_dst_eq_dec : EqDecision opt_dst.
Proof. solve_decision. Defined.

(** All the pairs of a file, in their order, with the names in lower case. *)
Definition doc_pairs (doc : list (bytes * list (bytes * bytes))) : list (bytes * bytes * bytes) :=
  '(sec, ps) ← doc; (λ p : bytes * bytes, (lower_cstr sec, lower_cstr p.1, p.2)) <$> ps.

(** The values a file gives to an option, in their order. *)
Definition values_of (doc : list (bytes * list (bytes * bytes))) (d : opt_dst) : list bytes :=
  omap (λ '(sec, key, v), if decide (option_of sec key = Some d) then Some v else None)
    (doc_pairs doc).

(** What a configuration says about the option [d], and what a value of a file means. *)
Definition option_view (d : opt_dst) (cfg : config) : Z + option bytes :=
  match d with
  | D_workers => inl (c_workers cfg) | D_clients => inl (c_clients cfg)
  | D_port => inl (c_port cfg) | D_level => inl (c_level cfg)
  | D_logfile => inr (c_logfile cfg)
  end.
Definition value_view (d : opt_dst) (v : bytes) : Z + option bytes :=
  match d with D_logfile => inr (Some v) | _ => inl (strtol v) end.

Lemma option_view_set d d' v cfg :
  option_view d (set_option d' v cfg) = if decide (d = d') then value_view d v else option_view d cfg.
Proof. destruct cfg, d, d'; reflexivity. Qed.

Lemma config_ext cfg cfg' : (∀ d, option_view d cfg = option_view d cfg') → cfg = cfg'.
Proof.
  intros H. pose proof (H D_workers). pose proof (H D_clients). pose proof (H D_port).
  pose proof (H D_level). pose proof (H D_logfile). destruct cfg, cfg'; naive_solver.
Qed.

Lemma load_doc_pairs doc cfg :
  load_doc doc cfg = foldl (λ cfg '(sec, key, v), apply_option sec key v cfg) cfg (doc_pairs doc).
Proof.
  unfold load_doc, doc_pairs. revert cfg.
  induction doc as [|[sec ps] doc IH]; intros cfg; [done|]. csimpl.
  rewrite foldl_app, IH. f_equal. unfold apply_pairs. revert cfg. clear.
  induction ps as [|p ps IH]; intros cfg; [done|]. csimpl. by rewrite IH.
Qed.

Lemma load_doc_last doc cfg d :
  option_view d (load_doc doc cfg) =
    from_option (value_view d) (option_view d cfg) (last (values_of doc d)).
Proof.
  rewrite load_doc_pairs. unfold values_of.
  induction (doc_pairs doc) as [|[[sec key] v] ps IH] using rev_ind; [done|].
  rewrite foldl_app, omap_app. csimpl. unfold apply_option at 1.
  destruct (option_of sec key) as [d'|]; csimpl; [|by rewrite IH, app_nil_r].
  rewrite option_view_set. destruct (decide (d = d')) as [->|Hd].
  - rewrite decide_True by done. by rewrite last_snoc.
  - rewrite decide_False by congruence. by rewrite IH, app_nil_r.
Qed.

Lemma load_doc_idemp doc cfg : load_doc doc (load_doc doc cfg) = load_doc doc cfg.
Proof.
  apply config_ext. intros d. rewrite !load_doc_last. by destruct (last (values_of doc d)).
Qed.

(** C32: Loading a file gives each option the last of the values the file has for it and
    keeps the earlier value of an option the file does not name; so loading the same file
    again changes nothing, and the name of the log file is replaced without a leak. *)
Theorem settings_reload `{SL : SdsLib, SS : !SdsSpec SL, LA : LoggerAPI, E : Env, LI : LibIni}
    fuel path i doc st cfg xs ps F s :
  ini_open path = Some i → reads_sections i doc AtEnd → (doc_fuel doc ≤ fuel)%nat →
  represents st cfg xs → heap_is (xs ++ ps) F (heap_of s) →
  wp ('(_, st1) ← settings_load fuel path st; settings_load fuel path st1) (λ r s', ∃ cfg' xs',
    r.1 = SET_EXIT_SUCCESS ∧ represents r.2 cfg' xs' ∧ heap_is (xs' ++ ps) F (heap_of s') ∧
    cfg' = load_doc doc cfg ∧
    ∀ d, option_view d cfg' =
      from_option (value_view d) (option_view d cfg) (last (values_of doc d))) s.
Proof.
  intros Hi Hd Hf Hr Hh. apply wp_bind. eapply wp_mono; [by eapply settings_load_wp|].
  intros [z st1] s1 (_ & (xs1 & l1 & Hr1 & Hl1 & Hh1) & _). destruct l1; [|done]. cbn [snd app] in *.
  eapply wp_mono; [by eapply settings_load_wp|].
  intros [z2 st2] s2 (Hz & (xs2 & l2 & Hr2 & Hl2 & Hh2) & _). destruct l2; [|done]. cbn [fst snd app] in *.
  exists (load_doc doc cfg), xs2. rewrite load_doc_idemp in Hr2.
  split_and!; try done. intros d. apply load_doc_last.
Qed.

(** ** A settings file in memory *)

Module SettingsExample.

(** libini over a parsed document: the pairs left in the open section, and the sections
    after it. *)
Definition cursor : Type := list (bytes * bytes) * list (bytes * list (bytes * bytes)).

Definition size (c : cursor) : nat :=
  length c.1 + sum_list ((λ s, S (length (snd s))) <$> c.2).

Definition memory_ini (files : bytes → option (list (bytes * list (bytes * bytes)))) : LibIni := {|
  ini := cursor;
  ini_open path := (λ doc, ([], doc)) <$> files path;
  ini_next_section c :=
    match c.2 with
    | [] => (0, [], c)
    | (b, ps) :: rest => (1, b, (ps, rest))
    end;
  ini_read_pair c :=
    match c.1 with
    | [] => (0, ([], []), c)
    | p :: ps => (1, p, (ps, c.2))
    end;
|}.

#[export] Instance memory_ini_finite files : LibIniFinite (memory_ini files) size.
Proof.
  split; intros [ps doc] z b i' Hi Hz; simpl in *.
  - destruct doc as [|[b' ps'] doc]; simplify_eq; [lia|]. unfold size. csimpl. lia.
  - destruct ps as [|p ps]; simplify_eq; [lia|]. unfold size. csimpl. lia.
  - destruct ps as [|p ps]; simplify_eq. done.
Qed.

(** [test/ini/valid_dual_settings.ini]. *)
Definition valid_dual_settings : list (bytes * list (bytes * bytes)) := [
  (lit "General", [(lit "workers", lit "4"); (lit "clients", lit "50"); (lit "clients", lit "51")]);
  (lit "Logging", [(lit "logfile", lit "/var/log/cewserver.log");
                   (lit "logfile", lit "/var/log/cewserver2.log"); (lit "level", lit "3")])].

#[export] Instance test_files : LibIni := memory_ini (λ path,
  if decide (path = lit "valid_dual_settings.ini") then Some valid_dual_settings else None).

#[export] Instance quiet : Env := env_of (λ _, ExtRet 0 0 0 []).

Example dual_config : load_doc valid_dual_settings config_zero =
  Config 51 4 3 0 (Some (lit "/var/log/cewserver2.log")).
Proof. vm_compute. reflexivity. Qed.

Example no_such_file : ∃ s',
  @settings_load (sds_model true) null_logger quiet test_files 99 (lit "nofile") settings_zero
    (start true) = (Ok (SET_NOFILE, settings_zero), s').
Proof. by eexists. Qed.

Lemma zero_represents : represents settings_zero config_zero [].
Proof. done. Qed.

Lemma settings_load_correct_witness : ∃ doc e,
  reads_sections (LI := test_files) (([], valid_dual_settings) : cursor) doc e ∧
  ∀ fuel, (9 ≤ fuel)%nat → ∃ st' s' x,
    @settings_load (sds_model true) null_logger quiet test_files fuel
      (lit "valid_dual_settings.ini") settings_zero (start true) = (Ok (load_code e, st'), s') ∧
    loaded e (load_doc doc config_zero) st' [] ∅ s' ∧
    m_trace s' = [] ++ [(X_ini_close, x)].
Proof.
  apply (@settings_load_correct (sds_model true) _ null_logger quiet test_files size _
    (lit "valid_dual_settings.ini") ([], valid_dual_settings) settings_zero config_zero [] [] ∅
    (start true)); vm_compute; reflexivity || done.
Defined.

Lemma valid_dual_reads :
  reads_sections (LI := test_files) (([], valid_dual_settings) : cursor) valid_dual_settings AtEnd.
Proof.
  repeat first [ eapply (rs_section (LI := test_files)); [reflexivity|lia| |]
               | by eapply (rs_end (LI := test_files))
               | eapply (rp_pair (LI := test_files)); [reflexivity|lia|]
               | by eapply (rp_end (LI := test_files)) ].
Qed.

Lemma settings_reload_witness :
  wp ('(_, st1) ← @settings_load (sds_model true) null_logger quiet test_files 9
         (lit "valid_dual_settings.ini") settings_zero;
      @settings_load (sds_model true) null_logger quiet test_files 9
         (lit "valid_dual_settings.ini") st1) (λ r s', ∃ cfg' xs',
    r.1 = SET_EXIT_SUCCESS ∧ represents r.2 cfg' xs' ∧ heap_is (xs' ++ []) ∅ (heap_of s') ∧
    cfg' = load_doc valid_dual_settings config_zero ∧
    ∀ d, option_view d cfg' = from_option (value_view d) (option_view d config_zero)
      (last (values_of valid_dual_settings d))) (start true).
Proof.
  apply (@settings_reload (sds_model true) _ null_logger quiet test_files 9
    (lit "valid_dual_settings.ini") ([], valid_dual_settings) valid_dual_settings settings_zero
    config_zero [] [] ∅ (start true)).
  - reflexivity.
  - apply valid_dual_reads.
  - cbn. lia.
  - done.
  - done.
Defined.

(** One string, the name of the log file, and the settings that own it. *)
Definition one_setting : tsSSettings := SSettings 50 4 2 9000 (Some 1%positive).
Definition one_string : @machine (sds_model true) null_logger :=
  @Machine (sds_model true) null_logger
    ({[ 1%positive := SdsObj (lit "log") [] ]} : gmap sds sds_obj) tt [].

Lemma settings_destroy_correct_witness :
  wp (@settings_destroy (sds_model true) null_logger quiet one_setting) (λ r s',
    r = (SET_EXIT_SUCCESS, settings_zero) ∧ represents settings_zero config_zero [] ∧
    heap_is [] ∅ (heap_of s') ∧
    (∀ l, pcLogfile (settings_get one_setting) = Some l → fails (deref l) UseAfterFree s') ∧
    wp (@settings_destroy (sds_model true) null_logger quiet r.2) (λ r2 s2,
      r2 = (SET_EXIT_SUCCESS, settings_zero) ∧ heap_of s2 = heap_of s') s') one_string.
Proof.
  apply (@settings_destroy_correct (sds_model true) _ null_logger quiet one_setting
    (Config 50 4 2 9000 (Some (lit "log"))) [(1%positive, SdsObj (lit "log") [])] [] ∅).
  - unfold represents. simpl. split_and!; [done..|by exists []].
  - vm_compute. done.
Defined.

(** The section [General], a key in capitals and a long value; the settings have no log
    file yet. *)
Definition three_strings : @machine (sds_model true) null_logger :=
  @Machine (sds_model true) null_logger
    ({[ 1%positive := SdsObj (lit "general") []; 2%positive := SdsObj (lit "port") [];
        3%positive := SdsObj (lit "9000") [] ]} : gmap sds sds_obj) tt [].

Lemma parse_option_correct_witness : ∃ st' s' xs',
  @parse_option (sds_model true) null_logger 1%positive 2%positive 3%positive settings_zero
    three_strings = (Ok (SET_EXIT_SUCCESS, st'), s') ∧
  represents st' (Config 0 0 0 9000 None) xs' ∧
  heap_is ((1%positive, SdsObj (lit "general") []) :: (2%positive, SdsObj (lit "port") []) ::
           (3%positive, SdsObj (lit "9000") []) :: xs' ++ []) ∅ (heap_of s') ∧
  m_trace s' = [].
Proof.
  apply (@parse_option_correct (sds_model true) _ null_logger 1%positive 2%positive 3%positive
    (SdsObj (lit "general") []) (SdsObj (lit "port") []) (SdsObj (lit "9000") [])
    settings_zero config_zero [] [] ∅ three_strings); vm_compute; done.
Defined.

End SettingsExample.
