(* ===== verification/Logger.v ===== *)
(** * Logger: [src/src/cew_logger.c]

    The queue of messages between the threads that log and the thread that writes.
    First the data; then the code of the threads cut at the points where another thread
    can come between ([writer_step], [caller_step]) and the interleavings of any number of
    callers with the writer; then a call as one function ([log_msg]) of a process that
    has one thread of its own beside the writer. *)

From S2P Require Import Prelude CString Machine Queue.
Local Open Scope Z_scope.

(** ** Data ([include/cew_logger.h]) *)

(** The level is an enumeration without negative values: an [unsigned int]. *)
Record tsLogSettings : Type := LogSettings {
  iPollingInterval : Z;
  iLoggerQueueSize : Z;
  iBulkWrite : Z;
  iCurrLogLevel : Z;
}.

Definition LOG_EXIT_SUCCESS : Z := EXIT_SUCCESS.
Definition LOG_EXIT_FAILURE : Z := EXIT_FAILURE.
Definition LOG_NOINIT : Z := -1.
Definition LOG_NOLVL : Z := -2.
Definition LOG_SHUTTING_DOWN : Z := -3.
Definition LOGGER_MAX_USER_MSG_LEN : nat := 1024.

Definition default_settings : tsLogSettings := LogSettings 1000 50 0 (level_num eWARNING).

Definition pcLogTypeMsg (t : tLoggerType) : bytes :=
  match t with
  | eERROR => lit "Error" | eWARNING => lit "Warning" | eINFO => lit "Info" | eDEBUG => lit "Debug"
  end.

(** The static variables that the writing thread does not change. *)
Record lconf : Type := LConf {
  gpcLogfile : option sds;
  sCurrLogSettings : tsLogSettings;
  iIsInitDone : Z;
  iShuttingDown : Z;
  bTerminateProg : bool;
}.

(** All static variables and what they reach: [nodes] are the entries of the queue,
    [strings] the messages and the name of the log file; [pLogMutex] tells whether the
    mutex is locked, [LogfileFd] whether the pointer is not null.  [written] is what
    reached the log file, [shown] what appeared on the terminal, and [inserted] (a
    ghost) every message that was ever queued. *)
Record lstate `{SL : SdsLib} : Type := LState {
  conf : lconf;
  Head : LogMsgQueue;
  nodes : memory;
  strings : sds_heap;
  iDataInQueueCount : Z;
  iDoForceFlush : Z;
  LogfileFd : bool;
  pLogMutex : bool;
  written : list bytes;
  shown : list bytes;
  inserted : list bytes;
}.
#[global] Arguments LState {_} _ _ _ _ _ _ _ _ _ _ _.

Section setters.
Context `{SL : SdsLib}.
Implicit Types g : lstate.

Definition set_conf k g :=
  LState k (Head g) (nodes g) (strings g) (iDataInQueueCount g) (iDoForceFlush g) (LogfileFd g)
    (pLogMutex g) (written g) (shown g) (inserted g).
Definition set_mem (qh : LogMsgQueue * memory) g :=
  LState (conf g) qh.1 qh.2 (strings g) (iDataInQueueCount g) (iDoForceFlush g) (LogfileFd g)
    (pLogMutex g) (written g) (shown g) (inserted g).
Definition set_strings h g :=
  LState (conf g) (Head g) (nodes g) h (iDataInQueueCount g) (iDoForceFlush g) (LogfileFd g)
    (pLogMutex g) (written g) (shown g) (inserted g).
Definition set_count z g :=
  LState (conf g) (Head g) (nodes g) (strings g) z (iDoForceFlush g) (LogfileFd g)
    (pLogMutex g) (written g) (shown g) (inserted g).
Definition set_flush z g :=
  LState (conf g) (Head g) (nodes g) (strings g) (iDataInQueueCount g) z (LogfileFd g)
    (pLogMutex g) (written g) (shown g) (inserted g).
Definition set_fd b g :=
  LState (conf g) (Head g) (nodes g) (strings g) (iDataInQueueCount g) (iDoForceFlush g) b
    (pLogMutex g) (written g) (shown g) (inserted g).
Definition set_lock b g :=
  LState (conf g) (Head g) (nodes g) (strings g) (iDataInQueueCount g) (iDoForceFlush g)
    (LogfileFd g) b (written g) (shown g) (inserted g).
Definition add_written m g :=
  LState (conf g) (Head g) (nodes g) (strings g) (iDataInQueueCount g) (iDoForceFlush g)
    (LogfileFd g) (pLogMutex g) (written g ++ [m]) (shown g) (inserted g).
Definition add_shown m g :=
  LState (conf g) (Head g) (nodes g) (strings g) (iDataInQueueCount g) (iDoForceFlush g)
    (LogfileFd g) (pLogMutex g) (written g) (shown g ++ [m]) (inserted g).
Definition add_inserted m g :=
  LState (conf g) (Head g) (nodes g) (strings g) (iDataInQueueCount g) (iDoForceFlush g)
    (LogfileFd g) (pLogMutex g) (written g) (shown g) (inserted g ++ [m]).

End setters.

(** ** Messages *)

(** A format without enough arguments is undefined, and the functions below say so.  What
    remains is an argument of another type than its conversion, or a null pointer for a
    string: the text of such a message is left open. *)
Class IndeterminateText : Type := indeterminate_text : bytes → list carg → bytes.

(** What the operating system decides during a step: the error of a failing stdio call,
    of a failing lock or unlock, whether [malloc] succeeds, and the time as text. *)
Record choice : Type := Choice {
  c_io : option Z;
  c_lock : option Z;
  c_unlock : option Z;
  c_malloc : bool;
  c_time : bytes;
}.

Section messages.
Context `{SL : SdsLib, IT : IndeterminateText}.

Definition LF : byte := "010"%char.

(** [cUserMsg]: the text in a buffer of 1024 bytes, for a message with enough arguments. *)
Definition user_msg (pcMsg : bytes) (args : list carg) : bytes :=
  match vsnprintf LOGGER_MAX_USER_MSG_LEN pcMsg args with
  | Some t => t
  | None => take (LOGGER_MAX_USER_MSG_LEN - 1) (indeterminate_text pcMsg args)
  end.

(** The text of [LogMsg]: the line of the log file. *)
Definition log_line (acTime : bytes) (eType : tLoggerType) (pcMsg : bytes) (args : list carg)
  : bytes :=
  default [] (format (lit "%s : %s : %s" ++ [LF])
    [AStr (region acTime); AStr (region (pcLogTypeMsg eType)); AStr (region (user_msg pcMsg args))]).

(** [malloc] of a queue entry. *)
Definition new_entry (m : sds) (h : memory) : positive * memory :=
  let p := fresh (dom h) in (p, <[p := Entry m None]> h).

Definition make_entry (m : sds) : ST lstate positive := λ g,
  let '(p, h) := new_entry m (nodes g) in (Ok p, set_mem (Head g, h) g).

Definition insert_tail (p : positive) : ST lstate unit := λ g,
  let '(r, qh) := STAILQ_INSERT_TAIL p (Head g, nodes g) in (r, set_mem qh g).

Definition remove_head : ST lstate unit := λ g,
  let '(r, qh) := STAILQ_REMOVE_HEAD (Head g, nodes g) in (r, set_mem qh g).

Definition modify (f : lstate → lstate) : ST lstate unit := λ g, (Ok tt, f g).
Definition get {A} (f : lstate → A) : ST lstate A := λ g, (Ok (f g), g).

(** [free] of an entry. *)
Definition free_entry (p : positive) : ST lstate unit := λ g,
  match nodes g !! p with
  | Some _ => (Ok tt, set_mem (Head g, delete p (nodes g)) g)
  | None => (Undef UseAfterFree, g)
  end.

(** [sdscatprintf(sdsempty(), ...)] of the text [b]. *)
Definition new_string (b : bytes) : ST lstate sds := λ g,
  let '(l, h) := sdsempty (strings g) in
  let '(l, h) := sdscatprintf l b h in
  (Ok l, set_strings h g).

(** The bytes of a string; [sdsfree]. *)
Definition string_at (m : sds) : ST lstate bytes := λ g,
  match sds_view (strings g) !! m with
  | Some o => (Ok (sds_buf o), g)
  | None => (Undef UseAfterFree, g)
  end.
Definition free_string (m : sds) : ST lstate unit := λ g,
  match sds_view (strings g) !! m with
  | Some _ => (Ok tt, set_strings (sdsfree m (strings g)) g)
  | None => (Undef UseAfterFree, g)
  end.

(** [fopen(gpcLogfile, ...)] reads the name. *)
Definition logfile_at : ST lstate bytes := λ g,
  match gpcLogfile (conf g) with
  | Some l => string_at l g
  | None => (Undef NullDeref, g)
  end.

(** The text behind the address of a message, for the ghost. *)
Definition text (g : lstate) (m : sds) : bytes := from_option sds_buf [] (sds_view (strings g) !! m).

(** The entry behind a pointer. *)
Definition entry_at (p : option positive) : ST lstate (positive * tsEntry) := λ g,
  match p with
  | None => (Undef NullDeref, g)
  | Some a => match nodes g !! a with
              | None => (Undef UseAfterFree, g)
              | Some e => (Ok (a, e), g)
              end
  end.

Definition is_msg_allowed (k : lconf) (eType : tLoggerType) : Z :=
  if iIsInitDone k =? 0 then LOG_NOLVL
  else if bTerminateProg k then LOG_SHUTTING_DOWN
  else if negb (iShuttingDown k =? 0) then LOG_SHUTTING_DOWN
  else if iCurrLogLevel (sCurrLogSettings k) <? level_num eType then LOG_NOINIT
  else LOG_EXIT_SUCCESS.

(** ** The threads *)

(** Where the writing thread is; the arguments are its local variables
    [iDataToWrite], [iDataWritten], [Entry] and [LogMessage]. *)
Inductive wpc : Type :=
  | W_sleep | W_trylock | W_decide | W_unlock (iGo : option Z)
  | W_open (iDataToWrite : Z)
  | W_first (iDataToWrite iDataWritten : Z)
  | W_lock (iDataToWrite iDataWritten : Z) (Entry : positive) (LogMessage : sds)
  | W_remove (iDataToWrite iDataWritten : Z) (Entry : positive) (LogMessage : sds)
  | W_removed (iDataToWrite iDataWritten : Z) (LogMessage : sds)
  | W_write (iDataToWrite iDataWritten : Z) (LogMessage : sds)
  | W_close (iDataWritten : Z)
  | W_lock_count (iDataWritten : Z)
  | W_count (iDataWritten : Z)
  | W_unlock_count.

(** Locking: the error, or the next position, or (the mutex being held) the same one. *)
Definition lock_or {A} (c : choice) (stay next : A) : ST lstate A :=
  match c_lock c with
  | Some e => st_exit e
  | None =>
    locked ← get pLogMutex;
    if locked : bool then mret stay else _ ← modify (set_lock true); mret next
  end.

Definition unlock_to {A} (c : choice) (next : A) : ST lstate A :=
  match c_unlock c with
  | Some e => st_exit e
  | None => _ ← modify (set_lock false); mret next
  end.

(** One step of [logger_thread]. *)
Definition writer_step (c : choice) (pc : wpc) : ST lstate wpc :=
  match pc with
  | W_sleep => mret W_trylock
  | W_trylock => lock_or c W_sleep W_decide
  | W_decide =>
      iCount ← get iDataInQueueCount;
      iBulk ← get (λ g, iBulkWrite (sCurrLogSettings (conf g)));
      iFlush ← get iDoForceFlush;
      if (iBulk <? iCount) || (negb (iFlush =? 0) && negb (iCount =? 0))
      then mret (W_unlock (Some iCount)) else mret (W_unlock None)
  | W_unlock iGo =>
      unlock_to c (match iGo with Some n => W_open n | None => W_sleep end)
  | W_open n =>
      _ ← logfile_at;
      match c_io c with
      | Some e => st_exit e
      | None => _ ← modify (set_fd true); mret (W_first n 0)
      end
  | W_first n w =>
      p ← get (λ g, STAILQ_FIRST (Head g));
      '(a, e) ← entry_at p;
      mret (W_lock n w a (msg e))
  | W_lock n w a m => lock_or c (W_lock n w a m) (W_remove n w a m)
  | W_remove n w a m =>
      _ ← remove_head;
      _ ← free_entry a;
      mret (W_removed n w m)
  | W_removed n w m => unlock_to c (W_write n w m)
  | W_write n w m =>
      t ← string_at m;
      _ ← modify (add_shown (cprefix t));
      match c_io c with
      | Some e => st_exit e
      | None =>
        _ ← modify (add_written t);
        _ ← free_string m;
        let w := i32 (w + 1) in
        let n := i32 (n - 1) in
        if n =? 0 then mret (W_close w) else mret (W_first n w)
      end
  | W_close w =>
      match c_io c with
      | Some e => st_exit e
      | None => _ ← modify (set_fd false); mret (W_lock_count w)
      end
  | W_lock_count w => lock_or c (W_lock_count w) (W_count w)
  | W_count w =>
      _ ← modify (set_flush 0);
      iCount ← get iDataInQueueCount;
      _ ← modify (set_count (i32 (iCount - w)));
      mret W_unlock_count
  | W_unlock_count => unlock_to c W_sleep
  end.

(** Where a thread that logs is, inside [log_msg] and [log_add_to_queue]. *)
Inductive cpc : Type :=
  | C_idle
  | C_enter (eType : tLoggerType) (message : bytes) (args : list carg)
  | C_check (eType : tLoggerType) (message : bytes) (args : list carg)
  | C_make (eType : tLoggerType) (message : bytes) (args : list carg)
  | C_lock (NewEntry : positive) (LogMsg : sds)
  | C_insert (NewEntry : positive) (LogMsg : sds)
  | C_count
  | C_unlock
  | C_ret (iRet : Z).

Definition caller_step (c : choice) (pc : cpc) : ST lstate cpc :=
  match pc with
  | C_idle => mret C_idle
  | C_enter t f args =>
      k ← get conf;
      if is_msg_allowed k t =? LOG_EXIT_SUCCESS then mret (C_check t f args)
      else mret (C_ret LOG_EXIT_FAILURE)
  | C_check t f args =>
      iCount ← get iDataInQueueCount;
      iMax ← get (λ g, iLoggerQueueSize (sCurrLogSettings (conf g)));
      if iMax <? iCount then mret (C_ret LOG_EXIT_FAILURE) else mret (C_make t f args)
  | C_make t f args =>
      if args_missing f args then st_undef Unspecified else
      LogMsg ← new_string (log_line (c_time c) t f args);
      if negb (c_malloc c) then st_undef NullDeref else
      p ← make_entry LogMsg;
      mret (C_lock p LogMsg)
  | C_lock p m =>
      match c_lock c with
      | Some _ => _ ← free_string m; _ ← free_entry p; mret (C_ret LOG_EXIT_FAILURE)
      | None =>
        locked ← get pLogMutex;
        if locked : bool then mret (C_lock p m) else
        _ ← modify (set_lock true); mret (C_insert p m)
      end
  | C_insert p m => _ ← insert_tail p; _ ← modify (λ g, add_inserted (text g m) g); mret C_count
  | C_count =>
      iCount ← get iDataInQueueCount;
      _ ← modify (set_count (i32 (iCount + 1))); mret C_unlock
  | C_unlock =>
      match c_unlock c with
      | Some _ => mret (C_ret LOG_EXIT_FAILURE)
      | None => _ ← modify (set_lock false); mret (C_ret LOG_EXIT_SUCCESS)
      end
  | C_ret z => mret (C_ret z)
  end.

(** The threads of a process: the writer (gone in a forked child) and the callers. *)
Record threads : Type :=
  Threads { th_state : lstate; th_writer : option wpc; th_callers : list cpc }.

(** A mutex of the default kind never fails to lock, nor to unlock for its holder, and
    memory does not run out. *)
Definition good (c : choice) : Prop :=
  c_lock c = None ∧ c_unlock c = None ∧ c_malloc c = true.

Inductive step : threads → threads → Prop :=
  | step_writer c g pc g' pc' ps :
      good c → writer_step c pc g = (Ok pc', g') →
      step (Threads g (Some pc) ps) (Threads g' (Some pc') ps)
  | step_caller c g w ps1 pc ps2 g' pc' :
      good c → caller_step c pc g = (Ok pc', g') →
      step (Threads g w (ps1 ++ pc :: ps2)) (Threads g' w (ps1 ++ pc' :: ps2))
  | step_call g w ps1 ps2 t f args :
      step (Threads g w (ps1 ++ C_idle :: ps2)) (Threads g w (ps1 ++ C_enter t f args :: ps2))
  | step_return g w ps1 z ps2 :
      step (Threads g w (ps1 ++ C_ret z :: ps2)) (Threads g w (ps1 ++ C_idle :: ps2))
  | step_flush g w ps :
      step (Threads g w ps) (Threads (set_flush 1 g) w ps).

(** ** A call beside the writer *)

(** A process with one thread of its own: the static variables, the writer (gone in a
    forked child), and how many steps the writer makes in each of the coming sleeps of
    the other thread. *)
Record lproc : Type := LProc {
  lp_state : lstate;
  lp_writer : option wpc;
  lp_turns : list nat;
}.

(** The writer, [n] steps. *)
Fixpoint writer_runs (c : choice) (n : nat) (pc : wpc) : ST lstate wpc :=
  match n with
  | O => mret pc
  | S n' => pc' ← writer_step c pc; writer_runs c n' pc'
  end.

(** A computation on the static variables. *)
Definition on_state {A} (m : ST lstate A) : ST lproc A := λ s,
  let '(r, g) := m (lp_state s) in (r, LProc g (lp_writer s) (lp_turns s)).

Definition run_writer (c : choice) (n : nat) : ST lproc unit := λ s,
  match lp_writer s with
  | None => (Ok tt, s)
  | Some pc =>
    match writer_runs c n pc (lp_state s) with
    | (Ok pc', g) => (Ok tt, LProc g (Some pc') (lp_turns s))
    | (Exited z, g) => (Exited z, LProc g (Some pc) (lp_turns s))
    | (Undef u, g) => (Undef u, LProc g (Some pc) (lp_turns s))
    | (NoFuel, g) => (NoFuel, LProc g (Some pc) (lp_turns s))
    end
  end.

(** Blocked at the mutex: the writer runs until it leaves it, which takes it at most two
    steps. *)
Fixpoint await_mutex (c : choice) (n : nat) : ST lproc unit :=
  match n with
  | O => mret tt
  | S n' =>
    locked ← on_state (get pLogMutex);
    if locked : bool then _ ← run_writer c 1; await_mutex c n' else mret tt
  end.

(** [pthread_mutex_lock]: nobody will ever unlock a mutex that is still locked. *)
Definition lock_mutex (c : choice) : ST lproc unit :=
  _ ← await_mutex c 2;
  locked ← on_state (get pLogMutex);
  if locked : bool then st_nofuel else on_state (modify (set_lock true)).

Definition log_add_to_queue (c : choice) (eType : tLoggerType) (pcMsg : bytes) (args : list carg)
  : ST lproc Z :=
  iCount ← on_state (get iDataInQueueCount);
  iMax ← on_state (get (λ g, iLoggerQueueSize (sCurrLogSettings (conf g))));
  if iMax <? iCount then mret LOG_EXIT_FAILURE else
  if args_missing pcMsg args then st_undef Unspecified else
  LogMsg ← on_state (new_string (log_line (c_time c) eType pcMsg args));
  if negb (c_malloc c) then st_undef NullDeref else
  NewEntry ← on_state (make_entry LogMsg);
  match c_lock c with
  | Some _ =>
    _ ← on_state (free_string LogMsg); _ ← on_state (free_entry NewEntry); mret LOG_EXIT_FAILURE
  | None =>
    _ ← lock_mutex c;
    _ ← on_state (insert_tail NewEntry);
    _ ← on_state (modify (λ g, add_inserted (text g LogMsg) g));
    iCount ← on_state (get iDataInQueueCount);
    _ ← on_state (modify (set_count (i32 (iCount + 1))));
    match c_unlock c with
    | Some _ => mret LOG_EXIT_FAILURE
    | None => _ ← on_state (modify (set_lock false)); mret LOG_EXIT_SUCCESS
    end
  end.

Definition log_msg (c : choice) (eType : tLoggerType) (message : bytes) (args : list carg)
  : ST lproc Z :=
  k ← on_state (get conf);
  if is_msg_allowed k eType =? LOG_EXIT_SUCCESS then log_add_to_queue c eType message args
  else mret LOG_EXIT_FAILURE.

Lemma on_state_wp {A} (m : ST lstate A) (P : A → lproc → Prop) s :
  wp m (λ a g, P a (LProc g (lp_writer s) (lp_turns s))) (lp_state s) → wp (on_state m) P s.
Proof. unfold wp, on_state. by destruct (m (lp_state s)) as [[]?]. Qed.

Lemma get_wp {A} (f : lstate → A) (P : A → lproc → Prop) s :
  P (f (lp_state s)) s → wp (on_state (get f)) P s.
Proof. by destruct s. Qed.

Lemma modify_wp f (P : unit → lproc → Prop) s :
  P tt (LProc (f (lp_state s)) (lp_writer s) (lp_turns s)) → wp (on_state (modify f)) P s.
Proof. by destruct s. Qed.

End messages.
