(* ===== verification/LoggerSafety.v ===== *)
(** * The threads of the logger: what holds in every interleaving

    The invariant of the step relation of [Logger.v] and what follows from it: no
    undefined behaviour, mutual exclusion, the counter, the bound of the queue, and
    first-in first-out delivery without loss or repetition. *)

From S2P Require Import Prelude CString Machine Queue Logger.
Local Open Scope Z_scope.

(** ** What each position of a thread means *)

Definition w_holds (w : wpc) : nat :=
  match w with
  | W_decide | W_unlock _ | W_remove _ _ _ _ | W_removed _ _ _ | W_count _ | W_unlock_count => 1
  | _ => 0
  end.

(** Messages taken from the queue that the counter still contains. *)
Definition w_taken (w : wpc) : Z :=
  match w with
  | W_first _ k | W_lock _ k _ _ | W_remove _ k _ _ | W_close k | W_lock_count k | W_count k => k
  | W_removed _ k _ | W_write _ k _ => k + 1
  | _ => 0
  end.

(** The message between the queue and the file. *)
Definition w_inflight (w : wpc) : list sds :=
  match w with W_removed _ _ m | W_write _ _ m => [m] | _ => [] end.

Definition w_open (w : wpc) : bool :=
  match w with
  | W_first _ _ | W_lock _ _ _ _ | W_remove _ _ _ _ | W_removed _ _ _ | W_write _ _ _
  | W_close _ => true
  | _ => false
  end.

(** What the writer relies on about the queue [l]: it holds the messages that are still
    to be written in this pass, the first of them being the one at hand. *)
Definition w_queue (w : wpc) (l : list (positive * sds)) : Prop :=
  match w with
  | W_unlock (Some n) | W_open n => 1 ≤ n ≤ Z.of_nat (length l)
  | W_first n k => 1 ≤ n ≤ Z.of_nat (length l) ∧ 0 ≤ k
  | W_lock n k a m | W_remove n k a m =>
      1 ≤ n ≤ Z.of_nat (length l) ∧ 0 ≤ k ∧ head l = Some (a, m)
  | W_removed n k _ | W_write n k _ => 1 ≤ n ≤ Z.of_nat (length l) + 1 ∧ 0 ≤ k
  | W_close k | W_lock_count k | W_count k => 0 ≤ k
  | _ => True
  end.

Definition c_holds (pc : cpc) : nat :=
  match pc with C_insert _ _ | C_count | C_unlock => 1 | _ => 0 end.
(** Queued, not yet counted. *)
Definition c_uncounted (pc : cpc) : nat := match pc with C_count => 1 | _ => 0 end.
(** Past the check of the queue size, not yet counted. *)
Definition c_coming (pc : cpc) : nat :=
  match pc with C_make _ _ _ | C_lock _ _ | C_insert _ _ | C_count => 1 | _ => 0 end.
(** The entry a caller has allocated and not yet queued. *)
Definition c_entry (pc : cpc) : option (positive * sds) :=
  match pc with C_lock p m | C_insert p m => Some (p, m) | _ => None end.

Definition total (f : cpc → nat) (ps : list cpc) : nat := sum_list (f <$> ps).
Definition entries (ps : list cpc) : list (positive * sds) := omap c_entry ps.

#[local] Arguments total : simpl never.
#[local] Arguments entries : simpl never.
#[local] Arguments STAILQ_FIRST : simpl never.
#[local] Arguments STAILQ_REMOVE_HEAD : simpl never.
#[local] Arguments STAILQ_INSERT_TAIL : simpl never.
#[local] Arguments logfile_at : simpl never.
#[local] Arguments new_string : simpl never.
#[local] Arguments string_at : simpl never.
#[local] Arguments free_string : simpl never.
#[local] Arguments text : simpl never.

(** Runs the computation in the goal. *)
Ltac run_step :=
  unfold mbind, ST_bind, mret, ST_ret, get, modify, lock_or, unlock_to; cbn.

Lemma total_app f ps1 pc ps2 : total f (ps1 ++ pc :: ps2) = (total f ps1 + f pc + total f ps2)%nat.
Proof. unfold total. rewrite fmap_app. csimpl. induction (f <$> ps1); csimpl; lia. Qed.

Lemma total_le f g ps : (∀ pc, (f pc ≤ g pc)%nat) → (total f ps ≤ total g ps)%nat.
Proof. intros H. unfold total. induction ps as [|pc ps IH]; csimpl; [done|]. specialize (H pc). lia. Qed.

Lemma total_length f ps : (∀ pc, (f pc ≤ 1)%nat) → (total f ps ≤ length ps)%nat.
Proof. intros H. unfold total. induction ps as [|pc ps IH]; csimpl; [done|]. specialize (H pc). lia. Qed.

Lemma entries_app ps1 pc ps2 :
  entries (ps1 ++ pc :: ps2) = entries ps1 ++ option_list (c_entry pc) ++ entries ps2.
Proof. unfold entries. rewrite omap_app. csimpl. by destruct (c_entry pc). Qed.

(** ** The invariant *)

(** The writer can be missing: in the child of a [fork]. *)
Definition of_writer {A} (f : wpc → A) (a : A) (w : option wpc) : A := from_option f a w.

(** The strings that are allocated: the name of the log file, the message the writer is
    handling, those in the queue, and those of callers that are about to queue them. *)
Definition owned `{SL : SdsLib} (s : threads) (l : list (positive * sds)) : list sds :=
  option_list (gpcLogfile (conf (th_state s))) ++ of_writer w_inflight [] (th_writer s) ++
  l.*2 ++ (entries (th_callers s)).*2.

Record inv `{SL : SdsLib} (Q : Z) (s : threads) (l : list (positive * sds)) : Prop := {
  inv_size : iLoggerQueueSize (sCurrLogSettings (conf (th_state s))) ≤ Q;
  inv_bulk : 0 ≤ iBulkWrite (sCurrLogSettings (conf (th_state s)));
  inv_queue : queue_is (Head (th_state s)) (nodes (th_state s)) l;
  inv_nodes : ∀ p m, (p, m) ∈ entries (th_callers s) →
    ∃ nx, nodes (th_state s) !! p = Some (Entry m nx);
  inv_dom : dom (nodes (th_state s)) =
    (list_to_set (l.*1 ++ (entries (th_callers s)).*1) : gset positive);
  inv_nodup : NoDup (l.*1 ++ (entries (th_callers s)).*1);
  inv_name : is_Some (gpcLogfile (conf (th_state s)));
  inv_strings : dom (sds_view (strings (th_state s))) = (list_to_set (owned s l) : gset positive);
  inv_owned : NoDup (owned s l);
  inv_lock : (of_writer w_holds 0 (th_writer s) + total c_holds (th_callers s))%nat =
    if pLogMutex (th_state s) then 1%nat else 0%nat;
  inv_count : iDataInQueueCount (th_state s) + Z.of_nat (total c_uncounted (th_callers s)) =
    Z.of_nat (length l) + of_writer w_taken 0 (th_writer s);
  inv_room : 0 ≤ iDataInQueueCount (th_state s) ∧
    iDataInQueueCount (th_state s) + Z.of_nat (total c_coming (th_callers s)) ≤
    Q + Z.of_nat (length (th_callers s));
  inv_writer : of_writer (λ w, w_queue w l) True (th_writer s);
  inv_hist : inserted (th_state s) = written (th_state s) ++
    (text (th_state s) <$> of_writer w_inflight [] (th_writer s) ++ l.*2);
  inv_shown : shown (th_state s) = cprefix <$> written (th_state s);
  inv_fd : LogfileFd (th_state s) = of_writer w_open false (th_writer s);
}.

(** ** Strings *)

Section strings.
Context `{SL : SdsLib, SS : !SdsSpec SL}.
Implicit Types (g : lstate) (m : sds).

(** A new message is at an address that was not in use. *)
Lemma new_string_ok b g :
  ∃ m h, new_string b g = (Ok m, set_strings h g) ∧ sds_view (strings g) !! m = None ∧
    ∃ sp, sds_view h = <[m := SdsObj b sp]> (sds_view (strings g)).
Proof.
  unfold new_string. destruct (sdsempty_law (strings g)) as [Hl [sp Hv]].
  destruct (sdsempty (strings g)) as [l h1]. cbn in *.
  assert (sds_view h1 !! l = Some (SdsObj [] sp)) as Hl1 by (rewrite Hv; apply lookup_insert_eq).
  destruct (sdscatprintf_law h1 l b _ Hl1) as [Hm [sp' Hv']].
  destruct (sdscatprintf l b h1) as [m h2]. cbn in *. exists m, h2. split; [done|].
  rewrite Hv, delete_insert_id in Hv' by done. split; [|by eexists].
  destruct Hm as [->|Hm]; [done|]. rewrite Hv, lookup_insert_None in Hm. by destruct Hm.
Qed.

Lemma text_insert g h m m' o :
  sds_view h = <[m := o]> (sds_view (strings g)) → m' ≠ m → text (set_strings h g) m' = text g m'.
Proof. intros Hv Hm. unfold text. cbn. by rewrite Hv, lookup_insert_ne. Qed.

Lemma text_new g h m o :
  sds_view h = <[m := o]> (sds_view (strings g)) → text (set_strings h g) m = sds_buf o.
Proof. intros Hv. unfold text. cbn. by rewrite Hv, lookup_insert_eq. Qed.

Lemma free_string_ok m g :
  m ∈ dom (sds_view (strings g)) →
  ∃ h, free_string m g = (Ok tt, set_strings h g) ∧
    sds_view h = delete m (sds_view (strings g)) ∧
    ∀ m', m' ≠ m → text (set_strings h g) m' = text g m'.
Proof.
  intros [o Ho]%elem_of_dom. unfold free_string. rewrite Ho.
  pose proof (sdsfree_law m (strings g) ltac:(by eexists)) as Hv.
  eexists. split_and!; [done|done|]. intros m' Hm. unfold text. cbn. by rewrite Hv, lookup_delete_ne.
Qed.

Lemma string_at_ok m g : m ∈ dom (sds_view (strings g)) → string_at m g = (Ok (text g m), g).
Proof. intros [o Ho]%elem_of_dom. unfold string_at, text. by rewrite Ho. Qed.

Lemma logfile_at_ok m g :
  gpcLogfile (conf g) = Some m → m ∈ dom (sds_view (strings g)) → logfile_at g = (Ok (text g m), g).
Proof. intros Hn Hm. unfold logfile_at. rewrite Hn. by apply string_at_ok. Qed.

(** Texts at addresses where nothing was changed. *)
Lemma texts_same g g' (ms : list sds) :
  (∀ m, m ∈ ms → text g' m = text g m) → text g' <$> ms = text g <$> ms.
Proof. intros H. apply list_fmap_ext. intros i m Hm. apply H. by eapply list_elem_of_lookup_2. Qed.

End strings.

Section preservation.
Context `{SL : SdsLib, SS : !SdsSpec SL, IT : IndeterminateText}.
Context (Q : Z).
Implicit Types (g : lstate) (ps : list cpc) (l : list (positive * sds)).

(** The sizes that keep every counter inside 32 bits. *)
Definition fits ps : Prop := 0 ≤ Q ∧ Q + Z.of_nat (length ps) < 2 ^ 31.

Lemma uncounted_coming ps : (total c_uncounted ps ≤ total c_coming ps)%nat.
Proof. apply total_le. by intros []; simpl; lia. Qed.

Lemma uncounted_holds ps : (total c_uncounted ps ≤ total c_holds ps)%nat.
Proof. apply total_le. by intros []; simpl; lia. Qed.

Lemma coming_length ps : (total c_coming ps ≤ length ps)%nat.
Proof. apply total_length. by intros []; simpl; lia. Qed.

(** What a step of a thread must do: keep the invariant, or end the process because of
    a failing file operation. *)
Definition step_ok {A} (c : choice) (r : outcome A * lstate) (P : A → lstate → Prop) : Prop :=
  match r with
  | (Ok a, g') => P a g'
  | (Exited e, _) => c_io c = Some e
  | _ => False
  end.

Ltac inv_auto :=
  constructor; unfold owned; cbn in *; try done; try lia; try (by intuition lia).

Lemma writer_preserves c g pc ps l :
  c_lock c = None → c_unlock c = None → fits ps → inv Q (Threads g (Some pc) ps) l →
  step_ok c (writer_step c pc g) (λ pc' g', ∃ l', inv Q (Threads g' (Some pc') ps) l').
Proof.
  intros Hlk Hul [HQ Hfit] [].
  pose proof (uncounted_coming ps). pose proof (uncounted_holds ps). pose proof (coming_length ps).
  destruct g as [k q h st n fl fd lk wr sh ins]. unfold owned in *. cbn in *.
  assert (0 ≤ of_writer w_taken 0 (Some pc)) as Htaken by (destruct pc; cbn in *; lia).
  destruct pc as [| | |go|n0|n0 k0|n0 k0 a m|n0 k0 a m|n0 k0 m|n0 k0 m|k0|k0|k0|]; cbn in *;
    run_step; rewrite ?Hlk, ?Hul; cbn.
  - exists l. inv_auto.
  - destruct lk; cbn; exists l; inv_auto.
  - destruct (_ || _) eqn:Hgo; cbn; exists l; inv_auto.
  - destruct go as [n0|]; cbn; exists l; inv_auto; destruct lk; lia.
  - pose proof inv_name0 as [nm Hnm].
    rewrite (logfile_at_ok nm) by (cbn; rewrite ?inv_strings0, ?Hnm; set_solver).
    destruct (c_io c) eqn:Hio; cbn; [done|]. exists l. inv_auto.
  - destruct l as [|[a m] l]; [cbn in *; lia|].
    destruct (queue_first_Some _ _ _ _ _ inv_queue0) as [Hf [nx Ha]].
    rewrite Hf. cbn. rewrite Ha. cbn. exists ((a, m) :: l). inv_auto.
  - destruct lk; cbn; exists l; inv_auto.
  - destruct inv_writer0 as (Hn & Hk & Hhd).
    destruct l as [|[a' m'] l]; [cbn in *; lia|]. cbn in Hhd. injection Hhd as -> ->.
    destruct (remove_head_ok _ _ _ _ _ inv_queue0) as (q' & Hrm & Hq' & Hal).
    destruct (queue_first_Some _ _ _ _ _ inv_queue0) as [_ [nx Ha]].
    unfold remove_head, free_entry. cbn. rewrite Hrm. cbn. rewrite Ha. cbn.
    exists l. cbn in inv_nodup0. apply NoDup_cons in inv_nodup0 as [Hna Hnd].
    inv_auto.
    + eapply queue_frame; [|done]. intros b Hb. apply lookup_delete_ne. by intros <-.
    + intros p m' Hp. rewrite lookup_delete_ne; [by apply inv_nodes0|].
      intros <-. apply Hna. apply elem_of_app. right. apply list_elem_of_fmap. by eexists (_, _).
    + rewrite dom_delete_L, inv_dom0. set_solver.
  - exists l. inv_auto. destruct lk; lia.
  - rewrite string_at_ok by (cbn; rewrite inv_strings0; set_solver). cbn.
    destruct (c_io c) eqn:Hio; cbn; [done|].
    match goal with |- context [free_string m ?g0] => set (g1 := g0) end.
    destruct (free_string_ok m g1) as (st' & -> & Hst & Htx); [cbn; rewrite inv_strings0; set_solver|].
    destruct (NoDup_drop (option_list (gpcLogfile k) ++ l.*2 ++ (entries ps).*2) _ m
      ltac:(symmetry; apply Permutation_middle) inv_owned0) as [Hm Hnd].
    destruct lk; unfold i32; rewrite !swrap_small by lia;
      (destruct (Z.eqb_spec (n0 - 1) 0); cbn; exists l; (inv_auto;
       [rewrite Hst; cbn; rewrite dom_delete_L, inv_strings0; apply elements_drop;
          [symmetry; apply Permutation_middle|done]
       |rewrite inv_hist0, <-app_assoc; cbn; do 2 f_equal; symmetry; apply texts_same; clear -Htx Hm; set_solver
       |by rewrite inv_shown0, fmap_app])).
  - destruct (c_io c) eqn:Hio; cbn; [done|]. exists l. inv_auto.
  - destruct lk; cbn; exists l; inv_auto.
  - exists l. unfold i32. destruct lk; [|lia]. rewrite swrap_small by lia. inv_auto.
  - exists l. inv_auto. destruct lk; lia.
Qed.

Lemma w_queue_app w l x : w_queue w l → w_queue w (l ++ x).
Proof.
  destruct w as [| | |[]|?|??|????|????|???|???|?|?|?|]; cbn; rewrite ?length_app; try lia; try done.
  - destruct l; cbn; intuition lia.
  - destruct l; cbn; intuition lia.
Qed.

(** The invariant after a step of one caller, up to what the step changed. *)
Ltac inv_caller :=
  constructor; unfold owned; cbn; rewrite ?total_app, ?entries_app, ?length_app; cbn; try done; try lia.

(** Opens the invariant for a caller among the others. *)
Ltac inv_open g Hfit :=
  let HQ := fresh "HQ" in
  destruct Hfit as [HQ Hfit]; destruct g as [k q h st n fl fd lk wr sh ins]; unfold owned in *; cbn in *;
  rewrite !total_app, entries_app, length_app in *; cbn in *.

(** A new message and its entry are the caller's own until they are linked. *)
Lemma make_preserves g w ps1 t f args b m st sp ps2 l :
  sds_view (strings g) !! m = None → sds_view st = <[m := SdsObj b sp]> (sds_view (strings g)) →
  fits (ps1 ++ C_make t f args :: ps2) → inv Q (Threads g w (ps1 ++ C_make t f args :: ps2)) l →
  let '(p, h) := new_entry m (nodes g) in
  inv Q (Threads (set_mem (Head g, h) (set_strings st g)) w (ps1 ++ C_lock p m :: ps2)) l.
Proof.
  intros Hm Hst Hfit []. destruct Hfit as [HQ Hfit]. unfold new_entry. set (p := fresh (dom (nodes g))).
  assert (p ∉ dom (nodes g)) as Hp by apply is_fresh.
  assert (m ∉ dom (sds_view (strings g))) as Hm' by (by apply not_elem_of_dom).
  unfold owned in *. cbn in *. rewrite !total_app, entries_app, length_app in *. cbn in *.
  rewrite inv_dom0 in Hp. rewrite inv_strings0 in Hm'.
  constructor; unfold owned; cbn; rewrite ?total_app, ?entries_app, ?length_app; cbn; try done; try lia.
  - eapply queue_frame; [|done]. intros a Ha. rewrite lookup_insert_ne; [done|]. set_solver.
  - intros p' m'. rewrite elem_of_app, elem_of_cons. intros Hin.
    destruct (decide ((p', m') ∈ entries ps1 ++ entries ps2)) as [Hold|Hnew].
    + rewrite lookup_insert_ne; [by apply inv_nodes0|]. intros <-. apply Hp.
      apply elem_of_list_to_set, elem_of_app. right. apply list_elem_of_fmap. by eexists (_, _).
    + assert ((p', m') = (p, m)) as [= -> ->] by set_solver. rewrite lookup_insert_eq. by eexists.
  - rewrite dom_insert_L, inv_dom0. apply elements_add. rewrite !fmap_app. cbn. solve_Permutation.
  - eapply (NoDup_add _ _ p); [|by rewrite elem_of_list_to_set in Hp|done].
    rewrite !fmap_app. cbn. solve_Permutation.
  - rewrite Hst, dom_insert_L, inv_strings0. apply elements_add. rewrite !fmap_app. cbn. solve_Permutation.
  - eapply (NoDup_add _ _ m); [|by rewrite elem_of_list_to_set in Hm'|done].
    rewrite !fmap_app. cbn. solve_Permutation.
  - rewrite inv_hist0. f_equal. symmetry. apply texts_same. intros x Hx.
    apply (text_insert g st m x (SdsObj b sp)); [done|]. intros ->. apply Hm'. set_solver.
Qed.

(** Linking it passes it from the caller to the queue. *)
Lemma insert_preserves g w ps1 p m ps2 l :
  fits (ps1 ++ C_insert p m :: ps2) → inv Q (Threads g w (ps1 ++ C_insert p m :: ps2)) l →
  ∃ g', insert_tail p g = (Ok tt, g') ∧
    inv Q (Threads (add_inserted (text g' m) g') w (ps1 ++ C_count :: ps2)) (l ++ [(p, m)]).
Proof.
  intros Hfit []. inv_open g Hfit. rewrite !fmap_app in *. cbn in *.
  pose proof inv_nodup0 as Hnd.
  apply (NoDup_drop (l.*1 ++ (entries ps1).*1 ++ (entries ps2).*1) _ p) in Hnd as [Hp Hnd];
    [|solve_Permutation].
  assert (p ∉ l.*1) as Hpl by (intros ?; apply Hp, elem_of_app; by left).
  destruct (inv_nodes0 p m) as [nx Hnx]; [apply elem_of_app; right; by left|].
  destruct (insert_tail_ok q h l p m nx inv_queue0 Hpl Hnx) as (q' & h' & Hi & Hq' & Hdom & Hfr).
  unfold insert_tail. cbn. rewrite Hi. eexists. split; [done|]. inv_caller; rewrite ?fmap_app; cbn.
  - intros p' m' Hin. assert (p' ∈ (entries ps1).*1 ++ (entries ps2).*1) as Hp'
      by (rewrite <-fmap_app; apply list_elem_of_fmap; by exists (p', m')).
    rewrite Hfr; [apply inv_nodes0; clear -Hin; set_solver|].
    apply NoDup_app in Hnd as (_ & Hd & _). clear -Hd Hp' Hp. set_solver.
  - rewrite Hdom, inv_dom0. apply elements_perm. solve_Permutation.
  - eapply NoDup_Permutation_proper; [|exact inv_nodup0]. solve_Permutation.
  - rewrite inv_strings0. apply elements_perm. solve_Permutation.
  - eapply NoDup_Permutation_proper; [|exact inv_owned0]. solve_Permutation.
  - destruct w; cbn in *; [by apply w_queue_app|done].
  - rewrite inv_hist0, <-!app_assoc. done.
Qed.

(** The mistakes of a caller: a format without its arguments, and the result of [malloc]
    that is not looked at. *)
Definition mistake (c : choice) (pc : cpc) : option ub :=
  match pc with
  | C_make _ f args =>
    if args_missing f args then Some Unspecified
    else if c_malloc c then None else Some NullDeref
  | _ => None
  end.

Lemma caller_mistakes c pc g u :
  mistake c pc = Some u → fails (caller_step c pc) u g.
Proof.
  destruct pc as [| | |t f args| | | | |]; try done. cbn [mistake caller_step].
  destruct (args_missing f args); [intros [= <-]; by exists g|].
  destruct (c_malloc c) eqn:Hma; [done|]. intros [= <-].
  destruct (new_string_ok (log_line (c_time c) t f args) g) as (m & h & Hn & _).
  eexists. run_step. rewrite Hn. reflexivity.
Qed.

Lemma caller_preserves c g w ps1 pc ps2 l :
  c_lock c = None → c_unlock c = None → mistake c pc = None →
  fits (ps1 ++ pc :: ps2) → inv Q (Threads g w (ps1 ++ pc :: ps2)) l →
  step_ok c (caller_step c pc g)
    (λ pc' g', ∃ l', inv Q (Threads g' w (ps1 ++ pc' :: ps2)) l').
Proof.
  intros Hlk Hul Hmis Hfit Hinv.
  destruct pc as [|t f args|t f args|t f args|p m|p m| | |z]; cbn [caller_step];
    run_step; rewrite ?Hlk, ?Hul; cbn.
  4: { revert Hmis. cbn. destruct (args_missing f args); [done|].
       destruct (c_malloc c) eqn:Hma; [intros _|done]. run_step. destruct (new_string_ok (log_line (c_time c) t f args) g) as (m & h & -> & Hm & sp & Hh). cbn.
       exists l. exact (make_preserves g w ps1 t f args _ m h sp ps2 l Hm Hh Hfit Hinv). }
  5: { destruct (insert_preserves g w ps1 p m ps2 l Hfit Hinv) as (g' & -> & Hinv'). by eexists. }
  all: destruct Hinv; pose proof (coming_length ps1); pose proof (coming_length ps2); inv_open g Hfit.
  - exists l. inv_caller.
  - destruct (_ =? _); cbn; exists l; inv_caller.
  - destruct (Z.ltb_spec (iLoggerQueueSize (sCurrLogSettings k)) n); cbn; exists l; inv_caller.
  - destruct lk; cbn; exists l; inv_caller.
  - exists l. unfold i32. rewrite swrap_small by lia. inv_caller.
  - exists l. inv_caller. destruct lk; lia.
  - exists l. inv_caller.
Qed.

(** A caller never ends the process. *)
Lemma caller_no_exit c pc g e g' : caller_step c pc g ≠ (Exited e, g').
Proof.
  destruct pc; cbn [caller_step]; run_step; repeat case_match; try done;
    unfold new_string, make_entry, free_string, free_entry, insert_tail, STAILQ_INSERT_TAIL, st_undef in *;
    repeat case_match; try done; cbn in *; simplify_eq.
Qed.

Lemma step_preserves s s' l :
  fits (th_callers s) → inv Q s l → step s s' →
  fits (th_callers s') ∧ ∃ l', inv Q s' l'.
Proof.
  intros Hfit Hinv Hstep. destruct Hstep as [c g pc g' pc' ps Hg Hs|c g w ps1 pc ps2 g' pc' Hg Hs
    |g w ps1 ps2 t f args|g w ps1 z ps2|g w ps]; cbn in *.
  - split; [done|]. destruct Hg as (Hlk & Hul & _). pose proof (writer_preserves c g pc ps l Hlk Hul Hfit Hinv) as H.
    rewrite Hs in H. exact H.
  - split; [by unfold fits in *; rewrite length_app in *|].
    destruct Hg as (Hlk & Hul & _). destruct (mistake c pc) as [u|] eqn:Hm.
    + destruct (caller_mistakes c pc g u Hm) as [g1 Hu]. congruence.
    + pose proof (caller_preserves c g w ps1 pc ps2 l Hlk Hul Hm Hfit Hinv) as H. by rewrite Hs in H.
  - split; [by unfold fits in *; rewrite length_app in *|]. exists l. destruct Hinv.
    constructor; unfold owned in *; cbn in *; rewrite ?total_app, ?entries_app, ?length_app in *; cbn in *; done.
  - split; [by unfold fits in *; rewrite length_app in *|]. exists l. destruct Hinv.
    constructor; unfold owned in *; cbn in *; rewrite ?total_app, ?entries_app, ?length_app in *; cbn in *; done.
  - split; [done|]. exists l. by destruct Hinv.
Qed.

End preservation.

(** ** Runs from the state that [logger_init] sets up *)

(** [hist]: what an earlier life of the logger wrote to the same file; [st]: the heap with
    the name of the log file. *)
Definition started `{SL : SdsLib} (k : lconf) (st : sds_heap) (hist : list bytes) : lstate :=
  LState k STAILQ_INIT ∅ st 0 0 false false hist (cprefix <$> hist) hist.

Definition begun `{SL : SdsLib} (k : lconf) (st : sds_heap) (hist : list bytes) (n : nat) : threads :=
  Threads (started k st hist) (Some W_sleep) (replicate n C_idle).

(** The name of the log file is the only string. *)
Definition named `{SL : SdsLib} (k : lconf) (st : sds_heap) : Prop :=
  ∃ nm, gpcLogfile k = Some nm ∧ dom (sds_view st) = ({[nm]} : gset sds).

(** The settings under which the logger is used. *)
Definition sane (k : lconf) (n : nat) : Prop :=
  0 ≤ iBulkWrite (sCurrLogSettings k) ∧ 0 ≤ iLoggerQueueSize (sCurrLogSettings k) ∧
  iLoggerQueueSize (sCurrLogSettings k) + Z.of_nat n < 2 ^ 31.

Section runs.
Context `{SL : SdsLib, SS : !SdsSpec SL, IT : IndeterminateText}.

Lemma idle_total f n : f C_idle = 0%nat → total f (replicate n C_idle) = 0%nat.
Proof. intros Hf. unfold total. induction n; csimpl; [done|]. by rewrite Hf. Qed.

Lemma idle_entries n : entries (replicate n C_idle) = [].
Proof. unfold entries. by induction n. Qed.

Lemma inv_begun k st hist n :
  sane k n → named k st → inv (iLoggerQueueSize (sCurrLogSettings k)) (begun k st hist n) [].
Proof.
  intros (? & ? & ?) (nm & Hnm & Hst). constructor; unfold owned; cbn; rewrite ?Hnm; cbn; rewrite ?idle_entries, ?idle_total, ?length_replicate;
    cbn; try done; try lia.
  - apply queue_is_init.
  - intros p m []%elem_of_nil.
  - constructor.
  - rewrite Hst. cbn. by rewrite (right_id_L ∅ (∪)).
  - apply NoDup_singleton.
  - by rewrite app_nil_r.
Qed.

Lemma inv_reachable k st hist n s :
  sane k n → named k st → rtc step (begun k st hist n) s →
  fits (iLoggerQueueSize (sCurrLogSettings k)) (th_callers s) ∧
  ∃ l, inv (iLoggerQueueSize (sCurrLogSettings k)) s l.
Proof.
  intros Hk Hst Hs. set (Q := iLoggerQueueSize _).
  assert (fits Q (th_callers (begun k st hist n)) ∧ ∃ l, inv Q (begun k st hist n) l) as H.
  { split; [|exists []; by apply inv_begun]. destruct Hk as (? & ? & ?). unfold fits. cbn.
    rewrite length_replicate. done. }
  revert H. induction Hs as [s|s1 s2 s3 H12 _ IH]; [done|].
  intros [Hf [l Hl]]. apply IH. by eapply step_preserves.
Qed.

Lemma callers_reachable s s' : rtc step s s' → length (th_callers s') = length (th_callers s).
Proof.
  induction 1 as [|s1 s2 s3 H _ IH]; [done|]. rewrite IH. destruct H; cbn; rewrite ?length_app; done.
Qed.

(** C8: In every interleaving of the writing thread with any number of callers, for
    settings that keep the counters in 32 bits and a bulk size that is not negative, and
    mutex operations that do not fail: the next step of the writer is never undefined (the
    head of the queue is never null where it is dereferenced, no entry or string is used
    after it was freed, no counter overflows) and ends the process only when a file
    operation fails.  The next step of a caller is undefined in exactly two cases, which
    are mistakes of the code: it formats a message that lacks arguments, or it uses the
    result of a failing [malloc]; otherwise it returns.  At most one thread is inside the
    mutex.  (A step is one access to the shared variables: what C says about data races,
    such as the reading of the counter outside the mutex, is not part of this.) *)
Theorem logger_threads_safe k st hist n s c :
  sane k n → named k st → c_lock c = None → c_unlock c = None → rtc step (begun k st hist n) s →
  (∀ w, th_writer s = Some w → step_ok c (writer_step c w (th_state s)) (λ _ _, True)) ∧
  (∀ pc, pc ∈ th_callers s →
     match mistake c pc with
     | Some u => fails (caller_step c pc) u (th_state s)
     | None => ∃ pc' g', caller_step c pc (th_state s) = (Ok pc', g')
     end) ∧
  (of_writer w_holds 0 (th_writer s) + total c_holds (th_callers s) ≤ 1)%nat.
Proof.
  intros Hk Hst Hlk Hul Hs. destruct (inv_reachable _ _ _ _ _ Hk Hst Hs) as [Hf [l Hl]].
  destruct s as [g w ps]; cbn in *. split_and!.
  - intros pc ->. pose proof (writer_preserves _ _ _ _ _ _ Hlk Hul Hf Hl) as H.
    revert H. unfold step_ok. by destruct (writer_step c pc g) as [[]?].
  - intros pc (ps1 & ps2 & ->)%list_elem_of_split.
    destruct (mistake c pc) as [u|] eqn:Hm; [by apply caller_mistakes|].
    pose proof (caller_preserves _ _ _ _ _ _ _ _ Hlk Hul Hm Hf Hl) as H.
    revert H. unfold step_ok. destruct (caller_step c pc g) as [[]?] eqn:Hc; try done; [eauto|].
    intros _. exfalso. by apply (caller_no_exit c pc g _ _ Hc).
  - destruct Hl. cbn in *. destruct (pLogMutex g); lia.
Qed.

(** C9: In every interleaving the messages reach the log file in the order in which
    they were queued, none lost and none twice: what was queued is what was written,
    then the message the writer is handling, then the queue; the terminal shows the same
    messages as the file; and the allocated strings are exactly those of the messages on
    their way and the name of the file, so no message leaks and none is freed early.  The
    counter counts the queue and what the current pass of the writer took from it (less a
    message that is just being counted), and neither it nor the queue exceeds the
    configured size by more than the number of threads that log. *)
Theorem logger_fifo_bounded k st hist n s :
  sane k n → named k st → rtc step (begun k st hist n) s →
  ∃ l, queue_is (Head (th_state s)) (nodes (th_state s)) l ∧
    inserted (th_state s) = written (th_state s) ++
      (text (th_state s) <$> of_writer w_inflight [] (th_writer s) ++ l.*2) ∧
    shown (th_state s) = cprefix <$> written (th_state s) ∧
    dom (sds_view (strings (th_state s))) = (list_to_set (owned s l) : gset sds) ∧
    NoDup (owned s l) ∧
    iDataInQueueCount (th_state s) + Z.of_nat (total c_uncounted (th_callers s)) =
      Z.of_nat (length l) + of_writer w_taken 0 (th_writer s) ∧
    iDataInQueueCount (th_state s) ≤
      iLoggerQueueSize (sCurrLogSettings k) + Z.of_nat n ∧
    Z.of_nat (length l) ≤ iLoggerQueueSize (sCurrLogSettings k) + Z.of_nat n.
Proof.
  intros Hk Hst Hs. destruct (inv_reachable _ _ _ _ _ Hk Hst Hs) as [Hf [l Hl]].
  pose proof (callers_reachable _ _ Hs) as Hn. cbn in Hn. rewrite length_replicate in Hn.
  exists l. destruct Hl. pose proof (uncounted_coming (th_callers s)).
  split_and!; [done..|lia|].
  assert (0 ≤ of_writer w_taken 0 (th_writer s)) by (destruct (th_writer s) as [[]|]; cbn in *; lia).
  lia.
Qed.

End runs.
