(* ===== verification/LoggerLife.v ===== *)
(** * The life of the logger: flushing, starting, stopping

    The functions of [src/src/cew_logger.c] that one thread calls while the writing
    thread runs beside it.  While the caller sleeps the writer makes some number of
    steps; which number is a list in the state, and when the list is used up the writer
    makes no more steps.  A forked child has no writer at all. *)

From S2P Require Import Prelude CString Machine Queue Logger LoggerSafety.
Local Open Scope Z_scope.

(** ** Operations *)

Section life.
Context `{SL : SdsLib, IT : IndeterminateText}.
(** What the system decides for the calling thread and for the writer. *)
Context (c : choice).

(** [usleep]: the other thread gets its turn. *)
Definition usleep : ST lproc unit := λ s,
  match lp_turns s with
  | [] => (Ok tt, s)
  | n :: ts => run_writer c n (LProc (lp_state s) (lp_writer s) ts)
  end.

(** [while (MaxLoops--)]. *)
Fixpoint flush_loop (MaxLoops : nat) : ST lproc unit :=
  match MaxLoops with
  | O => mret tt
  | S n =>
    iCount ← on_state (get iDataInQueueCount);
    if iCount =? 0 then mret tt else
    _ ← usleep;
    flush_loop n
  end.

Definition logger_flush : ST lproc Z :=
  _ ← on_state (modify (set_flush 1));
  _ ← flush_loop 20;
  mret LOG_EXIT_SUCCESS.

Definition set_name n (k : lconf) :=
  LConf n (sCurrLogSettings k) (iIsInitDone k) (iShuttingDown k) (bTerminateProg k).
Definition set_level v (k : lconf) :=
  let s := sCurrLogSettings k in
  LConf (gpcLogfile k) (LogSettings (iPollingInterval s) (iLoggerQueueSize s) (iBulkWrite s) v)
    (iIsInitDone k) (iShuttingDown k) (bTerminateProg k).
Definition set_init v (k : lconf) :=
  LConf (gpcLogfile k) (sCurrLogSettings k) v (iShuttingDown k) (bTerminateProg k).
Definition set_shutting v (k : lconf) :=
  LConf (gpcLogfile k) (sCurrLogSettings k) (iIsInitDone k) v (bTerminateProg k).
Definition on_conf (f : lconf → lconf) : ST lproc unit :=
  on_state (modify (λ g, set_conf (f (conf g)) g)).

(** The ghost starts anew: from here on it tells what this life of the logger queued,
    after what the file holds already. *)
Definition forget (g : lstate) : lstate :=
  LState (conf g) (Head g) (nodes g) (strings g) (iDataInQueueCount g) (iDoForceFlush g)
    (LogfileFd g) (pLogMutex g) (written g) (shown g) (written g).

(** [sdsnew] of the path. *)
Definition new_name (b : bytes) : ST lstate sds := λ g,
  let '(l, h) := sdsnewlen b (strings g) in (Ok l, set_strings h g).

(** [fopen_ok] and [create_ok]: whether the log file can be opened and the thread
    created.  The level is converted to the unsigned type of the enumeration. *)
Definition logger_init (fopen_ok create_ok : bool) (pcLogfilePath : bytes) (Loglevel : Z)
  : ST lproc Z :=
  k ← on_state (get conf);
  if negb (iIsInitDone k =? 0) then mret LOG_NOINIT else
  name ← on_state (new_name pcLogfilePath);
  _ ← on_conf (set_name (Some name));
  _ ← on_conf (set_level (u32 Loglevel));
  if negb fopen_ok then _ ← on_state (free_string name); mret LOG_EXIT_FAILURE else
  _ ← on_state (modify (λ g, set_mem (STAILQ_INIT, nodes g) g));
  _ ← on_state (modify (set_count 0));
  _ ← on_state (modify forget);
  _ ← on_state (modify (set_flush 0));
  _ ← on_conf (set_shutting 0);
  if negb create_ok then _ ← on_state (free_string name); mret LOG_EXIT_FAILURE else
  _ ← (λ s, (Ok tt, LProc (lp_state s) (Some W_sleep) (lp_turns s)));
  _ ← on_conf (set_init 1);
  mret LOG_EXIT_SUCCESS.

(** [pthread_cancel] and [pthread_join]: the writer goes on to the next place where it
    can be cancelled, and ends there.  In a forked child there is nothing to join. *)
Fixpoint join_writer (fuel : nat) : ST lproc unit := λ s,
  match lp_writer s with
  | None => (Ok tt, s)
  | Some W_sleep => (Ok tt, LProc (lp_state s) None (lp_turns s))
  | Some _ =>
    match fuel with
    | O => (NoFuel, s)
    | S fuel' => (_ ← run_writer c 1; join_writer fuel') s
    end
  end.

(** The loop that frees what is left in the queue. *)
Fixpoint free_queue (fuel : nat) (n1 : option positive) : ST lstate unit :=
  match n1 with
  | None => mret tt
  | Some _ =>
    match fuel with
    | O => st_nofuel
    | S fuel' =>
      '(a, e) ← entry_at n1;
      let n2 := stqe_next e in
      _ ← free_string (msg e);
      _ ← free_entry a;
      free_queue fuel' n2
    end
  end.

Definition free_name : ST lproc unit :=
  k ← on_state (get conf);
  match gpcLogfile k with
  | None => mret tt
  | Some name => _ ← on_state (free_string name); on_conf (set_name None)
  end.

(** Steps the writer needs at most to reach its sleep. *)
Definition join_fuel (g : lstate) : nat := 20 + 5 * Z.to_nat (iDataInQueueCount g).

Definition logger_destroy (pid : Z) : ST lproc Z :=
  k ← on_state (get conf);
  if iIsInitDone k =? 0 then mret LOG_NOINIT else
  _ ← log_msg c eDEBUG (lit "Destroying the logger from pid %d.") [AInt pid];
  _ ← on_conf (set_shutting 1);
  _ ← logger_flush;
  fuel ← on_state (get join_fuel);
  _ ← join_writer fuel;
  fd ← on_state (get LogfileFd);
  _ ← (if fd : bool then on_state (modify (set_fd false)) else mret tt);
  _ ← free_name;
  _ ← on_state (modify (set_lock false));
  n1 ← on_state (get (λ g, STAILQ_FIRST (Head g)));
  sz ← on_state (get (λ g, size (nodes g)));
  _ ← on_state (free_queue (S sz) n1);
  _ ← on_state (modify (set_count 0));
  _ ← on_conf (set_init 0);
  mret LOG_EXIT_SUCCESS.

Definition logger_get (g : lstate) : tsLogSettings := sCurrLogSettings (conf g).

Definition logger_set (sNewSettings : tsLogSettings) : ST lproc Z :=
  _ ← on_conf (λ k, LConf (gpcLogfile k) sNewSettings (iIsInitDone k) (iShuttingDown k)
                      (bTerminateProg k));
  mret LOG_EXIT_SUCCESS.

(** [fork]: the child inherits the variables as they are at that moment, without the
    writing thread. *)
Definition forked (s : lproc) : lproc := LProc (lp_state s) None [].

End life.

(** ** Messages *)

#[local] Arguments STAILQ_FIRST : simpl never.
#[local] Arguments STAILQ_REMOVE_HEAD : simpl never.
#[local] Arguments STAILQ_INSERT_TAIL : simpl never.
#[local] Arguments logfile_at : simpl never.
#[local] Arguments new_string : simpl never.
#[local] Arguments string_at : simpl never.
#[local] Arguments free_string : simpl never.
#[local] Arguments text : simpl never.
#[local] Arguments total : simpl never.
#[local] Arguments entries : simpl never.

(** Runs the computation in the goal as far as it goes. *)
Ltac run_all := repeat progress (unfold mbind, ST_bind, mret, ST_ret, get, modify, lock_or, unlock_to, on_state; cbn).

Section lines.
Context `{SL : SdsLib, SS : !SdsSpec SL, IT : IndeterminateText}.

Lemma format_no_nul f args t : NUL ∉ f → format f args = Some t → NUL ∉ t.
Proof.
  revert args t. remember (length f) as n eqn:Hn. revert f Hn.
  induction (lt_wf n) as [n _ IH]; intros f -> args t Hf Ht.
  destruct f as [|x f]; simpl in Ht; [simplify_eq; apply not_elem_of_nil|].
  apply not_elem_of_cons in Hf as [Hx Hf].
  assert (∀ g args t, NUL ∉ g → (length g < length (x :: f))%nat →
    format g args = Some t → NUL ∉ t) as IH'
    by (intros; by eapply IH).
  case_decide as Hp.
  - apply fmap_Some in Ht as (t' & Ht & ->). apply not_elem_of_cons. split; [done|].
    eapply (IH' f); [done|simpl; lia|done].
  - destruct f as [|d f2]; [done|]. apply not_elem_of_cons in Hf as [_ Hf].
    destruct args as [|[z|m|] args]; try done.
    + case_decide as Hd.
      * apply fmap_Some in Ht as (t' & Ht & ->). apply not_elem_of_app. split; [apply dec_no_nul|].
        eapply (IH' f2); [done|simpl; lia|done].
      * case_decide; [|done]. destruct f2 as [|e f3]; [done|]. case_decide; [|done].
        apply not_elem_of_cons in Hf as [_ Hf].
        apply fmap_Some in Ht as (t' & Ht & ->). apply not_elem_of_app. split; [apply dec_no_nul|].
        eapply (IH' f3); [done|simpl; lia|done].
    + case_decide; [|done]. apply bind_Some in Ht as (s & Hs & Ht).
      apply fmap_Some in Ht as (t' & Ht & ->). apply not_elem_of_app.
      split; [by apply cstr_Some in Hs as [? _]|]. eapply (IH' f2); [done|simpl; lia|done].
Qed.

Lemma log_line_text time t f args m :
  NUL ∉ time → NUL ∉ f → format f args = Some m →
  log_line time t f args =
    time ++ lit " : " ++ pcLogTypeMsg t ++ lit " : " ++ take 1023 m ++ [LF].
Proof.
  intros Htime Hf Hm. unfold log_line, user_msg, vsnprintf. rewrite Hm.
  assert (NUL ∉ take 1023 m) as Hu.
  { intros (i & Hi & _)%elem_of_take. eapply format_no_nul; [exact Hf|exact Hm|].
    by eapply list_elem_of_lookup_2. }
  assert (NUL ∉ pcLogTypeMsg t) by (destruct t; by apply (bool_decide_unpack _)).
  change (lit "%s : %s : %s" ++ [LF]) with ("%"%char :: "s"%char :: lit " : " ++
    ("%"%char :: "s"%char :: lit " : " ++ ("%"%char :: "s"%char :: [LF]))).
  rewrite (format_s _ _ _ _ (cstr_region _)), format_text by (by apply (bool_decide_unpack _)).
  rewrite (format_s _ _ _ _ (cstr_region _)), format_text by (by apply (bool_decide_unpack _)).
  rewrite (format_s _ _ _ _ (cstr_region _)), !cprefix_id by done.
  change (format [LF] []) with (Some [LF]). cbn [fmap option_fmap option_map default from_option].
  done.
Qed.

(** When a message of a type is let through. *)
Definition accepts (k : lconf) (t : tLoggerType) : bool :=
  negb (iIsInitDone k =? 0) && negb (bTerminateProg k) && (iShuttingDown k =? 0) &&
  (level_num t <=? iCurrLogLevel (sCurrLogSettings k)).

Lemma is_msg_allowed_spec k t : (is_msg_allowed k t =? LOG_EXIT_SUCCESS) = accepts k t.
Proof.
  unfold is_msg_allowed, accepts. rewrite Z.leb_antisym.
  destruct (iIsInitDone k =? 0), (bTerminateProg k), (iShuttingDown k =? 0); cbn; try done.
  by destruct (_ <? _).
Qed.

(** [inv] for a process whose own thread is not inside the logger; [Q] bounds the counter
    (it is above the size of the queue when [logger_set] made the queue smaller). *)
Definition quiet (g : lstate) (w : option wpc) (l : list (positive * sds)) : Prop :=
  ∃ Q, inv Q (Threads g w [C_idle]) l ∧ fits Q [C_idle].

Lemma log_msg_refused c t f args s :
  accepts (conf (lp_state s)) t = false → log_msg c t f args s = (Ok LOG_EXIT_FAILURE, s).
Proof.
  destruct s as [g w ts]. cbn. intros Ha. unfold log_msg. run_all.
  by rewrite is_msg_allowed_spec, Ha.
Qed.

(** The steps the writer needs to leave the mutex. *)
Definition w_inside (w : option wpc) : nat :=
  match w with
  | Some (W_decide | W_remove _ _ _ _ | W_count _) => 2
  | Some (W_unlock _ | W_removed _ _ _ | W_unlock_count) => 1
  | _ => 0
  end.

(** A step of the writer inside the mutex neither reads nor writes a file and touches no
    string. *)
Lemma writer_step_inside c Q g pc ps l :
  good c → fits Q ps → inv Q (Threads g (Some pc) ps) l → w_holds pc = 1%nat →
  ∃ pc' g' l', writer_step c pc g = (Ok pc', g') ∧ inv Q (Threads g' (Some pc') ps) l' ∧
    S (w_inside (Some pc')) = w_inside (Some pc) ∧ conf g' = conf g ∧ strings g' = strings g ∧
    written g' = written g.
Proof.
  intros (Hl & Hu & _) Hfit Hinv Hpc.
  pose proof (writer_preserves Q c g pc ps l Hl Hu Hfit Hinv) as Hp. unfold step_ok in Hp.
  destruct (writer_step c pc g) as [r g'] eqn:Hs.
  assert (conf g' = conf g ∧ strings g' = strings g ∧ written g' = written g ∧
    match r with
    | Ok pc' => S (w_inside (Some pc')) = w_inside (Some pc)
    | Exited _ => False
    | _ => True
    end) as (? & ? & ? & Hr).
  { destruct pc; try done; revert Hs; cbn; run_all; rewrite ?Hu; run_all;
      unfold remove_head, free_entry, st_undef; repeat case_match; intros; simplify_eq; cbn in *;
      repeat case_match; simplify_eq; try done;
      match goal with H : STAILQ_REMOVE_HEAD _ = _ |- _ =>
        unfold STAILQ_REMOVE_HEAD in H; repeat case_match; simplify_eq; done end. }
  destruct r; try done. destruct Hp as [l' Hl']. by exists a, g', l'.
Qed.

(** Waiting for the mutex succeeds while there is a writer, and changes nothing when the
    mutex is free. *)
Lemma await_mutex_run c Q ps n : ∀ g w ts l,
  good c → fits Q ps → inv Q (Threads g w ps) l → total c_holds ps = 0%nat →
  (w_inside w ≤ n)%nat →
  ∃ g' w' l', await_mutex c n (LProc g w ts) = (Ok tt, LProc g' w' ts) ∧
    inv Q (Threads g' w' ps) l' ∧ pLogMutex g' = false ∧ conf g' = conf g ∧
    strings g' = strings g ∧ written g' = written g ∧
    (pLogMutex g = false → g' = g ∧ w' = w ∧ l' = l).
Proof.
  induction n as [|n IH]; intros g w ts l Hc Hfit Hinv Hps Hn.
  - exists g, w, l. split_and!; try done. pose proof (inv_lock _ _ _ Hinv) as Hlk. cbn in Hlk.
    rewrite Hps in Hlk. destruct w as [[]|], (pLogMutex g); cbn in *; done || lia.
  - cbn [await_mutex]. run_all. destruct (pLogMutex g) eqn:Hlk; [|by exists g, w, l].
    pose proof (inv_lock _ _ _ Hinv) as Hh. cbn in Hh. rewrite Hps, Hlk in Hh.
    destruct w as [pc|]; [|done]. cbn in Hh.
    destruct (writer_step_inside c Q g pc ps l Hc Hfit Hinv ltac:(lia))
      as (pc1 & g1 & l1 & Hs & Hinv1 & Hin & Hk & Hst & Hw).
    unfold run_writer. run_all. rewrite Hs.
    destruct (IH g1 (Some pc1) ts l1 Hc Hfit Hinv1 Hps ltac:(lia))
      as (g' & w' & l' & -> & ? & ? & ? & ? & ? & _).
    exists g', w', l'. split_and!; try done; congruence.
Qed.

Lemma w_inside_le w : (w_inside w ≤ 2)%nat.
Proof. destruct w as [[]|]; cbn; lia. Qed.

#[local] Arguments await_mutex : simpl never.
#[local] Arguments insert_tail : simpl never.

(** A caller at the lock, holding its message, gets it into the queue. *)
Lemma queue_message c Q g w ts p m l :
  good c → fits Q [C_lock p m] → inv Q (Threads g w [C_lock p m]) l →
  ∃ g1 w1 l1 g', (_ ← lock_mutex c; _ ← on_state (insert_tail p);
       _ ← on_state (modify (λ g, add_inserted (text g m) g));
       iCount ← on_state (get iDataInQueueCount);
       _ ← on_state (modify (set_count (i32 (iCount + 1))));
       _ ← on_state (modify (set_lock false)); mret LOG_EXIT_SUCCESS) (LProc g w ts) =
      (Ok LOG_EXIT_SUCCESS, LProc g' w1 ts) ∧
    inv Q (Threads g' w1 [C_idle]) (l1 ++ [(p, m)]) ∧ text g' m = text g m ∧
    iDataInQueueCount g' = iDataInQueueCount g1 + 1 ∧ pLogMutex g' = false ∧
    conf g' = conf g ∧ written g' = written g ∧
    (pLogMutex g = false → g1 = g ∧ w1 = w ∧ l1 = l).
Proof.
  intros Hc Hfit Hinv. unfold lock_mutex.
  destruct (await_mutex_run c Q [C_lock p m] 2 g w ts l Hc Hfit Hinv eq_refl (w_inside_le w))
    as (g1 & w1 & l1 & Hrun & Hinv1 & Hlk1 & Hk1 & Hst1 & Hwr1 & Hsame).
  exists g1, w1, l1. run_all. rewrite Hrun. run_all. rewrite Hlk1. run_all.
  assert (inv Q (Threads (set_lock true g1) w1 [C_insert p m]) l1) as Hins.
  { destruct Hinv1. unfold owned, total in *. cbn in *. rewrite Hlk1 in *.
    constructor; unfold owned, total; cbn in *; done || lia. }
  destruct (insert_preserves Q (set_lock true g1) w1 [] p m [] l1 Hfit Hins) as (g4 & Hi & Hcount).
  unfold on_state. cbn [lp_state]. rewrite Hi. run_all.
  revert Hi. unfold insert_tail. destruct (STAILQ_INSERT_TAIL _ _) as [r qh]. intros [= -> <-].
  eexists. split; [done|]. destruct Hcount, Hfit as [HQ Hfit].
  assert (i32 (iDataInQueueCount g1 + 1) = iDataInQueueCount g1 + 1) as Hcnt.
  { unfold total in *. cbn in *. apply swrap_small; lia. }
  split_and!; try done; [|by unfold text; cbn; rewrite Hst1]. unfold owned, total in *.
  constructor; unfold owned, total; cbn in *; rewrite ?Hcnt; done || lia.
Qed.

Lemma log_msg_run c t f args g w ts l :
  quiet g w l → good c → args_missing f args = false →
  if accepts (conf g) t && (iDataInQueueCount g <=? iLoggerQueueSize (sCurrLogSettings (conf g)))
  then ∃ p m g' w' l', log_msg c t f args (LProc g w ts) = (Ok LOG_EXIT_SUCCESS, LProc g' w' ts) ∧
    quiet g' w' (l' ++ [(p, m)]) ∧ text g' m = log_line (c_time c) t f args ∧
    pLogMutex g' = false ∧ conf g' = conf g ∧ written g' = written g ∧
    (pLogMutex g = false → w' = w ∧ l' = l ∧ iDataInQueueCount g' = iDataInQueueCount g + 1)
  else log_msg c t f args (LProc g w ts) = (Ok LOG_EXIT_FAILURE, LProc g w ts).
Proof.
  intros (Q & Hinv & Hfit) Hc Hargs. pose proof Hc as (Hl & Hu & Hma).
  unfold log_msg. run_all. rewrite is_msg_allowed_spec.
  destruct (accepts (conf g) t); [|done]. cbn [andb].
  unfold log_add_to_queue. run_all. rewrite Z.leb_antisym.
  destruct (Z.ltb_spec (iLoggerQueueSize (sCurrLogSettings (conf g))) (iDataInQueueCount g))
    as [|Hroom]; cbn [negb]; run_all; [done|].
  rewrite Hargs. run_all. set (line := log_line _ _ _ _).
  destruct (new_string_ok line g) as (m & st & -> & Hm & sp & Hst). rewrite Hma, Hl, Hu. run_all.
  set (p := fresh (dom (nodes g))).
  assert (inv Q (Threads g w [C_make t f args]) l) as Hmake.
  { destruct Hinv. unfold owned, total in *. constructor; unfold owned, total; cbn in *; done || lia. }
  pose proof (make_preserves Q g w [] t f args line m st sp [] l Hm Hst Hfit Hmake) as Hlocked.
  cbn in Hlocked. fold p in Hlocked.
  destruct (queue_message c Q _ w ts p m l Hc Hfit Hlocked)
    as (g1 & w1 & l1 & g' & Hr & Hinv' & Htx & Hcnt & Hlk & Hk & Hwr & Hsame).
  revert Hr. run_all. intros Hr. rewrite Hr.
  exists p, m, g', w1, l1. split_and!; try done; [by exists Q| |].
  - rewrite Htx. by apply (text_new g st m (SdsObj line sp)).
  - intros Hfree. destruct (Hsame Hfree) as (-> & -> & ->). done.
Qed.

(** C25: What [log_msg] does when the mutex is free, [malloc] and the mutex do not fail
    and the format has the arguments it needs: it accepts a message exactly when the
    logger is initialised, neither the program nor the logger is shutting down, the level
    suffices and the counter is at most the size of the queue (so one entry more than
    the size is taken).  Then the line with the time, the type and at most 1023 bytes of
    the text is the last of the queue and the counter goes up by one; otherwise nothing
    changes.  Its result is only ever success or failure. *)
Theorem log_msg_correct c t f args m g w ts l :
  quiet g w l → pLogMutex g = false → good c →
  NUL ∉ c_time c → NUL ∉ f → format f args = Some m →
  if accepts (conf g) t && (iDataInQueueCount g <=? iLoggerQueueSize (sCurrLogSettings (conf g)))
  then ∃ p b g', log_msg c t f args (LProc g w ts) = (Ok LOG_EXIT_SUCCESS, LProc g' w ts) ∧
    quiet g' w (l ++ [(p, b)]) ∧
    text g' b = c_time c ++ lit " : " ++ pcLogTypeMsg t ++ lit " : " ++ take 1023 m ++ [LF] ∧
    iDataInQueueCount g' = iDataInQueueCount g + 1 ∧ pLogMutex g' = false ∧
    conf g' = conf g ∧ written g' = written g
  else log_msg c t f args (LProc g w ts) = (Ok LOG_EXIT_FAILURE, LProc g w ts).
Proof.
  intros Hq Hlk Hc Htime Hf Hm. rewrite <-(log_line_text _ _ _ _ _ Htime Hf Hm).
  pose proof (log_msg_run c t f args g w ts l Hq Hc (format_supplied _ _ _ Hm)) as H.
  destruct (_ && _); [|done].
  destruct H as (p & b & g' & w' & l' & Hr & Hq' & Htx & Hl & Hk & Hw & Hs).
  destruct (Hs Hlk) as (-> & -> & Hn). by exists p, b, g'.
Qed.

(** The steps of a caller, one after the other. *)
Fixpoint caller_runs (c : choice) (n : nat) (pc : cpc) : ST lstate cpc :=
  match n with
  | O => mret pc
  | S n' => pc' ← caller_step c pc; caller_runs c n' pc'
  end.

End lines.

(** ** The writer finishes its work *)

(** The file operations succeed as well. *)
Definition all_good (c : choice) : Prop := good c ∧ c_io c = None.

(** What a run of the writer leaves alone. *)
Definition same_but_queue `{SL : SdsLib} (g g' : lstate) : Prop :=
  conf g' = conf g ∧ inserted g' = inserted g ∧ pLogMutex g' = false ∧
  iDataInQueueCount g' = iDataInQueueCount g ∧ LogfileFd g' = LogfileFd g.

(** The messages [ms] went from the heap to the file and the terminal. *)
Definition wrote `{SL : SdsLib} (ms : list sds) (g g' : lstate) : Prop :=
  written g' = written g ++ (text g <$> ms) ∧
  shown g' = shown g ++ (cprefix ∘ text g <$> ms) ∧
  dom (sds_view (strings g')) = dom (sds_view (strings g)) ∖ list_to_set ms ∧
  ∀ m, m ∉ ms → text g' m = text g m.

Section drain.
Context `{SL : SdsLib, SS : !SdsSpec SL, IT : IndeterminateText}.
Context (c : choice) (Hc : all_good c).

Lemma writer_runs_add n1 n2 pc :
  ∀ g, writer_runs c (n1 + n2) pc g = (pc' ← writer_runs c n1 pc; writer_runs c n2 pc') g.
Proof.
  revert pc. induction n1 as [|n1 IH]; intros pc g; [done|].
  cbn. unfold mbind, ST_bind. destruct (writer_step c pc g) as [[] g']; [apply IH|done..].
Qed.

(** One message: five steps. *)
Lemma writer_message g a m l n k :
  queue_is (Head g) (nodes g) ((a, m) :: l) → m ∈ dom (sds_view (strings g)) →
  pLogMutex g = false → 0 ≤ k → 1 ≤ n → k + n < 2 ^ 31 →
  ∃ g', writer_runs c 5 (W_first n k) g =
      (Ok (if n - 1 =? 0 then W_close (k + 1) else W_first (n - 1) (k + 1)), g') ∧
    same_but_queue g g' ∧ wrote [m] g g' ∧
    queue_is (Head g') (nodes g') l ∧ nodes g' = delete a (nodes g).
Proof.
  destruct Hc as [(Hl & Hu & _) Hio]. intros Hq Hm Hlk Hk Hn Hkn.
  destruct (queue_first_Some _ _ _ _ _ Hq) as [Hf [nx Ha]].
  destruct (remove_head_ok _ _ _ _ _ Hq) as (q' & Hr & Hq' & Hal).
  cbn. run_all. rewrite Hf. run_all. rewrite Ha. run_all.
  rewrite Hl. run_all. rewrite Hlk. run_all.
  unfold remove_head. run_all. rewrite Hr. run_all.
  unfold free_entry. run_all. rewrite Ha. run_all. rewrite Hu. run_all.
  rewrite string_at_ok by done. run_all. rewrite Hio. run_all.
  match goal with |- context [free_string m ?x] => set (g1 := x) end.
  destruct (free_string_ok m g1) as (h & -> & Hh & Htx); [done|]. run_all.
  unfold i32. rewrite !swrap_small by lia.
  eexists. split; [by destruct (n - 1 =? 0)|]. split_and!; try done; cbn.
  - split_and!; [done|done| |].
    + cbn. rewrite Hh, dom_delete_L. cbn. by rewrite (right_id_L ∅ (∪)).
    + intros m' Hm'. apply Htx. set_solver.
  - eapply queue_frame; [|done]. intros b Hb. apply lookup_delete_ne. by intros <-.
Qed.

Lemma wrote_trans m ms g1 g2 g3 :
  m ∉ ms → wrote [m] g1 g2 → wrote ms g2 g3 → wrote (m :: ms) g1 g3.
Proof.
  intros Hm (Hw1 & Hs1 & Hd1 & Ht1) (Hw2 & Hs2 & Hd2 & Ht2).
  assert (text g2 <$> ms = text g1 <$> ms) as Hms by (apply texts_same; intros; apply Ht1; set_solver).
  split_and!.
  - by rewrite Hw2, Hw1, Hms, <-app_assoc.
  - rewrite Hs2, Hs1, <-app_assoc, !list_fmap_compose. by rewrite Hms.
  - rewrite Hd2, Hd1. set_solver.
  - intros x Hx. rewrite Ht2, Ht1; set_solver.
Qed.

Lemma writer_loop l : ∀ g n k,
  queue_is (Head g) (nodes g) l → NoDup l.*2 → list_to_set l.*2 ⊆ dom (sds_view (strings g)) →
  pLogMutex g = false → 0 ≤ k → n = Z.of_nat (length l) → 1 ≤ n → k + n < 2 ^ 31 →
  ∃ g', writer_runs c (5 * length l) (W_first n k) g = (Ok (W_close (k + n)), g') ∧
    same_but_queue g g' ∧ wrote l.*2 g g' ∧
    queue_is (Head g') (nodes g') [] ∧ dom (nodes g') = dom (nodes g) ∖ list_to_set l.*1.
Proof.
  induction l as [|[a m] l IH]; intros g n k Hq Hnd Hst Hlk Hk Hn Hn1 Hkn; [simpl in Hn; lia|].
  destruct (writer_message g a m l n k Hq ltac:(set_solver) Hlk Hk Hn1 Hkn)
    as (g1 & Hr & Hs & Hw & Hq1 & Hno).
  replace (5 * length ((a, m) :: l))%nat with (5 + 5 * length l)%nat by (simpl; lia).
  rewrite writer_runs_add. unfold mbind at 1, ST_bind at 1. rewrite Hr.
  cbn in Hnd. apply NoDup_cons in Hnd as [Hm Hnd].
  destruct Hs as (? & ? & ? & ? & ?). destruct l as [|x l].
  - simpl in Hn. subst n. cbn. exists g1. split_and!; try done.
    rewrite Hno, dom_delete_L. set_solver.
  - simpl in Hn. destruct (Z.eqb_spec (n - 1) 0); [lia|].
    destruct (IH g1 (n - 1) (k + 1)) as (g2 & Hr2 & (? & ? & ? & ? & ?) & Hw2 & Hq2 & Hd2);
      [done|done| |done|lia|simpl; lia|lia|lia|].
    { destruct Hw as (_ & _ & -> & _). set_solver. }
    exists g2. replace (k + 1 + (n - 1)) with (k + n) in Hr2 by lia. rewrite Hr2.
    split_and!; try done; try (unfold same_but_queue; split_and!; congruence).
    + by eapply wrote_trans.
    + rewrite Hd2, Hno, dom_delete_L. csimpl. set_solver.
Qed.

(** When the writer has something to do. *)
Definition due (g : lstate) : Prop :=
  iDataInQueueCount g ≠ 0 ∧
  (iBulkWrite (sCurrLogSettings (conf g)) < iDataInQueueCount g ∨ iDoForceFlush g ≠ 0).

Lemma due_go g : due g →
  (iBulkWrite (sCurrLogSettings (conf g)) <? iDataInQueueCount g) ||
  (negb (iDoForceFlush g =? 0) && negb (iDataInQueueCount g =? 0)) = true.
Proof. intros [? ?]. lia. Qed.

(** One pass writes everything that is queued. *)
Lemma writer_pass g l nm :
  queue_is (Head g) (nodes g) l → pLogMutex g = false → dom (nodes g) = list_to_set l.*1 →
  gpcLogfile (conf g) = Some nm → dom (sds_view (strings g)) = list_to_set (nm :: l.*2) →
  NoDup (nm :: l.*2) →
  iDataInQueueCount g = Z.of_nat (length l) → Z.of_nat (length l) < 2 ^ 31 → due g →
  ∃ g', writer_runs c (9 + 5 * length l) W_sleep g = (Ok W_sleep, g') ∧
    wrote l.*2 g g' ∧ queue_is (Head g') (nodes g') [] ∧ nodes g' = ∅ ∧
    iDataInQueueCount g' = 0 ∧ iDoForceFlush g' = 0 ∧ pLogMutex g' = false ∧
    LogfileFd g' = false ∧ conf g' = conf g ∧ inserted g' = inserted g.
Proof.
  intros Hq Hlk Hdom Hnm Hst Hnd Hcnt Hb Hdue. pose proof (due_go g Hdue) as Hgo.
  assert (1 ≤ Z.of_nat (length l)) by (destruct Hdue; lia).
  replace (9 + 5 * length l)%nat with (5 + (5 * length l + 4))%nat by lia.
  rewrite writer_runs_add. unfold mbind at 1, ST_bind at 1.
  assert (writer_runs c 5 W_sleep g =
    (Ok (W_first (Z.of_nat (length l)) 0), set_fd true (set_lock false (set_lock true g)))) as H5.
  { destruct Hc as [(Hl & Hu & _) Hio]. cbn. run_all. rewrite Hl. run_all.
    rewrite Hlk. run_all. rewrite Hgo. run_all. rewrite Hu. run_all.
    rewrite (logfile_at_ok nm) by (cbn; first [done|rewrite Hst; set_solver]). run_all.
    rewrite Hio. run_all. by rewrite Hcnt. }
  rewrite H5, writer_runs_add. unfold mbind at 1, ST_bind at 1.
  destruct (writer_loop l (set_fd true (set_lock false (set_lock true g))) (Z.of_nat (length l)) 0)
    as (g2 & Hr & (Hk2 & Hi2 & Hl2 & Hc2 & Hf2) & Hw & Hq2 & Hd2);
    [done|by apply NoDup_cons in Hnd as [_ ?]|cbn; rewrite Hst; set_solver|done|lia|done|lia|lia|].
  rewrite Hr. destruct Hc as [(Hl & Hu & _) Hio]. cbn. run_all. rewrite Hio. run_all.
  rewrite Hl. run_all. rewrite Hl2. run_all.
  rewrite Hu. run_all. eexists. split; [done|].
  cbn in Hc2, Hd2, Hk2, Hi2. cbn. rewrite Hc2, Hcnt, Z.sub_diag.
  split_and!; try done.
  apply dom_empty_inv_L. rewrite Hd2, Hdom. set_solver.
Qed.

(** C19: The writer makes progress: from any state that the threads can reach in which
    the callers are outside the logger and the writer is asleep with something to do
    (more messages than the bulk size, or a flush was asked for), its next pass, of nine
    steps and five for each message, ends with every message ever queued in the file and
    on the terminal in order, an empty queue whose entries are all freed, no string left
    but the name of the file, and the counter at zero. *)
Theorem logger_drains k st hist n g :
  sane k n → named k st →
  rtc step (begun k st hist n) (Threads g (Some W_sleep) (replicate n C_idle)) → due g →
  ∃ g', writer_runs c (9 + 5 * Z.to_nat (iDataInQueueCount g)) W_sleep g = (Ok W_sleep, g') ∧
    written g' = inserted g ∧ shown g' = cprefix <$> inserted g ∧
    queue_is (Head g') (nodes g') [] ∧ nodes g' = ∅ ∧
    dom (sds_view (strings g')) = list_to_set (option_list (gpcLogfile (conf g))) ∧
    iDataInQueueCount g' = 0 ∧ iDoForceFlush g' = 0 ∧ pLogMutex g' = false.
Proof.
  intros Hk Hst Hs Hdue. destruct (inv_reachable _ _ _ _ _ Hk Hst Hs) as [[_ Hfit] [l Hl]].
  destruct Hl. unfold owned in *. cbn in *.
  rewrite idle_entries, !idle_total, length_replicate in * by done.
  cbn in *. rewrite !app_nil_r in *. destruct inv_name as [nm Hnm]. rewrite Hnm in *. cbn in *.
  assert (iDataInQueueCount g = Z.of_nat (length l)) as Hcnt by lia.
  destruct (writer_pass g l nm) as (g' & Hr & (Hw & Hsh & Hd & _) & Hq & Hn & ? & ? & ? & _);
    try done; try lia.
  - by destruct (pLogMutex g).
  - exists g'. rewrite Hcnt, Nat2Z.id. split_and!; try done.
    + by rewrite Hw, inv_hist.
    + by rewrite Hsh, inv_shown, inv_hist, list_fmap_compose, fmap_app.
    + rewrite Hd, inv_strings. apply NoDup_cons in inv_owned as [? _]. set_solver.
Qed.

End drain.

(** ** A setting that breaks it, and a mutex that stays locked *)

Section breaks.
Context `{SL : SdsLib, SS : !SdsSpec SL, IT : IndeterminateText}.

(** With a negative bulk size, which [logger_set] accepts, the writer finds the
    empty queue worth writing and dereferences its null head in the sixth step after the
    logger was started. *)
Theorem negative_bulk_undefined k st hist c :
  all_good c → named k st → iBulkWrite (sCurrLogSettings k) < 0 →
  fails (writer_runs c 6 W_sleep) NullDeref (started k st hist).
Proof.
  intros [(Hl & Hu & _) Hio] (nm & Hnm & Hst) Hb. eexists. cbn. run_all. rewrite Hl. run_all.
  unfold started. run_all. rewrite (proj2 (Z.ltb_lt _ _) Hb). run_all.
  rewrite Hu. run_all. rewrite (logfile_at_ok nm) by (cbn; first [done|rewrite Hst; set_solver]).
  run_all. rewrite Hio. run_all. done.
Qed.

Lemma new_string_same b g m g' :
  new_string b g = (Ok m, g') →
  pLogMutex g' = pLogMutex g ∧ inserted g' = inserted g ∧ written g' = written g.
Proof. destruct (new_string_ok b g) as (? & ? & -> & _). by intros [= <- <-]. Qed.

(** A process without a writer whose mutex is locked by nobody of its own: as long as its
    threads only log, nothing changes. *)
Lemma locked_forever g ps s :
  pLogMutex g = true → total c_holds ps = 0%nat →
  rtc step (Threads g None ps) s →
  pLogMutex (th_state s) = true ∧ th_writer s = None ∧ total c_holds (th_callers s) = 0%nat ∧
  inserted (th_state s) = inserted g ∧ written (th_state s) = written g.
Proof.
  intros Hlk Hps Hs.
  cut (pLogMutex (th_state s) = true ∧ th_writer s = None ∧ total c_holds (th_callers s) = 0%nat ∧
    inserted (th_state s) = inserted (th_state (Threads g None ps)) ∧
    written (th_state s) = written (th_state (Threads g None ps))); [done|].
  assert (pLogMutex (th_state (Threads g None ps)) = true ∧ th_writer (Threads g None ps) = None ∧
    total c_holds (th_callers (Threads g None ps)) = 0%nat) as H by done.
  revert H. remember (Threads g None ps) as s0 eqn:E. clear g ps E Hlk Hps.
  induction Hs as [s|s1 s2 s3 H12 _ IH]; [naive_solver|].
  intros (Hl & Hw & Hh).
  assert (pLogMutex (th_state s2) = true ∧ th_writer s2 = None ∧
    total c_holds (th_callers s2) = 0%nat ∧ inserted (th_state s2) = inserted (th_state s1) ∧
    written (th_state s2) = written (th_state s1)) as (? & ? & ? & Hi & Hwr).
  2: { rewrite <-Hi, <-Hwr. by apply IH. }
  destruct H12 as [c g pc g' pc' ps Hg Hst|c g w ps1 pc ps2 g' pc' [Hlc [Huc Hmc]] Hst
    |g w ps1 ps2 t f args|g w ps1 z ps2|g w ps]; cbn in *; try done;
    rewrite ?total_app in *; cbn in *; try done.
  destruct pc; cbn in *; try lia; revert Hst; run_all; rewrite ?Hlc, ?Hmc, ?Hl; run_all;
    repeat case_match; intros; simplify_eq; cbn; try done;
    try match goal with H : new_string _ _ = _ |- _ => apply new_string_same in H as (? & ? & ?) end;
    split_and!; congruence || lia.
Qed.

End breaks.

(** ** One process: its thread and the writer *)

(** The settings keep the counters in 32 bits and the bulk size sensible. *)
Definition sane1 (k : lconf) : Prop := sane k 1.

(** The state between the calls of a process. *)
Definition life `{SL : SdsLib} (s : lproc) : Prop :=
  sane1 (conf (lp_state s)) ∧
  if iIsInitDone (conf (lp_state s)) =? 0
  then nodes (lp_state s) = ∅ ∧ sds_view (strings (lp_state s)) = ∅ ∧ lp_writer s = None ∧
    pLogMutex (lp_state s) = false ∧ LogfileFd (lp_state s) = false ∧
    shown (lp_state s) = cprefix <$> written (lp_state s)
  else ∃ l, quiet (lp_state s) (lp_writer s) l.

(** Steps until the writer sleeps. *)
Definition w_steps (pc : wpc) (count : Z) : Z :=
  match pc with
  | W_sleep => 0 | W_trylock => 5 * count + 8 | W_decide => 5 * count + 7
  | W_unlock (Some n) => 5 * n + 6 | W_unlock None => 1 | W_open n => 5 * n + 5
  | W_first n _ => 5 * n + 4 | W_lock n _ _ _ => 5 * n + 3 | W_remove n _ _ _ => 5 * n + 2
  | W_removed n _ _ => 5 * n + 1 | W_write n _ _ => 5 * n
  | W_close _ => 4 | W_lock_count _ => 3 | W_count _ => 2 | W_unlock_count => 1
  end.

Section process.
Context `{SL : SdsLib, SS : !SdsSpec SL, IT : IndeterminateText}.
Context (c : choice) (Hc : all_good c).

Lemma quiet_unlocked g pc l : quiet g (Some pc) l → w_holds pc = 0%nat → pLogMutex g = false.
Proof.
  intros (Q & [] & _) Hpc. cbn in *. rewrite Hpc in *. unfold total in *. cbn in *.
  by destruct (pLogMutex g).
Qed.

(** A step of the writer beside an idle caller: it returns, and the way to its next
    sleep gets shorter. *)
Lemma writer_step_quiet g pc l :
  quiet g (Some pc) l → ∃ pc' g' l', writer_step c pc g = (Ok pc', g') ∧
    quiet g' (Some pc') l' ∧ conf g' = conf g ∧
    (pc ≠ W_sleep → 0 ≤ w_steps pc' (iDataInQueueCount g') < w_steps pc (iDataInQueueCount g)).
Proof.
  intros Hq. pose proof Hq as (Q & Hinv & Hfit). destruct Hc as [(Hl & Hu & _) Hio].
  pose proof (writer_preserves Q c g pc [C_idle] l Hl Hu Hfit Hinv) as Hp.
  pose proof (quiet_unlocked g pc l Hq) as Hun.
  unfold step_ok in Hp. destruct (writer_step c pc g) as [[pc'|e|u|] g'] eqn:Hst; try done;
    [|congruence]. destruct Hp as [l' Hl']. exists pc', g', l'. split; [done|].
  assert (conf g' = conf g ∧ (pc ≠ W_sleep →
    0 ≤ w_steps pc' (iDataInQueueCount g') < w_steps pc (iDataInQueueCount g))) as [Hk Hw].
  { destruct Hinv, Hl'. unfold total in *. cbn in *.
    destruct pc as [| | |go|n0|n0 k0|n0 k0 a m|n0 k0 a m|n0 k0 m|n0 k0 m|k0|k0|k0|]; cbn in *;
    revert Hst; run_all; rewrite ?Hl, ?Hu, ?Hio, ?Hun by done; run_all.
    all: unfold entry_at, remove_head, free_entry, logfile_at, string_at, free_string; run_all;
      repeat case_match; intros Hst; simplify_eq; cbn in *; split; try done; intros _; try lia.
    all: destruct Hfit as [? Hfit]; cbn in Hfit.
    all: assert (i32 (n0 - 1) = n0 - 1) as Hn by (apply swrap_small; lia).
    all: rewrite Hn in *; lia. }
  split_and!; [by exists Q|done|done].
Qed.

(** The logger between two calls of its process, with the configuration [k]. *)
Definition alive (k : lconf) (s : lproc) : Prop :=
  conf (lp_state s) = k ∧ ∃ l, quiet (lp_state s) (lp_writer s) l.

Lemma writer_runs_quiet n : ∀ g pc l,
  quiet g (Some pc) l → ∃ pc' g' l', writer_runs c n pc g = (Ok pc', g') ∧
    quiet g' (Some pc') l' ∧ conf g' = conf g.
Proof.
  induction n as [|n IH]; intros g pc l Hq; [by exists pc, g, l|].
  destruct (writer_step_quiet g pc l Hq) as (pc1 & g1 & l1 & Hs & Hq1 & Hk & _).
  destruct (IH g1 pc1 l1 Hq1) as (pc2 & g2 & l2 & Hr & Hq2 & Hk2).
  exists pc2, g2, l2. cbn. unfold mbind, ST_bind. rewrite Hs, Hr. split_and!; [done|done|congruence].
Qed.

Lemma run_writer_wp n k s : alive k s → wp (run_writer c n) (λ _, alive k) s.
Proof.
  intros [Hk [l Hq]]. unfold wp, run_writer. destruct s as [g [pc|] ts]; cbn in *; [|by split; eauto].
  destruct (writer_runs_quiet n g pc l Hq) as (pc' & g' & l' & -> & Hq' & Hk').
  split; [by rewrite <-Hk|]. by exists l'.
Qed.

Lemma usleep_wp k s : alive k s → wp (usleep c) (λ _, alive k) s.
Proof.
  intros Ha. unfold wp, usleep. destruct s as [g w [|n ts]]; cbn; [done|].
  by apply (run_writer_wp n k (LProc g w ts)).
Qed.

Lemma flush_loop_wp n k s : alive k s → wp (flush_loop c n) (λ _, alive k) s.
Proof.
  revert s. induction n as [|n IH]; intros s Ha; [done|]. cbn [flush_loop].
  apply wp_bind, on_state_wp. destruct s as [g w ts]. cbn.
  destruct (iDataInQueueCount g =? 0); [done|].
  apply wp_bind. eapply wp_mono; [by apply usleep_wp|]. intros ? s'. apply IH.
Qed.

(** The flag that asks for a flush and the configuration play no part in the invariant,
    as long as the sizes stay. *)
Lemma quiet_flush g w l z : quiet g w l → quiet (set_flush z g) w l.
Proof. intros (Q & [] & Hf). exists Q. split; [|done]. by constructor. Qed.

Lemma quiet_conf g w l k :
  sCurrLogSettings k = sCurrLogSettings (conf g) → gpcLogfile k = gpcLogfile (conf g) →
  quiet g w l → quiet (set_conf k g) w l.
Proof.
  intros Hk Hn (Q & [] & Hf). exists Q. unfold owned in *. cbn in *. split; [|done].
  constructor; unfold owned; cbn; by rewrite ?Hk, ?Hn.
Qed.

(** New settings, also ones with a smaller queue, leave a well-formed logger behind. *)
Lemma quiet_settings g w l st :
  0 ≤ iBulkWrite st → 0 ≤ iLoggerQueueSize st → iLoggerQueueSize st + 1 < 2 ^ 31 →
  quiet g w l → quiet (set_conf (LConf (gpcLogfile (conf g)) st (iIsInitDone (conf g))
    (iShuttingDown (conf g)) (bTerminateProg (conf g))) g) w l.
Proof.
  intros Hb Hs Hm (Q & [] & HQ & Hf). cbn in Hf. exists (Q `max` iLoggerQueueSize st). split.
  - unfold owned in *. cbn in *. constructor; unfold owned; cbn; done || lia.
  - split; cbn; lia.
Qed.

Lemma logger_set_life st s :
  0 ≤ iBulkWrite st → 0 ≤ iLoggerQueueSize st → iLoggerQueueSize st + 1 < 2 ^ 31 → life s →
  wp (logger_set st) (λ z s', life s' ∧ z = LOG_EXIT_SUCCESS ∧ logger_get (lp_state s') = st) s.
Proof.
  intros Hb Hs Hm [_ Hl]. unfold logger_set. apply wp_bind, modify_wp, wp_ret.
  split; [|done]. split; [done|]. cbn. destruct (_ =? 0); [done|].
  destruct Hl as [l Hq]. exists l. by apply quiet_settings.
Qed.

Lemma logger_flush_wp k s : alive k s → wp (logger_flush c) (λ z s', z = LOG_EXIT_SUCCESS ∧ alive k s') s.
Proof.
  intros [Hk [l Hq]]. unfold logger_flush. apply wp_bind, on_state_wp. destruct s as [g w ts].
  cbn in *. apply wp_bind. eapply wp_mono.
  - apply (flush_loop_wp 20 k). split; [done|]. exists l. by apply quiet_flush.
  - intros ? s' Ha. by apply wp_ret.
Qed.

Lemma join_writer_step fuel g pc ts :
  pc ≠ W_sleep →
  join_writer c fuel (LProc g (Some pc) ts) =
    match fuel with
    | O => (NoFuel, LProc g (Some pc) ts)
    | S fuel' => (_ ← run_writer c 1; join_writer c fuel') (LProc g (Some pc) ts)
    end.
Proof. by destruct fuel, pc. Qed.

Lemma join_writer_wp fuel k s :
  alive k s →
  w_steps (default W_sleep (lp_writer s)) (iDataInQueueCount (lp_state s)) ≤ Z.of_nat fuel →
  wp (join_writer c fuel) (λ _ s', alive k s' ∧ lp_writer s' = None) s.
Proof.
  revert s. induction fuel as [|fuel IH]; intros [g [pc|] ts] [Hk [l Hq]] Hst.
  2, 4: by split; [split; [|exists l]|].
  all: assert (pc = W_sleep ∨ pc ≠ W_sleep) as [->|Hpc] by (destruct pc; auto).
  1, 3: split; [split; [done|exists l]|done]; destruct Hq as (Q & [] & Hf); exists Q; split;
    [unfold owned in *; constructor; unfold owned; by cbn in *|done].
  all: destruct (writer_step_quiet g pc l Hq) as (pc1 & g1 & l1 & Hs & Hq1 & Hk1 & Hlt);
    specialize (Hlt Hpc); cbn in Hst.
  - lia.
  - unfold wp. rewrite join_writer_step by done.
    cbn. unfold mbind, ST_bind. unfold run_writer. cbn. unfold mbind, ST_bind. rewrite Hs. cbn.
    apply (IH (LProc g1 (Some pc1) ts)); [|cbn; lia].
    split; [cbn in *; congruence|by exists l1].
Qed.

(** Freeing a chain frees its entries and their messages. *)
Lemma free_queue_wp l : ∀ fuel p g,
  chain (nodes g) p l → NoDup l.*1 → NoDup l.*2 →
  list_to_set l.*2 ⊆ dom (sds_view (strings g)) → (length l ≤ fuel)%nat →
  wp (free_queue fuel p) (λ _ g', ∃ h st,
    g' = set_mem (Head g, h) (set_strings st g) ∧ dom h = dom (nodes g) ∖ list_to_set l.*1 ∧
    dom (sds_view st) = dom (sds_view (strings g)) ∖ list_to_set l.*2) g.
Proof.
  clear Hc. induction l as [|[a m] l IH]; intros fuel p g Hch Hnd Hnd2 Hst Hf.
  - cbn in Hch. subst p. destruct fuel; cbn; exists (nodes g), (strings g); destruct g; set_solver.
  - destruct fuel as [|fuel]; [simpl in Hf; lia|].
    destruct Hch as [-> (nx & Ha & Hch)]. cbn in Hnd, Hnd2.
    apply NoDup_cons in Hnd as [Hal Hnd]. apply NoDup_cons in Hnd2 as [Hm Hnd2].
    cbn [free_queue]. apply wp_bind. unfold wp at 1, entry_at. rewrite Ha. cbn.
    destruct (free_string_ok m g) as (st1 & Hfs & Hs1 & _); [set_solver|].
    apply wp_bind. unfold wp at 1. rewrite Hfs.
    apply wp_bind. unfold wp at 1, free_entry. cbn. rewrite Ha. cbn.
    eapply wp_mono; [apply (IH fuel nx); [|done|done| |simpl in Hf; lia]|].
    + cbn. eapply chain_frame; [|done]. intros b Hb. apply lookup_delete_ne. by intros <-.
    + cbn. rewrite Hs1, dom_delete_L. set_solver.
    + intros _ g' (h & st & -> & Hd & Hd2). exists h, st. split; [done|]. cbn in Hd, Hd2.
      rewrite Hd, Hd2, Hs1, !dom_delete_L. csimpl. split; set_solver.
Qed.

Lemma join_fuel_enough k s :
  alive k s →
  w_steps (default W_sleep (lp_writer s)) (iDataInQueueCount (lp_state s)) ≤
    Z.of_nat (join_fuel (lp_state s)).
Proof.
  intros [_ (l & Q & [] & _)]. unfold join_fuel, total in *. cbn in *.
  destruct (lp_writer s) as [[| | |[]| | | | | | | | | |]|]; cbn in *; lia.
Qed.

(** Whatever [log_msg] does, the logger stays well formed. *)
Lemma log_msg_alive t f args k s :
  alive k s → args_missing f args = false →
  wp (log_msg c t f args)
    (λ z s', alive k s' ∧ (z = LOG_EXIT_SUCCESS ∨ z = LOG_EXIT_FAILURE)) s.
Proof.
  intros [Hk [l Hq]] Hargs. destruct s as [g w ts]. cbn in *.
  pose proof (log_msg_run c t f args g w ts l Hq (proj1 Hc) Hargs) as H.
  unfold wp. destruct (_ && _).
  - destruct H as (p & m & g' & w' & l' & -> & Hq' & _ & _ & Hk' & _). split; [|by left].
    split; [by cbn; rewrite Hk'|by eexists].
  - rewrite H. split; [|by right]. split; [done|by exists l].
Qed.

(** The end of [logger_destroy]: freeing what the queue still holds. *)
Lemma free_rest_wp l s :
  queue_is (Head (lp_state s)) (nodes (lp_state s)) l →
  dom (nodes (lp_state s)) = list_to_set l.*1 →
  list_to_set l.*2 ⊆ dom (sds_view (strings (lp_state s))) → NoDup l.*2 →
  wp (on_state (free_queue (S (size (nodes (lp_state s)))) (STAILQ_FIRST (Head (lp_state s)))))
    (λ _ s', ∃ st, dom (sds_view st) = dom (sds_view (strings (lp_state s))) ∖ list_to_set l.*2 ∧
      s' = LProc (set_mem (Head (lp_state s), ∅) (set_strings st (lp_state s)))
             (lp_writer s) (lp_turns s)) s.
Proof.
  clear Hc. intros (Hch & Hnd & _) Hdom Hst Hnd2. apply on_state_wp.
  eapply wp_mono; [apply (free_queue_wp l); [done|done|done|done|]|].
  - assert (size (nodes (lp_state s)) = length l) as ->; [|lia].
    rewrite <-size_dom, Hdom, size_list_to_set by done. by rewrite length_fmap.
  - intros _ g' (h & st & -> & Hd & Hd2). exists st. split; [done|].
    do 2 f_equal. f_equal. apply dom_empty_inv_L. rewrite Hd, Hdom. set_solver.
Qed.

(** Freeing the name of the log file. *)
Lemma free_name_wp nm s :
  gpcLogfile (conf (lp_state s)) = Some nm → nm ∈ dom (sds_view (strings (lp_state s))) →
  wp free_name (λ _ s', ∃ st, sds_view st = delete nm (sds_view (strings (lp_state s))) ∧
    s' = LProc (set_conf (set_name None (conf (lp_state s))) (set_strings st (lp_state s)))
           (lp_writer s) (lp_turns s)) s.
Proof.
  intros Hnm Hin. unfold free_name. apply wp_bind, get_wp. rewrite Hnm. apply wp_bind, on_state_wp.
  destruct (free_string_ok nm (lp_state s) Hin) as (st & Hf & Hst & _). unfold wp at 1. rewrite Hf.
  apply modify_wp. by exists st.
Qed.

(** The writer has ended: what is left are the queue and the name. *)
Lemma ended_owned g l nm :
  quiet g None l → gpcLogfile (conf g) = Some nm →
  dom (sds_view (strings g)) = list_to_set (nm :: l.*2) ∧ NoDup (nm :: l.*2) ∧
  dom (nodes g) = list_to_set l.*1 ∧ queue_is (Head g) (nodes g) l ∧
  LogfileFd g = false ∧ shown g = cprefix <$> written g.
Proof.
  intros (Q & [] & _) Hnm. unfold owned, entries in *. cbn in *. rewrite Hnm, !app_nil_r in *.
  by split_and!.
Qed.

(** The part of [logger_destroy] after the writer has ended; [ms] are messages that are in
    nobody's hands any more. *)
Lemma release_wp g l nm ms ts :
  queue_is (Head g) (nodes g) l → dom (nodes g) = list_to_set l.*1 →
  dom (sds_view (strings g)) = list_to_set (nm :: ms ++ l.*2) → NoDup (nm :: ms ++ l.*2) →
  gpcLogfile (conf g) = Some nm →
  wp (_ ← free_name; _ ← on_state (modify (set_lock false));
      n1 ← on_state (get (λ g, STAILQ_FIRST (Head g)));
      sz ← on_state (get (λ g, size (nodes g)));
      _ ← on_state (free_queue (S sz) n1);
      _ ← on_state (modify (set_count 0));
      _ ← on_conf (set_init 0);
      mret LOG_EXIT_SUCCESS)
    (λ z s', z = LOG_EXIT_SUCCESS ∧ ∃ st, dom (sds_view st) = list_to_set ms ∧ s' = LProc
      (set_conf (set_init 0 (set_name None (conf g))) (set_count 0 (set_mem (Head g, ∅)
        (set_lock false (set_strings st g))))) None ts) (LProc g None ts).
Proof.
  clear Hc. intros Hqi Hdom Hst Hnd Hnm. apply NoDup_cons in Hnd as [Hn Hnd].
  apply NoDup_app in Hnd as (_ & Hdis & Hnd).
  apply wp_bind. eapply wp_mono; [apply (free_name_wp nm); [done|cbn; rewrite Hst; set_solver]|].
  intros _ s1 (st1 & Hs1 & ->). cbn in Hs1. apply wp_bind, modify_wp, wp_bind, get_wp, wp_bind, get_wp, wp_bind.
  eapply wp_mono; [eapply (free_rest_wp l); cbn; [done|done| |done]|].
  - rewrite Hs1, dom_delete_L, Hst. set_solver.
  - intros _ s2 (st & Hs & ->). apply wp_bind, modify_wp, wp_bind, modify_wp, wp_ret.
    split; [done|]. exists st. split; [|done]. cbn in Hs. rewrite Hs, Hs1, dom_delete_L, Hst.
    set_solver.
Qed.

Lemma logger_destroy_wp pid s :
  life s → iIsInitDone (conf (lp_state s)) ≠ 0 →
  wp (logger_destroy c pid) (λ z s',
    z = LOG_EXIT_SUCCESS ∧ life s' ∧ iIsInitDone (conf (lp_state s')) = 0 ∧
    lp_writer s' = None ∧ pLogMutex (lp_state s') = false ∧ nodes (lp_state s') = ∅ ∧ sds_view (strings (lp_state s')) = ∅ ∧
    iDataInQueueCount (lp_state s') = 0 ∧
    gpcLogfile (conf (lp_state s')) = None ∧ (∀ t, accepts (conf (lp_state s')) t = false) ∧
    logger_destroy c pid s' = (Ok LOG_NOINIT, s')) s.
Proof.
  intros [Hsane Hlife] Hinit.
  rewrite (proj2 (Z.eqb_neq _ _) Hinit) in Hlife. rename Hlife into Hq.
  set (k := conf (lp_state s)) in *. assert (alive k s) as Ha by done.
  unfold logger_destroy at 1. apply wp_bind, get_wp. fold k.
  rewrite (proj2 (Z.eqb_neq _ _) Hinit). apply wp_bind. eapply wp_mono.
  { by apply (log_msg_alive _ _ _ k); [|vm_compute]. }
  intros ? s1 [[Hk1 [l1 Hq1]] _]. apply wp_bind, modify_wp. rewrite Hk1. apply wp_bind.
  eapply wp_mono.
  { apply (logger_flush_wp (set_shutting 1 k)). split; [done|].
    exists l1. apply quiet_conf; [by rewrite Hk1|by rewrite Hk1|done]. }
  intros ? s2 [_ Ha2]. apply wp_bind, get_wp, wp_bind.
  eapply wp_mono; [apply join_writer_wp; [exact Ha2|apply (join_fuel_enough _ _ Ha2)]|].
  intros ? [g3 w3 ts3] [[Hk3 [l3 Hq3]] Hw3]. cbn in Hw3, Hk3, Hq3. subst w3.
  pose proof Hq3 as (Q & [_ _ _ _ _ _ [nm Hnm] _ _ _ _ _ _ _ _ _] & _). cbn in Hnm.
  destruct (ended_owned g3 l3 nm Hq3 Hnm) as (Hst3 & Hnd3 & Hdom3 & Hqi3 & Hfd & Hsh).
  apply wp_bind, get_wp. cbn [lp_state]. rewrite Hfd. apply wp_bind, wp_ret.
  eapply wp_mono; [by apply (release_wp g3 l3 nm [])|].
  intros z s4 (-> & st & Hst%dom_empty_inv_L & ->). cbn. rewrite Hk3. split_and!; try done.
Qed.


Lemma new_name_ok b g :
  ∃ m h sp, new_name b g = (Ok m, set_strings h g) ∧ sds_view (strings g) !! m = None ∧
    sds_view h = <[m := SdsObj b sp]> (sds_view (strings g)).
Proof.
  unfold new_name. destruct (sdsnewlen_law b (strings g)) as [Hm [sp Hv]].
  destruct (sdsnewlen b (strings g)) as [m h]. by exists m, h, sp.
Qed.

(** A failing start frees the name again. *)
Lemma abandon_wp nm o s :
  sane1 (conf (lp_state s)) → iIsInitDone (conf (lp_state s)) = 0 → nodes (lp_state s) = ∅ →
  sds_view (strings (lp_state s)) = {[nm := o]} → lp_writer s = None →
  pLogMutex (lp_state s) = false → LogfileFd (lp_state s) = false →
  shown (lp_state s) = cprefix <$> written (lp_state s) →
  wp (_ ← on_state (free_string nm); mret LOG_EXIT_FAILURE) (λ z s', life s' ∧
    z = LOG_EXIT_FAILURE ∧ iIsInitDone (conf (lp_state s')) = 0) s.
Proof.
  intros Hs Hi Hn Hst Hw Hl Hf Hsh. apply wp_bind, on_state_wp.
  destruct (free_string_ok nm (lp_state s)) as (h & Hfs & Hh & _);
    [rewrite Hst, dom_singleton_L; by apply elem_of_singleton|].
  unfold wp at 1. rewrite Hfs. apply wp_ret. unfold life. cbn. rewrite Hi. cbn.
  rewrite Hh, Hst, delete_singleton_eq. by split_and!.
Qed.

Lemma logger_init_wp fopen_ok create_ok path lvl s :
  life s →
  wp (logger_init fopen_ok create_ok path lvl) (λ z s', life s' ∧
    if negb (iIsInitDone (conf (lp_state s)) =? 0) then z = LOG_NOINIT ∧ s' = s
    else if fopen_ok && create_ok then
      z = LOG_EXIT_SUCCESS ∧ iIsInitDone (conf (lp_state s')) = 1 ∧
      quiet (lp_state s') (Some W_sleep) [] ∧ lp_writer s' = Some W_sleep ∧
      text (lp_state s') <$> gpcLogfile (conf (lp_state s')) = Some path ∧
      (∀ t, bTerminateProg (conf (lp_state s)) = false →
         accepts (conf (lp_state s')) t = (level_num t <=? u32 lvl))
    else z = LOG_EXIT_FAILURE ∧ iIsInitDone (conf (lp_state s')) = 0) s.
Proof.
  intros Hlife. pose proof Hlife as [Hsane Hl]. unfold logger_init. apply wp_bind, get_wp.
  destruct (Z.eqb_spec (iIsInitDone (conf (lp_state s))) 0) as [Hi|Hi]; cbn [negb].
  2: by apply wp_ret.
  destruct Hl as (Hn & Hst & Hw & Hlk & Hfd & Hsh). destruct s as [g w ts]. cbn in *. subst w.
  destruct (new_name_ok path g) as (nm & h & sp & Hnew & _ & Hh). rewrite Hst, insert_empty in Hh.
  apply wp_bind, on_state_wp. unfold wp at 1. cbn. rewrite Hnew.
  do 2 (apply wp_bind, modify_wp; cbn).
  destruct fopen_ok; cbn [negb andb].
  2: { by apply (abandon_wp nm (SdsObj path sp)). }
  do 5 (apply wp_bind, modify_wp; cbn).
  destruct create_ok; cbn [negb].
  2: { by apply (abandon_wp nm (SdsObj path sp)). }
  apply wp_bind. unfold wp at 1. apply wp_bind, modify_wp; cbn. apply wp_ret.
  set (k := conf g) in *. set (k' := set_init 1 (set_shutting 0 (set_level (u32 lvl) (set_name (Some nm) k)))).
  match goal with |- context [LProc ?x (Some W_sleep) ts] => assert (x = started k' h (written g)) as -> end.
  { destruct g. cbn in *. by subst. }
  assert (quiet (started k' h (written g)) (Some W_sleep) []) as Hq.
  { exists (iLoggerQueueSize (sCurrLogSettings k')).
    split; [apply (inv_begun _ h (written g) 1); [exact Hsane|]|by destruct Hsane as (? & ? & ?)].
    exists nm. split; [done|]. by rewrite Hh, dom_singleton_L. }
  split; [|split_and!; try done].
  - split; [exact Hsane|]. cbn. by exists [].
  - cbn. unfold text. cbn. by rewrite Hh, lookup_singleton_eq.
  - intros t Ht. unfold accepts. cbn. by rewrite Ht.
Qed.

(** C28: Starting the logger: when it is already started nothing happens; when the file
    cannot be opened or the thread not created it stays stopped and the result is the
    failure code (not [errno], as the comment of the function has it); otherwise it accepts
    the levels up to the given one (converted to the unsigned enumeration), its queue is
    empty and the writer waits.  Every outcome is a state from which the other calls
    work. *)
Theorem logger_init_correct fopen_ok create_ok path lvl s :
  life s →
  wp (logger_init fopen_ok create_ok path lvl) (λ z s', life s' ∧
    if negb (iIsInitDone (conf (lp_state s)) =? 0) then z = LOG_NOINIT ∧ s' = s
    else if fopen_ok && create_ok then
      z = LOG_EXIT_SUCCESS ∧ iIsInitDone (conf (lp_state s')) = 1 ∧
      quiet (lp_state s') (Some W_sleep) [] ∧ lp_writer s' = Some W_sleep ∧
      text (lp_state s') <$> gpcLogfile (conf (lp_state s')) = Some path ∧
      (∀ t, bTerminateProg (conf (lp_state s)) = false →
         accepts (conf (lp_state s')) t = (level_num t <=? u32 lvl))
    else z = LOG_EXIT_FAILURE ∧ iIsInitDone (conf (lp_state s')) = 0) s.
Proof. apply logger_init_wp. Qed.

Lemma logger_init_life fopen_ok create_ok path lvl s :
  life s → wp (logger_init fopen_ok create_ok path lvl) (λ _, life) s.
Proof. intros Hl. eapply wp_mono; [by apply logger_init_wp|]. by intros ? ? [? _]. Qed.

Lemma flush_without_writer s :
  lp_writer s = None →
  ∃ ts, logger_flush c s =
    (Ok LOG_EXIT_SUCCESS, LProc (set_flush 1 (lp_state s)) None ts).
Proof.
  intros Hw. unfold logger_flush. destruct s as [g w ts]. cbn in Hw. subst w.
  assert (∀ n g ts, ∃ ts', flush_loop c n (LProc g None ts) = (Ok tt, LProc g None ts')) as Hloop.
  { clear. induction n as [|n IH]; intros g ts; [by exists ts|]. cbn [flush_loop].
    unfold mbind, ST_bind, on_state, get. cbn.
    destruct (iDataInQueueCount g =? 0); [by exists ts|].
    destruct ts as [|m ts]; unfold usleep, run_writer; cbn; apply IH. }
  destruct (Hloop 20%nat (set_flush 1 g) ts) as [ts' Hl]. exists ts'.
  unfold mbind at 1, ST_bind at 1, on_state at 1, modify at 1. cbn [lp_state lp_writer lp_turns].
  unfold mbind at 1, ST_bind at 1. by rewrite Hl.
Qed.

(** A flush is not blocking: without a writing thread, as in a forked child, it
    gives up after its twenty rounds and reports success, with the queue as it was and
    nothing written. *)
Theorem logger_flush_gives_up s :
  lp_writer s = None →
  ∃ ts, logger_flush c s =
    (Ok LOG_EXIT_SUCCESS, LProc (set_flush 1 (lp_state s)) None ts).
Proof. apply flush_without_writer. Qed.

Lemma log_msg_rejected t f args s :
  accepts (conf (lp_state s)) t && (iDataInQueueCount (lp_state s) <=?
    iLoggerQueueSize (sCurrLogSettings (conf (lp_state s)))) = false →
  log_msg c t f args s = (Ok LOG_EXIT_FAILURE, s).
Proof.
  destruct s as [g w ts]. cbn. intros Ha. unfold log_msg. run_all. rewrite is_msg_allowed_spec.
  destruct (accepts (conf g) t); [|done]. cbn in Ha. unfold log_add_to_queue. run_all.
  rewrite Z.leb_antisym in Ha. apply negb_false_iff in Ha. by rewrite Ha.
Qed.

Lemma log_msg_missing t f args s :
  accepts (conf (lp_state s)) t && (iDataInQueueCount (lp_state s) <=?
    iLoggerQueueSize (sCurrLogSettings (conf (lp_state s)))) = true →
  args_missing f args = true → log_msg c t f args s = (Undef Unspecified, s).
Proof.
  destruct s as [g w ts]. cbn. intros [Ha Hroom]%andb_prop Hargs. unfold log_msg. run_all.
  rewrite is_msg_allowed_spec, Ha. unfold log_add_to_queue. run_all.
  rewrite Z.leb_antisym in Hroom. apply negb_true_iff in Hroom. by rewrite Hroom, Hargs.
Qed.

(** Without a writer a locked mutex is never unlocked. *)
Lemma log_msg_blocks t f args g ts :
  good c → pLogMutex g = true → args_missing f args = false →
  accepts (conf g) t && (iDataInQueueCount g <=? iLoggerQueueSize (sCurrLogSettings (conf g))) = true →
  (log_msg c t f args (LProc g None ts)).1 = NoFuel.
Proof.
  intros (Hl & Hu & Hma) Hlk Hargs [Ha Hroom]%andb_prop. unfold log_msg. run_all.
  rewrite is_msg_allowed_spec, Ha. unfold log_add_to_queue. run_all.
  rewrite Z.leb_antisym in Hroom. apply negb_true_iff in Hroom. rewrite Hroom. run_all.
  rewrite Hargs. run_all.
  destruct (new_string_ok (log_line (c_time c) t f args) g) as (m & st & -> & _).
  rewrite Hma, Hl, Hu. run_all. unfold lock_mutex, await_mutex, run_writer. run_all. rewrite Hlk.
  run_all. rewrite Hlk. run_all. by rewrite Hlk.
Qed.

(** What stopping the logger does in a child without a writer, when the message about it is
    not queued. *)
Lemma logger_destroy_child pid g pc ts l :
  quiet g (Some pc) l → iIsInitDone (conf g) ≠ 0 →
  accepts (conf g) eDEBUG &&
    (iDataInQueueCount g <=? iLoggerQueueSize (sCurrLogSettings (conf g))) = false →
  wp (logger_destroy c pid) (λ z s', z = LOG_EXIT_SUCCESS ∧ pLogMutex (lp_state s') = false ∧
    iIsInitDone (conf (lp_state s')) = 0 ∧ nodes (lp_state s') = ∅ ∧
    LogfileFd (lp_state s') = false ∧
    dom (sds_view (strings (lp_state s'))) = (list_to_set (w_inflight pc) : gset sds))
    (forked (LProc g (Some pc) ts)).
Proof.
  clear Hc. intros (Q & [] & _) Hinit Hrej. unfold owned, entries in *. cbn in *. rewrite app_nil_r in *.
  destruct inv_name as [nm Hnm]. rewrite Hnm in *.
  unfold logger_destroy, forked. cbn [lp_state]. apply wp_bind, get_wp. cbn [lp_state].
  rewrite (proj2 (Z.eqb_neq _ _) Hinit). apply wp_bind. unfold wp at 1.
  rewrite log_msg_rejected by done. apply wp_bind, modify_wp. cbn. apply wp_bind.
  set (g1 := set_conf (set_shutting 1 (conf g)) g).
  destruct (flush_without_writer (LProc g1 None []) eq_refl) as [ts' Hfl].
  unfold wp at 1. rewrite Hfl. cbn [lp_state]. apply wp_bind, get_wp. cbn [lp_state]. apply wp_bind.
  assert (∀ n s, lp_writer s = None → join_writer c n s = (Ok tt, s)) as Hjoin
    by (intros [|] [? [] ?] ?; done).
  unfold wp at 1. rewrite Hjoin by done. apply wp_bind, get_wp. cbn [lp_state].
  set (g2 := set_flush 1 g1).
  assert (wp (if LogfileFd g2 then on_state (modify (set_fd false)) else mret tt)
    (λ _ s', s' = LProc (set_fd false g2) None ts') (LProc g2 None ts')) as Hfd.
  { destruct (LogfileFd g2) eqn:Hfd; [by apply modify_wp|]. apply wp_ret.
    destruct g2. cbn in Hfd. by subst. }
  apply wp_bind. eapply wp_mono; [exact Hfd|]. intros _ ? ->.
  eapply wp_mono; [by apply (release_wp _ l nm (w_inflight pc))|].
  intros z s' (-> & st & Hst & ->). by split_and!.
Qed.

(** C40: A child forked while the writer of its parent is inside the mutex inherits the
    locked mutex without the thread that would unlock it.  What becomes of it is decided
    by the first thing it does, [logger_destroy]: when the debug level is enabled (and the
    queue not over its size) the message at its start waits for the mutex for ever, as
    would every other message of the child; otherwise [logger_destroy] returns and, with
    the [pthread_mutex_unlock] that its comment calls not needed, leaves the mutex free,
    so that the logger can be started again; the message that the writer had taken from
    the queue at the fork is then never freed in the child. *)
Theorem fork_inside_mutex pid g pc ts l :
  quiet g (Some pc) l → pLogMutex g = true → good c → iIsInitDone (conf g) ≠ 0 →
  let child := forked (LProc g (Some pc) ts) in
  if accepts (conf g) eDEBUG &&
     (iDataInQueueCount g <=? iLoggerQueueSize (sCurrLogSettings (conf g)))
  then (logger_destroy c pid child).1 = NoFuel ∧
    ∀ ps s, total c_holds ps = 0%nat → rtc step (Threads (lp_state child) None ps) s →
      pLogMutex (th_state s) = true ∧ inserted (th_state s) = inserted g ∧
      written (th_state s) = written g
  else wp (logger_destroy c pid) (λ z s', z = LOG_EXIT_SUCCESS ∧ pLogMutex (lp_state s') = false ∧
    iIsInitDone (conf (lp_state s')) = 0 ∧ nodes (lp_state s') = ∅ ∧
    LogfileFd (lp_state s') = false ∧
    dom (sds_view (strings (lp_state s'))) = (list_to_set (w_inflight pc) : gset sds)) child.
Proof.
  intros Hq Hlk Hgood Hinit child. destruct (_ && _) eqn:Ha; [|by apply (logger_destroy_child pid g pc ts l)].
  split.
  - pose proof (log_msg_blocks eDEBUG (lit "Destroying the logger from pid %d.") [AInt pid] g []
      Hgood Hlk ltac:(by vm_compute) Ha) as Hb.
    unfold logger_destroy, child, forked. cbn [lp_state]. unfold mbind at 1, ST_bind at 1, on_state at 1, get at 1.
    cbn [lp_state lp_writer lp_turns]. rewrite (proj2 (Z.eqb_neq _ _) Hinit).
    unfold mbind at 1, ST_bind at 1. destruct (log_msg _ _ _ _ _) as [[] ?]; done.
  - intros ps s Hps Hs. by destruct (locked_forever g ps s Hlk Hps Hs) as (? & _ & _ & ? & ?).
Qed.

End process.
