(* ===== verification/LoggerDirect.v ===== *)
(** * Logger: the build that prints every message

    With [LOGGER_DEBUG_SHOW_ON_TERMINAL_NO_QUEUE] defined, [log_msg] first prints the message
    on the standard output ([log_msg_stdout]) and then goes on as usual.  The header of the
    repository leaves the macro undefined. *)

From S2P Require Import Prelude CString Machine Queue Logger LoggerSafety LoggerLife.
Local Open Scope Z_scope.

Section direct.
Context `{SL : SdsLib, IT : IndeterminateText}.

(** The time is made into text, and not printed. *)
Definition log_msg_stdout (pcMsg : bytes) (args : list carg) : ST lproc unit :=
  if args_missing pcMsg args then st_undef Unspecified else
  on_state (modify (add_shown (cprefix (user_msg pcMsg args) ++ [LF]))).

(** [log_add_to_queue] with an argument list from which [vsnprintf] has already fetched: the
    length of the queue is looked at before the list is used again. *)
Definition log_add_used : ST lproc Z :=
  iCount ← on_state (get iDataInQueueCount);
  iMax ← on_state (get (λ g, iLoggerQueueSize (sCurrLogSettings (conf g))));
  if iMax <? iCount then mret LOG_EXIT_FAILURE else st_undef Unspecified.

(** [log_msg] of this build. *)
Definition log_msg_direct (c : choice) (eType : tLoggerType) (message : bytes) (args : list carg)
  : ST lproc Z :=
  _ ← log_msg_stdout message args;
  k ← on_state (get conf);
  if is_msg_allowed k eType =? LOG_EXIT_SUCCESS then
    if (0 <? conversions message)%nat then log_add_used
    else log_add_to_queue c eType message args
  else mret LOG_EXIT_FAILURE.

(** A message without conversions is printed, whatever its level, and then handled as in
    the other build.  One with a conversion is printed too, but where the other build
    queues it this one uses its arguments a second time, which is undefined.  One without
    its arguments is undefined whatever its level. *)
Theorem direct_output c t f args s :
  let g := lp_state s in
  let s' := LProc (add_shown (cprefix (user_msg f args) ++ [LF]) g) (lp_writer s) (lp_turns s) in
  let room := iDataInQueueCount g <=? iLoggerQueueSize (sCurrLogSettings (conf g)) in
  log_msg_direct c t f args s =
    if args_missing f args then (Undef Unspecified, s)
    else if (0 <? conversions f)%nat then
      (if accepts (conf g) t && room then Undef Unspecified else Ok LOG_EXIT_FAILURE, s')
    else log_msg c t f args s'.
Proof.
  intros g s' room. unfold log_msg_direct, log_msg_stdout, log_msg.
  destruct (args_missing f args); [done|].
  destruct (0 <? conversions f)%nat; run_all; fold g;
    rewrite is_msg_allowed_spec; destruct (accepts (conf g) t); try done.
  unfold log_add_used. run_all. cbn [andb]. unfold room, g. rewrite Z.leb_antisym.
  by destruct (_ <? _).
Qed.

End direct.

Example direct_takes : conversions (lit "Worker %d done.") = 1%nat.
Proof. reflexivity. Qed.
Example direct_plain : conversions (lit "100%% done") = 0%nat.
Proof. reflexivity. Qed.
