(* ===== verification/LoggerApi.v ===== *)
(** * The logger behind its interface

    The functions of the logger, run beside the writing thread, as an instance of the
    interface that the other components are written against; and concrete runs. *)

From S2P Require Import Prelude CString Machine SdsModel Queue Logger LoggerSafety LoggerLife.
Local Open Scope Z_scope.

Section api.
Context `{SL : SdsLib, SS : !SdsSpec SL, IT : IndeterminateText}.
Context (c : choice).

(** The result of a call; the other outcomes do not arise ([api_total]). *)
Definition answer (m : ST lproc Z) (s : lproc) : Z * lproc :=
  match m s with (Ok z, s') => (z, s') | (_, s') => (LOG_EXIT_FAILURE, s') end.

(** Between two calls of the process the writer gets its turn. *)
Definition call_log_msg t f args : ST lproc Z := _ ← usleep c; log_msg c t f args.
Definition call_flush : ST lproc Z := _ ← usleep c; logger_flush c.
Definition call_init (openable : bytes → bool) (create_ok : bool) path lvl : ST lproc Z :=
  _ ← usleep c; logger_init (openable path) create_ok path lvl.
Definition call_destroy pid : ST lproc Z := _ ← usleep c; logger_destroy c pid.
Definition call_get : ST lproc tsLogSettings := _ ← usleep c; on_state (get logger_get).
Definition call_set st : ST lproc Z := _ ← usleep c; logger_set st.

(** Whether the next call formats its message. *)
Definition formats (t : tLoggerType) (s : lproc) : bool :=
  match usleep c s with
  | (Ok _, s') =>
    let g := lp_state s' in
    accepts (conf g) t && (iDataInQueueCount g <=? iLoggerQueueSize (sCurrLogSettings (conf g)))
  | _ => false
  end.

(** [openable]: the files that can be opened; [create_ok]: whether a thread can be created. *)
#[local] Instance cew_logger (openable : bytes → bool) (create_ok : bool) (pid : Z) : LoggerAPI := {|
  log_state := lproc;
  api_formats := formats;
  api_log_msg t f args := answer (call_log_msg t f args);
  api_logger_flush := answer call_flush;
  api_logger_init path lvl := answer (call_init openable create_ok path lvl);
  api_logger_destroy := answer (call_destroy pid);
  api_logger_fork := forked;
|}.

Context (Hc : all_good c).

Lemma life_started s :
  life s → iIsInitDone (conf (lp_state s)) ≠ 0 → alive (conf (lp_state s)) s.
Proof.
  intros [_ Hl] Hi. by rewrite (proj2 (Z.eqb_neq _ _) Hi) in Hl.
Qed.

Lemma alive_life s s' :
  life s → iIsInitDone (conf (lp_state s)) ≠ 0 → alive (conf (lp_state s)) s' → life s'.
Proof.
  intros [Hs Hl] Hi [Hk Hq]. rewrite (proj2 (Z.eqb_neq _ _) Hi) in Hl. unfold life. rewrite Hk.
  split; [done|]. by rewrite (proj2 (Z.eqb_neq _ _) Hi).
Qed.

Lemma turn_stopped s :
  life s → iIsInitDone (conf (lp_state s)) = 0 →
  wp (usleep c) (λ _ s', life s' ∧ lp_state s' = lp_state s ∧ lp_writer s' = None) s.
Proof.
  intros [Hs Hl] Hi. unfold life in *. rewrite Hi in Hl. destruct s as [g w ts]. cbn in *.
  destruct Hl as (? & ? & -> & Hlk & ? & ?). unfold wp.
  destruct ts; cbn; by rewrite Hi.
Qed.

(** The turn of the writer between two calls. *)
Lemma turn_wp s :
  life s → wp (usleep c) (λ _ s', life s' ∧
    (iIsInitDone (conf (lp_state s')) = 0 → lp_writer s' = None)) s.
Proof.
  intros Hl. destruct (decide (iIsInitDone (conf (lp_state s)) = 0)) as [Hi|Hi].
  - eapply wp_mono; [by apply turn_stopped|]. by intros ? ? (? & _ & ?).
  - eapply wp_mono; [apply (usleep_wp c Hc (conf (lp_state s)) s), life_started; done|].
    intros ? s' Ha. split; [by eapply alive_life|]. destruct Ha as [-> _]. done.
Qed.

(** A stopped logger refuses every message and stays stopped. *)
Lemma stopped_log_wp t f args s :
  life s → iIsInitDone (conf (lp_state s)) = 0 →
  wp (call_log_msg t f args) (λ z s', z = LOG_EXIT_FAILURE ∧ life s' ∧
    iIsInitDone (conf (lp_state s')) = 0) s.
Proof.
  intros Hl Hi. apply wp_bind. eapply wp_mono; [by apply turn_stopped|]. intros ? s' (Hl' & Hs & _).
  unfold wp. rewrite log_msg_refused; [by rewrite Hs|].
  unfold accepts. by rewrite Hs, Hi.
Qed.

Lemma stopped_formats_not t s :
  life s → iIsInitDone (conf (lp_state s)) = 0 → formats t s = false.
Proof.
  intros Hl Hi. pose proof (turn_stopped s Hl Hi) as H. unfold wp in H. unfold formats.
  destruct (usleep c s) as [[] s']; try done. destruct H as (_ & -> & _).
  unfold accepts. by rewrite Hi.
Qed.

Lemma stopped_init_wp openable create_ok path lvl s :
  life s → iIsInitDone (conf (lp_state s)) = 0 →
  wp (call_init openable create_ok path lvl) (λ z s',
    z = (if openable path && create_ok then LOG_EXIT_SUCCESS else LOG_EXIT_FAILURE) ∧ life s' ∧
    (openable path && create_ok = false → iIsInitDone (conf (lp_state s')) = 0)) s.
Proof.
  intros Hl Hi. apply wp_bind. eapply wp_mono; [by apply turn_stopped|]. intros ? s' (Hl' & Hs & _).
  eapply wp_mono; [by apply logger_init_wp|]. intros z s2 [Hl2 H]. rewrite Hs, Hi in H. cbn in H.
  destruct (openable path && create_ok); naive_solver.
Qed.

(** The turn of the writer leaves the configuration alone. *)
Lemma turn_conf s :
  life s → wp (usleep c) (λ _ s', life s' ∧ conf (lp_state s') = conf (lp_state s)) s.
Proof.
  intros Hl. destruct (decide (iIsInitDone (conf (lp_state s)) = 0)) as [Hi|Hi].
  - eapply wp_mono; [by apply turn_stopped|]. intros ? ? (? & -> & _). done.
  - eapply wp_mono; [apply (usleep_wp c Hc (conf (lp_state s)) s), life_started; done|].
    intros ? s' Ha. split; [by eapply alive_life|]. by destruct Ha as [-> _].
Qed.

Lemma call_log_wp t f args s :
  life s → args_missing f args = false →
  wp (call_log_msg t f args)
    (λ z s', life s' ∧ (z = LOG_EXIT_SUCCESS ∨ z = LOG_EXIT_FAILURE)) s.
Proof.
  intros Hl Hargs. apply wp_bind. eapply wp_mono; [by apply turn_wp|]. intros ? s' [Hl' _].
  destruct (decide (iIsInitDone (conf (lp_state s')) = 0)) as [Hi|Hi].
  - unfold wp. rewrite log_msg_refused; [eauto|]. unfold accepts. by rewrite Hi.
  - eapply wp_mono; [apply (log_msg_alive c Hc t f args (conf (lp_state s')) s'); [by apply life_started|done]|].
    intros z s2 [Ha2 Hz]. split; [by eapply alive_life|done].
Qed.

Lemma flush_life s : life s → wp (logger_flush c) (λ z s', life s' ∧ z = LOG_EXIT_SUCCESS) s.
Proof.
  intros Hl. destruct (decide (iIsInitDone (conf (lp_state s)) = 0)) as [Hi|Hi].
  - pose proof Hl as [Hsane H]. rewrite Hi in H. destruct H as (? & ? & Hw & ? & ? & ?).
    destruct (flush_without_writer c s Hw) as [ts Hr]. unfold wp. rewrite Hr.
    split; [|done]. unfold life. cbn. rewrite Hi. by split_and!.
  - eapply wp_mono; [by apply (logger_flush_wp c Hc _ s (life_started s Hl Hi))|].
    intros z s2 [-> Ha2]. split; [by eapply alive_life|done].
Qed.

Lemma destroy_life pid s :
  life s → wp (logger_destroy c pid) (λ z s', life s' ∧ iIsInitDone (conf (lp_state s')) = 0 ∧
    z = if iIsInitDone (conf (lp_state s)) =? 0 then LOG_NOINIT else LOG_EXIT_SUCCESS) s.
Proof.
  intros Hl. destruct (Z.eqb_spec (iIsInitDone (conf (lp_state s))) 0) as [Hi|Hi].
  - unfold logger_destroy. apply wp_bind, get_wp. rewrite Hi. by apply wp_ret.
  - eapply wp_mono; [by apply (logger_destroy_wp c Hc pid s)|]. naive_solver.
Qed.

(** A message that lacks arguments is undefined when it is formatted, and refused when it
    is not. *)
Lemma call_log_missing t f args s :
  life s → args_missing f args = true →
  if formats t s then fails (call_log_msg t f args) Unspecified s
  else wp (call_log_msg t f args) (λ z s', life s' ∧ z = LOG_EXIT_FAILURE) s.
Proof.
  intros Hl Hargs. pose proof (turn_wp s Hl) as Ht. unfold wp in Ht. unfold formats.
  unfold call_log_msg. destruct (usleep c s) as [[] s'] eqn:Hs; try done. destruct Ht as [Hl' _].
  destruct (accepts _ t && _) eqn:Ha.
  - exists s'. unfold mbind at 1, ST_bind at 1. rewrite Hs. by apply log_msg_missing.
  - unfold wp, mbind at 1, ST_bind at 1. rewrite Hs, log_msg_rejected by done. done.
Qed.

Lemma answer_wp (m : ST lproc Z) (Q : Z → lproc → Prop) s :
  wp m Q s → Q (answer m s).1 (answer m s).2.
Proof. unfold wp, answer. by destruct (m s) as [[]?]. Qed.

(** The logger does what its clients rely on. *)
#[local] Instance cew_logger_spec openable create_ok pid : LoggerSpec (cew_logger openable create_ok pid).
Proof.
  refine {| log_stopped := (λ s, life s ∧ iIsInitDone (conf (lp_state s)) = 0)
              : @log_state (cew_logger openable create_ok pid) → Prop;
            log_can_open := λ path, openable path && create_ok |}.
  - intros t l [Hl Hi]. by apply stopped_formats_not.
  - intros t f args l [Hl Hi]. exact (proj2 (answer_wp _ _ _ (stopped_log_wp t f args l Hl Hi))).
  - intros path lvl l [Hl Hi].
    exact (proj1 (answer_wp _ _ _ (stopped_init_wp openable create_ok path lvl l Hl Hi))).
  - intros path lvl l [Hl Hi] Hno.
    destruct (answer_wp _ _ _ (stopped_init_wp openable create_ok path lvl l Hl Hi)) as (_ & Hl' & Hs).
    split; [exact Hl'|by apply Hs].
Defined.

(** C29: Every entry point of the logger, called in any state between two calls (with the
    writer at whatever position and after any number of further steps of it), returns and
    leaves such a state again, provided the mutex, [malloc] and the file operations of the
    writer do not fail.  For [log_msg] the format must have the arguments it needs: without
    them a message that is let through is undefined, and one that is not is refused.  For
    [logger_set] the new sizes must not be negative and the queue must be smaller than
    2^31 - 1; [logger_get] returns what was set.  Opening the log file and creating the
    thread may fail. *)
Theorem api_total openable create_ok pid s :
  life s →
  (∀ t f args,
     if args_missing f args then
       if formats t s then fails (call_log_msg t f args) Unspecified s
       else wp (call_log_msg t f args) (λ z s', life s' ∧ z = LOG_EXIT_FAILURE) s
     else wp (call_log_msg t f args)
       (λ z s', life s' ∧ (z = LOG_EXIT_SUCCESS ∨ z = LOG_EXIT_FAILURE)) s) ∧
  wp call_flush (λ z s', life s' ∧ z = LOG_EXIT_SUCCESS) s ∧
  (∀ path lvl, wp (call_init openable create_ok path lvl) (λ z s', life s' ∧
     z = if negb (iIsInitDone (conf (lp_state s)) =? 0) then LOG_NOINIT
         else if openable path && create_ok then LOG_EXIT_SUCCESS else LOG_EXIT_FAILURE) s) ∧
  wp (call_destroy pid) (λ z s', life s' ∧ iIsInitDone (conf (lp_state s')) = 0 ∧
    z = if iIsInitDone (conf (lp_state s)) =? 0 then LOG_NOINIT else LOG_EXIT_SUCCESS) s ∧
  wp call_get (λ st s', life s' ∧ st = sCurrLogSettings (conf (lp_state s))) s ∧
  (∀ st, 0 ≤ iBulkWrite st → 0 ≤ iLoggerQueueSize st → iLoggerQueueSize st + 1 < 2 ^ 31 →
     wp (z ← call_set st; st' ← call_get; mret (z, st'))
       (λ r s', life s' ∧ r = (LOG_EXIT_SUCCESS, st)) s).
Proof.
  intros Hl. split_and!.
  - intros t f args. destruct (args_missing f args) eqn:Hargs; [by apply call_log_missing|].
    by apply call_log_wp.
  - apply wp_bind. eapply wp_mono; [by apply turn_wp|]. intros ? s' [Hl' _]. by apply flush_life.
  - intros path lvl. apply wp_bind. eapply wp_mono; [by apply turn_conf|]. intros ? s' [Hl' Hk].
    eapply wp_mono; [by apply logger_init_wp|]. intros z s2 [Hl2 H]. split; [done|].
    rewrite Hk in H. destruct (negb _); [by destruct H as [-> _]|].
    destruct (_ && _); by destruct H as [-> _].
  - apply wp_bind. eapply wp_mono; [by apply turn_conf|]. intros ? s' [Hl' Hk].
    rewrite <-Hk. by apply destroy_life.
  - apply wp_bind. eapply wp_mono; [by apply turn_conf|]. intros ? s' [Hl' Hk].
    apply get_wp. by rewrite <-Hk.
  - intros st Hb Hq Hm. apply wp_bind, wp_bind. eapply wp_mono; [by apply turn_wp|].
    intros ? s1 [Hl1 _]. eapply wp_mono; [by apply logger_set_life|]. intros ? s2 (Hl2 & -> & Hst).
    apply wp_bind, wp_bind. eapply wp_mono; [by apply turn_conf|]. intros ? s3 [Hl3 Hk].
    apply get_wp, wp_ret. split; [done|]. unfold logger_get in *. by rewrite Hk, Hst.
Qed.

End api.

(** ** Concrete runs *)

Section replay.
Context `{SL : SdsLib, IT : IndeterminateText}.

(** Consecutive steps of one thread are a run of all threads. *)
Lemma caller_runs_rtc c n g w ps1 pc ps2 g' pc' :
  good c → caller_runs c n pc g = (Ok pc', g') →
  rtc step (Threads g w (ps1 ++ pc :: ps2)) (Threads g' w (ps1 ++ pc' :: ps2)).
Proof.
  intros Hc. revert g pc. induction n as [|n IH]; intros g pc; cbn; [by intros [= <- <-]|].
  unfold mbind, ST_bind. destruct (caller_step c pc g) as [[pc1| | |] g1] eqn:Hs; try done.
  intros Hr. eapply rtc_l; [by eapply step_caller|by apply IH].
Qed.

Lemma writer_runs_rtc c n g ps pc g' pc' :
  good c → writer_runs c n pc g = (Ok pc', g') →
  rtc step (Threads g (Some pc) ps) (Threads g' (Some pc') ps).
Proof.
  intros Hc. revert g pc. induction n as [|n IH]; intros g pc; cbn; [by intros [= <- <-]|].
  unfold mbind, ST_bind. destruct (writer_step c pc g) as [[pc1| | |] g1] eqn:Hs; try done.
  intros Hr. eapply rtc_l; [by eapply step_writer|by apply IH].
Qed.

End replay.

Module LoggerExample.

#[export] Instance no_text : IndeterminateText := λ _ _, [].

Definition noon : choice := Choice None None None true (lit "Mon, 01 Jan 2024 12:00:00 +0000").

Lemma noon_good : all_good noon.
Proof. done. Qed.

#[local] Existing Instance sds_model_spec.
#[export] Instance model : SdsLib := sds_model false.

(** The defaults, with the debug level, and initialised; the name of the log file is the
    string at address 1. *)
Definition debugging : lconf := LConf (Some 1%positive) (LogSettings 1000 50 0 3) 1 0 false.

Definition log_name : @sds_heap model :=
  ({[ 1%positive := SdsObj (lit "/tmp/cew.log") [] ]} : gmap sds sds_obj).

Lemma debugging_named : named debugging log_name.
Proof. exists 1%positive. split; [done|]. exact (dom_singleton_L _ _). Qed.

Lemma debugging_sane : sane debugging 2.
Proof. done. Qed.

Definition hello : cpc := C_enter eINFO (lit "hello %d") [AInt 42].

Definition hello_line : bytes := lit "Mon, 01 Jan 2024 12:00:00 +0000 : Info : hello 42" ++ [LF].

(** One message queued by the first of two callers. *)
Definition log_and_hello : @sds_heap model :=
  (<[ 2%positive := SdsObj hello_line [] ]> log_name : gmap sds sds_obj).

Definition queued : lstate :=
  LState debugging (Stailq (Some 1%positive) (LNext 1)) {[ 1%positive := Entry 2 None ]} log_and_hello
    1 0 false false [] [] [hello_line].

Lemma queued_reachable :
  rtc step (begun debugging log_name [] 2) (Threads queued (Some W_sleep) (replicate 2 C_idle)).
Proof.
  eapply rtc_l; [apply (step_call _ _ [] [C_idle] eINFO (lit "hello %d") [AInt 42])|].
  eapply rtc_r; [apply (caller_runs_rtc noon 8 _ _ [] hello [C_idle] queued (C_ret 0)); [done|]|].
  - vm_compute. reflexivity.
  - apply (step_return _ _ [] 0 [C_idle]).
Qed.

(** The writer has just taken the message off the queue and is inside the mutex. *)
Definition removing : lstate :=
  LState debugging STAILQ_INIT ∅ log_and_hello 1 0 true true [] [] [hello_line].

Lemma removing_reachable :
  rtc step (begun debugging log_name [] 2)
    (Threads removing (Some (W_removed 1 0 2)) (replicate 2 C_idle)).
Proof.
  etrans; [exact queued_reachable|].
  apply (writer_runs_rtc noon 8); [done|]. vm_compute. reflexivity.
Qed.

(** The memory has run out, and the file cannot be written. *)
Definition exhausted : choice := Choice (Some 28) None None false (c_time noon).

Lemma logger_threads_safe_witness :
  (∀ w, Some (W_removed 1 0 2) = Some w →
     step_ok exhausted (writer_step exhausted w removing) (λ _ _, True)) ∧
  (∀ pc, pc ∈ replicate 2 C_idle →
     match mistake exhausted pc with
     | Some u => fails (caller_step exhausted pc) u removing
     | None => ∃ pc' g', caller_step exhausted pc removing = (Ok pc', g')
     end) ∧
  (1 + total c_holds (replicate 2 C_idle) ≤ 1)%nat.
Proof.
  apply (logger_threads_safe debugging log_name [] 2 _ exhausted debugging_sane debugging_named
    eq_refl eq_refl removing_reachable).
Defined.

(** Both mistakes happen: with the memory exhausted, and with the format of [do_exit_errno]. *)
Example mistakes_happen :
  mistake exhausted (C_make eINFO (lit "hello %d") [AInt 42]) = Some NullDeref ∧
  mistake noon (C_make eINFO (lit "hello %d") []) = Some Unspecified.
Proof. done. Qed.

Lemma logger_fifo_bounded_witness : ∃ l, queue_is (Head removing) (nodes removing) l ∧
  inserted removing = written removing ++ (text removing <$> [2%positive] ++ l.*2) ∧
  shown removing = cprefix <$> written removing ∧
  dom (sds_view (strings removing)) =
    (list_to_set (owned (Threads removing (Some (W_removed 1 0 2)) (replicate 2 C_idle)) l) : gset sds) ∧
  NoDup (owned (Threads removing (Some (W_removed 1 0 2)) (replicate 2 C_idle)) l) ∧
  iDataInQueueCount removing + Z.of_nat (total c_uncounted (replicate 2 C_idle)) =
    Z.of_nat (length l) + 1 ∧
  iDataInQueueCount removing ≤ 50 + Z.of_nat 2 ∧ Z.of_nat (length l) ≤ 50 + Z.of_nat 2.
Proof.
  apply (logger_fifo_bounded debugging log_name [] 2 _ debugging_sane debugging_named removing_reachable).
Defined.

Lemma due_queued : due queued.
Proof. split; [done|by left]. Qed.

Lemma logger_drains_witness : ∃ g',
  writer_runs noon (9 + 5 * Z.to_nat 1) W_sleep queued = (Ok W_sleep, g') ∧
  written g' = [hello_line] ∧ shown g' = [hello_line] ∧
  queue_is (Head g') (nodes g') [] ∧ nodes g' = ∅ ∧
  dom (sds_view (strings g')) = list_to_set [1%positive] ∧
  iDataInQueueCount g' = 0 ∧ iDoForceFlush g' = 0 ∧ pLogMutex g' = false.
Proof.
  apply (logger_drains noon noon_good debugging log_name [] 2 queued debugging_sane debugging_named
    queued_reachable due_queued).
Defined.

Definition bad_bulk : lconf := LConf (Some 1%positive) (LogSettings 1000 50 (-1) 3) 1 0 false.

Lemma negative_bulk_undefined_witness :
  fails (writer_runs noon 6 W_sleep) NullDeref (started bad_bulk log_name []).
Proof. apply (negative_bulk_undefined bad_bulk log_name [] noon noon_good debugging_named). reflexivity. Defined.

(** The same message in a process with one thread of its own. *)
Lemma begun_quiet : quiet (started debugging log_name []) (Some W_sleep) [].
Proof.
  exists 50. split; [by apply (inv_begun debugging log_name [] 1 ltac:(done) debugging_named)|by vm_compute].
Qed.

Lemma log_msg_correct_witness : ∃ p b g',
  log_msg noon eINFO (lit "hello %d") [AInt 42] (LProc (started debugging log_name []) (Some W_sleep) [3%nat]) =
    (Ok LOG_EXIT_SUCCESS, LProc g' (Some W_sleep) [3%nat]) ∧
  quiet g' (Some W_sleep) ([] ++ [(p, b)]) ∧
  text g' b = c_time noon ++ lit " : " ++ lit "Info" ++ lit " : " ++ take 1023 (lit "hello 42") ++ [LF] ∧
  iDataInQueueCount g' = 0 + 1 ∧ pLogMutex g' = false ∧ conf g' = debugging ∧ written g' = [].
Proof.
  apply (log_msg_correct noon eINFO (lit "hello %d") [AInt 42] (lit "hello 42")
    (started debugging log_name []) (Some W_sleep) [3%nat] [] begun_quiet eq_refl (proj1 noon_good));
    first [reflexivity | by apply (bool_decide_unpack _)].
Defined.

(** A process whose logger is running, and one whose logger is not. *)
Definition running : lproc := LProc (started debugging log_name []) (Some W_sleep) [3%nat; 20%nat].
Definition stopped : lproc :=
  LProc (started (LConf None default_settings 0 0 false) (∅ : gmap sds sds_obj) []) None [].

Lemma running_life : life running.
Proof.
  split; [done|]. change (iIsInitDone (conf (lp_state running)) =? 0) with false. cbn.
  exists []. apply begun_quiet.
Qed.

(** The writer inside the mutex, with a message in its hands. *)
Definition busy : lproc := LProc removing (Some (W_removed 1 0 2)) [].
Definition informing : lconf := set_level 2 debugging.

Lemma removing_quiet :
  quiet removing (Some (W_removed 1 0 2)) [] ∧
  quiet (set_conf informing removing) (Some (W_removed 1 0 2)) [].
Proof.
  assert (∀ v, quiet (set_conf (set_level v debugging) removing) (Some (W_removed 1 0 2)) []) as H;
    [|split; [exact (H 3)|exact (H 2)]].
  intros v. exists 50. split; [|by vm_compute].
  constructor; unfold owned; try (by vm_compute); try (by apply (bool_decide_unpack _); vm_compute).
  - apply queue_is_init.
  - intros p m []%elem_of_nil.
Qed.

Lemma busy_life : life busy.
Proof.
  split; [done|]. change (iIsInitDone (conf (lp_state busy)) =? 0) with false. cbn.
  exists []. apply removing_quiet.
Qed.

Lemma stopped_life : life stopped.
Proof. split; [done|]. by cbn. Qed.


(** A child forked at that moment, at the level of debug messages and at a lower one. *)
Lemma fork_inside_mutex_witness :
  (logger_destroy noon 7 (forked busy)).1 = NoFuel ∧
  wp (logger_destroy noon 7) (λ z s', z = LOG_EXIT_SUCCESS ∧ pLogMutex (lp_state s') = false ∧
    iIsInitDone (conf (lp_state s')) = 0 ∧ nodes (lp_state s') = ∅ ∧
    LogfileFd (lp_state s') = false ∧
    dom (sds_view (strings (lp_state s'))) = ({[ 2%positive ]} ∪ ∅ : gset sds))
    (forked (LProc (set_conf informing removing) (Some (W_removed 1 0 2)) [])).
Proof.
  split.
  - apply (fork_inside_mutex noon 7 removing (W_removed 1 0 2) [] []
      (proj1 removing_quiet) eq_refl (proj1 noon_good)). done.
  - apply (fork_inside_mutex noon 7 (set_conf informing removing) (W_removed 1 0 2) [] []
      (proj2 removing_quiet) eq_refl (proj1 noon_good)). done.
Defined.

Lemma logger_init_correct_witness :
  wp (logger_init true true (lit "/tmp/cew.log") 2) (λ z s', life s' ∧
      z = LOG_EXIT_SUCCESS ∧ iIsInitDone (conf (lp_state s')) = 1 ∧
      quiet (lp_state s') (Some W_sleep) [] ∧ lp_writer s' = Some W_sleep ∧
      text (lp_state s') <$> gpcLogfile (conf (lp_state s')) = Some (lit "/tmp/cew.log") ∧
      (∀ t, bTerminateProg (conf (lp_state stopped)) = false →
         accepts (conf (lp_state s')) t = (level_num t <=? u32 2))) stopped.
Proof. apply (logger_init_correct true true (lit "/tmp/cew.log") 2 stopped stopped_life). Defined.

Lemma logger_flush_gives_up_witness : ∃ ts,
  logger_flush noon (forked (LProc queued (Some W_sleep) [20%nat])) =
    (Ok LOG_EXIT_SUCCESS, LProc (set_flush 1 queued) None ts).
Proof. apply (logger_flush_gives_up noon (forked (LProc queued (Some W_sleep) [20%nat]))). reflexivity. Defined.

Lemma api_total_witness :
  (∀ t f args,
     if args_missing f args then
       if formats noon t busy then fails (call_log_msg noon t f args) Unspecified busy
       else wp (call_log_msg noon t f args) (λ z s', life s' ∧ z = LOG_EXIT_FAILURE) busy
     else wp (call_log_msg noon t f args)
       (λ z s', life s' ∧ (z = LOG_EXIT_SUCCESS ∨ z = LOG_EXIT_FAILURE)) busy) ∧
  wp (call_flush noon) (λ z s', life s' ∧ z = LOG_EXIT_SUCCESS) busy ∧
  (∀ path lvl, wp (call_init noon (λ _, true) false path lvl)
     (λ z s', life s' ∧ z = LOG_NOINIT) busy) ∧
  wp (call_destroy noon 7) (λ z s', life s' ∧ iIsInitDone (conf (lp_state s')) = 0 ∧
    z = LOG_EXIT_SUCCESS) busy ∧
  wp (call_get noon) (λ st s', life s' ∧ st = LogSettings 1000 50 0 3) busy ∧
  (∀ st, 0 ≤ iBulkWrite st → 0 ≤ iLoggerQueueSize st → iLoggerQueueSize st + 1 < 2 ^ 31 →
     wp (z ← call_set noon st; st' ← call_get noon; mret (z, st'))
       (λ r s', life s' ∧ r = (LOG_EXIT_SUCCESS, st)) busy).
Proof. apply (api_total noon noon_good (λ _, true) false 7 busy busy_life). Defined.

(** Through the interface: the message is queued and a flush writes it. *)
Example flush_writes_it :
  let '(_, s1) := @api_log_msg (cew_logger noon (λ _, true) true 7) eINFO (lit "hello %d") [AInt 42] running in
  let '(_, s2) := @api_logger_flush (cew_logger noon (λ _, true) true 7) s1 in
  written (lp_state s2) = [hello_line] ∧ iDataInQueueCount (lp_state s2) = 0.
Proof. vm_compute. done. Qed.

End LoggerExample.
