(* ===== verification/Worker.v ===== *)
(** * Workers, as the master sees them: [src/src/cew_worker.c]

    The passing of a client's descriptor to a worker, byte by byte as ancillary data of
    a message; the sockets over which it goes; the round-robin choice of the worker; and
    the release of the workers.  The process of a worker is in [WorkerProc.v]. *)

From S2P Require Import Prelude CString Machine SdsModel.
Local Open Scope Z_scope.

(** ** Little-endian integers in memory *)

Definition byte_of (z : Z) : byte := ascii_of_N (Z.to_N (z mod 256)).

Fixpoint le_bytes (n : nat) (z : Z) : bytes :=
  match n with
  | O => []
  | S n' => byte_of z :: le_bytes n' (z / 256)
  end.

Fixpoint le_read (b : bytes) : Z :=
  match b with
  | [] => 0
  | c :: b' => code c + 256 * le_read b'
  end.

(** ** Data *)

Definition WORKER_MAX_WORKERS : nat := 64.
Definition WORKER_EXIT_SUCCESS : Z := EXIT_SUCCESS.
Definition WORKER_EXIT_FAILURE : Z := EXIT_FAILURE.
Definition WORKER_IPC_FOLDER : bytes := lit "/run/cewserver".
Definition WORKER_IPC_FILE : bytes := lit "cew_worker".
Definition SIGINT : Z := 2.
Definition SIGKILL : Z := 9.
Definition SIGTERM : Z := 15.

Record tsWorkerStruct : Type := WorkerStruct {
  uiId : Z;
  Pid : Z;
  iMasterIPCAccept : Z;
  iMasterIPCfd : Z;
  iWorkerIPCfd : Z;
  iMe : Z;
  IPCFile : option sds;
}.

Definition set_Pid v w :=
  WorkerStruct (uiId w) v (iMasterIPCAccept w) (iMasterIPCfd w) (iWorkerIPCfd w) (iMe w) (IPCFile w).
Definition set_accept v w :=
  WorkerStruct (uiId w) (Pid w) v (iMasterIPCfd w) (iWorkerIPCfd w) (iMe w) (IPCFile w).
Definition set_masterfd v w :=
  WorkerStruct (uiId w) (Pid w) (iMasterIPCAccept w) v (iWorkerIPCfd w) (iMe w) (IPCFile w).
Definition set_workerfd v w :=
  WorkerStruct (uiId w) (Pid w) (iMasterIPCAccept w) (iMasterIPCfd w) v (iMe w) (IPCFile w).
Definition set_iMe v w :=
  WorkerStruct (uiId w) (Pid w) (iMasterIPCAccept w) (iMasterIPCfd w) (iWorkerIPCfd w) v (IPCFile w).

(** A slot is a null pointer or points to a structure of its own. *)
Record tsWorkerAdmin : Type := WorkerAdmin {
  uiCurrWorkers : Z;
  psWorker : list (option tsWorkerStruct);
}.

(** The administration after [memset]. *)
Definition no_workers : tsWorkerAdmin := WorkerAdmin 0 (replicate WORKER_MAX_WORKERS None).

(** The event loop of a worker: the pointer is null, or valid, or to a loop that
    [ev_loop_destroy] has released. *)
Inductive loop_ptr : Type := LoopNull | LoopLive | LoopReleased.

(** The static variables of the file. *)
Record worker_state : Type := WState {
  gWorkerAdmin : tsWorkerAdmin;
  NextWorker : Z;
  psWorkerEVLoop : loop_ptr;
}.

Definition worker_zero : worker_state := WState no_workers (u32 (-1)) LoopNull.

Definition set_admin a g := WState a (NextWorker g) (psWorkerEVLoop g).
Definition set_next n g := WState (gWorkerAdmin g) n (psWorkerEVLoop g).
Definition set_loop l g := WState (gWorkerAdmin g) (NextWorker g) l.

(** ** Ancillary data *)

(** [CMSG_LEN(4)], [CMSG_SPACE(4)] and the place of the data on a 64-bit Linux. *)
Definition CMSG_LEN : Z := 20.
Definition CMSG_SPACE : nat := 24.
Definition CMSG_HDR : nat := 16.
Definition SOL_SOCKET : Z := 1.
Definition SCM_RIGHTS : Z := 1.

(** The buffer that [send_fd_to_worker] fills: [cmsg_len], [cmsg_level], [cmsg_type],
    the descriptor, and four bytes of padding that keep what was on the stack. *)
Definition fd_message (stack : bytes) (iFd : Z) : bytes :=
  le_bytes 8 CMSG_LEN ++ le_bytes 4 SOL_SOCKET ++ le_bytes 4 SCM_RIGHTS ++
  le_bytes 4 iFd ++ take 4 stack.

(** [*(int32_t * ) CMSG_DATA]: four bytes behind the header. *)
Definition fd_of_message (cMsg : bytes) : Z := i32 (le_read (take 4 (drop CMSG_HDR cMsg))).

(** ** The kernel's side of ancillary data

    On a 64-bit little-endian Linux a control message is the total length in eight bytes,
    the level and the type in four each, and the data from byte 16 on.  Descriptors are
    passed by messages of level 1 and type 1, each in four bytes. *)

Fixpoint read_fds (n : nat) (b : bytes) : list Z :=
  match n with
  | O => []
  | S n' => i32 (le_read (take 4 b)) :: read_fds n' (drop 4 b)
  end.

(** The descriptors that [sendmsg] takes from the control data; [None]: it refuses them. *)
Definition kernel_takes (ctl : bytes) : option (list Z) :=
  let len := le_read (take 8 ctl) in
  if (16 <=? len) && (len <=? Z.of_nat (length ctl)) &&
     (le_read (take 4 (drop 8 ctl)) =? 1) && (le_read (take 4 (drop 12 ctl)) =? 1)
  then Some (read_fds (Z.to_nat ((len - 16) / 4)) (drop 16 ctl)) else None.

(** The control data that [recvmsg] writes for one descriptor, before the padding. *)
Definition kernel_gives (fd : Z) (pad : bytes) : bytes :=
  le_bytes 8 20 ++ le_bytes 4 1 ++ le_bytes 4 1 ++ le_bytes 4 fd ++ pad.

(** One descriptor passed from a sender, with the control data [ctl], to a receiver with
    [room] bytes for control data: there it gets the number that [dup] says. *)
Definition kernel_passes (room : nat) (dup : Z → Z) (pad ctl : bytes) : option bytes :=
  match kernel_takes ctl with
  | Some [fd] => Some (take room (kernel_gives (dup fd) pad))
  | _ => None
  end.

(** libev is not part of the sources.  Whether the memory of an event loop may still be
    passed to [free] after [ev_loop_destroy]; its documentation says that the call frees
    all memory of the loop. *)
Class EvLib : Type := loop_freeable : bool.

Section worker.
Context `{SL : SdsLib, LA : LoggerAPI, E : Env, EV : EvLib}.
(** What the stack holds where a buffer is not initialised. *)
Context (stack : bytes).

Definition send_fd_to_worker (w : tsWorkerStruct) (iFd : Z) : M Z :=
  r ← ext (X_sendmsg (iMasterIPCfd w) (fd_message stack iFd));
  if x_ret r =? -1 then mret WORKER_EXIT_FAILURE else mret WORKER_EXIT_SUCCESS.

(** [CMSG_FIRSTHDR] is null when fewer bytes than a header arrived; the rest of the
    buffer is not initialised.  The level and type are not looked at. *)
Definition receive_fd_from_worker (w : tsWorkerStruct) (iFd : Z) : M (Z * Z) :=
  r ← ext (X_recvmsg (iWorkerIPCfd w));
  if x_ret r =? -1 then mret (WORKER_EXIT_FAILURE, iFd)
  else if decide (length (x_data r) < CMSG_HDR)%nat then mret (WORKER_EXIT_FAILURE, iFd)
  else mret (WORKER_EXIT_SUCCESS, fd_of_message (x_data r ++ drop (length (x_data r)) stack)).

(** ** The IPC socket, on the master's side *)

Definition SUN_PATH_SIZE : nat := 108.

(** The path the kernel reads: [memcpy] of the string into the zeroed [sun_path], of
    which [addrlen] covers all but the two bytes of the family. *)
Definition sun_path (IPCFile : bytes) (addrlen : nat) : bytes :=
  cprefix (take (addrlen - 2) (IPCFile ++ replicate (SUN_PATH_SIZE - length IPCFile) NUL)).

Definition worker_create_ipc_socket (w : tsWorkerStruct) : M (Z * tsWorkerStruct) :=
  f ← non_null (IPCFile w);
  a ← sds_arg f;
  _ ← log_debug "Creating IPC socket for worker %d, file %s" [AInt (uiId w); a];
  r ← ext X_unix_socket;
  let w := set_accept (x_ret r) w in
  if x_ret r =? -1 then mret (EXIT_FAILURE, w) else
  n ← sds_len f;
  if Z.of_nat SUN_PATH_SIZE <=? n then mret (EXIT_FAILURE, w) else
  o ← deref f;
  r ← ext (X_stat WORKER_IPC_FOLDER);
  ok ← (if x_ret r =? -1
        then r ← ext (X_mkdir WORKER_IPC_FOLDER); mret (negb (x_ret r =? -1))
        else mret true);
  if negb ok then mret (EXIT_FAILURE, w) else
  _ ← ext (X_unlink (cprefix (sds_buf o)));
  r ← ext (X_bind_unix (iMasterIPCAccept w) (sun_path (sds_buf o) (SUN_PATH_SIZE - 1)));
  if x_ret r =? -1 then mret (EXIT_FAILURE, w) else
  r ← ext (X_chmod (cprefix (sds_buf o)));
  if x_ret r =? -1 then mret (EXIT_FAILURE, w) else
  r ← ext (X_listen (iMasterIPCAccept w) 20);
  if x_ret r =? -1 then mret (EXIT_FAILURE, w) else
  r ← ext (X_accept (iMasterIPCAccept w));
  let w := set_masterfd (x_ret r) w in
  if x_ret r =? -1 then st_exit EXIT_FAILURE else
  _ ← log_info "Created IPC socket for worker %d, with fd %d" [AInt (uiId w); AInt (iMasterIPCfd w)];
  mret (EXIT_SUCCESS, w).

(** ** Routing *)

(** Round robin over the workers; the remainder by a count of zero is undefined, and so
    is a slot outside the table or without a worker. *)
Definition worker_route_client (iSockfd : Z) (g : worker_state) : M (Z * worker_state) :=
  if uiCurrWorkers (gWorkerAdmin g) =? 0 then st_undef DivByZero else
  let next := u32 (NextWorker g + 1) mod uiCurrWorkers (gWorkerAdmin g) in
  let g := set_next next g in
  match psWorker (gWorkerAdmin g) !! Z.to_nat next with
  | None => st_undef OutOfBounds
  | Some slot =>
    _ ← log_debug "Adding new client to worker %d" [AInt next];
    w ← non_null slot;
    r ← send_fd_to_worker w iSockfd;
    if r =? WORKER_EXIT_SUCCESS then mret (WORKER_EXIT_SUCCESS, g)
    else mret (WORKER_EXIT_FAILURE, g)
  end.

(** ** Release *)

Definition close_if_open (fd : Z) : M unit :=
  if fd =? 0 then mret tt else _ ← ext (X_close fd); mret tt.

(** The worker's own entry, in the worker: its event loop. *)
Definition destroy_loop (l : loop_ptr) : M loop_ptr :=
  match l with
  | LoopReleased => st_undef UseAfterFree
  | LoopNull => st_undef NullDeref
  | LoopLive =>
    _ ← ext X_ev_suspend;
    _ ← ext X_ev_loop_destroy;
    if loop_freeable then mret LoopNull else st_undef BadFree
  end.

(** Another worker's entry: stop the process and wait for it. *)
Definition stop_worker (i : Z) (w : tsWorkerStruct) : M tsWorkerStruct :=
  me ← ext X_getpid;
  _ ← log_info "pid %d, master: Destroying worker %d from master." [AInt (x_ret me); AInt i];
  r ← ext (X_kill (Pid w) SIGTERM);
  _ ← (if x_ret r =? 0 then
         me ← ext X_getpid;
         log_debug "pid %d, master: Successfully stopped worker: %d" [AInt (x_ret me); AInt (Pid w)]
       else
         me ← ext X_getpid;
         _ ← log_error "pid %d, master: Error stopping worker: %d. killing it forcefully now!"
               [AInt (x_ret me); AInt (Pid w)];
         r ← ext (X_kill (Pid w) SIGKILL);
         mret (x_ret r));
  st ← ext (X_waitpid (Pid w));
  me ← ext X_getpid;
  _ ← log_debug "pid %d, master: Exit info from pid %d:%d"
        [AInt (x_ret me); AInt (Pid w); AInt (x_out st)];
  _ ← close_if_open (iMasterIPCfd w);
  _ ← close_if_open (iMasterIPCAccept w);
  p ← match IPCFile w with
      | Some f => o ← deref f; mret (cprefix (sds_buf o))
      | None => mret []
      end;
  _ ← ext (X_unlink p);
  mret (set_accept 0 (set_masterfd 0 w)).

(** The body of the loop for one slot. *)
Definition destroy_slot (i : Z) (w : tsWorkerStruct) (l : loop_ptr) : M loop_ptr :=
  '(w, l) ← (if negb (iMe w =? 0) then
      l ← destroy_loop l;
      me ← ext X_getpid;
      _ ← log_debug "pid %d, worker: Destroying myself %d from worker pid %d"
            [AInt (x_ret me); AInt i; AInt (Pid w)];
      mret (w, l)
    else w ← stop_worker i w; mret (w, l));
  _ ← close_if_open (iWorkerIPCfd w);
  _ ← match IPCFile w with Some f => sds_free f | None => mret tt end;
  me ← ext X_getpid;
  _ ← log_info "pid %d, Destroyed worker %d." [AInt (x_ret me); AInt (uiId w)];
  _ ← ext (X_free i);
  mret l.

Fixpoint destroy_slots (i : Z) (slots : list (option tsWorkerStruct)) (l : loop_ptr) : M loop_ptr :=
  match slots with
  | [] => mret l
  | None :: rest => destroy_slots (i + 1) rest l
  | Some w :: rest => l ← destroy_slot i w l; destroy_slots (i + 1) rest l
  end.

Definition worker_destroy (g : worker_state) : M (Z * worker_state) :=
  l ← destroy_slots 0 (psWorker (gWorkerAdmin g)) (psWorkerEVLoop g);
  me ← ext X_getpid;
  _ ← log_info "pid %d, Destroyed all workers. All done!" [AInt (x_ret me)];
  mret (WORKER_EXIT_SUCCESS, WState (WorkerAdmin 0 (map (λ _, None) (psWorker (gWorkerAdmin g))))
          (NextWorker g) l).

End worker.

(** ** Descriptors as bytes *)

Lemma byte_of_code z : code (byte_of z) = z mod 256.
Proof.
  unfold code, byte_of. pose proof (Z.mod_pos_bound z 256 ltac:(lia)).
  rewrite N_ascii_embedding by lia. lia.
Qed.

Lemma le_read_bytes n z : le_read (le_bytes n z) = z mod 2 ^ (8 * Z.of_nat n).
Proof.
  revert z. induction n as [|n IH]; intros z.
  - simpl. by rewrite Z.mod_1_r.
  - cbn [le_bytes le_read]. rewrite byte_of_code, IH.
    replace (8 * Z.of_nat (S n)) with (8 + 8 * Z.of_nat n) by lia.
    rewrite Z.pow_add_r by lia. change (2 ^ 8) with 256.
    by rewrite Z.rem_mul_r by lia.
Qed.

Lemma length_le_bytes n z : length (le_bytes n z) = n.
Proof. revert z. induction n; intros; simpl; auto. Qed.

Lemma i32_mod z : in_i32 z → i32 (z mod 2 ^ 32) = z.
Proof.
  intros [? ?]. unfold i32. rewrite <-(swrap_small 32 z) at 2 by lia.
  unfold swrap. by rewrite Z.mod_mod by lia.
Qed.

Lemma fd_message_read stack fd rest :
  in_i32 fd → fd_of_message (fd_message stack fd ++ rest) = fd.
Proof.
  intros Hfd. unfold fd_of_message, fd_message, CMSG_HDR.
  rewrite !(assoc_L (++)). set (hdr := (le_bytes 8 CMSG_LEN ++ le_bytes 4 SOL_SOCKET) ++ _).
  assert (length hdr = 16%nat) as Hhdr by done.
  rewrite <-!(assoc_L (++)). rewrite drop_app_length' by done.
  rewrite take_app_length' by done.
  rewrite le_read_bytes. by apply i32_mod.
Qed.

Section passing.
Context `{SL : SdsLib, LA : LoggerAPI, E : Env}.

Lemma kernel_takes_message fd stk : in_i32 fd → kernel_takes (fd_message stk fd) = Some [fd].
Proof.
  intros Hfd. unfold kernel_takes.
  assert (20 ≤ Z.of_nat (length (fd_message stk fd))) as Hlen.
  { unfold fd_message. rewrite !length_app, !length_le_bytes, length_take. lia. }
  apply Z.leb_le in Hlen. change (le_read (take 8 (fd_message stk fd))) with 20. rewrite Hlen.
  change (le_read (take 4 (drop 8 (fd_message stk fd)))) with 1.
  change (le_read (take 4 (drop 12 (fd_message stk fd)))) with 1. cbn [Z.leb andb].
  change (Some (read_fds 1 (le_bytes 4 fd ++ take 4 stk)) = Some [fd]). cbn [read_fds].
  rewrite take_app_length', le_read_bytes by (by rewrite length_le_bytes).
  change (8 * Z.of_nat 4) with 32. by rewrite (i32_mod fd).
Qed.

Lemma kernel_gives_read fd pad stk :
  in_i32 fd → fd_of_message (take CMSG_SPACE (kernel_gives fd pad) ++ stk) = fd.
Proof.
  intros Hfd. unfold fd_of_message, kernel_gives.
  change (take 4 (drop CMSG_HDR (take CMSG_SPACE (le_bytes 8 20 ++ le_bytes 4 1 ++ le_bytes 4 1 ++ le_bytes 4 fd ++ pad) ++ stk)))
    with (le_bytes 4 fd).
  rewrite le_read_bytes. by apply i32_mod.
Qed.

Lemma length_kernel_gives fd pad : (CMSG_HDR ≤ length (take CMSG_SPACE (kernel_gives fd pad)))%nat.
Proof.
  unfold kernel_gives. rewrite length_take, !length_app, !length_le_bytes. unfold CMSG_HDR, CMSG_SPACE. lia.
Qed.

(** C20: Passing a descriptor through the kernel: what [send_fd_to_worker] puts into the
    control data is, for the kernel, a message that passes exactly the descriptor [fd]; and
    from what the kernel then writes into the control buffer of the receiver, with [fd]
    renumbered by [dup], [receive_fd_from_worker] reads exactly that number, whatever was on
    either stack.  (Both calls succeed; the numbers are 32-bit ones.) *)
Theorem fd_passing_roundtrip stack1 stack2 pad dup w w' fd s s' :
  in_i32 fd → in_i32 (dup fd) →
  x_ret (env (m_trace s) (X_sendmsg (iMasterIPCfd w) (fd_message stack1 fd))) ≠ -1 →
  x_ret (env (m_trace s') (X_recvmsg (iWorkerIPCfd w'))) ≠ -1 →
  wp (send_fd_to_worker stack1 w fd) (λ z t, z = WORKER_EXIT_SUCCESS ∧ ∃ ctl r d,
    m_trace t = m_trace s ++ [(X_sendmsg (iMasterIPCfd w) ctl, r)] ∧
    kernel_takes ctl = Some [fd] ∧ kernel_passes CMSG_SPACE dup pad ctl = Some d ∧
    (x_data (env (m_trace s') (X_recvmsg (iWorkerIPCfd w'))) = d →
     ∀ junk, wp (receive_fd_from_worker stack2 w' junk) (λ r t,
       r = (WORKER_EXIT_SUCCESS, dup fd)) s')) s.
Proof.
  intros Hfd Hdup Hs Hr. pose proof (kernel_takes_message fd stack1 Hfd) as Htake.
  apply wp_bind, wp_ext. intros r t -> _ _ Ht. rewrite (proj2 (Z.eqb_neq _ _) Hs).
  apply wp_ret. split; [done|]. eexists _, _, _. split; [exact Ht|]. split; [done|].
  unfold kernel_passes. rewrite Htake. split; [done|]. intros Hd junk.
  apply wp_bind, wp_ext. intros r' t' -> _ _ _. rewrite (proj2 (Z.eqb_neq _ _) Hr), Hd.
  rewrite decide_False by (pose proof (length_kernel_gives (dup fd) pad); lia).
  apply wp_ret. by rewrite kernel_gives_read.
Qed.

(** What the receiver does with anything else: a failing call or less than a header
    is refused and the caller's number stays; but whatever has a header is taken for a
    descriptor, since neither the level nor the type nor the length is looked at, and
    when the data behind the header is short the number comes from the stack. *)
Theorem receive_unchecked stack w fd s :
  wp (receive_fd_from_worker stack w fd) (λ r t,
    let a := env (m_trace s) (X_recvmsg (iWorkerIPCfd w)) in
    r = if (x_ret a =? -1) || bool_decide (length (x_data a) < CMSG_HDR)%nat
        then (WORKER_EXIT_FAILURE, fd)
        else (WORKER_EXIT_SUCCESS,
              i32 (le_read (take 4 (drop CMSG_HDR (x_data a ++ drop (length (x_data a)) stack)))))) s.
Proof.
  apply wp_bind, wp_ext. intros r t Hr _ _ _. rewrite <-Hr. cbv zeta.
  destruct (x_ret r =? -1); [by apply wp_ret|]. cbn [orb].
  case_decide; apply wp_ret; [by rewrite bool_decide_true|by rewrite bool_decide_false].
Qed.

End passing.

(** ** Routing *)

(** The calls by which clients were handed to workers, and the answers left out. *)
Definition send_of (c : ext_call) : option (Z * bytes) :=
  match c with X_sendmsg fd m => Some (fd, m) | _ => None end.
Definition sends (tr : list event) : list (Z * bytes) := omap send_of tr.*1.

Lemma sends_app tr tr' : sends (tr ++ tr') = sends tr ++ sends tr'.
Proof. unfold sends. by rewrite fmap_app, omap_app. Qed.

Section routing.
Context `{SL : SdsLib, LA : LoggerAPI, E : Env}.
Context (stack : bytes).

(** Routing one client after the other. *)
Fixpoint route_all (fds : list Z) (g : worker_state) : M worker_state :=
  match fds with
  | [] => mret g
  | fd :: fds' => '(_, g) ← worker_route_client stack fd g; route_all fds' g
  end.

(** The workers [ws] fill the first slots. *)
Definition staffed (ws : list tsWorkerStruct) (a : tsWorkerAdmin) : Prop :=
  uiCurrWorkers a = Z.of_nat (length ws) ∧ (length ws ≤ WORKER_MAX_WORKERS)%nat ∧
  (∃ rest, psWorker a = (Some <$> ws) ++ rest).

Lemma staffed_slot ws a i w :
  staffed ws a → ws !! i = Some w → psWorker a !! i = Some (Some w).
Proof.
  intros (_ & _ & rest & ->) Hw. rewrite lookup_app_l.
  - by rewrite list_lookup_fmap, Hw.
  - rewrite length_fmap. by eapply lookup_lt_Some.
Qed.

(** One client goes to the worker after the last one. *)
Lemma route_trace ws g j fd s :
  staffed ws (gWorkerAdmin g) → ws ≠ [] →
  u32 (NextWorker g + 1) mod Z.of_nat (length ws) = j mod Z.of_nat (length ws) → 0 ≤ j →
  ∃ w, ws !! Z.to_nat (j mod Z.of_nat (length ws)) = Some w ∧
  wp (worker_route_client stack fd g) (λ r s',
    r.2 = set_next (j mod Z.of_nat (length ws)) g ∧ heap_of s' = heap_of s ∧
    ∃ x, m_trace s' = m_trace s ++ [(X_sendmsg (iMasterIPCfd w) (fd_message stack fd), x)]) s.
Proof.
  intros Hst Hne Hj Hj0. pose proof Hst as (Hn & Hmax & _).
  assert (0 < Z.of_nat (length ws)) as Hpos by (destruct ws; simpl in *; [done|lia]).
  pose proof (Z.mod_pos_bound j (Z.of_nat (length ws)) Hpos) as Hb.
  destruct (lookup_lt_is_Some_2 ws (Z.to_nat (j mod Z.of_nat (length ws)))) as [w Hw]; [lia|].
  exists w. split; [done|]. unfold worker_route_client. rewrite Hn.
  rewrite (proj2 (Z.eqb_neq _ _)) by lia. rewrite Hj. cbn [gWorkerAdmin set_next].
  rewrite (staffed_slot _ _ _ _ Hst Hw). cbn [non_null].
  apply wp_bind; log_step. intros _ s1 Hh1 Ht1. apply wp_bind, wp_ret.
  apply wp_bind, wp_bind, wp_ext. intros r s2 _ Hh2 _ Ht2. rewrite Ht1 in Ht2.
  destruct (x_ret r =? -1); apply wp_ret; (split_and!; [done|congruence|by exists r]).
Qed.

Lemma route_wp ws g j fd s :
  staffed ws (gWorkerAdmin g) → ws ≠ [] →
  u32 (NextWorker g + 1) mod Z.of_nat (length ws) = j mod Z.of_nat (length ws) → 0 ≤ j →
  ∃ w, ws !! Z.to_nat (j mod Z.of_nat (length ws)) = Some w ∧
  wp (worker_route_client stack fd g) (λ r s',
    r.2 = set_next (j mod Z.of_nat (length ws)) g ∧
    sends (m_trace s') = sends (m_trace s) ++ [(iMasterIPCfd w, fd_message stack fd)]) s.
Proof.
  intros Hst Hne Hj Hj0. destruct (route_trace ws g j fd s Hst Hne Hj Hj0) as (w & Hw & Hwp).
  exists w. split; [done|]. eapply wp_mono; [exact Hwp|]. intros r s' (Hr & _ & x & Ht).
  split; [done|]. by rewrite Ht, sends_app.
Qed.

Lemma route_all_wp ws fds : ∀ g j s,
  staffed ws (gWorkerAdmin g) → ws ≠ [] → 0 ≤ j →
  u32 (NextWorker g + 1) mod Z.of_nat (length ws) = j mod Z.of_nat (length ws) →
  wp (route_all fds g) (λ _ s', sends (m_trace s') = sends (m_trace s) ++
    imap (λ i fd, (from_option iMasterIPCfd 0 (ws !! ((Z.to_nat j + i) mod length ws)%nat),
                   fd_message stack fd)) fds) s.
Proof.
  induction fds as [|fd fds IH]; intros g j s Hst Hne Hj0 Hj; cbn [route_all].
  - apply wp_ret. simpl. by rewrite app_nil_r.
  - pose proof Hst as (Hn & Hmax & _). unfold WORKER_MAX_WORKERS in Hmax.
    assert (0 < Z.of_nat (length ws)) as Hpos by (destruct ws; simpl in *; [done|lia]).
    pose proof (Z.mod_pos_bound j (Z.of_nat (length ws)) Hpos) as Hb.
    destruct (route_wp ws g j fd s Hst Hne Hj Hj0) as (w & Hw & Hwp).
    apply wp_bind. eapply wp_mono; [exact Hwp|].
    intros [z g1] s1 [Hg1 Hs1]. simpl in Hg1. subst g1.
    eapply wp_mono; [apply (IH _ (j + 1)); [done|done|lia|]|].
    + cbn [NextWorker set_next]. unfold u32. rewrite uwrap_small by lia.
      by rewrite Zplus_mod_idemp_l.
    + intros _ s' ->. rewrite Hs1, <-app_assoc. f_equal. cbn. rewrite Nat.add_0_r.
      assert (ws !! (Z.to_nat j mod length ws)%nat = Some w) as ->.
      { rewrite <-Hw. f_equal. rewrite Z2Nat.inj_mod by lia. by rewrite Nat2Z.id. }
      cbn. f_equal. apply imap_ext. intros i x _. cbn. do 3 f_equal. f_equal. lia.
Qed.

(** C30: Clients are dealt out in turn: with the workers [ws] set up and none routed yet,
    the client number [i] goes to worker [i mod length ws], in the order of their
    arrival, exactly one message each; so no worker ever has more than one client more
    than another. *)
Theorem round_robin ws fds g s :
  staffed ws (gWorkerAdmin g) → ws ≠ [] → NextWorker g = NextWorker worker_zero →
  wp (route_all fds g) (λ _ s', sends (m_trace s') = sends (m_trace s) ++
    imap (λ i fd, (from_option iMasterIPCfd 0 (ws !! (i mod length ws)%nat),
                   fd_message stack fd)) fds) s.
Proof.
  intros Hst Hne Hnext. apply (route_all_wp ws fds g 0 s Hst Hne ltac:(lia)).
  rewrite Hnext. done.
Qed.

(** With no worker, as after [worker_init] was asked for none or was undone,
    routing a client divides by zero. *)
Theorem no_worker_divides_by_zero fd g s :
  uiCurrWorkers (gWorkerAdmin g) = 0 → fails (worker_route_client stack fd g) DivByZero s.
Proof. intros H. exists s. unfold worker_route_client. by rewrite H. Qed.

End routing.

(** ** Releasing the workers *)

(** The calls of a teardown that matter: the request to end, the wait, what is closed,
    removed and freed (not the look-ups of the own number, nor the second, forceful
    signal to a process that could not be asked). *)
Definition teardown_call (c : ext_call) : bool :=
  match c with
  | X_kill _ sig => negb (sig =? SIGKILL)
  | X_waitpid _ | X_close _ | X_unlink _ | X_free _ => true
  | _ => false
  end.

Definition teardown_calls (tr : list event) : list ext_call :=
  filter (λ c, teardown_call c = true) tr.*1.

Lemma teardown_app tr tr' : teardown_calls (tr ++ tr') = teardown_calls tr ++ teardown_calls tr'.
Proof. unfold teardown_calls. by rewrite fmap_app, filter_app. Qed.

Definition close_calls (fd : Z) : list ext_call := if fd =? 0 then [] else [X_close fd].

(** What releasing the worker in slot [i] amounts to. *)
Definition teardown (i : Z) (w : tsWorkerStruct) (path : bytes) : list ext_call :=
  [X_kill (Pid w) SIGTERM; X_waitpid (Pid w)] ++ close_calls (iMasterIPCfd w) ++
  close_calls (iMasterIPCAccept w) ++ [X_unlink (cprefix path)] ++
  close_calls (iWorkerIPCfd w) ++ [X_free i].

(** All slots; [xs] are the file names of the workers, in their order. *)
Fixpoint teardown_all (i : Z) (slots : list (option tsWorkerStruct)) (xs : list (sds * sds_obj))
  : list ext_call :=
  match slots, xs with
  | None :: rest, _ => teardown_all (i + 1) rest xs
  | Some w :: rest, (_, o) :: xs' =>
      teardown i w (sds_buf o) ++ teardown_all (i + 1) rest xs'
  | _, _ => []
  end.

(** Each worker of the slots owns the string of [xs] at its place. *)
Definition own_names (slots : list (option tsWorkerStruct)) (xs : list (sds * sds_obj)) : Prop :=
  Forall2 (λ w x, IPCFile w = Some x.1) (omap id slots) xs.

Section release.
Context `{SL : SdsLib, SS : !SdsSpec SL, LA : LoggerAPI, E : Env, EV : EvLib}.
Implicit Types (s : machine) (ps xs : list (sds * sds_obj)).

(** The trace grew by calls of which those that matter are [cs], none of them passing
    on a client. *)
Definition did (cs : list ext_call) (s s' : machine) : Prop :=
  ∃ new, m_trace s' = m_trace s ++ new ∧ teardown_calls new = cs ∧ sends new = [].

Lemma did_refl s s' : m_trace s' = m_trace s → did [] s s'.
Proof. intros H. exists []. by rewrite H, app_nil_r. Qed.

Lemma did_trans cs cs' s s' s'' : did cs s s' → did cs' s' s'' → did (cs ++ cs') s s''.
Proof.
  intros (n1 & Ht1 & <- & Hs1) (n2 & Ht2 & <- & Hs2). exists (n1 ++ n2).
  by rewrite Ht2, Ht1, app_assoc, teardown_app, sends_app, Hs1, Hs2.
Qed.

Lemma did_ext c r s s' :
  send_of c = None → m_trace s' = m_trace s ++ [(c, r)] →
  did (if teardown_call c then [c] else []) s s'.
Proof.
  intros Hc H. exists [(c, r)]. split; [done|]. unfold teardown_calls, sends. cbn.
  rewrite Hc. by destruct (teardown_call c).
Qed.

(** Started with the strings [h], leaves them alone and does the calls [cs]. *)
Definition acts {A} (h : gmap sds sds_obj) (m : M A) (cs : list ext_call) (P : A → Prop) : Prop :=
  ∀ s, heap_of s = h → wp m (λ a s', P a ∧ heap_of s' = h ∧ did cs s s') s.

Lemma acts_ret {A} h (a : A) : acts h (mret a) [] (eq a).
Proof. intros s Hs. apply wp_ret. split_and!; [done|done|by apply did_refl]. Qed.

Lemma acts_bind {A B} h (m : M A) (f : A → M B) cs cs' P Q :
  acts h m cs P → (∀ a, P a → acts h (f a) cs' Q) → acts h (m ≫= f) (cs ++ cs') Q.
Proof.
  intros Hm Hf s Hs. apply wp_bind. eapply wp_mono; [by apply Hm|].
  intros a s1 (HP & Hh & Hd). eapply wp_mono; [by apply Hf|].
  intros b s2 (HQ & Hh2 & Hd2). split_and!; [done|done|by eapply did_trans].
Qed.

Lemma acts_ext h c : send_of c = None → acts h (ext c) (if teardown_call c then [c] else []) (λ _, True).
Proof.
  intros Hc s Hs. apply wp_ext. intros r s' _ Hh _ Ht. split_and!; [done|congruence|by eapply did_ext].
Qed.

Lemma acts_log h t f args :
  args_missing (lit f) args = false → acts h (log_msg t f args) [] (λ _, True).
Proof.
  intros Hsup s Hs. apply wp_log; [done|]. intros z s' Hh Ht. split_and!; [done|congruence|by apply did_refl].
Qed.

Lemma acts_deref h l o : h !! l = Some o → acts h (deref l) [] (eq o).
Proof.
  intros Hl s Hs. unfold wp, deref. rewrite Hs, Hl. split_and!; [done|done|by apply did_refl].
Qed.

Lemma acts_close h fd : acts h (close_if_open fd) (close_calls fd) (λ _, True).
Proof.
  unfold close_if_open, close_calls. destruct (fd =? 0).
  - intros s Hs. apply wp_ret. split_and!; [done|done|by apply did_refl].
  - rewrite <-(app_nil_r [X_close fd]). eapply acts_bind; [by apply (acts_ext h (X_close fd))|].
    intros _ _ s Hs. apply wp_ret. split_and!; [done|done|by apply did_refl].
Qed.

Lemma acts_weaken {A} h (m : M A) cs cs' (P Q : A → Prop) :
  acts h m cs P → cs = cs' → (∀ a, P a → Q a) → acts h m cs' Q.
Proof. intros Hm <- HPQ s Hs. eapply wp_mono; [by apply Hm|]. naive_solver. Qed.

Lemma acts_ret_any {A} h (a : A) : acts h (mret a) [] (λ _, True).
Proof. eapply acts_weaken; [apply acts_ret|done|done]. Qed.

(** One step of a computation that keeps the strings. *)
Ltac acts_step :=
  first [ apply acts_ret | apply acts_ret_any | apply acts_ext; reflexivity | apply acts_log; vm_compute; reflexivity | apply acts_close
        | by apply acts_deref | eapply acts_bind; [|intros ? ?] ].

Lemma stop_worker_acts h i w f o :
  IPCFile w = Some f → h !! f = Some o →
  acts h (stop_worker i w)
    ([X_kill (Pid w) SIGTERM; X_waitpid (Pid w)] ++ close_calls (iMasterIPCfd w) ++
     close_calls (iMasterIPCAccept w) ++ [X_unlink (cprefix (sds_buf o))])
    (eq (set_accept 0 (set_masterfd 0 w))).
Proof.
  intros Hf Ho. unfold stop_worker. rewrite Hf. eapply acts_weaken.
  - acts_step; [acts_step|]. acts_step; [acts_step|]. acts_step; [acts_step|].
    acts_step.
    { apply (acts_weaken _ _ [] [] (λ _, True) (λ _, True)); [|done|done]. destruct (x_ret _ =? 0).
      - eapply acts_weaken; [repeat acts_step|done|done].
      - eapply acts_weaken; [repeat acts_step|done|done]. }
    do 4 (acts_step; [acts_step|]). acts_step; [acts_step|]. acts_step.
    { instantiate (1 := eq (cprefix (sds_buf o))). instantiate (1 := []).
      eapply acts_weaken; [acts_step; [by apply acts_deref|]|..].
      - simplify_eq. apply acts_ret.
      - done.
      - by intros ? <-. }
    simplify_eq. acts_step; [acts_step|]. apply acts_ret.
  - cbn. by rewrite ?app_nil_r, <-?app_assoc.
  - done.
Qed.

(** Releasing one inherited or own worker process from another process. *)
Lemma destroy_slot_wp i w l f o ps F s :
  iMe w = 0 → IPCFile w = Some f → heap_is ((f, o) :: ps) F (heap_of s) →
  wp (destroy_slot i w l) (λ r s', r = l ∧ heap_is ps F (heap_of s') ∧
    did (teardown i w (sds_buf o)) s s') s.
Proof.
  intros Hme Hf Hheap. unfold destroy_slot. rewrite Hme. cbn [negb Z.eqb].
  apply wp_bind, wp_bind. eapply wp_mono.
  { apply (stop_worker_acts (heap_of s) i w f o Hf); [|reflexivity]. apply Hheap. }
  intros ? s1 (<- & Hh1 & Hd1). apply wp_ret. cbn [iWorkerIPCfd IPCFile set_accept set_masterfd].
  rewrite Hf. apply wp_bind. eapply wp_mono; [by apply (acts_close (heap_of s))|].
  intros _ s2 (_ & Hh2 & Hd2). rewrite <-Hh2 in Hheap. wstep.
  eapply wp_sds_free; [exact Hheap|apply pick_here|]. intros s3 Hheap3 _ Ht3.
  apply wp_bind, wp_ext. intros r4 s4 _ Hh4 _ Ht4. apply wp_bind; log_step. intros _ s5 Hh5 Ht5.
  apply wp_bind, wp_ext. intros r6 s6 _ Hh6 _ Ht6. apply wp_ret.
  split_and!; [done|by rewrite Hh6, Hh5, Hh4|].
  assert (did [X_free i] s2 s6) as Hd3.
  { exists [(X_getpid, r4); (X_free i, r6)]. split; [|done].
    by rewrite Ht6, Ht5, Ht4, Ht3, <-app_assoc. }
  unfold teardown. rewrite !(assoc_L (++)). rewrite !(assoc_L (++)) in Hd1.
  eapply did_trans; [by eapply did_trans|done].
Qed.

Lemma destroy_slots_wp slots : ∀ i l xs ps F s,
  (∀ w, Some w ∈ slots → iMe w = 0) → own_names slots xs →
  heap_is (xs ++ ps) F (heap_of s) →
  wp (destroy_slots i slots l) (λ r s', r = l ∧ heap_is ps F (heap_of s') ∧
    did (teardown_all i slots xs) s s') s.
Proof.
  induction slots as [|[w|] slots IH]; intros i l xs ps F s Hme Hown Hheap; cbn [destroy_slots].
  - apply Forall2_nil_inv_l in Hown as ->. apply wp_ret. split_and!; [done|done|by apply did_refl].
  - unfold own_names in Hown. cbn in Hown.
    apply Forall2_cons_inv_l in Hown as ([f o] & xs' & Hf & Hown & ->).
    apply wp_bind. eapply wp_mono.
    { apply (destroy_slot_wp i w l f o (xs' ++ ps) F); [apply Hme; left|done|exact Hheap]. }
    intros ? s1 (-> & Hheap1 & Hd1). eapply wp_mono.
    { apply (IH (i + 1) l xs' ps F); [|done|done]. intros w' ?. apply Hme. by right. }
    intros ? s2 (-> & Hheap2 & Hd2). split_and!; [done|done|by eapply did_trans].
  - apply (IH (i + 1) l xs ps F); [|done|done]. intros w' ?. apply Hme. by right.
Qed.

Lemma master_destroy_full g xs ps F s :
  (∀ w, Some w ∈ psWorker (gWorkerAdmin g) → iMe w = 0) →
  own_names (psWorker (gWorkerAdmin g)) xs → heap_is (xs ++ ps) F (heap_of s) →
  wp (worker_destroy g) (λ r s',
    r.1 = WORKER_EXIT_SUCCESS ∧ uiCurrWorkers (gWorkerAdmin r.2) = 0 ∧
    Forall (eq None) (psWorker (gWorkerAdmin r.2)) ∧
    length (psWorker (gWorkerAdmin r.2)) = length (psWorker (gWorkerAdmin g)) ∧
    psWorkerEVLoop r.2 = psWorkerEVLoop g ∧
    heap_is ps F (heap_of s') ∧ did (teardown_all 0 (psWorker (gWorkerAdmin g)) xs) s s') s.
Proof.
  intros Hme Hown Hheap. unfold worker_destroy. apply wp_bind.
  eapply wp_mono; [by apply (destroy_slots_wp _ 0 _ xs ps F)|].
  intros ? s1 (-> & Hh1 & Hd1). apply wp_bind, wp_ext. intros r s2 _ Hh2 _ Ht2.
  apply wp_bind; log_step. intros _ s3 Hh3 Ht3. apply wp_ret. cbn.
  split_and!; try done.
  - apply Forall_map, Forall_true. done.
  - apply length_map.
  - by rewrite Hh3, Hh2.
  - rewrite <-(app_nil_r (teardown_all _ _ _)). eapply did_trans; [exact Hd1|].
    exists [(X_getpid, r)]. by rewrite Ht3, Ht2.
Qed.

Lemma master_destroy_wp g xs ps F s :
  (∀ w, Some w ∈ psWorker (gWorkerAdmin g) → iMe w = 0) →
  own_names (psWorker (gWorkerAdmin g)) xs → heap_is (xs ++ ps) F (heap_of s) →
  wp (worker_destroy g) (λ r s', heap_is ps F (heap_of s') ∧
    did (teardown_all 0 (psWorker (gWorkerAdmin g)) xs) s s') s.
Proof.
  intros. eapply wp_mono; [by apply (master_destroy_full g xs ps F)|]. naive_solver.
Qed.

(** C23: Releasing the workers from the master, for any filling of the table: every
    worker is asked to end, waited for, its open sockets closed, its socket file removed
    and its memory freed, in this order and slot by slot; exactly the strings that the
    workers owned are released, and the table is empty afterwards. *)
Theorem master_destroy_correct g xs ps F s :
  (∀ w, Some w ∈ psWorker (gWorkerAdmin g) → iMe w = 0) →
  own_names (psWorker (gWorkerAdmin g)) xs → heap_is (xs ++ ps) F (heap_of s) →
  wp (worker_destroy g) (λ r s',
    r.1 = WORKER_EXIT_SUCCESS ∧ uiCurrWorkers (gWorkerAdmin r.2) = 0 ∧
    Forall (eq None) (psWorker (gWorkerAdmin r.2)) ∧
    length (psWorker (gWorkerAdmin r.2)) = length (psWorker (gWorkerAdmin g)) ∧
    psWorkerEVLoop r.2 = psWorkerEVLoop g ∧
    heap_is ps F (heap_of s') ∧ did (teardown_all 0 (psWorker (gWorkerAdmin g)) xs) s s') s.
Proof. apply master_destroy_full. Qed.

Lemma destroy_slots_app l1 l2 : ∀ i l s,
  destroy_slots i (l1 ++ l2) l s =
    (l ← destroy_slots i l1 l; destroy_slots (i + Z.of_nat (length l1)) l2 l) s.
Proof.
  induction l1 as [|[w|] l1 IH]; intros i l s; cbn [app destroy_slots length].
  - cbn. by rewrite Z.add_0_r.
  - unfold mbind, ST_bind. destruct (destroy_slot i w l s) as [[l'| | |] s1]; try done.
    rewrite IH. by replace (i + 1 + Z.of_nat (length l1)) with (i + Z.of_nat (S (length l1))) by lia.
  - rewrite IH. by replace (i + 1 + Z.of_nat (length l1)) with (i + Z.of_nat (S (length l1))) by lia.
Qed.


End release.
