(* ===== verification/Socket.v ===== *)
(** * The listening socket: [src/src/cew_socket.c]

    Setting up the socket on a port, closing it, and the callback that accepts a client
    and hands it to a worker. *)

From S2P Require Import Prelude CString Machine SdsModel Worker.
Local Open Scope Z_scope.

Definition BACKLOG : Z := 10.
Definition SOCK_EXIT_SUCCESS : Z := 0.

Section socket.
Context `{SL : SdsLib, LA : LoggerAPI, E : Env}.
Context (stack : bytes).

(** [cPort]: the number in a buffer of six bytes. *)
Definition port_text (iPort : Z) : bytes := default [] (vsnprintf 6 (lit "%d") [AInt iPort]).

(** The results: the value returned, [*iRetFd], and the static [iFd]. *)
Definition socket_setup (iPort : Z) (iRetFd iFd : Z) : M (Z * Z * Z) :=
  r ← ext (X_getaddrinfo (port_text iPort));
  if negb (x_ret r =? 0) then mret (x_errno r, iRetFd, iFd) else
  r ← ext X_socket;
  let iFd := x_ret r in
  if x_ret r <? 0 then mret (x_errno r, iRetFd, iFd) else
  r ← ext (X_setsockopt iFd);
  if x_ret r =? -1 then mret (x_errno r, iRetFd, iFd) else
  r ← ext (X_bind iFd);
  if x_ret r <? 0 then mret (x_errno r, iRetFd, iFd) else
  _ ← ext X_freeaddrinfo;
  r ← ext (X_listen iFd BACKLOG);
  if x_ret r <? 0 then mret (x_errno r, iRetFd, iFd) else
  r ← ext (X_set_nonblock iFd);
  if x_ret r =? -1 then mret (x_errno r, iRetFd, iFd) else
  _ ← log_info "Socket listing on port %d" [AInt iPort];
  mret (SOCK_EXIT_SUCCESS, iFd, iFd).

Definition socket_close (iFd : Z) : M (Z * Z) :=
  iFd ← (if 0 <? iFd then _ ← ext (X_close iFd); mret 0 else mret iFd);
  _ ← log_info "Stopped socket." [];
  mret (0, iFd).

Definition socket_accept_client (iFd : Z) (g : worker_state) : M worker_state :=
  _ ← log_debug "Master. Got Callback from ev about a client." [];
  r ← ext (X_accept iFd);
  let iSockfd := x_ret r in
  if iSockfd =? -1 then
    _ ← log_error "Master. Error with accepting client." [];
    mret g
  else
    _ ← log_debug "Sending fd:%d to the worker." [AInt iSockfd];
    '(z, g) ← worker_route_client stack iSockfd g;
    _ ← (if z =? WORKER_EXIT_SUCCESS then mret 0
         else log_warning "Master. Couldn't route client to worker!" []);
    mret g.

(** ** Theorems *)

Lemma port_text_dec p : 0 ≤ p < 2 ^ 16 → port_text p = dec p.
Proof.
  intros Hp. unfold port_text, vsnprintf.
  change (format (lit "%d") [AInt p]) with (Some (dec (i32 p) ++ [])).
  assert (i32 p = p) as -> by (apply swrap_small; lia).
  rewrite app_nil_r. apply take_ge.
  assert (dec p = dec_nat p) as ->.
  { unfold dec. destruct (Z.ltb_spec p 0); [lia|done]. }
  assert (length (dec_nat p) ≤ 5)%nat; [|lia].
  apply dec_nat_length; [|lia]. change (10 ^ Z.of_nat 5) with 100000. lia.
Qed.

(** The calls that were made and did not fail, as [socket_setup] tests it. *)
Definition setup_call_ok (c : ext_call) (r : ext_ret) : Prop :=
  match c with
  | X_getaddrinfo _ => x_ret r = 0
  | X_socket | X_bind _ | X_listen _ _ => 0 ≤ x_ret r
  | X_setsockopt _ | X_set_nonblock _ => x_ret r ≠ -1
  | _ => True
  end.

(** The calls of a complete set-up, in order. *)
Definition setup_calls (iPort fd : Z) : list ext_call :=
  [X_getaddrinfo (port_text iPort); X_socket; X_setsockopt fd; X_bind fd; X_freeaddrinfo;
   X_listen fd BACKLOG; X_set_nonblock fd].

(** What a set-up that got as far as [pre] looks like. *)
Definition setup_result (iPort iRetFd0 : Z) (s : machine) (r : Z * Z * Z) (s' : machine) : Prop :=
  ∃ new, m_trace s' = m_trace s ++ new ∧ fds_closed new = [] ∧
    let '(z, iRetFd, fd) := r in
    (z = SOCK_EXIT_SUCCESS ∧ iRetFd = fd ∧ new.*1 = setup_calls iPort fd ∧
       Forall (λ e, setup_call_ok e.1 e.2) new) ∨
    (∃ pre c x, new = pre ++ [(c, x)] ∧ Forall (λ e, setup_call_ok e.1 e.2) pre ∧
       ¬ setup_call_ok c x ∧ z = x_errno x ∧ iRetFd = iRetFd0 ∧
       new.*1 `prefix_of` setup_calls iPort fd).

Lemma setup_failed iPort iRetFd fd pre c x s s' :
  m_trace s' = m_trace s ++ pre ++ [(c, x)] → Forall (λ e, setup_call_ok e.1 e.2) pre →
  ¬ setup_call_ok c x → (pre ++ [(c, x)]).*1 `prefix_of` setup_calls iPort fd →
  fds_closed (pre ++ [(c, x)]) = [] →
  setup_result iPort iRetFd s (x_errno x, iRetFd, fd) s'.
Proof.
  intros Ht Hpre Hc Hp Hcl. exists (pre ++ [(c, x)]). split_and!; [done|done|].
  right. by exists pre, c, x.
Qed.

(** The call after [pre], the [n]-th, failed. *)
Tactic Notation "setup_stops" uconstr(pre) constr(n) constr(Ht) constr(Ho) :=
  apply wp_ret; eapply (setup_failed _ _ _ pre);
  [exact Ht|exact Ho|cbn; lia|match goal with |- _ `prefix_of` ?l => by exists (drop n l) end|done].

Lemma setup_snoc c r pre :
  Forall (λ e, setup_call_ok e.1 e.2) pre → setup_call_ok c r →
  Forall (λ e, setup_call_ok e.1 e.2) (pre ++ [(c, r)]).
Proof. intros. apply Forall_app_2; [done|by repeat constructor]. Qed.

Lemma socket_setup_wp iPort iRetFd iFd s :
  wp (socket_setup iPort iRetFd iFd) (setup_result iPort iRetFd s) s.
Proof.
  pose proof (Forall_nil_2 (λ e : event, setup_call_ok e.1 e.2)) as Ho0. unfold socket_setup.
  apply wp_bind, wp_ext. intros r1 s1 _ _ _ Ht1.
  destruct (Z.eqb_spec (x_ret r1) 0) as [H1|H1]; cbn [negb].
  2: { setup_stops (@nil event) 1%nat Ht1 Ho0. }
  pose proof (setup_snoc (X_getaddrinfo (port_text iPort)) r1 _ Ho0 H1) as Ho1.
  apply wp_bind, wp_ext. intros r2 s2 _ _ _ Ht2. rewrite Ht1, <-app_assoc in Ht2.
  destruct (Z.ltb_spec (x_ret r2) 0) as [H2|H2].
  { setup_stops ([_] : list event) 2%nat Ht2 Ho1. }
  pose proof (setup_snoc X_socket r2 _ Ho1 H2) as Ho2.
  apply wp_bind, wp_ext. intros r3 s3 _ _ _ Ht3. rewrite Ht2, <-app_assoc in Ht3.
  destruct (Z.eqb_spec (x_ret r3) (-1)) as [H3|H3].
  { setup_stops ([_; _] : list event) 3%nat Ht3 Ho2. }
  pose proof (setup_snoc (X_setsockopt (x_ret r2)) r3 _ Ho2 H3) as Ho3.
  apply wp_bind, wp_ext. intros r4 s4 _ _ _ Ht4. rewrite Ht3, <-app_assoc in Ht4.
  destruct (Z.ltb_spec (x_ret r4) 0) as [H4|H4].
  { setup_stops ([_; _; _] : list event) 4%nat Ht4 Ho3. }
  pose proof (setup_snoc (X_bind (x_ret r2)) r4 _ Ho3 H4) as Ho4.
  apply wp_bind, wp_ext. intros r5 s5 _ _ _ Ht5. rewrite Ht4, <-app_assoc in Ht5.
  apply wp_bind, wp_ext. intros r6 s6 _ _ _ Ht6. rewrite Ht5, <-app_assoc in Ht6.
  pose proof (setup_snoc X_freeaddrinfo r5 _ Ho4 I) as Ho5.
  destruct (Z.ltb_spec (x_ret r6) 0) as [H6|H6].
  { setup_stops ([_; _; _; _; _] : list event) 6%nat Ht6 Ho5. }
  pose proof (setup_snoc (X_listen (x_ret r2) BACKLOG) r6 _ Ho5 H6) as Ho6.
  apply wp_bind, wp_ext. intros r7 s7 _ _ _ Ht7. rewrite Ht6, <-app_assoc in Ht7.
  destruct (Z.eqb_spec (x_ret r7) (-1)) as [H7|H7].
  { setup_stops ([_; _; _; _; _; _] : list event) 7%nat Ht7 Ho6. }
  pose proof (setup_snoc (X_set_nonblock (x_ret r2)) r7 _ Ho6 H7) as Ho7.
  apply wp_bind; log_step. intros _ s8 _ Ht8. apply wp_ret. eexists. rewrite Ht8.
  split; [exact Ht7|]. split; [done|]. left. by split_and!.
Qed.

(** C33: Setting up the socket: on success exactly the seven calls were made, in order,
    on the descriptor that is returned; on the first call that fails the function stops
    and returns the [errno] of that call, leaves the caller's variable alone, and closes
    nothing. *)
Theorem socket_setup_correct iPort iRetFd iFd s :
  wp (socket_setup iPort iRetFd iFd) (setup_result iPort iRetFd s) s.
Proof. apply socket_setup_wp. Qed.

(** A port between 0 and 65535 reaches the resolver as its decimal text, from which
    the number can be read back; the buffer of six bytes always suffices. *)
Theorem port_text_roundtrip p : 0 ≤ p < 2 ^ 16 → port_text p = dec p ∧ strtol (port_text p) = p.
Proof.
  intros Hp. rewrite port_text_dec by done. split; [done|].
  apply strtol_dec. unfold LONG_MIN, LONG_MAX. lia.
Qed.

(** The resolver reports its errors by its result and need not set [errno]; where it
    left [errno] at zero, a failing set-up is reported as a success although no socket
    was even created. *)
Theorem resolver_error_reported_as_success iPort iRetFd iFd s :
  x_ret (env (m_trace s) (X_getaddrinfo (port_text iPort))) ≠ 0 →
  x_errno (env (m_trace s) (X_getaddrinfo (port_text iPort))) = 0 →
  wp (socket_setup iPort iRetFd iFd) (λ r s', r = (SOCK_EXIT_SUCCESS, iRetFd, iFd) ∧
    ∃ x, m_trace s' = m_trace s ++ [(X_getaddrinfo (port_text iPort), x)]) s.
Proof.
  intros Hr He. apply wp_bind, wp_ext. intros r s1 -> _ _ Ht.
  rewrite (proj2 (Z.eqb_neq _ _) Hr). apply wp_ret. rewrite He. split; [done|by eexists].
Qed.

(** Accepting one client, whatever the counter stands at. *)
Lemma accept_wp ws g j iFd s :
  staffed ws (gWorkerAdmin g) → ws ≠ [] → 0 ≤ j →
  u32 (NextWorker g + 1) mod Z.of_nat (length ws) = j mod Z.of_nat (length ws) →
  x_ret (env (m_trace s) (X_accept iFd)) ≠ -1 →
  ∃ w, ws !! Z.to_nat (j mod Z.of_nat (length ws)) = Some w ∧
  wp (socket_accept_client iFd g) (λ g' s', g' = set_next (j mod Z.of_nat (length ws)) g ∧
    heap_of s' = heap_of s ∧
    let fd := x_ret (env (m_trace s) (X_accept iFd)) in
    ∃ r x, x_ret r = fd ∧ m_trace s' = m_trace s ++
      [(X_accept iFd, r); (X_sendmsg (iMasterIPCfd w) (fd_message stack fd), x)]) s.
Proof.
  intros Hst Hne Hj0 Hj Hacc.
  destruct (lookup_lt_is_Some_2 ws (Z.to_nat (j mod Z.of_nat (length ws)))) as [w Hw].
  { pose proof (Z.mod_pos_bound j (Z.of_nat (length ws))). destruct ws; simpl in *; [done|lia]. }
  exists w. split; [done|]. unfold socket_accept_client.
  apply wp_bind; log_step. intros _ s1 Hh1 Ht1. apply wp_bind, wp_ext. intros r s2 Hr Hh2 _ Ht2.
  rewrite Ht1 in Hr, Ht2. rewrite <-Hr in Hacc |- *. rewrite (proj2 (Z.eqb_neq _ _) Hacc).
  apply wp_bind; log_step. intros _ s3 Hh3 Ht3.
  destruct (route_trace stack ws g j (x_ret r) s3) as (w' & Hw' & Hwp); [done..|].
  rewrite Hw in Hw'. injection Hw' as <-.
  apply wp_bind. eapply wp_mono; [exact Hwp|]. intros [z g'] s4 (Hg & Hh4 & x & Ht4). simpl in Hg. subst g'.
  apply wp_bind. eapply (wp_mono _ (λ _ s', m_trace s' = m_trace s4 ∧ heap_of s' = heap_of s4)).
  { destruct (z =? WORKER_EXIT_SUCCESS); [by apply wp_ret|by log_step]. }
  intros _ s5 [Ht5 Hh5]. apply wp_ret. split_and!; [done|congruence|].
  exists r, x. split; [done|]. by rewrite Ht5, Ht4, Ht3, Ht2, <-app_assoc.
Qed.

(** Nothing was accepted. *)
Lemma accept_failed_wp iFd g s :
  x_ret (env (m_trace s) (X_accept iFd)) = -1 →
  wp (socket_accept_client iFd g) (λ g' s', g' = g ∧ heap_of s' = heap_of s ∧
    ∃ r, x_ret r = -1 ∧ m_trace s' = m_trace s ++ [(X_accept iFd, r)]) s.
Proof.
  intros Hr. unfold socket_accept_client. apply wp_bind; log_step. intros _ s1 Hh1 Ht1.
  apply wp_bind, wp_ext. intros r s2 Hr2 Hh2 _ Ht2. rewrite Ht1 in Hr2, Ht2. rewrite <-Hr2 in Hr.
  rewrite Hr. cbn [Z.eqb Pos.eqb]. apply wp_bind; log_step. intros _ s3 Hh3 Ht3. apply wp_ret.
  split_and!; [done|congruence|]. exists r. by rewrite Ht3.
Qed.

(** An accepted client is handed to the next worker in turn by one message; the
    master's own descriptor of the connection is not closed, neither then nor when the
    message could not be sent, so each client costs the master one descriptor. *)
Theorem accepted_fd_stays_open ws g iFd s :
  staffed ws (gWorkerAdmin g) → ws ≠ [] → NextWorker g < 2 ^ 32 - 1 → 0 ≤ NextWorker g →
  x_ret (env (m_trace s) (X_accept iFd)) ≠ -1 →
  wp (socket_accept_client iFd g) (λ g' s', ∃ new w,
    let fd := x_ret (env (m_trace s) (X_accept iFd)) in
    m_trace s' = m_trace s ++ new ∧ fds_opened new = [fd] ∧ fds_closed new = [] ∧
    ws !! Z.to_nat (NextWorker g') = Some w ∧
    NextWorker g' = (NextWorker g + 1) mod Z.of_nat (length ws) ∧
    sends new = [(iMasterIPCfd w, fd_message stack fd)]) s.
Proof.
  intros Hst Hne Hn Hn0 Hacc.
  assert (u32 (NextWorker g + 1) = NextWorker g + 1) as Hu by (apply uwrap_small; lia).
  destruct (accept_wp ws g (NextWorker g + 1) iFd s) as (w & Hw & Hwp); [done|done|lia|by rewrite Hu|done|].
  eapply wp_mono; [exact Hwp|]. intros g' s' (-> & _ & r & x & Hr & Ht). eexists _, w. split; [exact Ht|].
  split_and!; try done. cbn. rewrite Hr. by rewrite (proj2 (Z.eqb_neq _ _) Hacc).
Qed.

End socket.
