(* ===== verification/Exit.v ===== *)
(** * Ending a process: [src/src/cew_exit.c]

    The clean-up that the master and the workers share, and the two ways to ask for it.
    [globals] are the static variables of the components that the clean-up touches. *)

From S2P Require Import Prelude CString Machine SdsModel Settings Worker Socket.
Local Open Scope Z_scope.

Record globals : Type := Globals {
  g_iFd : Z;                      (** [iFd] of [cew_socket.c] *)
  g_workers : worker_state;       (** the static variables of [cew_worker.c] *)
  g_settings : tsSSettings;       (** [sCurrSSettings] of [cew_settings.c] *)
}.

Definition globals_zero : globals := Globals 0 worker_zero settings_zero.

Section exit.
Context `{SL : SdsLib, LA : LoggerAPI, E : Env, EV : EvLib}.

Definition exit_cleanup (g : globals) : M globals :=
  '(_, fd) ← socket_close (g_iFd g);
  '(_, ws) ← worker_destroy (g_workers g);
  '(_, st) ← settings_destroy (g_settings g);
  _ ← logger_destroy;
  mret (Globals fd ws st).

Definition bye : bytes := lit "Bye :-)" ++ ["010"%char].

(** [exit] does not return, whatever the caller expects. *)
Definition do_exit {A} (ciExitval : Z) (g : globals) : M A :=
  me ← ext X_getpid;
  _ ← log_info "Goodbye pid %d!" [AInt (x_ret me)];
  _ ← exit_cleanup g;
  _ ← ext (X_printf bye);
  st_exit ciExitval.

(** The format asks for one argument more than the call gives: undefined when the message is
    formatted. *)
Definition do_exit_with_errno {A} (ciErrno : Z) (g : globals) : M A :=
  me ← ext X_getpid;
  e ← ext (X_strerror ciErrno);
  _ ← log_error "Exit pid %d with %d: %s. Line %d.
"
        [AInt (x_ret me); AInt ciErrno; AStr (region (x_data e))];
  do_exit ciErrno g.

End exit.

(** ** Theorems *)

(** What the globals own on the heap: the workers' file names and the log file name. *)
Definition owns (g : globals) (cfg : config) (xs ys : list (sds * sds_obj)) : Prop :=
  own_names (psWorker (gWorkerAdmin (g_workers g))) xs ∧ represents (g_settings g) cfg ys.

(** The process is the master: no entry of the table is its own. *)
Definition is_master (g : globals) : Prop :=
  ∀ w, Some w ∈ psWorker (gWorkerAdmin (g_workers g)) → iMe w = 0.

Definition socket_close_calls (fd : Z) : list ext_call := if 0 <? fd then [X_close fd] else [].

Section exit_theorems.
Context `{SL : SdsLib, SS : !SdsSpec SL, LA : LoggerAPI, E : Env, EV : EvLib}.
Implicit Types (s : machine) (ps xs ys : list (sds * sds_obj)).

Lemma socket_close_wp fd s :
  wp (socket_close fd) (λ r s', r = (0, if 0 <? fd then 0 else fd) ∧ heap_of s' = heap_of s ∧
    did (socket_close_calls fd) s s') s.
Proof.
  unfold socket_close, socket_close_calls. destruct (0 <? fd).
  - apply wp_bind, wp_bind, wp_ext. intros r s1 _ Hh1 _ Ht1. apply wp_ret.
    apply wp_bind; log_step. intros _ s2 Hh2 Ht2. apply wp_ret.
    split_and!; [done|congruence|]. exists [(X_close fd, r)]. by rewrite Ht2, Ht1.
  - apply wp_bind, wp_ret, wp_bind; log_step. intros _ s2 Hh2 Ht2. apply wp_ret.
    split_and!; [done|done|by apply did_refl].
Qed.

Lemma exit_cleanup_wp g cfg xs ys ps F s :
  is_master g → owns g cfg xs ys → heap_is (xs ++ ys ++ ps) F (heap_of s) →
  wp (exit_cleanup g) (λ g' s', heap_is ps F (heap_of s') ∧
    did (socket_close_calls (g_iFd g) ++
         teardown_all 0 (psWorker (gWorkerAdmin (g_workers g))) xs) s s' ∧
    g_settings g' = settings_zero) s.
Proof.
  intros Hm [Hown Hrep] Hheap. unfold exit_cleanup.
  apply wp_bind. eapply wp_mono; [apply socket_close_wp|]. intros [z fd] s1 (_ & Hh1 & Hd1).
  rewrite <-Hh1 in Hheap. apply wp_bind.
  eapply wp_mono; [by apply (master_destroy_wp _ xs (ys ++ ps) F)|].
  intros [z2 ws] s2 (Hheap2 & Hd2). apply wp_bind.
  eapply wp_mono; [by apply (settings_destroy_wp _ cfg ys ps F)|].
  intros [z3 st] s3 ([= -> ->] & Hheap3 & _ & x & Ht3). apply wp_bind, wp_upd_log.
  intros _ s4 Hh4 Ht4. apply wp_ret. split_and!; [by rewrite Hh4| |done].
  rewrite <-(app_nil_r (teardown_all _ _ _)).
  eapply did_trans; [exact Hd1|]. eapply did_trans; [exact Hd2|].
  exists [(X_getpid, x)]. by rewrite Ht4, Ht3.
Qed.

(** How the master ends, started at [s]. *)
Definition ended (g : globals) xs ps F s s' : Prop :=
  heap_is ps F (heap_of s') ∧
  did (socket_close_calls (g_iFd g) ++
       teardown_all 0 (psWorker (gWorkerAdmin (g_workers g))) xs) s s' ∧
  ∃ x, last (m_trace s') = Some (X_printf bye, x).

Lemma do_exit_exits (A : Type) v g cfg xs ys ps F s s0 :
  is_master g → owns g cfg xs ys → heap_is (xs ++ ys ++ ps) F (heap_of s) →
  heap_of s0 = heap_of s → did [] s s0 →
  exits (do_exit (A := A) v g) v (ended g xs ps F s) s0.
Proof.
  intros Hm Hown Hheap Hh0 Hd0. rewrite <-Hh0 in Hheap. unfold do_exit.
  apply exits_bind, wp_ext. intros r s1 _ Hh1 _ Ht1. apply exits_bind; log_step. intros _ s2 Hh2 Ht2.
  rewrite <-Hh1, <-Hh2 in Hheap. apply exits_bind.
  eapply wp_mono; [by apply (exit_cleanup_wp g cfg xs ys ps F)|].
  intros g' s3 (Hheap3 & Hd3 & _). apply exits_bind, wp_ext. intros x s4 _ Hh4 _ Ht4.
  apply exits_exit. split_and!.
  - by rewrite Hh4.
  - set (cs := socket_close_calls _ ++ _) in *. apply (did_trans [] cs s s0); [done|].
    apply (did_trans [] cs s0 s2); [exists [(X_getpid, r)]; by rewrite Ht2, Ht1|].
    rewrite <-(app_nil_r cs). eapply did_trans; [exact Hd3|].
    exists [(X_printf bye, x)]. by rewrite Ht4.
  - exists x. by rewrite Ht4, last_snoc.
Qed.

(** The message of [do_exit_with_errno] lacks an argument: when it is formatted the call is
    undefined; when the logger ignores it the process ends as with [do_exit]. *)
Lemma do_exit_errno_exits (A : Type) v g cfg xs ys ps F s :
  api_formats eERROR (m_log s) = false →
  is_master g → owns g cfg xs ys → heap_is (xs ++ ys ++ ps) F (heap_of s) →
  exits (do_exit_with_errno (A := A) v g) v (ended g xs ps F s) s.
Proof.
  intros Hlog Hm Hown Hheap. unfold do_exit_with_errno. apply exits_bind, wp_ext. intros r s1 _ Hh1 Hl1 Ht1.
  apply exits_bind, wp_ext. intros r2 s2 _ Hh2 Hl2 Ht2.
  apply exits_bind, wp_log_ignored; [congruence|]. intros _ s3 Hh3 Ht3.
  eapply do_exit_exits; [done|done|done|congruence|].
  exists [(X_getpid, r); (X_strerror v, r2)]. by rewrite Ht3, Ht2, Ht1, <-app_assoc.
Qed.

Lemma do_exit_errno_fails (A : Type) v g s :
  api_formats eERROR (m_log s) = true → fails (do_exit_with_errno (A := A) v g) Unspecified s.
Proof.
  intros Hlog. unfold do_exit_with_errno. apply fails_bind, wp_ext. intros r s1 _ _ Hl1 _.
  apply fails_bind, wp_ext. intros r2 s2 _ _ Hl2 _. apply fails_bind_l, log_undefined; [congruence|].
  vm_compute. reflexivity.
Qed.

(** C24: Ending the master: [do_exit] never returns and ends the process with the given
    status, after closing the listening socket, releasing every worker in the order of
    the table, and releasing the settings; on the heap nothing is left but what was
    there besides what the components own.  [do_exit_with_errno] does the same with the
    error as its status while the logger ignores errors (it is not initialised, shutting
    down, or full); but when the logger formats its message, which has four conversions and
    three arguments, it is undefined. *)
Theorem do_exit_correct g cfg xs ys ps F s v (A : Type) :
  is_master g → owns g cfg xs ys → heap_is (xs ++ ys ++ ps) F (heap_of s) →
  exits (do_exit (A := A) v g) v (ended g xs ps F s) s ∧
  if api_formats eERROR (m_log s) then fails (do_exit_with_errno (A := A) v g) Unspecified s
  else exits (do_exit_with_errno (A := A) v g) v (ended g xs ps F s) s.
Proof.
  intros Hm Hown Hheap. split; [eapply do_exit_exits; [done..|by apply did_refl]|].
  destruct (api_formats eERROR (m_log s)) eqn:Hlog; [by apply do_exit_errno_fails|].
  by eapply do_exit_errno_exits.
Qed.

End exit_theorems.
