(* ===== verification/Client.v ===== *)
(** * Clients of a worker: [src/src/cew_client.c]

    Registering a connection with the event loop, serving it when data arrives, and
    taking it down after the answer, a disconnect or a timeout.  The memory of the
    registered clients is a finite map from addresses; a watcher that is started is
    known to libev by the address of its client. *)

From S2P Require Import Prelude CString Machine SdsModel Http.
Local Open Scope Z_scope.

(** [struct sClientEv]: the client, and whether its two watchers are active. *)
Record tsClientEv : Type := ClientEv {
  sClient : tsClientStruct;
  io : bool;
  timer : bool;
}.

Abbreviation clients := (gmap positive tsClientEv).

(** The size of the scratch buffer of [client_deregister]. *)
Definition TRASH_SIZE : Z := 100.

(** [recv] into the buffer: what arrived replaces the beginning. *)
Definition fill_recv (data buff : bytes) : bytes :=
  take (length buff) (data ++ drop (length data) buff).

Section client.
Context `{SL : SdsLib, LA : LoggerAPI, E : Env}.

(** [while (read(...));]: until nothing more is there to read. *)
Fixpoint drain_socket (fuel : nat) (fd : Z) : M unit :=
  match fuel with
  | O => st_nofuel
  | S fuel' =>
    r ← ext (X_read fd TRASH_SIZE);
    if x_ret r =? 0 then mret tt else drain_socket fuel' fd
  end.

Definition get_client (p : positive) (cs : clients) : M tsClientEv :=
  match cs !! p with Some e => mret e | None => st_undef UseAfterFree end.

Definition client_deregister (fuel : nat) (p : positive) (cs : clients) : M (Z * clients) :=
  e ← get_client p cs;
  let c := sClient e in
  _ ← ext (X_ev_timer_stop (Zpos p));
  _ ← ext (X_ev_io_stop (Zpos p));
  _ ← (if iSockfd c =? 0 then mret tt else
       _ ← ext (X_shutdown (iSockfd c));
       _ ← drain_socket fuel (iSockfd c);
       _ ← ext (X_close (iSockfd c));
       mret tt);
  _ ← match acSendBuff c with Some l => sds_free l | None => mret tt end;
  _ ← log_debug "Deregistered client %d." [AInt (iId c)];
  mret (EXIT_SUCCESS, delete p cs).

Definition client_callback_timeout (fuel : nat) (p : positive) (cs : clients) : M clients :=
  e ← get_client p cs;
  _ ← log_info "Client timeout %d." [AInt (iId (sClient e))];
  '(_, cs) ← client_deregister fuel p cs;
  mret cs.

Definition client_callback_serve (fuel : nat) (p : positive) (cs : clients) : M clients :=
  e ← get_client p cs;
  let c := sClient e in
  r ← ext (X_recv (iSockfd c) RECV_BUFF_SIZE);
  let c := ClientStruct (iId c) (iSockfd c) (cIP c) (acSendBuff c)
             (if 0 <? x_ret r then fill_recv (x_data r) (acRecvBuff c) else acRecvBuff c) in
  let cs := <[p := ClientEv c (io e) (timer e)]> cs in
  if x_ret r <? 0 then
    _ ← log_error "Receive error on client %d." [AInt (iId c)];
    mret cs
  else if x_ret r =? 0 then
    _ ← log_debug "Disconnecting client %d" [AInt (iId c)];
    '(_, cs) ← client_deregister fuel p cs;
    mret cs
  else
    _ ← log_debug "Received data %s" [AStr (acRecvBuff c)];
    _ ← ext (X_ev_timer_again (Zpos p));
    '(_, c) ← http_handle_client_request c;
    let cs := <[p := ClientEv c (io e) (timer e)]> cs in
    '(_, cs) ← client_deregister fuel p cs;
    mret cs.

(** The structure after [memset]; the number and address are filled in afterwards. *)
Definition new_client (fd id : Z) (ip : bytes) : tsClientStruct :=
  ClientStruct id fd ip None (replicate (Z.to_nat RECV_BUFF_SIZE) NUL).

Definition client_register_ev (iSockfd : Z) (cs : clients) : M (Z * clients) :=
  m ← ext X_malloc;
  if x_ret m =? 0 then st_undef NullDeref else
  let p := fresh (dom cs) in
  r ← ext X_random;
  let c := new_client iSockfd (i32 (x_ret r)) [] in
  let cs := <[p := ClientEv c false false]> cs in
  r ← ext (X_getpeername iSockfd);
  if x_ret r =? -1 then mret (EXIT_FAILURE, cs) else
  r ← ext X_inet_ntop;
  if x_ret r =? 0 then mret (EXIT_FAILURE, cs) else
  let c := new_client iSockfd (iId c) (x_data r) in
  _ ← log_debug "Added callback for client %d from %s " [AInt (iId c); AStr (region (cIP c))];
  _ ← ext (X_ev_timer_start (Zpos p));
  _ ← ext (X_ev_io_start (Zpos p));
  mret (EXIT_SUCCESS, <[p := ClientEv c true true]> cs).

End client.

(** ** The receive buffer *)

Definition zeroed : bytes := replicate (Z.to_nat RECV_BUFF_SIZE) NUL.

Lemma fill_zeroed data :
  Z.of_nat (length data) ≤ RECV_BUFF_SIZE →
  fill_recv data zeroed = data ++ replicate (Z.to_nat RECV_BUFF_SIZE - length data) NUL.
Proof.
  intros Hd. unfold fill_recv, zeroed. rewrite drop_replicate. apply take_ge.
  rewrite length_app, !length_replicate. lia.
Qed.

(** Data shorter than the buffer is followed by a zero. *)
Lemma fill_terminated data :
  Z.of_nat (length data) < RECV_BUFF_SIZE → cstr (fill_recv data zeroed) = Some (cprefix data).
Proof.
  intros Hd. rewrite fill_zeroed by lia.
  destruct (Z.to_nat RECV_BUFF_SIZE - length data)%nat as [|n] eqn:Hn; [lia|].
  cbn [replicate]. apply cstr_app_nul.
Qed.

(** A full buffer without a zero is not a string. *)
Lemma fill_full data :
  Z.of_nat (length data) = RECV_BUFF_SIZE → NUL ∉ data → cstr (fill_recv data zeroed) = None.
Proof.
  intros Hd Hn. rewrite fill_zeroed by lia.
  replace (Z.to_nat RECV_BUFF_SIZE - length data)%nat with 0%nat by lia.
  rewrite app_nil_r. by apply cstr_None.
Qed.

(** ** Taking a client down *)

(** Reading [fd] from the history [tr] on returns 0 within [n] calls. *)
Fixpoint reads_end `{Env} (n : nat) (fd : Z) (tr : list event) : Prop :=
  match n with
  | O => False
  | S n' => let r := env tr (X_read fd TRASH_SIZE) in
            x_ret r = 0 ∨ reads_end n' fd (tr ++ [(X_read fd TRASH_SIZE, r)])
  end.

(** The contract of the calls that fill a buffer: none stores more than it was asked for. *)
Record kernel_ok `{Env} : Prop := {
  ko_files : file_calls_ok;
  ko_recv tr fd : Z.of_nat (length (x_data (env tr (X_recv fd RECV_BUFF_SIZE)))) ≤ RECV_BUFF_SIZE;
}.

(** The reads of the loop. *)
Definition read_events (fd : Z) (rs : list ext_ret) : list event :=
  (λ r, (X_read fd TRASH_SIZE, r)) <$> rs.

Section client_theorems.
Context `{SL : SdsLib, SS : !SdsSpec SL, LA : LoggerAPI, E : Env}.
Implicit Types (s : machine) (cs : clients) (p : positive).

(** The loop ends as soon as a read returns 0. *)
Lemma drain_wpf fuel fd s :
  wpf (drain_socket fuel fd) (λ _ s', heap_of s' = heap_of s ∧
    ∃ rs, m_trace s' = m_trace s ++ read_events fd rs)
    (λ f, f = Endless ∧ ¬ reads_end fuel fd (m_trace s)) s.
Proof.
  revert s. induction fuel as [|fuel IH]; intros s; [by split; [|intros []]|]. cbn [drain_socket].
  apply wpf_bind_wp, wp_ext. intros r s1 Hr1 Hh1 _ Ht1. cbn [reads_end]. rewrite <-Hr1.
  destruct (Z.eqb_spec (x_ret r) 0) as [Hz|Hz].
  - apply wpf_wp, wp_ret. split; [done|]. by exists [r].
  - eapply wpf_mono; [by apply IH| |].
    + intros _ s2 (Hh2 & rs & Ht2). split; [congruence|].
      exists (r :: rs). by rewrite Ht2, Ht1, <-app_assoc.
    + intros f [-> Hf]. split; [done|]. rewrite Ht1 in Hf. by intros [?|?].
Qed.

(** The calls of a deregistration of the client at [p] with descriptor [fd]. *)
Definition deregistered (p : positive) (fd : Z) (new : list event) : Prop :=
  ∃ r1 r2 r3 rs r4, new = [(X_ev_timer_stop (Zpos p), r1); (X_ev_io_stop (Zpos p), r2);
    (X_shutdown fd, r3)] ++ read_events fd rs ++ [(X_close fd, r4)].

(** Some time after [tr] the socket [fd] cannot be read to its end. *)
Definition never_drained (fuel : nat) (fd : Z) (tr : list event) : Prop :=
  ∃ new, ¬ reads_end fuel fd (tr ++ new).

Lemma never_drained_later fuel fd tr new : never_drained fuel fd (tr ++ new) → never_drained fuel fd tr.
Proof. intros [new' H]. exists (new ++ new'). by rewrite (assoc_L (++)). Qed.

Lemma client_deregister_wpf fuel p cs c a b s :
  cs !! p = Some (ClientEv c a b) → iSockfd c ≠ 0 → acSendBuff c = None →
  wpf (client_deregister fuel p cs) (λ r s', r = (EXIT_SUCCESS, delete p cs) ∧
    heap_of s' = heap_of s ∧
    ∃ new, m_trace s' = m_trace s ++ new ∧ deregistered p (iSockfd c) new)
    (λ f, f = Endless ∧ never_drained fuel (iSockfd c) (m_trace s)) s.
Proof.
  intros Hp Hfd Hsend. unfold client_deregister, get_client. rewrite Hp.
  apply wpf_bind_wp, wp_ret. cbn [sClient]. rewrite (proj2 (Z.eqb_neq _ _) Hfd), Hsend.
  apply wpf_bind_wp, wp_ext. intros r1 s1 _ Hh1 _ Ht1. apply wpf_bind_wp, wp_ext. intros r2 s2 _ Hh2 _ Ht2.
  apply wpf_bind, wpf_bind_wp, wp_ext. intros r3 s3 _ Hh3 _ Ht3.
  apply wpf_bind. eapply wpf_mono; [apply drain_wpf| |].
  2:{ intros f [-> Hf]. split; [done|]. eexists. rewrite Ht3, Ht2, Ht1, <-!app_assoc in Hf. exact Hf. }
  intros _ s4 (Hh4 & rs & Ht4). apply wpf_wp.
  apply wp_bind, wp_ext. intros r5 s5 _ Hh5 _ Ht5. apply wp_ret, wpf_wp, wp_bind, wp_ret.
  apply wp_bind; log_step. intros _ s6 Hh6 Ht6. apply wp_ret.
  split_and!; [done|congruence|]. eexists. split; [|by exists r1, r2, r3, rs, r5].
  by rewrite Ht6, Ht5, Ht4, Ht3, Ht2, Ht1, <-!app_assoc.
Qed.

(** Why a callback that answers a request may fail: the data fills the whole buffer and has
    no zero; the append of the media type moves its string; the socket cannot be drained. *)
Definition serve_fails (fuel : nat) (fd : Z) (F : gmap sds sds_obj) (data : bytes) (tr : list event)
    (f : failure) : Prop :=
  (f = Bad OutOfBounds ∧ Z.of_nat (length data) = RECV_BUFF_SIZE ∧ NUL ∉ data) ∨
  ((∃ u, f = Bad u) ∧ type_moved F (cprefix data)) ∨
  (f = Endless ∧ never_drained fuel fd tr).

(** A received text is a string, or fills the buffer. *)
Lemma fill_cases data :
  Z.of_nat (length data) ≤ RECV_BUFF_SIZE →
  cstr (fill_recv data zeroed) = Some (cprefix data) ∨
  (cstr (fill_recv data zeroed) = None ∧ Z.of_nat (length data) = RECV_BUFF_SIZE ∧ NUL ∉ data).
Proof.
  intros Hd. destruct (decide (Z.of_nat (length data) = RECV_BUFF_SIZE)) as [Hf|Hf];
    [|left; apply fill_terminated; lia].
  destruct (decide (NUL ∈ data)) as [Hn|Hn]; [left|right; by rewrite fill_full].
  rewrite fill_zeroed by done. apply list_elem_of_split in Hn as (d1 & d2 & ->).
  rewrite <-app_assoc. cbn [app]. rewrite cstr_app_nul. f_equal. clear.
  induction d1 as [|x d1 IH]; cbn; [by rewrite decide_True|]. case_decide; [done|]. by rewrite IH.
Qed.

(** The request in a buffer that was filled by [data]. *)
Lemma request_or_fails fuel c data s fd tr :
  file_calls_ok → Z.of_nat (length data) ≤ RECV_BUFF_SIZE → acRecvBuff c = fill_recv data zeroed →
  wpf (http_handle_client_request c) (λ r s', ∃ evs resp rs,
    r = (EXIT_SUCCESS, ClientStruct (iId c) (iSockfd c) (cIP c) None (acRecvBuff c)) ∧
    handled (cprefix data) evs resp ∧
    m_trace s' = m_trace s ++ evs ++ [(X_send (iSockfd c) resp, rs)] ∧
    heap_of s' = heap_of s) (serve_fails fuel fd (heap_of s) data tr) s.
Proof.
  intros Hfile Hlen Hbuf. destruct (fill_cases data Hlen) as [Hstr|(Hstr & Hfull & Hnul)].
  - eapply wpf_mono; [apply (handle_wpf c (cprefix data)); [done|by rewrite Hbuf]|done|]. intros f [Hu Hmv].
    right. by left.
  - eapply wpf_mono; [apply (handle_unterminated c (cprefix data)); by rewrite Hbuf|done|]. intros f ->. by left.
Qed.

Lemma serve_wpf fuel p cs c s :
  file_calls_ok → cs !! p = Some (ClientEv c true true) → iSockfd c ≠ 0 → acSendBuff c = None →
  acRecvBuff c = zeroed →
  let got := env (m_trace s) (X_recv (iSockfd c) RECV_BUFF_SIZE) in
  0 < x_ret got → Z.of_nat (length (x_data got)) ≤ RECV_BUFF_SIZE →
  wpf (client_callback_serve fuel p cs) (λ cs' s',
    cs' = delete p cs ∧ heap_of s' = heap_of s ∧
    ∃ r1 evs resp r2 down,
      handled (cprefix (x_data got)) evs resp ∧ deregistered p (iSockfd c) down ∧
      m_trace s' = m_trace s ++
        [(X_recv (iSockfd c) RECV_BUFF_SIZE, got); (X_ev_timer_again (Zpos p), r1)] ++
        evs ++ [(X_send (iSockfd c) resp, r2)] ++ down)
    (serve_fails fuel (iSockfd c) (heap_of s) (x_data got) (m_trace s)) s.
Proof.
  intros Hfile Hp Hfd Hsend Hbuf got Hret Hlen.
  unfold client_callback_serve, get_client. rewrite Hp. apply wpf_bind_wp, wp_ret. cbn [sClient io timer].
  apply wpf_bind_wp, wp_ext. intros r s1 -> Hh1 _ Ht1. fold got. fold got in Ht1.
  rewrite (proj2 (Z.ltb_lt _ _) Hret), (proj2 (Z.ltb_ge _ _)), (proj2 (Z.eqb_neq _ _)) by lia.
  rewrite Hbuf. apply wpf_bind_wp; log_step. intros _ s2 Hh2 Ht2.
  apply wpf_bind_wp, wp_ext. intros r1 s3 _ Hh3 _ Ht3.
  set (c1 := ClientStruct _ _ _ _ _). apply wpf_bind.
  eapply wpf_mono; [by apply (request_or_fails fuel c1 (x_data got) s3 (iSockfd c) (m_trace s))| |].
  2:{ rewrite <-Hh1, <-Hh2, <-Hh3. done. }
  intros ? s4 (evs & resp & r2 & -> & Hhd & Ht4 & Hh4). apply wpf_bind.
  eapply wpf_mono; [eapply client_deregister_wpf; [apply lookup_insert_eq|done|done]| |].
  - intros [z cs'] s5 ([= _ ->] & Hh5 & down & Ht5 & Hdown). apply wpf_wp, wp_ret.
    split_and!; [by rewrite !insert_insert_eq, delete_insert_eq|congruence|].
    exists r1, evs, resp, r2, down. split_and!; [done|done|].
    by rewrite Ht5, Ht4, Ht3, Ht2, Ht1, <-!app_assoc.
  - intros f [-> Hf]. right. right. split; [done|]. cbn in Hf.
    rewrite Ht4, Ht3, Ht2, Ht1, <-!app_assoc in Hf. by eapply never_drained_later.
Qed.

(** The other outcomes of a readable client: an error keeps it registered with its
    watchers and its buffer as they were, an end of the connection takes it down without
    an answer. *)
Lemma client_not_served fuel p cs c s :
  cs !! p = Some (ClientEv c true true) →
  iSockfd c ≠ 0 → acSendBuff c = None →
  x_ret (env (m_trace s) (X_recv (iSockfd c) RECV_BUFF_SIZE)) ≤ 0 →
  wpf (client_callback_serve fuel p cs) (λ cs' s', heap_of s' = heap_of s ∧
    ∃ r new, r = env (m_trace s) (X_recv (iSockfd c) RECV_BUFF_SIZE) ∧
      m_trace s' = m_trace s ++ (X_recv (iSockfd c) RECV_BUFF_SIZE, r) :: new ∧
      if x_ret r <? 0 then cs' = cs ∧ new = []
      else cs' = delete p cs ∧ deregistered p (iSockfd c) new)
    (λ f, f = Endless ∧ never_drained fuel (iSockfd c) (m_trace s)) s.
Proof.
  intros Hp Hfd Hsend Hret.
  unfold client_callback_serve, get_client. rewrite Hp. apply wpf_bind_wp, wp_ret. cbn [sClient io timer].
  apply wpf_bind_wp, wp_ext. intros r s1 Hr Hh1 _ Ht1. rewrite <-Hr in Hret.
  rewrite (proj2 (Z.ltb_ge 0 (x_ret r)) Hret). destruct c as [id fd ip snd rcv]; cbn in *.
  rewrite insert_id by done. destruct (Z.ltb_spec (x_ret r) 0) as [Hz|Hz].
  - apply wpf_wp, wp_bind; log_step. intros _ s2 Hh2 Ht2. apply wp_ret. split; [congruence|].
    exists r, []. by rewrite Ht2, Ht1, (proj2 (Z.ltb_lt (x_ret r) 0) Hz).
  - rewrite (proj2 (Z.eqb_eq (x_ret r) 0)) by lia. apply wpf_bind_wp; log_step. intros _ s2 Hh2 Ht2. apply wpf_bind.
    eapply wpf_mono; [eapply client_deregister_wpf; done| |].
    + intros [z cs'] s3 ([= _ ->] & Hh3 & down & Ht3 & Hdown). apply wpf_wp, wp_ret. split; [congruence|].
      exists r, down. rewrite (proj2 (Z.ltb_ge (x_ret r) 0) Hz). cbn in Hdown.
      split; [done|]. split; [by rewrite Ht3, Ht2, Ht1, <-app_assoc|done].
    + intros f [-> Hf]. split; [done|]. cbn in Hf. rewrite Ht2, Ht1 in Hf. by eapply never_drained_later.
Qed.

(** C39: A request that fills the whole receive buffer without a zero in it is read
    beyond the end of the buffer. *)
Theorem full_buffer_overread fuel p cs c s :
  cs !! p = Some (ClientEv c true true) → acRecvBuff c = zeroed →
  let got := env (m_trace s) (X_recv (iSockfd c) RECV_BUFF_SIZE) in
  0 < x_ret got → Z.of_nat (length (x_data got)) = RECV_BUFF_SIZE → NUL ∉ x_data got →
  (∀ tr, x_ret (env tr X_regcomp) = 0) →
  fails (client_callback_serve fuel p cs) OutOfBounds s.
Proof.
  intros Hp Hbuf got Hret Hlen Hnul Hreg.
  unfold client_callback_serve, get_client. rewrite Hp. apply fails_bind, wp_ret. cbn [sClient io timer].
  apply fails_bind, wp_ext. intros r s1 -> Hh1 _ Ht1. fold got.
  rewrite (proj2 (Z.ltb_lt _ _) Hret), (proj2 (Z.ltb_ge _ _)), (proj2 (Z.eqb_neq _ _)) by lia.
  rewrite Hbuf. apply fails_bind; log_step. intros _ s2 Hh2 Ht2.
  apply fails_bind, wp_ext. intros r1 s3 _ Hh3 _ Ht3.
  apply fails_bind_l. unfold http_handle_client_request.
  assert (heap_is [] (heap_of s3) (heap_of s3)) as Hheap by done.
  apply fails_bind. eapply wp_sds_empty; [exact Hheap|]. intros l sp s4 Hheap4 _ _.
  apply fails_bind. eapply wp_sds_empty; [exact Hheap4|]. intros l2 sp2 s5 _ _ _.
  apply fails_bind_l. unfold http_parse_request. apply fails_bind, wp_ext. intros rc s6 -> _ _ _.
  rewrite Hreg. cbn [Z.eqb acRecvBuff]. rewrite fill_full by done. by eexists.
Qed.

(** Taking a client down never ends while reading from its socket keeps failing:
    a result of -1 is not 0, so the loop goes on for any number of rounds. *)
Theorem deregister_diverges fuel p cs c a b s :
  cs !! p = Some (ClientEv c a b) → iSockfd c ≠ 0 →
  (∀ tr, x_ret (env tr (X_read (iSockfd c) TRASH_SIZE)) = -1) →
  (client_deregister fuel p cs s).1 = NoFuel.
Proof.
  intros Hp Hfd Hread.
  assert (∀ n s0, (drain_socket n (iSockfd c) s0).1 = NoFuel) as Hdrain.
  { induction n as [|n IH]; intros s0; [done|]. cbn [drain_socket]. unfold mbind, ST_bind, ext.
    rewrite Hread. cbn. apply IH. }
  unfold client_deregister, get_client, mbind, ST_bind. rewrite Hp. cbn.
  rewrite (proj2 (Z.eqb_neq _ _) Hfd). cbn.
  match goal with |- context [drain_socket fuel (iSockfd c) ?t] =>
    specialize (Hdrain fuel t); destruct (drain_socket fuel (iSockfd c) t) as [[] ?] end; done.
Qed.

(** The calls of a registration: none opens, closes, reads or writes a descriptor. *)
Definition registers (c : ext_call) : Prop :=
  match c with
  | X_malloc | X_random | X_getpeername _ | X_inet_ntop | X_ev_timer_start _ | X_ev_io_start _ => True
  | _ => False
  end.

(** The address of a connected client can always be found. *)
Definition knows_peers : Prop := ∀ tr fd,
  x_ret (env tr (X_getpeername fd)) ≠ -1 ∧ x_ret (env tr X_inet_ntop) ≠ 0.

(** Registering a connection: on success there is one more client, at a new address, with
    the given descriptor, a zeroed buffer, and both its watchers started; on either failure,
    which is one of finding the address of the peer, the memory stays allocated without any
    watcher to release it, and the descriptor stays open. *)
Lemma client_register_wp fd cs s :
  x_ret (env (m_trace s) X_malloc) ≠ 0 →
  wp (client_register_ev fd cs) (λ r s', heap_of s' = heap_of s ∧
    ∃ p id ip new, cs !! p = None ∧ m_trace s' = m_trace s ++ new ∧ Forall registers new.*1 ∧
      let on := bool_decide (r.1 = EXIT_SUCCESS) in
      (r.1 = EXIT_SUCCESS ∨ r.1 = EXIT_FAILURE) ∧
      r.2 = <[p := ClientEv (new_client fd id ip) on on]> cs ∧
      (on = true ↔ ∃ x, (X_ev_io_start (Zpos p), x) ∈ new) ∧ (knows_peers → on = true)) s.
Proof.
  intros Hm. unfold client_register_ev.
  apply wp_bind, wp_ext. intros r0 s0 -> Hh0 _ Ht0. rewrite (proj2 (Z.eqb_neq _ _) Hm).
  set (p := fresh (dom cs)). assert (cs !! p = None) as Hp by (apply not_elem_of_dom, is_fresh).
  apply wp_bind, wp_ext. intros r1 s1 _ Hh1 _ Ht1. apply wp_bind, wp_ext. intros r2 s2 Hr2 Hh2 _ Ht2.
  destruct (Z.eqb_spec (x_ret r2) (-1)) as [Hx2|_].
  { apply wp_ret. split; [congruence|]. eexists p, (i32 (x_ret r1)), [], _.
    rewrite Ht2, Ht1, Ht0, <-!app_assoc. split_and!; try done; [by repeat constructor|by right| |].
    - rewrite bool_decide_false by done. split; [done|]. intros [x Hx]. set_solver.
    - intros Hk. subst r2. by destruct (Hk (m_trace s1) fd) as [? _]. }
  apply wp_bind, wp_ext. intros r3 s3 Hr3 Hh3 _ Ht3. destruct (Z.eqb_spec (x_ret r3) 0) as [Hx3|_].
  { apply wp_ret. split; [congruence|]. eexists p, (i32 (x_ret r1)), [], _.
    rewrite Ht3, Ht2, Ht1, Ht0, <-!app_assoc. split_and!; try done; [by repeat constructor|by right| |].
    - rewrite bool_decide_false by done. split; [done|]. intros [x Hx]. set_solver.
    - intros Hk. subst r3. by destruct (Hk (m_trace s2) fd) as [_ ?]. }
  apply wp_bind; log_step. intros _ s4 Hh4 Ht4. apply wp_bind, wp_ext. intros r5 s5 _ Hh5 _ Ht5.
  apply wp_bind, wp_ext. intros r6 s6 _ Hh6 _ Ht6. apply wp_ret. split; [congruence|].
  eexists p, (i32 (x_ret r1)), (x_data r3), _.
  rewrite Ht6, Ht5, Ht4, Ht3, Ht2, Ht1, Ht0, <-!app_assoc.
  split_and!; try done; [by repeat constructor|by left|by rewrite insert_insert_eq|].
  split; [|done]. intros _. exists r6. set_solver.
Qed.

End client_theorems.
