(* ===== verification/WorkerProc.v ===== *)
(** * Worker processes: the other half of [src/src/cew_worker.c]

    Starting the workers ([worker_init], with the [fork] whose two results are both
    followed), the whole life of a worker process ([workerp_entry]) with its event loop
    over the connection to the master and over its clients, and the monitor. *)

From S2P Require Import Prelude CString Machine SdsModel Settings Http Worker Socket Exit Client.
Local Open Scope Z_scope.

(** What the event loop of a worker can report. *)
Inductive wevent : Type :=
  | Ev_ipc                    (** the master sent something *)
  | Ev_client (p : positive)  (** the socket of the client at [p] is readable *)
  | Ev_timeout (p : positive) (** the timer of the client at [p] expired *)
  | Ev_sigint.

#[global] Instance wevent_eq_dec : EqDecision wevent.
Proof. solve_decision. Defined.

Section process.
Context `{SL : SdsLib, LA : LoggerAPI, E : Env, EV : EvLib}.
Context (stack : bytes).

(** [while (access(...) != 0);]. *)
Fixpoint wait_for_file (fuel : nat) (path : bytes) : M unit :=
  match fuel with
  | O => st_nofuel
  | S fuel' =>
    r ← ext (X_access path);
    if x_ret r =? 0 then mret tt else wait_for_file fuel' path
  end.

(** [sizeof(struct sockaddr_un)]. *)
Definition SOCKADDR_UN_SIZE : nat := 110.

Definition workerp_connect_ipc_socket (fuel : nat) (w : tsWorkerStruct) : M (Z * tsWorkerStruct) :=
  f ← non_null (IPCFile w);
  a ← sds_arg f;
  _ ← log_debug "Connecting to IPC socket for worker %d on file %s" [AInt (uiId w); a];
  o ← deref f;
  _ ← wait_for_file fuel (cprefix (sds_buf o));
  _ ← log_debug "worker %d. Master made the socket file available" [AInt (uiId w)];
  r ← ext X_unix_socket;
  let w := set_workerfd (x_ret r) w in
  if x_ret r =? -1 then mret (EXIT_FAILURE, w) else
  n ← sds_len f;
  if Z.of_nat SUN_PATH_SIZE <=? n then mret (EXIT_FAILURE, w) else
  r ← ext (X_connect_unix (iWorkerIPCfd w) (sun_path (sds_buf o) SOCKADDR_UN_SIZE));
  if x_ret r =? -1 then mret (EXIT_FAILURE, w) else
  r ← ext (X_set_nonblock (iWorkerIPCfd w));
  if x_ret r =? -1 then mret (EXIT_FAILURE, w) else
  _ ← log_debug "Worker %d, connected with master through fd %d" [AInt (uiId w); AInt (iWorkerIPCfd w)];
  mret (EXIT_SUCCESS, w).

(** The variable for the descriptor is not initialised; the value is not used unless the
    call sets it. *)
Definition workerp_ipc_callback (w : tsWorkerStruct) (cs : clients) : M clients :=
  '(z, iFd) ← receive_fd_from_worker stack w 0;
  if z =? WORKER_EXIT_SUCCESS then
    _ ← log_debug "Got callback with iFd:%d" [AInt iFd];
    '(r, cs) ← client_register_ev iFd cs;
    _ ← (if r =? EXIT_SUCCESS then mret 0 else log_error "Client registering failed" []);
    mret cs
  else
    _ ← log_error "reading from ipc failed !" [];
    mret cs.

(** One event: libev calls back only for watchers that are active. *)
Definition dispatch (fuel : nat) (w : tsWorkerStruct) (e : wevent) (cs : clients) : M clients :=
  match e with
  | Ev_ipc => workerp_ipc_callback w cs
  | Ev_client p =>
      if from_option io false (cs !! p) then client_callback_serve fuel p cs else mret cs
  | Ev_timeout p =>
      if from_option timer false (cs !! p) then client_callback_timeout fuel p cs else mret cs
  | Ev_sigint => _ ← ext X_ev_break; mret cs
  end.

(** [ev_run]: the events in their order, until the signal; a worker that never gets the
    signal never leaves. *)
Fixpoint ev_run (fuel : nat) (w : tsWorkerStruct) (evs : list wevent) (cs : clients) : M clients :=
  match evs with
  | [] => st_nofuel
  | e :: evs' =>
    cs ← dispatch fuel w e cs;
    if decide (e = Ev_sigint) then mret cs else ev_run fuel w evs' cs
  end.

Definition set_slot (i : nat) (slot : option tsWorkerStruct) (g : globals) : globals :=
  let a := gWorkerAdmin (g_workers g) in
  Globals (g_iFd g)
    (set_admin (WorkerAdmin (uiCurrWorkers a) (<[i := slot]> (psWorker a))) (g_workers g))
    (g_settings g).

Definition set_evloop (l : loop_ptr) (g : globals) : globals :=
  Globals (g_iFd g) (set_loop l (g_workers g)) (g_settings g).

(** The name of the log file as [sdsnew] reads it; a null pointer gives an empty one. *)
Definition logfile_name (st : tsSSettings) : M bytes :=
  match pcLogfile st with
  | Some l => o ← deref l; mret (cprefix (sds_buf o))
  | None => mret []
  end.

(** The worker in slot [i] up to its event loop. *)
Definition workerp_start (fuel : nat) (i : nat) (w : tsWorkerStruct) (g : globals)
  : M (tsWorkerStruct * globals) :=
  let w := set_iMe 1 w in
  _ ← logger_destroy;
  name ← logfile_name (settings_get (g_settings g));
  _ ← logger_init name (lLogLevel (settings_get (g_settings g)));
  _ ← ext (X_close (iMasterIPCAccept w));
  let w := set_accept 0 w in
  _ ← ext (X_close (iMasterIPCfd w));
  let w := set_masterfd 0 w in
  me ← ext X_getpid;
  let w := set_Pid (x_ret me) w in
  r ← ext (X_chdir (lit "/"));
  if x_ret r <? 0 then do_exit EXIT_FAILURE (set_slot i (Some w) g) else
  _ ← log_info "Worker %d is running." [AInt (uiId w)];
  '(z, w) ← workerp_connect_ipc_socket fuel w;
  if negb (z =? 0) then do_exit EXIT_FAILURE (set_slot i (Some w) g) else
  l ← ext X_ev_default_loop;
  let g := set_evloop (if x_ret l =? 0 then LoopNull else LoopLive) (set_slot i (Some w) g) in
  _ ← ext (X_ev_signal_start SIGINT);
  _ ← ext (X_ev_io_start (iWorkerIPCfd w));
  mret (w, g).

(** The whole of it; [evs] is what its event loop will report. *)
Definition workerp_entry {A} (fuel : nat) (evs : list wevent) (i : nat) (w : tsWorkerStruct)
    (g : globals) : M A :=
  '(w, g) ← workerp_start fuel i w g;
  _ ← ev_run fuel w evs ∅;
  _ ← log_info "Worker %d done." [AInt (uiId w)];
  do_exit 0 g.

(** ** Starting the workers *)

(** The name of the socket file. *)
Definition ipc_file_args (rnd : Z) : list carg :=
  [AStr (region WORKER_IPC_FOLDER); AStr (region WORKER_IPC_FILE); AInt rnd].

Definition zero_worker (i : Z) (f : sds) : tsWorkerStruct := WorkerStruct i 0 0 0 0 0 (Some f).

(** The body of the loop: [false] stands for the jump to the exits. *)
Definition init_worker (fuel : nat) (evs : list wevent) (i : nat) (g : globals) : M (bool * globals) :=
  _ ← log_debug "Adding worker %d to system." [AInt (Z.of_nat i)];
  m ← ext X_malloc;
  if decide (WORKER_MAX_WORKERS ≤ i)%nat then st_undef OutOfBounds else
  if x_ret m =? 0 then mret (false, set_slot i None g) else
  _ ← log_debug "psWorker %d @ 0x%X" [AInt (Z.of_nat i); APtr];
  f ← sds_empty;
  rnd ← ext X_random;
  f ← sds_catprintf f "%s/%s_%ld" (ipc_file_args (x_ret rnd));
  let w := zero_worker (Z.of_nat i) f in
  _ ← logger_flush;
  pid ← ext X_fork;
  if x_ret pid =? -1 then
    _ ← log_error "Error forking for worker %d." [AInt (Z.of_nat i)];
    _ ← ext (X_free (Z.of_nat i));
    mret (false, set_slot i None g)
  else if x_ret pid =? 0 then
    _ ← logger_in_child;
    me ← ext X_getpid;
    _ ← log_debug "fork: I am PID %d" [AInt (x_ret me)];
    _ ← workerp_entry (A := unit) fuel evs i w g;
    st_exit EXIT_FAILURE
  else
    let w := set_Pid (x_ret pid) w in
    _ ← log_debug "New worker %d has pid %d." [AInt (Z.of_nat i); AInt (x_ret pid)];
    '(z, w) ← worker_create_ipc_socket w;
    if negb (z =? 0) then
      _ ← ext (X_free (Z.of_nat i));
      mret (false, set_slot i None g)
    else
      let g := set_slot i (Some w) g in
      let a := gWorkerAdmin (g_workers g) in
      mret (true, Globals (g_iFd g)
        (set_admin (WorkerAdmin (u32 (uiCurrWorkers a + 1)) (psWorker a)) (g_workers g))
        (g_settings g)).

Fixpoint init_loop (fuel : nat) (evs : list wevent) (n i : nat) (g : globals) : M (Z * globals) :=
  match n with
  | O =>
    _ ← log_info "Finished with spinning-up %d workers!"
          [AInt (uiCurrWorkers (gWorkerAdmin (g_workers g)))];
    mret (WORKER_EXIT_SUCCESS, g)
  | S n' =>
    '(ok, g) ← init_worker fuel evs i g;
    if ok : bool then init_loop fuel evs n' (S i) g else mret (WORKER_EXIT_FAILURE, g)
  end.

Definition worker_init (fuel : nat) (evs : list wevent) (iWantedWorkers : Z) (g : globals)
  : M (Z * globals) :=
  let g := Globals (g_iFd g) (set_admin no_workers (g_workers g)) (g_settings g) in
  init_loop fuel evs (Z.to_nat iWantedWorkers) 0 g.

(** ** The monitor *)

Definition monitor_slot (slot : option tsWorkerStruct) (iMonitoring : Z)
  : M (option tsWorkerStruct * Z) :=
  match slot with
  | None => mret (None, iMonitoring)
  | Some w =>
    if Pid w =? 0 then mret (Some w, iMonitoring) else
    r ← ext (X_waitpid (Pid w));
    if x_ret r =? 0 then mret (Some w, iMonitoring) else
    _ ← log_error "pid exit :%d" [AInt (Pid w)];
    mret (Some (set_Pid 0 w), i32 (iMonitoring - 1))
  end.

Fixpoint monitor_slots (n : nat) (slots : list (option tsWorkerStruct)) (iMonitoring : Z)
  : M (list (option tsWorkerStruct) * Z) :=
  match n, slots with
  | O, _ => mret (slots, iMonitoring)
  | S _, [] => st_undef OutOfBounds
  | S n', slot :: rest =>
    '(slot, iMonitoring) ← monitor_slot slot iMonitoring;
    '(rest, iMonitoring) ← monitor_slots n' rest iMonitoring;
    mret (slot :: rest, iMonitoring)
  end.

(** [while (1)]; only the flag ends it. *)
Fixpoint monitor_loop {A} (fuel : nat) (bTerminateProg : bool) (iMonitoring : Z) (g : globals) : M A :=
  match fuel with
  | O => st_nofuel
  | S fuel' =>
    if bTerminateProg then do_exit 0 g else
    let a := gWorkerAdmin (g_workers g) in
    '(slots, iMonitoring) ← monitor_slots (Z.to_nat (uiCurrWorkers a)) (psWorker a) iMonitoring;
    let g := Globals (g_iFd g) (set_admin (WorkerAdmin (uiCurrWorkers a) slots) (g_workers g))
               (g_settings g) in
    _ ← log_debug "Monitoring %d worker processes" [AInt iMonitoring];
    _ ← ext X_sleep;
    monitor_loop fuel' bTerminateProg iMonitoring g
  end.

Definition worker_monitor {A} (fuel : nat) (bTerminateProg : bool) (g : globals) : M A :=
  let iMonitoring := i32 (uiCurrWorkers (gWorkerAdmin (g_workers g))) in
  _ ← log_debug "Trying to monitor %d workers." [AInt iMonitoring];
  monitor_loop fuel bTerminateProg iMonitoring g.

End process.

(** ** The name of the socket *)

(** The path a worker gets for the random number [rnd]. *)
Definition ipc_path (rnd : Z) : bytes := lit "/run/cewserver/cew_worker_" ++ dec rnd.

Lemma ipc_file_text rnd : format (lit "%s/%s_%ld") (ipc_file_args rnd) = Some (ipc_path rnd).
Proof.
  unfold ipc_path.
  change (format (lit "%s/%s_%ld") (ipc_file_args rnd)) with
    (Some (lit "/run/cewserver" ++ "/"%char :: lit "cew_worker" ++ "_"%char :: dec rnd ++ [])).
  by rewrite app_nil_r.
Qed.

Lemma ipc_path_length rnd : 0 ≤ rnd < 2 ^ 31 → (length (ipc_path rnd) ≤ 36)%nat.
Proof.
  intros Hr. unfold ipc_path. rewrite length_app.
  assert (dec rnd = dec_nat rnd) as -> by (unfold dec; destruct (Z.ltb_spec rnd 0); [lia|done]).
  assert (length (dec_nat rnd) ≤ 10)%nat.
  { apply dec_nat_length; [|lia]. change (10 ^ Z.of_nat 10) with 10000000000. lia. }
  change (length (lit "/run/cewserver/cew_worker_")) with 26%nat. lia.
Qed.

Lemma ipc_path_no_nul rnd : NUL ∉ ipc_path rnd.
Proof.
  apply not_elem_of_app. split; [by apply (bool_decide_unpack _)|apply dec_no_nul].
Qed.

Lemma sun_path_id path addrlen :
  NUL ∉ path → (length path + 2 ≤ addrlen)%nat → sun_path path addrlen = path.
Proof.
  intros Hn Hl. unfold sun_path. rewrite take_app_ge by lia. rewrite take_replicate.
  destruct (_ `min` _)%nat as [|n]; cbn [replicate].
  - rewrite app_nil_r. by apply cprefix_id.
  - clear Hl. induction path as [|x path IH]; [done|]. cbn.
    apply not_elem_of_cons in Hn as [Hx Hn]. rewrite decide_False by congruence.
    f_equal. by apply IH.
Qed.

(** C34: The socket file of a worker: for every value that [random] can give the name is
    at most 36 bytes, far below the 108 of [sun_path]; the master binds and the worker
    connects to that very name although they pass different address lengths; and
    different random numbers give different names. *)
Theorem ipc_path_agrees rnd rnd' :
  0 ≤ rnd < 2 ^ 31 → 0 ≤ rnd' < 2 ^ 31 →
  format (lit "%s/%s_%ld") (ipc_file_args rnd) = Some (ipc_path rnd) ∧
  (length (ipc_path rnd) ≤ 36)%nat ∧
  sun_path (ipc_path rnd) (SUN_PATH_SIZE - 1) = ipc_path rnd ∧
  sun_path (ipc_path rnd) SOCKADDR_UN_SIZE = ipc_path rnd ∧
  (ipc_path rnd = ipc_path rnd' → rnd = rnd').
Proof.
  intros Hr Hr'. pose proof (ipc_path_length rnd Hr) as Hl. pose proof (ipc_path_no_nul rnd) as Hn.
  split_and!; [apply ipc_file_text|done| | |].
  - apply sun_path_id; [done|]. unfold SUN_PATH_SIZE. lia.
  - apply sun_path_id; [done|]. unfold SOCKADDR_UN_SIZE. lia.
  - intros Heq. apply app_inv_head in Heq.
    rewrite <-(strtol_dec rnd), <-(strtol_dec rnd') by (unfold LONG_MIN, LONG_MAX; lia).
    by rewrite Heq.
Qed.

(** ** The event loop *)

(** The registered clients between two events: nothing received yet, nothing to send,
    and the watchers are both on or (after a failed registration) both off. *)
Definition clients_ok (cs : clients) : Prop :=
  ∀ p e, cs !! p = Some e →
    acRecvBuff (sClient e) = zeroed ∧ acSendBuff (sClient e) = None ∧ io e = timer e.

Lemma clients_ok_delete p cs : clients_ok cs → clients_ok (delete p cs).
Proof. intros H q e [_ Hq]%lookup_delete_Some. by apply (H q). Qed.

Lemma clients_ok_insert p e cs :
  acRecvBuff (sClient e) = zeroed → acSendBuff (sClient e) = None → io e = timer e →
  clients_ok cs → clients_ok (<[p := e]> cs).
Proof. intros ??? H q e' [[<- <-]|[_ Hq]]%lookup_insert_Some; [done|by apply (H q)]. Qed.

Section names.
Context `{SL : SdsLib, LA : LoggerAPI}.

(** The name under which the log file is opened. *)
Definition log_path (cfg : config) : bytes := from_option cprefix [] (c_logfile cfg).

Lemma logfile_name_wp st cfg ys ps F (s : machine) :
  represents st cfg ys → heap_is (ys ++ ps) F (heap_of s) →
  wp (logfile_name st) (λ name s', name = log_path cfg ∧ s' = s) s.
Proof.
  intros (_ & _ & _ & _ & Hx) Hheap. unfold logfile_name, log_path.
  destruct (pcLogfile st) as [l|], (c_logfile cfg) as [b|]; try done.
  destruct Hx as [sp ->]. apply wp_bind. eapply wp_deref; [exact Hheap|apply pick_here|]. by apply wp_ret.
Qed.

End names.

Section events.
Context `{SL : SdsLib, SS : !SdsSpec SL, LA : LoggerAPI, E : Env, EV : EvLib}.
Context (stack : bytes) (fuel : nat).
Hypothesis kernel_behaves : kernel_ok.
Implicit Types (s : machine) (cs : clients).

(** What can go wrong in an event, with the strings [F] allocated: there is no memory for a
    new client, or one of the failures of [serve_fails]. *)
Definition mishap (F : gmap sds sds_obj) (f : failure) : Prop :=
  (f = Bad NullDeref ∧ ∃ tr, x_ret (env tr X_malloc) = 0) ∨
  ∃ tr fd, serve_fails fuel fd F (x_data (env tr (X_recv fd RECV_BUFF_SIZE))) tr f.

(** What each callback promises. *)
Definition callback_ok (m : M clients) s : Prop :=
  wpf m (λ cs' s', clients_ok cs' ∧ heap_of s' = heap_of s) (mishap (heap_of s)) s.

Lemma never_drained_mishap F fd tr f : f = Endless ∧ never_drained fuel fd tr → mishap F f.
Proof. intros Hf. right. exists tr, fd. right. by right. Qed.

Lemma deregister_safe p cs c a b F s :
  cs !! p = Some (ClientEv c a b) → acSendBuff c = None →
  wpf (client_deregister fuel p cs) (λ r s', r = (EXIT_SUCCESS, delete p cs) ∧
    heap_of s' = heap_of s) (mishap F) s.
Proof.
  intros Hp Hsend. destruct (decide (iSockfd c = 0)) as [Hz|Hz].
  - unfold client_deregister, get_client. rewrite Hp. apply wpf_wp, wp_bind, wp_ret. cbn [sClient].
    rewrite Hz, Hsend. apply wp_bind, wp_ext. intros r1 s1 _ Hh1 _ _.
    apply wp_bind, wp_ext. intros r2 s2 _ Hh2 _ _. apply wp_bind, wp_ret, wp_bind, wp_ret.
    apply wp_bind; log_step. intros _ s3 Hh3 _. apply wp_ret. split; [done|congruence].
  - eapply wpf_mono; [by eapply client_deregister_wpf|naive_solver|apply never_drained_mishap].
Qed.

Lemma timeout_ok p cs s :
  clients_ok cs → from_option timer false (cs !! p) = true →
  callback_ok (client_callback_timeout fuel p cs) s.
Proof.
  intros Hok. destruct (cs !! p) as [[c a b]|] eqn:Hp; [|done]. intros _.
  unfold callback_ok, client_callback_timeout, get_client. rewrite Hp. apply wpf_bind_wp, wp_ret.
  apply wpf_bind_wp; log_step. intros _ s1 Hh1 _. apply wpf_bind.
  eapply wpf_mono; [eapply deregister_safe; [done|by destruct (Hok _ _ Hp) as (_ & ? & _)]| |done].
  intros [z cs'] s2 [[= -> ->] Hh2]. apply wpf_wp, wp_ret. split; [by apply clients_ok_delete|congruence].
Qed.

Lemma serve_ok p cs s :
  clients_ok cs → from_option io false (cs !! p) = true →
  callback_ok (client_callback_serve fuel p cs) s.
Proof.
  intros Hok. destruct (cs !! p) as [[c a b]|] eqn:Hp; [|done]. intros _.
  destruct (Hok _ _ Hp) as (Hbuf & Hsend & Hab). cbn in Hbuf, Hsend, Hab. subst b.
  unfold callback_ok, client_callback_serve, get_client. rewrite Hp. apply wpf_bind_wp, wp_ret.
  cbn [sClient io timer]. apply wpf_bind_wp, wp_ext. intros r s1 Hr Hh1 _ _.
  destruct (Z.ltb_spec 0 (x_ret r)) as [Hpos|Hpos].
  - rewrite (proj2 (Z.ltb_ge (x_ret r) 0)), (proj2 (Z.eqb_neq (x_ret r) 0)) by lia.
    rewrite Hbuf. apply wpf_bind_wp; log_step. intros _ s2 Hh2 _.
    apply wpf_bind_wp, wp_ext. intros r1 s3 _ Hh3 _ _. set (c1 := ClientStruct _ _ _ _ _). apply wpf_bind.
    eapply wpf_mono; [apply (request_or_fails fuel c1 (x_data r)); [apply kernel_behaves|by cbn; rewrite Hr; apply ko_recv|done]| |].
    2:{ intros f Hf. right. exists (m_trace s), (iSockfd c). rewrite <-Hr, <-Hh1, <-Hh2, <-Hh3. apply Hf. }
    intros ? s4 (evs & resp & r2 & -> & _ & _ & Hh4). apply wpf_bind.
    eapply wpf_mono; [eapply deregister_safe; [apply lookup_insert_eq|done]| |done].
    intros [z cs'] s5 [[= -> ->] Hh5]. apply wpf_wp, wp_ret. split; [|congruence].
    rewrite !insert_insert_eq, delete_insert_eq. by apply clients_ok_delete.
  - destruct (Z.ltb_spec (x_ret r) 0) as [Hneg|Hneg].
    + apply wpf_wp, wp_bind; log_step. intros _ s2 Hh2 _. apply wp_ret. split; [|congruence].
      by apply clients_ok_insert.
    + rewrite (proj2 (Z.eqb_eq (x_ret r) 0)) by lia.
      apply wpf_bind_wp; log_step. intros _ s2 Hh2 _. apply wpf_bind.
      eapply wpf_mono; [eapply deregister_safe; [apply lookup_insert_eq|done]| |done].
      intros [z cs'] s5 [[= -> ->] Hh5]. apply wpf_wp, wp_ret. split; [|congruence].
      rewrite delete_insert_eq. by apply clients_ok_delete.
Qed.

Lemma ipc_ok w cs s : clients_ok cs → callback_ok (workerp_ipc_callback stack w cs) s.
Proof.
  intros Hok. unfold callback_ok, workerp_ipc_callback, receive_fd_from_worker.
  apply wpf_bind, wpf_bind_wp, wp_ext. intros r s1 _ Hh1 _ _.
  assert (∀ (fd : Z) s0, callback_ok (
    '(r, cs) ← client_register_ev fd cs;
    _ ← (if r =? EXIT_SUCCESS then mret 0 else log_error "Client registering failed" []);
    mret cs) s0) as Hreg.
  { intros fd s0. destruct (decide (x_ret (env (m_trace s0) X_malloc) = 0)) as [Hm|Hm].
    { apply wpf_bind. unfold client_register_ev. apply wpf_bind_wp, wp_ext. intros x s2 -> _ _ _.
      rewrite Hm. apply wpf_undef. left. split; [done|by eexists]. }
    apply wpf_bind_wp. eapply wp_mono; [by apply (client_register_wp fd cs)|].
    intros [z cs'] s2 (Hh2 & p & id & ip & new & Hp & _ & _ & _ & Hcs & _). cbn in Hcs. subst cs'.
    apply wpf_wp, wp_bind. eapply (wp_mono _ (λ _ s', heap_of s' = heap_of s2)).
    { destruct (z =? EXIT_SUCCESS); [by apply wp_ret|by log_step]. }
    intros _ s3 Hh3. apply wp_ret. split; [by apply clients_ok_insert|congruence]. }
  assert (callback_ok (_ ← log_error "reading from ipc failed !" []; mret cs) s1) as Hlog.
  { apply wpf_wp, wp_bind; log_step. intros _ s2 Hh2 _. by apply wp_ret. }
  rewrite <-Hh1. destruct (x_ret r =? -1); [apply wpf_wp, wp_ret, Hlog|].
  case_decide; apply wpf_wp, wp_ret; [apply Hlog|]. cbn [Z.eqb].
  apply wpf_bind_wp; log_step. intros _ s2 Hh2 _. rewrite <-Hh2. apply Hreg.
Qed.

Lemma dispatch_ok w e cs s : clients_ok cs → callback_ok (dispatch stack fuel w e cs) s.
Proof.
  intros Hok. destruct e as [|p|p|]; cbn [dispatch].
  - by apply ipc_ok.
  - destruct (from_option io false (cs !! p)) eqn:Hp; [by apply serve_ok|by apply wpf_wp, wp_ret].
  - destruct (from_option timer false (cs !! p)) eqn:Hp; [by apply timeout_ok|by apply wpf_wp, wp_ret].
  - apply wpf_wp, wp_bind, wp_ext. intros r s1 _ Hh1 _ _. by apply wp_ret.
Qed.

(** The event loop of a worker handles every sequence of messages from the master,
    client data, disconnects, receive errors, timeouts and failing registrations, in any
    order and for any number of clients, up to the signal that ends it: each callback
    returns, or it fails for one of the reasons of [mishap]; no released client is ever
    touched, every string is released again, and the registered clients stay well formed. *)
Lemma ev_run_wpf w evs cs s :
  clients_ok cs → callback_ok (ev_run stack fuel w (evs ++ [Ev_sigint]) cs) s.
Proof.
  unfold callback_ok. revert cs s. induction evs as [|e evs IH]; intros cs s Hok; cbn [app ev_run];
    apply wpf_bind; eapply wpf_mono; [by apply dispatch_ok| |done|by apply dispatch_ok| |done];
    intros cs1 s1 [Hok1 Hh1].
  - by apply wpf_wp, wp_ret.
  - case_decide; [by apply wpf_wp, wp_ret|]. rewrite <-Hh1. by apply IH.
Qed.

End events.

(** ** Starting the workers *)

(** The calls of the master succeed, [random] is in its range, and the process is the
    parent of each fork but the first [children]. *)
Record starts `{Env} (children : nat) : Prop := {
  st_malloc tr : x_ret (env tr X_malloc) ≠ 0;
  st_random tr : 0 ≤ x_ret (env tr X_random) < 2 ^ 31;
  st_fork tr : (children ≤ fork_calls tr)%nat → 0 < x_ret (env tr X_fork);
  st_socket tr : x_ret (env tr X_unix_socket) ≠ -1;
  st_stat tr p : x_ret (env tr (X_stat p)) ≠ -1;
  st_bind tr fd p : x_ret (env tr (X_bind_unix fd p)) ≠ -1;
  st_chmod tr p : x_ret (env tr (X_chmod p)) ≠ -1;
  st_listen tr fd n : x_ret (env tr (X_listen fd n)) ≠ -1;
  st_accept tr fd : x_ret (env tr (X_accept fd)) ≠ -1;
}.

(** The table filled from the front with [ws]. *)
Definition table_of (ws : list tsWorkerStruct) : list (option tsWorkerStruct) :=
  (Some <$> ws) ++ replicate (WORKER_MAX_WORKERS - length ws) None.

(** The first workers are set up: numbered from 0, running as other processes, each with
    a socket file of its own named after some random number. *)
Definition set_up (ws : list tsWorkerStruct) (xs : list (sds * sds_obj)) (g : globals) : Prop :=
  gWorkerAdmin (g_workers g) = WorkerAdmin (Z.of_nat (length ws)) (table_of ws) ∧
  Forall2 (λ w x, IPCFile w = Some x.1) ws xs ∧
  Forall (λ x, ∃ rnd, sds_buf x.2 = ipc_path rnd) xs ∧
  (∀ i w, ws !! i = Some w → uiId w = Z.of_nat i ∧ iMe w = 0 ∧ 0 < Pid w).

Section starting.
Context `{SL : SdsLib, SS : !SdsSpec SL, LA : LoggerAPI, E : Env, EV : EvLib}.
Context (stack : bytes) (fuel : nat) (evs : list wevent) (children : nat).
Implicit Types (s : machine) (ps xs : list (sds * sds_obj)).

(** The calls that set up the socket of a worker, with the descriptors they give; those that
    matter later succeed. *)
Definition ipc_events (a m : Z) (path : bytes) (new : list event) : Prop :=
  ∃ x1 x2 x3 x4 x5 x6 x7, x_ret x1 = a ∧ x_ret x7 = m ∧
    a ≠ -1 ∧ m ≠ -1 ∧ x_ret x4 ≠ -1 ∧ x_ret x6 ≠ -1 ∧
    new = [(X_unix_socket, x1); (X_stat WORKER_IPC_FOLDER, x2); (X_unlink path, x3);
           (X_bind_unix a path, x4); (X_chmod path, x5); (X_listen a 20, x6); (X_accept a, x7)].

(** The calls that start the worker [w] with the socket file [path]. *)
Definition start_events (w : tsWorkerStruct) (path : bytes) (new : list event) : Prop :=
  ∃ x1 x2 x3 rest, path = ipc_path (x_ret x2) ∧ 0 ≤ x_ret x2 < 2 ^ 31 ∧ x_ret x3 = Pid w ∧
    ipc_events (iMasterIPCAccept w) (iMasterIPCfd w) path rest ∧
    new = [(X_malloc, x1); (X_random, x2); (X_fork, x3)] ++ rest.

(** The calls that start the workers [ws] with the socket files [xs], one after the other. *)
Definition all_started (ws : list tsWorkerStruct) (xs : list (sds * sds_obj)) (new : list event) : Prop :=
  ∃ news, new = concat news ∧ length xs = length ws ∧ length news = length ws ∧
    ∀ i w x n, ws !! i = Some w → xs !! i = Some x → news !! i = Some n →
      start_events w (sds_buf x.2) n.

Lemma started_sends w path new : start_events w path new → sends new = [].
Proof. intros (? & ? & ? & ? & _ & _ & _ & (? & ? & ? & ? & ? & ? & ? & _ & _ & _ & _ & _ & _ & ->) & ->). done. Qed.

Lemma all_started_sends ws xs new : all_started ws xs new → sends new = [].
Proof.
  intros (news & -> & Hlx & Hl & Hall).
  assert (∀ n, n ∈ news → sends n = []) as Hn.
  { intros n [i Hi]%list_elem_of_lookup. pose proof (lookup_lt_Some _ _ _ Hi) as Hlt.
    destruct (lookup_lt_is_Some_2 ws i) as [w Hw]; [lia|].
    destruct (lookup_lt_is_Some_2 xs i) as [x Hx]; [lia|]. by eapply started_sends, Hall. }
  clear Hall Hl. induction news as [|n news IH]; [done|]. cbn [concat]. rewrite sends_app, Hn, IH; set_solver.
Qed.

Lemma all_started_snoc ws xs new w x n :
  all_started ws xs new → start_events w (sds_buf x.2) n → all_started (ws ++ [w]) (xs ++ [x]) (new ++ n).
Proof.
  intros (news & -> & Hlx & Hl & Hall) Hn. exists (news ++ [n]).
  rewrite concat_app, !length_app. cbn. rewrite app_nil_r. split_and!; [done|lia|lia|].
  intros i w' x' n' Hw Hx Hn'.
  apply lookup_snoc_Some in Hw as [[Hi Hw]|[-> <-]]; apply lookup_snoc_Some in Hx as [[Hi' Hx]|[Heq <-]];
    apply lookup_snoc_Some in Hn' as [[Hi'' Hn']|[Heq' <-]]; try lia; [by eapply Hall|done].
Qed.

Lemma create_ipc_wp w f rnd sp ps F s :
  starts children → 0 ≤ rnd < 2 ^ 31 → IPCFile w = Some f →
  heap_is ((f, SdsObj (ipc_path rnd) sp) :: ps) F (heap_of s) →
  wp (worker_create_ipc_socket w) (λ r s', r.1 = EXIT_SUCCESS ∧ heap_of s' = heap_of s ∧
    ∃ a m new, r.2 = set_masterfd m (set_accept a w) ∧ m_trace s' = m_trace s ++ new ∧
      ipc_events a m (ipc_path rnd) new) s.
Proof.
  intros [] Hrnd Hf Hheap. unfold worker_create_ipc_socket. rewrite Hf. cbn [non_null].
  pose proof (ipc_path_length rnd Hrnd) as Hlen. pose proof (ipc_path_no_nul rnd) as Hnul.
  apply wp_bind, wp_ret. apply wp_bind. eapply wp_sds_arg; [exact Hheap|apply pick_here|].
  apply wp_bind; log_step. intros _ s1 Hh1 Ht1. apply wp_bind, wp_ext. intros r1 s2 Hr1 Hh2 _ Ht2.
  assert (x_ret r1 ≠ -1) as Hn1 by (rewrite Hr1; apply st_socket0). rewrite (proj2 (Z.eqb_neq _ _) Hn1).
  assert (heap_is ((f, SdsObj (ipc_path rnd) sp) :: ps) F (heap_of s2)) as Hheap2 by (by rewrite Hh2, Hh1).
  apply wp_bind. eapply wp_sds_len; [exact Hheap2|apply pick_here|]. cbn [sds_buf].
  rewrite (proj2 (Z.leb_gt (Z.of_nat SUN_PATH_SIZE) _)) by (unfold SUN_PATH_SIZE; lia).
  apply wp_bind. eapply wp_deref; [exact Hheap2|apply pick_here|]. cbn [sds_buf].
  rewrite cprefix_id, sun_path_id by (done || (unfold SUN_PATH_SIZE; lia)).
  apply wp_bind, wp_ext. intros r2 s3 -> Hh3 _ Ht3.
  rewrite (proj2 (Z.eqb_neq _ _) (st_stat0 _ _)). apply wp_bind, wp_ret. cbn [negb].
  apply wp_bind, wp_ext. intros r3 s4 _ Hh4 _ Ht4. apply wp_bind, wp_ext. intros r4 s5 Hr4 Hh5 _ Ht5.
  assert (x_ret r4 ≠ -1) as Hn4 by (rewrite Hr4; apply st_bind0). rewrite (proj2 (Z.eqb_neq _ _) Hn4).
  apply wp_bind, wp_ext. intros r5 s6 -> Hh6 _ Ht6.
  rewrite (proj2 (Z.eqb_neq _ _) (st_chmod0 _ _)). apply wp_bind, wp_ext. intros r6 s7 Hr6 Hh7 _ Ht7.
  assert (x_ret r6 ≠ -1) as Hn6 by (rewrite Hr6; apply st_listen0). rewrite (proj2 (Z.eqb_neq _ _) Hn6).
  apply wp_bind, wp_ext. intros r7 s8 Hr7 Hh8 _ Ht8.
  assert (x_ret r7 ≠ -1) as Hn7 by (rewrite Hr7; apply st_accept0). rewrite (proj2 (Z.eqb_neq _ _) Hn7).
  apply wp_bind; log_step. intros _ s9 Hh9 Ht9. apply wp_ret. split_and!; [done|congruence|].
  eexists (x_ret r1), (x_ret r7), _. split; [done|].
  rewrite Ht9, Ht8, Ht7, Ht6, Ht5, Ht4, Ht3, Ht2, Ht1, <-!app_assoc. split; [done|].
  eexists r1, _, _, r4, _, r6, r7. by split_and!.
Qed.

Lemma table_insert ws w :
  (length ws < WORKER_MAX_WORKERS)%nat →
  <[length ws := Some w]> (table_of ws) = table_of (ws ++ [w]).
Proof.
  intros Hl. unfold table_of. rewrite length_app. cbn [length].
  destruct (WORKER_MAX_WORKERS - length ws)%nat as [|n] eqn:Hn; [lia|].
  replace (WORKER_MAX_WORKERS - (length ws + 1))%nat with n by lia. cbn [replicate].
  rewrite fmap_app. cbn.
  replace (length ws) with (length (Some <$> ws) + 0)%nat by (rewrite length_fmap; lia).
  rewrite insert_app_r. cbn. by rewrite <-app_assoc.
Qed.

Lemma set_up_snoc ws xs w x g :
  set_up ws xs g → (length ws < WORKER_MAX_WORKERS)%nat → uiId w = Z.of_nat (length ws) → iMe w = 0 →
  0 < Pid w → IPCFile w = Some x.1 → (∃ rnd, sds_buf x.2 = ipc_path rnd) →
  let g' := set_slot (length ws) (Some w) g in
  let a := gWorkerAdmin (g_workers g') in
  set_up (ws ++ [w]) (xs ++ [x]) (Globals (g_iFd g')
    (set_admin (WorkerAdmin (u32 (uiCurrWorkers a + 1)) (psWorker a)) (g_workers g')) (g_settings g')).
Proof.
  intros (Hadm & Hnames & Hpaths & Hws) Hlen Hid Hme Hpid Hf Hx g' a. split_and!.
  - cbn. rewrite Hadm. cbn. rewrite table_insert by done. f_equal. rewrite length_app. cbn [length].
    unfold u32. rewrite uwrap_small; [lia|]. unfold WORKER_MAX_WORKERS in Hlen. lia.
  - apply Forall2_app; [done|]. by repeat constructor.
  - apply Forall_app. split; [done|]. by repeat constructor.
  - intros i w' Hi. apply lookup_snoc_Some in Hi as [[? Hi]|[-> <-]]; [by apply Hws|]. by split_and!.
Qed.

(** One more worker. *)
Lemma init_worker_wp ws xs g ps F s :
  starts children → (children ≤ fork_calls (m_trace s))%nat → set_up ws xs g → (length ws < WORKER_MAX_WORKERS)%nat →
  heap_is (xs ++ ps) F (heap_of s) →
  wp (init_worker stack fuel evs (length ws) g) (λ r s', r.1 = true ∧
    ∃ w x, set_up (ws ++ [w]) (xs ++ [x]) r.2 ∧
      heap_is ((xs ++ [x]) ++ ps) F (heap_of s') ∧
      NextWorker (g_workers r.2) = NextWorker (g_workers g) ∧ g_iFd r.2 = g_iFd g ∧
      g_settings r.2 = g_settings g ∧ psWorkerEVLoop (g_workers r.2) = psWorkerEVLoop (g_workers g) ∧
      ∃ new, m_trace s' = m_trace s ++ new ∧ start_events w (sds_buf x.2) new) s.
Proof.
  intros Hst Hch (Hadm & Hnames & Hpaths & Hws) Hlen Hheap. pose proof Hst as []. unfold init_worker.
  apply wp_bind; log_step. intros _ s1 Hh1 Ht1. apply wp_bind, wp_ext. intros r1 s2 -> Hh2 _ Ht2.
  rewrite decide_False by lia. rewrite (proj2 (Z.eqb_neq _ _) (st_malloc0 _)).
  apply wp_bind; log_step. intros _ s3 Hh3 Ht3. rewrite <-Hh1, <-Hh2, <-Hh3 in Hheap.
  apply wp_bind. eapply wp_sds_empty; [exact Hheap|]. intros f sp s4 Hheap4 _ Ht4.
  apply wp_bind, wp_ext. intros r5 s5 Hr5 Hh5 _ Ht5. rewrite <-Hh5 in Hheap4.
  assert (0 ≤ x_ret r5 < 2 ^ 31) as Hrnd by (rewrite Hr5; apply st_random0).
  apply wp_bind. eapply wp_sds_catprintf; [apply ipc_file_text|exact Hheap4|apply pick_here|].
  cbn [sds_buf app]. intros f' sp' s6 Hheap6 _ Ht6.
  apply wp_bind, wp_upd_log. intros _ s7 Hh7 Ht7. apply wp_bind, wp_ext. intros r8 s8 Hr8 Hh8 _ Ht8.
  assert (0 < x_ret r8) as Hpid .
  { rewrite Hr8. apply st_fork0. rewrite Ht7, Ht6, Ht5, Ht4, Ht3, Ht2, Ht1, !fork_calls_app. lia. }
  rewrite (proj2 (Z.eqb_neq _ (-1))), (proj2 (Z.eqb_neq _ 0)) by lia.
  apply wp_bind; log_step. intros _ s9 Hh9 Ht9. rewrite <-Hh7, <-Hh8, <-Hh9 in Hheap6.
  apply wp_bind. eapply wp_mono; [by eapply (create_ipc_wp _ f' (x_ret r5) sp')|].
  intros [z w] s10 (Hz & Hh10 & a & m & new & Hw & Ht10 & Hnew). cbn [fst snd] in Hz, Hw. subst z w. cbn [EXIT_SUCCESS Z.eqb negb].
  apply wp_ret. split; [done|]. eexists _, (f', SdsObj (ipc_path (x_ret r5)) sp').
  cbn [snd g_workers gWorkerAdmin set_admin set_slot NextWorker g_iFd g_settings psWorkerEVLoop].
  split_and!; [|rewrite Hh10|done..|].
  - apply set_up_snoc; try done. by eexists.
  - eapply heap_is_perm; [exact Hheap6|]. solve_Permutation.
  - eexists. rewrite Ht10, Ht9, Ht8, Ht7, Ht6, Ht5, Ht4, Ht3, Ht2, Ht1, <-!app_assoc. split; [done|].
    by eexists _, r5, r8, new.
Qed.

Lemma init_loop_wp n : ∀ ws xs g ps F s,
  starts children → (children ≤ fork_calls (m_trace s))%nat → set_up ws xs g → (length ws + n ≤ WORKER_MAX_WORKERS)%nat →
  heap_is (xs ++ ps) F (heap_of s) →
  wp (init_loop stack fuel evs n (length ws) g) (λ r s', r.1 = WORKER_EXIT_SUCCESS ∧
    ∃ ws' xs', length ws' = (length ws + n)%nat ∧ set_up ws' xs' r.2 ∧
      heap_is (xs' ++ ps) F (heap_of s') ∧
      NextWorker (g_workers r.2) = NextWorker (g_workers g) ∧ g_iFd r.2 = g_iFd g ∧
      g_settings r.2 = g_settings g ∧ psWorkerEVLoop (g_workers r.2) = psWorkerEVLoop (g_workers g) ∧
      (∀ old, all_started ws xs old → ∃ new, m_trace s' = m_trace s ++ new ∧ all_started ws' xs' (old ++ new))) s.
Proof.
  induction n as [|n IH]; intros ws xs g ps F s Hst Hch Hup Hlen Hheap; cbn [init_loop].
  - apply wp_bind; log_step. intros _ s1 Hh1 Ht1. apply wp_ret. split; [done|].
    exists ws, xs. rewrite Nat.add_0_r, Hh1, Ht1. split_and!; try done.
    intros old Hold. exists []. by rewrite !app_nil_r.
  - apply wp_bind. eapply wp_mono; [by apply (init_worker_wp ws xs g ps F); [..|lia|]|].
    intros [ok g1] s1 (Hok & w & x & Hup1 & Hheap1 & Hn1 & Hf1 & Hs1 & Hl1 & new & Ht1 & Hev).
    cbn [fst snd] in *. subst ok.
    replace (S (length ws)) with (length (ws ++ [w])) by (rewrite length_app; simpl; lia).
    eapply wp_mono; [apply (IH (ws ++ [w]) (xs ++ [x]) g1 ps F); [done| |done| |done]|].
    + rewrite Ht1, fork_calls_app. lia.
    + rewrite length_app. simpl. lia.
    + intros r s2 (Hr & ws' & xs' & Hl' & Hup' & Hheap' & ? & ? & ? & ? & Hall). split; [done|].
      exists ws', xs'. split_and!; try congruence; try done; [rewrite Hl', length_app; simpl; lia|].
      intros old Hold. destruct (Hall (old ++ new)) as (new' & Ht2 & Hall'); [by apply all_started_snoc|].
      exists (new ++ new'). rewrite Ht2, Ht1, <-app_assoc. split; [done|]. by rewrite app_assoc.
Qed.

Lemma set_up_none g :
  set_up [] [] (Globals (g_iFd g) (set_admin no_workers (g_workers g)) (g_settings g)).
Proof. split_and!; [done|constructor|constructor|done]. Qed.

Lemma set_up_staffed ws xs g :
  set_up ws xs g → (length ws ≤ WORKER_MAX_WORKERS)%nat → staffed ws (gWorkerAdmin (g_workers g)).
Proof. intros (-> & _) Hl. split_and!; [done|done|by eexists]. Qed.

Lemma omap_table ws n : omap id ((Some <$> ws) ++ replicate n (None : option tsWorkerStruct)) = ws.
Proof.
  induction ws as [|w ws IH]; cbn; [by induction n|]. f_equal. exact IH.
Qed.

Lemma set_up_names ws xs g : set_up ws xs g → own_names (psWorker (gWorkerAdmin (g_workers g))) xs.
Proof. intros (-> & Hn & _). unfold own_names, table_of. cbn. by rewrite omap_table. Qed.

Lemma set_up_master ws xs g : set_up ws xs g → is_master g.
Proof.
  intros (Ha & _ & _ & Hw) w Hin. rewrite Ha in Hin. cbn in Hin.
  apply elem_of_app in Hin as [Hin|Hin].
  - apply list_elem_of_fmap in Hin as (w' & [= <-] & Hin).
    apply list_elem_of_lookup in Hin as [i Hi]. by destruct (Hw i w Hi) as (_ & ? & _).
  - apply elem_of_replicate in Hin as [? _]. done.
Qed.

Lemma worker_init_wp n g ps F s :
  starts children → (children ≤ fork_calls (m_trace s))%nat → 0 ≤ n ≤ Z.of_nat WORKER_MAX_WORKERS → heap_is ps F (heap_of s) →
  wp (worker_init stack fuel evs n g) (λ r s', r.1 = WORKER_EXIT_SUCCESS ∧
    ∃ ws xs, Z.of_nat (length ws) = n ∧ set_up ws xs r.2 ∧
      staffed ws (gWorkerAdmin (g_workers r.2)) ∧
      own_names (psWorker (gWorkerAdmin (g_workers r.2))) xs ∧ is_master r.2 ∧
      heap_is (xs ++ ps) F (heap_of s') ∧
      NextWorker (g_workers r.2) = NextWorker (g_workers g) ∧
      g_iFd r.2 = g_iFd g ∧ g_settings r.2 = g_settings g ∧
      ∃ new, m_trace s' = m_trace s ++ new ∧ all_started ws xs new) s.
Proof.
  intros Hst Hch Hn Hheap. unfold worker_init. eapply wp_mono.
  { apply (init_loop_wp _ [] [] _ ps F); [done|done|apply set_up_none|cbn; lia|done]. }
  intros r s' (Hr & ws & xs & Hl & Hup & Hheap' & ? & ? & ? & ? & Hall). split; [done|].
  cbn in Hl. exists ws, xs.
  split_and!; try done; [lia|by eapply set_up_staffed; [|lia]|by eapply set_up_names|by eapply set_up_master|].
  apply (Hall []). by exists [].
Qed.

(** C21: Starting up to 64 workers, when the system calls succeed, gives exactly the
    state that routing and releasing rely on: the wanted number of workers in the first
    slots, numbered in order, each with its process, its sockets and its own socket file
    name, which are the only new strings; the rest of the program's variables is as it
    was, and the calls are those of one worker after the other, with the results that are
    kept in its structure. *)
Theorem worker_init_correct n g ps F s :
  starts children → (children ≤ fork_calls (m_trace s))%nat → 0 ≤ n ≤ Z.of_nat WORKER_MAX_WORKERS → heap_is ps F (heap_of s) →
  wp (worker_init stack fuel evs n g) (λ r s', r.1 = WORKER_EXIT_SUCCESS ∧
    ∃ ws xs, Z.of_nat (length ws) = n ∧ set_up ws xs r.2 ∧
      staffed ws (gWorkerAdmin (g_workers r.2)) ∧
      own_names (psWorker (gWorkerAdmin (g_workers r.2))) xs ∧ is_master r.2 ∧
      heap_is (xs ++ ps) F (heap_of s') ∧
      NextWorker (g_workers r.2) = NextWorker (g_workers g) ∧
      g_iFd r.2 = g_iFd g ∧ g_settings r.2 = g_settings g ∧
      ∃ new, m_trace s' = m_trace s ++ new ∧ all_started ws xs new) s.
Proof. apply worker_init_wp. Qed.

(** The table has 64 slots but the number of workers wanted is not checked: asked for
    more, the same start-up writes past the end of the table. *)
Theorem too_many_workers n g s :
  starts children → (children ≤ fork_calls (m_trace s))%nat → Z.of_nat WORKER_MAX_WORKERS < n →
  fails (worker_init stack fuel evs n g) OutOfBounds s.
Proof.
  intros Hst Hch Hn. unfold worker_init.
  replace (Z.to_nat n) with (WORKER_MAX_WORKERS + S (Z.to_nat n - WORKER_MAX_WORKERS - 1))%nat by lia.
  generalize (Z.to_nat n - WORKER_MAX_WORKERS - 1)%nat as k. intros k.
  assert (∀ m ws xs g s, (length ws + m)%nat = WORKER_MAX_WORKERS → set_up ws xs g →
    (∃ F, heap_is (xs ++ []) F (heap_of s)) → (children ≤ fork_calls (m_trace s))%nat →
    fails (init_loop stack fuel evs (m + S k) (length ws) g) OutOfBounds s) as Hloop.
  { induction m as [|m IH]; intros ws xs g0 s0 Hl Hup [F Hheap] Hch0; cbn [init_loop Nat.add].
    - apply fails_bind_l. unfold init_worker. apply fails_bind; log_step. intros _ s1 _ _.
      apply fails_bind, wp_ext. intros r s2 _ _ _ _. rewrite decide_True by lia. by eexists.
    - apply fails_bind. eapply wp_mono; [by apply (init_worker_wp ws xs g0 [] F); [..|lia|]|].
      intros [ok g1] s1 (Hok & w & x & Hup1 & Hheap1 & _ & _ & _ & _ & new & Ht1 & _).
      cbn [fst snd] in *. subst ok.
      replace (S (length ws)) with (length (ws ++ [w])) by (rewrite length_app; simpl; lia).
      apply (IH (ws ++ [w]) (xs ++ [x])); [rewrite length_app; simpl; lia|done|by exists F|].
      rewrite Ht1, fork_calls_app. lia. }
  apply (Hloop WORKER_MAX_WORKERS [] []); [done|apply set_up_none|by exists (heap_of s)|done].
Qed.

(** When the fork for a worker fails, [worker_init] reports it, but the socket file
    name that was made for the worker is never released. *)
Theorem fork_failure_leaks_name g s :
  (∀ tr, x_ret (env tr X_malloc) ≠ 0) → (∀ tr, x_ret (env tr X_fork) = -1) →
  wp (worker_init stack fuel evs 1 g) (λ r s', r.1 = WORKER_EXIT_FAILURE ∧
    Forall (eq None) (psWorker (gWorkerAdmin (g_workers r.2))) ∧
    ∃ f o, heap_is [(f, o)] (heap_of s) (heap_of s')) s.
Proof.
  intros Hm Hf. unfold worker_init. change (Z.to_nat 1) with 1%nat. cbn [init_loop].
  apply wp_bind. unfold init_worker. apply wp_bind; log_step. intros _ s1 Hh1 _.
  apply wp_bind, wp_ext. intros r1 s2 -> Hh2 _ _. rewrite decide_False by (unfold WORKER_MAX_WORKERS; lia).
  rewrite (proj2 (Z.eqb_neq _ _) (Hm _)). apply wp_bind; log_step. intros _ s3 Hh3 _.
  assert (heap_is [] (heap_of s) (heap_of s3)) as Hheap by (unfold heap_is; congruence).
  apply wp_bind. eapply wp_sds_empty; [exact Hheap|]. intros f sp s4 Hheap4 _ _.
  apply wp_bind, wp_ext. intros r5 s5 _ Hh5 _ _. rewrite <-Hh5 in Hheap4.
  apply wp_bind. eapply wp_sds_catprintf; [apply ipc_file_text|exact Hheap4|apply pick_here|].
  intros f' sp' s6 Hheap6 _ _. apply wp_bind, wp_upd_log. intros _ s7 Hh7 _.
  apply wp_bind, wp_ext. intros r8 s8 -> Hh8 _ _. rewrite Hf. cbn [Z.eqb Pos.eqb].
  apply wp_bind; log_step. intros _ s9 Hh9 _. apply wp_bind, wp_ext. intros r10 s10 _ Hh10 _ _.
  apply wp_ret, wp_ret. split_and!; [done| |].
  - apply Forall_forall. intros x Hx. cbn in Hx.
    repeat (apply elem_of_cons in Hx as [->|Hx]; [done|]). by apply elem_of_nil in Hx.
  - eexists f', _. rewrite Hh10, Hh9, Hh8, Hh7. exact Hheap6.
Qed.

(** The master's side of the connection to a worker, when its calls succeed: the
    socket file is made by [bind], and only two calls later does the socket listen, so
    between them a worker that saw the file is refused; the descriptors of the listening
    and of the accepted socket are kept in the worker's structure and nothing else of it
    changes. *)
Theorem ipc_setup_order w f rnd sp ps F s :
  starts children → 0 ≤ rnd < 2 ^ 31 → IPCFile w = Some f →
  heap_is ((f, SdsObj (ipc_path rnd) sp) :: ps) F (heap_of s) →
  wp (worker_create_ipc_socket w) (λ r s', r.1 = EXIT_SUCCESS ∧ heap_of s' = heap_of s ∧
    ∃ a m new, r.2 = set_masterfd m (set_accept a w) ∧ m_trace s' = m_trace s ++ new ∧
      new.*1 = [X_unix_socket; X_stat WORKER_IPC_FOLDER; X_unlink (ipc_path rnd);
                X_bind_unix a (ipc_path rnd); X_chmod (ipc_path rnd); X_listen a 20; X_accept a]) s.
Proof.
  intros. eapply wp_mono; [by eapply create_ipc_wp|]. intros r s' (? & ? & a & m & new & ? & ? & Hev).
  split_and!; [done|done|]. exists a, m, new. split_and!; [done|done|].
  by destruct Hev as (? & ? & ? & ? & ? & ? & ? & _ & _ & _ & _ & _ & _ & ->).
Qed.

End starting.
