(* ===== verification/Monitor.v ===== *)
(** * The monitor

    [worker_monitor] of cew_worker.c, which asks about every worker once a second and forgets
    those that have ended.  The program does not call it. *)

From S2P Require Import Prelude CString Machine SdsModel Settings Worker Socket Exit Client WorkerProc.
Local Open Scope Z_scope.

(** ** Endless computations *)

(** [m] uses up its fuel, in a state of [Q]. *)
Definition goes_on {S A} (m : ST S A) (Q : S → Prop) (s : S) : Prop := ∃ s', m s = (NoFuel, s') ∧ Q s'.

Lemma goes_on_bind {S A B} (m : ST S A) (f : A → ST S B) Q s :
  wp m (λ a, goes_on (f a) Q) s → goes_on (m ≫= f) Q s.
Proof. intros (a & s1 & Hm & Hf)%wp_run. unfold goes_on, mbind, ST_bind. by rewrite Hm. Qed.

(** ** What the monitor asks *)

Abbreviation slots := (list (option tsWorkerStruct)).

(** The worker in the slot has not been reported. *)
Definition watched_slot (slot : option tsWorkerStruct) : bool :=
  match slot with Some w => negb (Pid w =? 0) | None => false end.

Definition watched_count (l : slots) : nat := length (filter (λ x, watched_slot x = true) l).

Lemma watched_count_cons x l :
  watched_count (x :: l) = ((if watched_slot x then 1 else 0) + watched_count l)%nat.
Proof. unfold watched_count. rewrite filter_cons. by destruct (watched_slot x). Qed.

(** [polled l evs l']: one round over the slots [l] asks [evs] and leaves [l']. *)
Inductive polled : slots → list event → slots → Prop :=
  | po_end : polled [] [] []
  | po_skip slot l evs l' :
      watched_slot slot = false → polled l evs l' → polled (slot :: l) evs (slot :: l')
  | po_runs w r l evs l' :
      Pid w ≠ 0 → x_ret r = 0 → polled l evs l' →
      polled (Some w :: l) ((X_waitpid (Pid w), r) :: evs) (Some w :: l')
  | po_ended w r l evs l' :
      Pid w ≠ 0 → x_ret r ≠ 0 → polled l evs l' →
      polled (Some w :: l) ((X_waitpid (Pid w), r) :: evs) (Some (set_Pid 0 w) :: l').

(** [watches n l evs l']: so [n] rounds, with a sleep after each. *)
Inductive watches : nat → slots → list event → slots → Prop :=
  | wa_end l : watches 0 l [] l
  | wa_round n l evs l1 r evs' l' :
      polled l evs l1 → watches n l1 evs' l' → watches (S n) l (evs ++ (X_sleep, r) :: evs') l'.

(** An answer that tells of an end. *)
Definition tells_end (e : event) : bool :=
  match e with (X_waitpid _, r) => negb (x_ret r =? 0) | _ => false end.
Definition told (evs : list event) : nat := length (filter (λ e, tells_end e = true) evs).

Lemma told_app evs evs' : told (evs ++ evs') = (told evs + told evs')%nat.
Proof. unfold told. by rewrite filter_app, length_app. Qed.

Lemma told_cons e evs : told (e :: evs) = ((if tells_end e then 1 else 0) + told evs)%nat.
Proof. unfold told. rewrite filter_cons. by destruct (tells_end e). Qed.

Lemma polled_counts l evs l' : polled l evs l' → (watched_count l = told evs + watched_count l')%nat.
Proof.
  induction 1 as [|slot l evs l' Hs _ IH|w r l evs l' Hw Hr _ IH|w r l evs l' Hw Hr _ IH]; [done|..];
    rewrite ?told_cons, !watched_count_cons; cbn [watched_slot tells_end set_Pid Pid].
  - rewrite Hs. lia.
  - rewrite (proj2 (Z.eqb_neq _ _) Hw), Hr. cbn. lia.
  - rewrite (proj2 (Z.eqb_neq _ _) Hw), (proj2 (Z.eqb_neq _ _) Hr). cbn. lia.
Qed.

Lemma watches_counts n l evs l' : watches n l evs l' → (watched_count l = told evs + watched_count l')%nat.
Proof.
  induction 1 as [|n l evs l1 r evs' l' Hp _ IH]; [done|]. apply polled_counts in Hp.
  rewrite told_app, told_cons. cbn [tells_end]. lia.
Qed.

Section monitor.
Context `{SL : SdsLib, LA : LoggerAPI, E : Env, EV : EvLib}.
Implicit Types (s : machine).

Lemma monitor_slots_wp n : ∀ l k s, (n ≤ length l)%nat → in_i32 (k - Z.of_nat n) → in_i32 k →
  wp (monitor_slots n l k) (λ r s', heap_of s' = heap_of s ∧
    ∃ evs l', m_trace s' = m_trace s ++ evs ∧ polled (take n l) evs l' ∧ r.1 = l' ++ drop n l ∧
      r.2 = k - Z.of_nat (told evs)) s.
Proof.
  induction n as [|n IH]; intros l k s Hn Hk Hk'.
  { apply wp_ret. split; [done|]. exists [], []. rewrite app_nil_r. split_and!; [done|constructor|done|cbn; lia]. }
  destruct l as [|slot l]; [cbn in Hn; lia|]. cbn in Hn. cbn [monitor_slots take drop].
  set (Q := λ (x : option tsWorkerStruct * Z) s1, heap_of s1 = heap_of s ∧ ∃ evs, m_trace s1 = m_trace s ++ evs ∧
    (∀ evs' l', polled (take n l) evs' l' → polled (slot :: take n l) (evs ++ evs') (x.1 :: l')) ∧
    x.2 = k - Z.of_nat (told evs) ∧ (told evs ≤ 1)%nat).
  assert (wp (monitor_slot slot k) Q s) as Hslot.
  { unfold monitor_slot, Q. destruct slot as [w|].
    2:{ apply wp_ret. split; [done|]. exists []. rewrite app_nil_r. split_and!; [done|by constructor|cbn; lia|cbn; lia]. }
    destruct (Z.eqb_spec (Pid w) 0) as [Hw|Hw].
    { apply wp_ret. split; [done|]. exists []. rewrite app_nil_r. split_and!; [done| |cbn; lia|cbn; lia].
      intros. constructor; [cbn; by rewrite Hw|done]. }
    apply wp_bind, wp_ext. intros r s1 _ Hh1 _ Ht1. destruct (Z.eqb_spec (x_ret r) 0) as [Hr|Hr].
    { apply wp_ret. split; [done|]. exists [(X_waitpid (Pid w), r)].
      assert (told [(X_waitpid (Pid w), r)] = 0%nat) as -> by (rewrite told_cons; cbn; by rewrite Hr).
      split_and!; [done|intros; by constructor|cbn; lia|lia]. }
    apply wp_bind; log_step. intros _ s2 Hh2 Ht2. apply wp_ret. split; [congruence|]. exists [(X_waitpid (Pid w), r)].
    rewrite Ht2, Ht1. assert (told [(X_waitpid (Pid w), r)] = 1%nat) as ->.
    { rewrite told_cons. cbn. by rewrite (proj2 (Z.eqb_neq _ _) Hr). }
    split_and!; [done|intros; by constructor| |lia]. cbn. unfold i32. apply (swrap_small 32); unfold in_i32 in *; lia. }
  apply wp_bind. eapply wp_mono; [exact Hslot|]. intros [slot' k1] s1 (Hh1 & evs & Ht1 & Hpo & Hk1 & Hle).
  cbn [fst snd] in *. apply wp_bind. unfold in_i32 in *. eapply wp_mono; [apply IH; [lia|unfold in_i32; lia..]|].
  intros [rest k2] s2 (Hh2 & evs' & l' & Ht2 & Hpo' & Hr & Hk2). cbn [fst snd] in *. apply wp_ret.
  split; [congruence|]. exists (evs ++ evs'), (slot' :: l'). rewrite Ht2, Ht1, <-app_assoc.
  split_and!; [done|by apply Hpo|cbn; by rewrite Hr|cbn; rewrite told_app; lia].
Qed.

Lemma monitor_loop_goes_on (A : Type) fuel : ∀ n l rest k g s,
  psWorker (gWorkerAdmin (g_workers g)) = l ++ rest → uiCurrWorkers (gWorkerAdmin (g_workers g)) = Z.of_nat n →
  length l = n → Z.of_nat n ≤ 2 ^ 30 → Z.of_nat (watched_count l) ≤ k ≤ 2 ^ 30 →
  goes_on (monitor_loop (A := A) fuel false k g) (λ s', heap_of s' = heap_of s ∧
    ∃ evs l', m_trace s' = m_trace s ++ evs ∧ watches fuel l evs l') s.
Proof.
  induction fuel as [|fuel IH]; intros n l rest k g s Htab Hn Hl Hb Hk; cbn [monitor_loop].
  { exists s. split; [done|]. split; [done|]. exists [], l. rewrite app_nil_r. split; [done|constructor]. }
  rewrite Hn, Nat2Z.id, Htab. apply goes_on_bind.
  eapply wp_mono; [apply (monitor_slots_wp n); [rewrite length_app; lia|unfold in_i32; lia..]|].
  rewrite take_app_length', drop_app_length' by done.
  intros [slots' k1] s1 (Hh1 & evs & l1 & Ht1 & Hpo & Hr & Hk1). cbn [fst snd] in *.
  apply goes_on_bind; log_step. intros _ s2 Hh2 Ht2. apply goes_on_bind, wp_ext. intros r s3 _ Hh3 _ Ht3.
  assert (length l1 = length l) as Hlen by (clear -Hpo; induction Hpo; cbn; congruence).
  pose proof (polled_counts _ _ _ Hpo) as Hcount.
  match goal with |- goes_on (monitor_loop _ _ _ ?g1) _ _ =>
    destruct (IH n l1 rest k1 g1 s3) as (s' & Hrun & Hh & evs' & l' & Ht & Hw) end; try done; [cbn; lia|lia|].
  exists s'. split; [done|]. split; [congruence|]. exists (evs ++ (X_sleep, r) :: evs'), l'.
  rewrite Ht, Ht3, Ht2, Ht1, <-!app_assoc. split; [done|]. by eapply wa_round.
Qed.

(** C22: The monitor, for any number of workers in the first slots of the table and whatever
    the answers are.  Without the flag it never ends: after every number of rounds it is still
    going, and in each round it has asked once, in the order of the table, about each worker
    whose end it has not been told of, and slept; so it is told of each end once, never of
    more ends than there are workers, and changes nothing but the process numbers of those.
    With the flag it ends the process at once, as [do_exit] does. *)
Theorem worker_monitor_correct (A : Type) fuel g l rest s :
  psWorker (gWorkerAdmin (g_workers g)) = l ++ rest →
  uiCurrWorkers (gWorkerAdmin (g_workers g)) = Z.of_nat (length l) → (length l ≤ WORKER_MAX_WORKERS)%nat →
  goes_on (worker_monitor (A := A) fuel false g) (λ s', heap_of s' = heap_of s ∧
    ∃ evs l', m_trace s' = m_trace s ++ evs ∧ watches fuel l evs l' ∧
      (watched_count l = told evs + watched_count l')%nat) s ∧
  (∃ s1, heap_of s1 = heap_of s ∧ m_trace s1 = m_trace s ∧
     worker_monitor (A := A) (S fuel) true g s = do_exit 0 g s1).
Proof.
  unfold WORKER_MAX_WORKERS. intros Htab Hn Hmax. assert (watched_count l ≤ length l)%nat as Hle by apply length_filter.
  unfold worker_monitor. rewrite Hn.
  replace (i32 (Z.of_nat (length l))) with (Z.of_nat (length l)) by (symmetry; apply (swrap_small 32); lia).
  split.
  - apply goes_on_bind; log_step. intros _ s1 Hh1 Ht1.
    destruct (monitor_loop_goes_on A fuel (length l) l rest (Z.of_nat (length l)) g s1)
      as (s' & Hrun & Hh & evs & l' & Ht & Hw); [done|done|done|lia|lia|].
    exists s'. split; [done|]. split; [congruence|]. exists evs, l'. rewrite Ht, Ht1.
    split_and!; [done|done|by eapply watches_counts].
  - pose proof (wp_log eDEBUG "Trying to monitor %d workers." [AInt (Z.of_nat (length l))]
      (λ _ s', heap_of s' = heap_of s ∧ m_trace s' = m_trace s) s ltac:(vm_compute; reflexivity)) as Hlog.
    apply wp_run in Hlog as (z & s1 & Hrun & Hh & Ht); [|done]. exists s1. split_and!; [done|done|].
    unfold log_debug, mbind, ST_bind. by rewrite Hrun.
Qed.

End monitor.
