(* ===== verification/Reaction.v ===== *)
(** * One event of a worker

    What a callback of a worker's event loop does, as one relation: the calls it makes, in
    order, and the clients it leaves.  The cases are those of [client_callback_serve],
    [client_callback_timeout] and [workerp_ipc_callback]; the composition of the processes
    is proved from this relation alone. *)

From S2P Require Import Prelude CString Machine SdsModel Http Worker Client WorkerProc.
Local Open Scope Z_scope.

(** The result of [recvmsg] is refused by [receive_fd_from_worker]. *)
Definition no_message (r : ext_ret) : Prop := x_ret r = -1 ∨ (length (x_data r) < CMSG_HDR)%nat.

(** The descriptor the worker finds in it otherwise. *)
Definition message_fd (stack : bytes) (r : ext_ret) : Z :=
  fd_of_message (x_data r ++ drop (length (x_data r)) stack).

(** [reaction stack E tr w cs e new cs']: with the clients [cs], after the calls [tr], the
    event [e] makes the calls [new] and leaves the clients [cs']. *)
Inductive reaction (stack : bytes) (E : Env) (tr : list event) (w : tsWorkerStruct) (cs : clients)
  : wevent → list event → clients → Prop :=
  | re_no_message r :
      r = env tr (X_recvmsg (iWorkerIPCfd w)) → no_message r →
      reaction stack E tr w cs Ev_ipc [(X_recvmsg (iWorkerIPCfd w), r)] cs
  | re_registered r p id ip new (on : bool) :
      r = env tr (X_recvmsg (iWorkerIPCfd w)) → ¬ no_message r →
      cs !! p = None → Forall registers new.*1 → (knows_peers → on = true) →
      reaction stack E tr w cs Ev_ipc ((X_recvmsg (iWorkerIPCfd w), r) :: new)
        (<[p := ClientEv (new_client (message_fd stack r) id ip) on on]> cs)
  | re_inactive e p :
      e = Ev_client p ∨ e = Ev_timeout p → from_option io false (cs !! p) = false →
      reaction stack E tr w cs e [] cs
  | re_error p c r :
      cs !! p = Some (ClientEv c true true) →
      r = env tr (X_recv (iSockfd c) RECV_BUFF_SIZE) → x_ret r < 0 →
      reaction stack E tr w cs (Ev_client p) [(X_recv (iSockfd c) RECV_BUFF_SIZE, r)] cs
  | re_gone p c r down :
      cs !! p = Some (ClientEv c true true) →
      r = env tr (X_recv (iSockfd c) RECV_BUFF_SIZE) → x_ret r = 0 → deregistered p (iSockfd c) down →
      reaction stack E tr w cs (Ev_client p) ((X_recv (iSockfd c) RECV_BUFF_SIZE, r) :: down) (delete p cs)
  | re_served p c r r1 evs resp r2 down :
      cs !! p = Some (ClientEv c true true) →
      r = env tr (X_recv (iSockfd c) RECV_BUFF_SIZE) → 0 < x_ret r →
      handled (cprefix (x_data r)) evs resp → deregistered p (iSockfd c) down →
      reaction stack E tr w cs (Ev_client p)
        ([(X_recv (iSockfd c) RECV_BUFF_SIZE, r); (X_ev_timer_again (Zpos p), r1)] ++ evs ++
         [(X_send (iSockfd c) resp, r2)] ++ down) (delete p cs)
  | re_timeout p c down :
      cs !! p = Some (ClientEv c true true) → deregistered p (iSockfd c) down →
      reaction stack E tr w cs (Ev_timeout p) down (delete p cs)
  | re_signal r :
      reaction stack E tr w cs Ev_sigint [(X_ev_break, r)] cs.

(** No client has the descriptor 0, which [client_deregister] takes for none. *)
Definition proper_fds (cs : clients) : Prop := ∀ p e, cs !! p = Some e → iSockfd (sClient e) ≠ 0.

(** [accident fuel E tr F w cs e f]: the event [e] fails in the way [f], with the strings [F]
    allocated: there is no memory for the client of a message; the data of a request fills
    the buffer without a zero, or its media type moves; or a socket that was shut down cannot
    be read to its end within [fuel] rounds. *)
Inductive accident `{SL : SdsLib} (fuel : nat) (E : Env) (tr : list event) (F : gmap sds sds_obj)
    (w : tsWorkerStruct) (cs : clients) : wevent → failure → Prop :=
  | ac_memory r :
      r = env tr (X_recvmsg (iWorkerIPCfd w)) → ¬ no_message r →
      x_ret (env (tr ++ [(X_recvmsg (iWorkerIPCfd w), r)]) X_malloc) = 0 →
      accident fuel E tr F w cs Ev_ipc (Bad NullDeref)
  | ac_request p c r f :
      cs !! p = Some (ClientEv c true true) →
      r = env tr (X_recv (iSockfd c) RECV_BUFF_SIZE) → 0 < x_ret r →
      serve_fails fuel (iSockfd c) F (x_data r) tr f →
      accident fuel E tr F w cs (Ev_client p) f
  | ac_drain e p c :
      e = Ev_client p ∨ e = Ev_timeout p → cs !! p = Some (ClientEv c true true) →
      never_drained fuel (iSockfd c) tr →
      accident fuel E tr F w cs e Endless.

Section reaction.
Context `{SL : SdsLib, SS : !SdsSpec SL, LA : LoggerAPI, E : Env}.
Context (stack : bytes) (fuel : nat) (kernel_behaves : kernel_ok).
Implicit Types (s : machine) (cs : clients).

(** [m] reacts to [e], or has an accident. *)
Definition reacts (w : tsWorkerStruct) (cs : clients) (e : wevent) (m : M clients) s : Prop :=
  wpf m (λ cs' s', heap_of s' = heap_of s ∧
    ∃ new, m_trace s' = m_trace s ++ new ∧ reaction stack E (m_trace s) w cs e new cs')
    (accident fuel E (m_trace s) (heap_of s) w cs e) s.

(** An active client, from the invariant of the loop. *)
Lemma active_client cs p :
  clients_ok cs → from_option io false (cs !! p) = true →
  ∃ c, cs !! p = Some (ClientEv c true true) ∧ acRecvBuff c = zeroed ∧ acSendBuff c = None.
Proof.
  intros Hok Ha. destruct (cs !! p) as [[c a b]|] eqn:Hp; [|done]. cbn in Ha. subst a.
  destruct (Hok _ _ Hp) as (? & ? & Hb). cbn in Hb. subst b. by exists c.
Qed.

Lemma timer_is_io cs p :
  clients_ok cs → from_option timer false (cs !! p) = from_option io false (cs !! p).
Proof.
  intros Hok. destruct (cs !! p) as [e|] eqn:Hp; [|done]. by destruct (Hok _ _ Hp) as (_ & _ & Hb).
Qed.

Lemma ipc_reacts w cs s : reacts w cs Ev_ipc (workerp_ipc_callback stack w cs) s.
Proof.
  unfold reacts, workerp_ipc_callback, receive_fd_from_worker.
  apply wpf_bind, wpf_bind_wp, wp_ext. intros r s1 Hr0 Hh1 _ Ht1.
  set (Q := λ cs' s', heap_of s' = heap_of s ∧ ∃ new, m_trace s' = m_trace s ++ new ∧
       reaction stack E (m_trace s) w cs Ev_ipc new cs').
  set (U := accident fuel E (m_trace s) (heap_of s) w cs Ev_ipc).
  assert (no_message r → wpf (_ ← log_error "reading from ipc failed !" []; mret cs) Q U s1) as Hno.
  { intros Hn. apply wpf_wp, wp_bind; log_step. intros _ s2 Hh2 Ht2. apply wp_ret. split; [congruence|].
    eexists. rewrite Ht2. split; [exact Ht1|]. by constructor. }
  destruct (Z.eqb_spec (x_ret r) (-1)) as [Hr|Hr]; [apply wpf_wp, wp_ret, Hno; by left|].
  case_decide as Hl; apply wpf_wp, wp_ret; [apply Hno; by right|]. cbn [Z.eqb WORKER_EXIT_SUCCESS EXIT_SUCCESS].
  assert (¬ no_message r) as Hmsg by (by intros []).
  apply wpf_bind_wp; log_step. intros _ s2 Hh2 Ht2. apply wpf_bind.
  destruct (decide (x_ret (env (m_trace s2) X_malloc) = 0)) as [Hm|Hm].
  { unfold client_register_ev. apply wpf_bind_wp, wp_ext. intros x s3 -> _ _ _. rewrite Hm.
    apply wpf_undef. rewrite Ht2, Ht1 in Hm. by eapply ac_memory. }
  apply wpf_wp. eapply wp_mono; [by apply (client_register_wp _ cs)|].
  intros [z cs'] s3 (Hh3 & p & id & ip & new & Hp & Ht3 & Hreg & _ & Hcs & _ & Hon). cbn in Hcs. subst cs'.
  apply wpf_wp, wp_bind. eapply (wp_mono _ (λ _ s', heap_of s' = heap_of s3 ∧ m_trace s' = m_trace s3)).
  { destruct (z =? EXIT_SUCCESS); [by apply wp_ret|by log_step]. }
  intros _ s4 [Hh4 Ht4]. apply wp_ret. split; [congruence|]. eexists.
  rewrite Ht4, Ht3, Ht2, Ht1, <-app_assoc. split; [done|]. by constructor.
Qed.

Lemma serve_reacts w cs p s :
  clients_ok cs → proper_fds cs → from_option io false (cs !! p) = true →
  reacts w cs (Ev_client p) (client_callback_serve fuel p cs) s.
Proof.
  intros Hok Hfds Ha. destruct kernel_behaves as [Hfile Hfit].
  destruct (active_client _ _ Hok Ha) as (c & Hp & Hbuf & Hsend).
  pose proof (Hfds _ _ Hp) as Hfd. cbn in Hfd. unfold reacts.
  destruct (Z.ltb_spec 0 (x_ret (env (m_trace s) (X_recv (iSockfd c) RECV_BUFF_SIZE)))) as [Hr|Hr].
  - eapply wpf_mono; [by apply (serve_wpf fuel p cs c)| |].
    + intros cs' s' (-> & Hh & r1 & evs & resp & r2 & down & Hhd & Hdown & Ht). split; [done|].
      eexists. split; [exact Ht|]. by eapply re_served.
    + intros f Hf. by eapply ac_request.
  - eapply wpf_mono; [by apply (client_not_served fuel p cs c)| |].
    + intros cs' s' (Hh & r & new & Hr' & Ht & Hcase). split; [done|]. eexists. split; [exact Ht|].
      destruct (Z.ltb_spec (x_ret r) 0); destruct Hcase as [-> Hnew]; [subst new; by eapply re_error|].
      eapply re_gone; [done|done|subst r; lia|done].
    + intros f [-> Hf]. eapply ac_drain; [by left|done|done].
Qed.

Lemma timeout_reacts w cs p s :
  clients_ok cs → proper_fds cs → from_option io false (cs !! p) = true →
  reacts w cs (Ev_timeout p) (client_callback_timeout fuel p cs) s.
Proof.
  intros Hok Hfds Ha. destruct (active_client _ _ Hok Ha) as (c & Hp & _ & Hsend).
  unfold reacts, client_callback_timeout, get_client. rewrite Hp. apply wpf_bind_wp, wp_ret.
  apply wpf_bind_wp; log_step. intros _ s1 Hh1 Ht1. apply wpf_bind.
  eapply wpf_mono; [eapply client_deregister_wpf; [done|by apply (Hfds _ _ Hp)|done]| |].
  - intros [z cs'] s2 ([= -> ->] & Hh2 & down & Ht2 & Hdown). apply wpf_wp, wp_ret. split; [congruence|].
    exists down. split; [congruence|]. by eapply re_timeout.
  - intros f [-> Hf]. rewrite Ht1 in Hf. eapply ac_drain; [by right|done|done].
Qed.

Lemma dispatch_wpf w e cs s :
  clients_ok cs → proper_fds cs → reacts w cs e (dispatch stack fuel w e cs) s.
Proof.
  intros Hok Hfds. assert (∀ p, e = Ev_client p ∨ e = Ev_timeout p →
    from_option io false (cs !! p) = false → reacts w cs e (mret cs) s) as Hoff.
  { intros p He Hp. apply wpf_wp, wp_ret. split; [done|]. exists []. rewrite app_nil_r.
    by split; [|eapply re_inactive]. }
  destruct e as [|p|p|]; cbn [dispatch].
  - apply ipc_reacts.
  - destruct (from_option io false (cs !! p)) eqn:Hp; [by apply serve_reacts|eapply Hoff; eauto].
  - rewrite timer_is_io by done.
    destruct (from_option io false (cs !! p)) eqn:Hp; [by apply timeout_reacts|eapply Hoff; eauto].
  - apply wpf_wp, wp_bind, wp_ext. intros r s1 _ Hh1 _ Ht1. apply wp_ret. split; [done|].
    eexists. split; [exact Ht1|]. constructor.
Qed.

(** C18: Each event of a worker's loop, for any well-formed clients and all answers of the
    kernel that store no more bytes than asked for, is handled as one case of [reaction]
    says, with exactly the calls of that case in that order, and all strings released: a
    message of the master registers one client at a new address with the descriptor of the
    message, or is refused; data is answered once and the client taken down; an end of the
    connection or a timeout takes it down without an answer; a receive error or an inactive
    watcher changes nothing.  Otherwise the event is one of the cases of [accident], and fails
    in the way said there: no memory for a new client, a request that fills the whole buffer,
    an append of the media type that moves the string, or a socket that cannot be drained. *)
Theorem dispatch_correct w e cs s :
  clients_ok cs → proper_fds cs →
  wpf (dispatch stack fuel w e cs) (λ cs' s', heap_of s' = heap_of s ∧
    ∃ new, m_trace s' = m_trace s ++ new ∧ reaction stack E (m_trace s) w cs e new cs')
    (accident fuel E (m_trace s) (heap_of s) w cs e) s.
Proof. apply dispatch_wpf. Qed.

End reaction.
