(* ===== verification/System.v ===== *)
(** * The processes together

    The master and its workers as communicating processes.  A step is one callback of one
    process, run from start to end by the definitions of the other files, with the answers
    the operating system gives.  What the processes share is only what the operating system
    keeps for them: the descriptors of each process, the connections they refer to, and the
    messages on their way from the master to a worker.  [master_call] and [worker_call] say
    which answers are possible and what they change.

    Against it stands an abstract machine that knows nothing of processes, descriptors and
    messages, only the fate of each connection ([status], [deal_step]). *)

From stdpp Require Export sorting.
From S2P Require Import Prelude CString Machine SdsModel Http Worker Socket Client WorkerProc Reaction.
Local Open Scope Z_scope.

(** ** Descriptors, connections and messages *)

(** What a descriptor refers to: the connection accepted as number [n] (from 0), the IPC
    connection between the master and worker [i], or something else. *)
Inductive fdesc : Type := Conn (n : nat) | Link (i : nat) | Other.

#[global] Instance fdesc_eq_dec : EqDecision fdesc.
Proof. solve_decision. Defined.

Abbreviation fd_table := (gmap Z fdesc).

(** What happens on a connection: data received, data that the kernel took to be sent, and a
    shutdown. *)
Inductive wire : Type := Received (data : bytes) | Replied (data : bytes) | Shut.

(** The kernel's side of a worker: its descriptors, the connections sent to it and not yet
    taken, and what it did on connections. *)
Record endpoint : Type := Endpoint {
  fds : fd_table;
  inbox : list nat;
  history : list (nat * wire);
}.

(** A number that a new descriptor may get. *)
Definition free_fd (fd : Z) (t : fd_table) : bool :=
  bool_decide (0 ≤ fd < 2 ^ 31) && bool_decide (t !! fd = None).

(** A call on a connection, with what it did there if it succeeded ([None]: a result the
    kernel does not give); it may fail, and on anything but a connection it does. *)
Definition on_conn (fd : Z) (x : option wire) (r : ext_ret) (k : endpoint) : option endpoint :=
  if x_ret r =? -1 then Some k else
  match fds k !! fd, x with
  | Some (Conn n), Some x => Some (Endpoint (fds k) (inbox k) (history k ++ [(n, x)]))
  | _, _ => None
  end.

(** [send] takes some of the bytes, from the front; [shutdown] returns 0. *)
Definition sent_part (data : bytes) (r : ext_ret) : option wire :=
  if bool_decide (0 ≤ x_ret r ≤ Z.of_nat (length data))
  then Some (Replied (take (Z.to_nat (x_ret r)) data)) else None.
Definition shut_down (r : ext_ret) : option wire := if x_ret r =? 0 then Some Shut else None.

(** The number in the control data that [recvmsg] wrote, and that this is what the kernel
    writes for one descriptor. *)
Definition given_fd (cMsg : bytes) : Z := i32 (le_read (take 4 (drop 16 cMsg))).
Definition carries (cMsg : bytes) (fd : Z) : bool :=
  bool_decide (length cMsg = 24%nat) && bool_decide (cMsg = kernel_gives fd (drop 20 cMsg)).

(** A call of a worker: [None] when the kernel would not give this answer. *)
Definition worker_call (c : ext_call) (r : ext_ret) (k : endpoint) : option endpoint :=
  match c with
  | X_recvmsg fd =>
      if (x_ret r =? -1) || bool_decide (length (x_data r) < CMSG_HDR)%nat then Some k else
      match fds k !! fd, inbox k with
      | Some (Link _), n :: rest =>
          let fd' := given_fd (x_data r) in
          if carries (x_data r) fd' && free_fd fd' (fds k)
          then Some (Endpoint (<[fd' := Conn n]> (fds k)) rest (history k)) else None
      | _, _ => None
      end
  | X_recv fd _ =>
      if x_ret r <=? 0 then Some k
      else if x_ret r =? Z.of_nat (length (x_data r)) then on_conn fd (Some (Received (x_data r))) r k
      else None
  | X_send fd data => on_conn fd (sent_part data r) r k
  | X_shutdown fd => on_conn fd (shut_down r) r k
  | X_close fd => Some (Endpoint (delete fd (fds k)) (inbox k) (history k))
  | X_open _ | X_socket | X_unix_socket | X_accept _ | X_dup _ =>
      if x_ret r =? -1 then Some k
      else if free_fd (x_ret r) (fds k)
      then Some (Endpoint (<[x_ret r := Other]> (fds k)) (inbox k) (history k)) else None
  | _ => Some k
  end.

Fixpoint worker_calls (evs : list event) (k : endpoint) : option endpoint :=
  match evs with
  | [] => Some k
  | (c, r) :: evs' => k' ← worker_call c r k; worker_calls evs' k'
  end.

(** ** The processes *)

(** A worker process: its own entry, its clients, and the rest of its state. *)
Record process `{SL : SdsLib, LA : LoggerAPI} : Type := Process {
  p_self : tsWorkerStruct;
  p_clients : clients;
  p_running : bool;
  p_machine : machine;
  p_end : endpoint;
}.
#[global] Arguments Process {_ _} _ _ _ _ _.

(** The master (its variables, the rest of its state, its descriptors), the number of
    connections accepted so far, and the workers. *)
Record system `{SL : SdsLib, LA : LoggerAPI} : Type := System {
  s_state : worker_state;
  s_machine : machine;
  s_fds : fd_table;
  s_accepted : nat;
  s_procs : list process;
}.
#[global] Arguments System {_ _} _ _ _ _ _.

(** What can happen next: the listening socket of the master is readable, or the loop of
    worker [i] reports [e]; in either case with the answers of [E]. *)
Inductive action : Type :=
  | A_accept (E : Env)
  | A_event (i : nat) (E : Env) (e : wevent).

Section system.
Context `{SL : SdsLib, LA : LoggerAPI}.
Context (stack : bytes) (fuel : nat) (iFd : Z).
Implicit Types (s : system) (p : process).

(** A message that reached worker [i]. *)
Definition deliver (n : nat) p : process :=
  Process (p_self p) (p_clients p) (p_running p) (p_machine p)
    (Endpoint (fds (p_end p)) (inbox (p_end p) ++ [n]) (history (p_end p))).

(** A call of the master. *)
Definition master_call (c : ext_call) (r : ext_ret) s : option system :=
  match c with
  | X_accept _ =>
      if x_ret r =? -1 then Some s
      else if free_fd (x_ret r) (s_fds s)
      then Some (System (s_state s) (s_machine s) (<[x_ret r := Conn (s_accepted s)]> (s_fds s))
                   (S (s_accepted s)) (s_procs s))
      else None
  | X_sendmsg fd cMsg =>
      if x_ret r =? -1 then Some s else
      match s_fds s !! fd, kernel_takes cMsg with
      | Some (Link i), Some [fd'] =>
          match s_fds s !! fd' with
          | Some (Conn n) =>
              Some (System (s_state s) (s_machine s) (s_fds s) (s_accepted s)
                      (alter (deliver n) i (s_procs s)))
          | _ => None
          end
      | _, _ => None
      end
  | X_close fd =>
      Some (System (s_state s) (s_machine s) (delete fd (s_fds s)) (s_accepted s) (s_procs s))
  | _ => Some s
  end.

Fixpoint master_calls (evs : list event) s : option system :=
  match evs with
  | [] => Some s
  | (c, r) :: evs' => s' ← master_call c r s; master_calls evs' s'
  end.

(** The calls a process made between two of its states. *)
Definition calls_between (m m' : machine) : list event := drop (length (m_trace m)) (m_trace m').

(** Goes on after a callback that returned. *)
Definition returned {A B} (r : outcome A) (f : A → option B) : option (outcome B) :=
  match r with
  | Ok a => Ok <$> f a
  | Exited z => Some (Exited z)
  | Undef u => Some (Undef u)
  | NoFuel => Some NoFuel
  end.

(** One step.  [None]: the step is not possible, because there is no such worker, or it has
    left its loop, or because the kernel would not give these answers.  Otherwise the
    outcome of the callback, with the state after it if it returned. *)
Definition perform (a : action) s : option (outcome system) :=
  match a with
  | A_accept E =>
      let '(r, m) := socket_accept_client (E := E) stack iFd (s_state s) (s_machine s) in
      returned r (λ g,
        s' ← master_calls (calls_between (s_machine s) m) s;
        Some (System g m (s_fds s') (s_accepted s') (s_procs s')))
  | A_event i E e =>
      p ← s_procs s !! i;
      if negb (p_running p) then None else
      let '(r, m) := dispatch (E := E) stack fuel (p_self p) e (p_clients p) (p_machine p) in
      returned r (λ cs,
        k ← worker_calls (calls_between (p_machine p) m) (p_end p);
        Some (System (s_state s) (s_machine s) (s_fds s) (s_accepted s)
          (<[i := Process (p_self p) cs (bool_decide (e ≠ Ev_sigint)) m k]> (s_procs s))))
  end.

Definition surroundings_of (a : action) : Env :=
  match a with A_accept E => E | A_event _ E _ => E end.

Definition sys_step s s' : Prop :=
  ∃ a, @kernel_ok (surroundings_of a) ∧ perform a s = Some (Ok s').

(** After start-up: every worker is connected, nothing has been accepted.  Descriptor 0 is
    taken in every worker (each closes the inherited one, and then its first socket gets
    that number). *)
Record at_start (ws : list tsWorkerStruct) s : Prop := {
  as_workers : ws ≠ [] ∧ length (s_procs s) = length ws ∧ staffed ws (gWorkerAdmin (s_state s));
  as_next : NextWorker (s_state s) = NextWorker worker_zero;
  as_none : s_accepted s = O;
  as_master i w : ws !! i = Some w → s_fds s !! iMasterIPCfd w = Some (Link i);
  as_worker i p : s_procs s !! i = Some p →
    p_clients p = ∅ ∧ inbox (p_end p) = [] ∧ history (p_end p) = [] ∧
    fds (p_end p) !! iWorkerIPCfd (p_self p) = Some (Link i) ∧
    is_Some (fds (p_end p) !! 0) ∧ (∀ fd n, fds (p_end p) !! fd ≠ Some (Conn n));
}.

End system.

(** ** The abstract machine *)

(** The fate of a connection: its message could not be sent; it is on its way to its worker;
    the worker holds it and waits for data; the worker holds it but could not register it;
    for this data this response was handed to the kernel, which took this part of it (or the
    send failed), and the connection was closed, after a shutdown that succeeded or not; it
    was closed without an answer, again after a shutdown. *)
Inductive status : Type :=
  | Lost | Waiting | Held | Stuck
  | Answered (data resp : bytes) (sent : option bytes) (shut : bool)
  | Dropped (shut : bool).

(** What the kernel took of a response. *)
Definition part_of (resp : bytes) (sent : option bytes) : Prop :=
  ∀ d, sent = Some d → d `prefix_of` resp.

(** The state: the fate of every connection, in the order of arrival. *)
Inductive deal_step (workers : nat) : list status → list status → Prop :=
  | deal_arrive l st :
      st = Waiting ∨ st = Lost → deal_step workers l (l ++ [st])
  | deal_take l n st :
      l !! n = Some Waiting →
      (∀ m, (m < n)%nat → (m mod workers = n mod workers)%nat → l !! m ≠ Some Waiting) →
      st = Held ∨ st = Stuck → deal_step workers l (<[n := st]> l)
  | deal_answer l n data evs resp sent shut :
      l !! n = Some Held → handled (cprefix data) evs resp → part_of resp sent →
      deal_step workers l (<[n := Answered data resp sent shut]> l)
  | deal_drop l n shut :
      l !! n = Some Held → deal_step workers l (<[n := Dropped shut]> l).

(** ** What the kernel's side of a worker can become *)

Lemma worker_calls_app evs1 evs2 k :
  worker_calls (evs1 ++ evs2) k = (k' ← worker_calls evs1 k; worker_calls evs2 k').
Proof.
  revert k. induction evs1 as [|[c r] evs1 IH]; intros k; [done|]. cbn.
  destruct (worker_call c r k) as [k'|]; [apply IH|done].
Qed.

Lemma worker_calls_registers new k : Forall registers new.*1 → worker_calls new k = Some k.
Proof.
  induction new as [|[c r] new IH]; [done|]. cbn. intros [Hc Hnew]%Forall_cons.
  destruct c; try done; by apply IH.
Qed.

Lemma worker_calls_reads fd rs k : worker_calls (read_events fd rs) k = Some k.
Proof. unfold read_events. induction rs as [|r rs IH]; [done|]. apply IH. Qed.

(** More descriptors, none of them of a connection. *)
Definition grows (k k' : endpoint) : Prop :=
  inbox k' = inbox k ∧ history k' = history k ∧
  (∀ fd d, fds k !! fd = Some d → fds k' !! fd = Some d) ∧
  (∀ fd n, fds k' !! fd = Some (Conn n) → fds k !! fd = Some (Conn n)).

Lemma grows_refl k : grows k k.
Proof. done. Qed.

Lemma free_fd_Some fd t : free_fd fd t = true → 0 ≤ fd < 2 ^ 31 ∧ t !! fd = None.
Proof. unfold free_fd. intros [?%bool_decide_eq_true ?%bool_decide_eq_true]%andb_prop. done. Qed.

Lemma grows_insert fd k :
  fds k !! fd = None → grows k (Endpoint (<[fd := Other]> (fds k)) (inbox k) (history k)).
Proof.
  intros Hfd. split_and!; [done|done| |]; cbn; intros fd' x Hx.
  - rewrite lookup_insert_ne; [done|congruence].
  - apply lookup_insert_Some in Hx as [[_ ?]|[_ ?]]; done.
Qed.

Lemma open_grows path r k k' : worker_call (X_open path) r k = Some k' → grows k k'.
Proof.
  cbn. destruct (x_ret r =? -1); [intros [= <-]; apply grows_refl|].
  destruct (free_fd _ _) eqn:Hf; [|done]. intros [= <-].
  apply free_fd_Some in Hf as [_ Hf]. by apply grows_insert.
Qed.

(** A request costs at most one more descriptor. *)
Lemma handled_grows req evs resp k k' :
  handled req evs resp → worker_calls evs k = Some k' → grows k k'.
Proof.
  destruct 1; cbn [worker_calls mbind option_bind worker_call].
  1-4: intros [= <-]; apply grows_refl.
  all: intros Hk; apply (open_grows (file_path t) ro); cbn.
  all: destruct (x_ret ro =? -1); [done|by destruct (free_fd (x_ret ro) (fds k))].
Qed.

(** What a shutdown leaves in the history. *)
Definition shut_wire (shut : bool) : list wire := if shut then [Shut] else [].

Lemma on_conn_Some fd x r k k' n :
  fds k !! fd = Some (Conn n) → on_conn fd x r k = Some k' →
  (x_ret r = -1 ∧ k' = k) ∨
  ∃ y, x = Some y ∧ k' = Endpoint (fds k) (inbox k) (history k ++ [(n, y)]).
Proof.
  intros Hfd. unfold on_conn. rewrite Hfd. destruct (Z.eqb_spec (x_ret r) (-1)) as [Hr|_].
  - intros [= <-]. by left.
  - destruct x as [y|]; [|done]. intros [= <-]. right. by exists y.
Qed.

Lemma deregistered_calls p fd n down k k' :
  deregistered p fd down → fds k !! fd = Some (Conn n) → worker_calls down k = Some k' →
  ∃ shut, k' = Endpoint (delete fd (fds k)) (inbox k) (history k ++ ((n,.) <$> shut_wire shut)).
Proof.
  intros (r1 & r2 & r3 & rs & r4 & ->) Hfd. cbn [app worker_calls worker_call mbind option_bind].
  intros (k1 & Hk1 & Hk)%bind_Some. rewrite worker_calls_app, worker_calls_reads in Hk. injection Hk as <-.
  apply (on_conn_Some _ _ _ _ _ n Hfd) in Hk1 as [[_ ->]|(y & Hy & ->)].
  - exists false. cbn. by rewrite app_nil_r.
  - exists true. unfold shut_down in Hy. destruct (x_ret r3 =? 0); [by injection Hy as <-|done].
Qed.

(** ** A worker and the fates of its connections *)

Definition wires (n : nat) (h : list (nat * wire)) : list wire := (filter (λ x, x.1 = n) h).*2.
#[global] Arguments wires : simpl never.

(** What happened on a connection of this fate. *)
Definition wire_of (st : option status) : list wire :=
  match st with
  | Some (Answered data resp sent shut) => Received data :: (Replied <$> option_list sent) ++ shut_wire shut
  | Some (Dropped shut) => shut_wire shut
  | _ => []
  end.

(** The connection has come to an end in its worker. *)
Definition is_over (st : status) : Prop :=
  match st with Answered _ _ _ _ | Dropped _ => True | _ => False end.

Definition kept (st : option status) : Prop := st = Some Held ∨ st = Some Stuck.

(** The connections [f] of a worker, with their fates, are what the worker's clients and
    the kernel's side show. *)
Record tracks (f : nat → option status) (cs : clients) (k : endpoint) : Prop := {
  tk_sorted : StronglySorted lt (inbox k);
  tk_inbox n : n ∈ inbox k ↔ f n = Some Waiting;
  tk_ok : clients_ok cs;
  tk_zero : ∃ d, fds k !! 0 = Some d ∧ ∀ n, d ≠ Conn n;
  tk_client a e : cs !! a = Some e → ∃ n, fds k !! iSockfd (sClient e) = Some (Conn n) ∧
    f n = Some (if io e then Held else Stuck);
  tk_once a b e e' : cs !! a = Some e → cs !! b = Some e' →
    iSockfd (sClient e) = iSockfd (sClient e') → a = b;
  tk_fd fd n : fds k !! fd = Some (Conn n) → kept (f n);
  tk_same fd fd' n : fds k !! fd = Some (Conn n) → fds k !! fd' = Some (Conn n) → fd = fd';
  tk_kept n : kept (f n) →
    ∃ a e, cs !! a = Some e ∧ fds k !! iSockfd (sClient e) = Some (Conn n);
  tk_wire n : wires n (history k) = wire_of (f n);
}.

Definition become (n : nat) (st : status) (f : nat → option status) : nat → option status :=
  λ m, if decide (m = n) then Some st else f m.

Lemma become_eq n st f : become n st f n = Some st.
Proof. unfold become. by rewrite decide_True. Qed.
Lemma become_ne n st f m : m ≠ n → become n st f m = f m.
Proof. intros. unfold become. by rewrite decide_False. Qed.

Lemma tracks_ext f f' cs k : (∀ n, f' n = f n) → tracks f cs k → tracks f' cs k.
Proof.
  intros Hf []. unfold kept in *. split; unfold kept; try setoid_rewrite Hf; done.
Qed.

Lemma tracks_proper f cs k : tracks f cs k → proper_fds cs.
Proof.
  intros [] a e Ha Hz. destruct (tk_client0 _ _ Ha) as (n & Hn & _). rewrite Hz in Hn.
  destruct tk_zero0 as (d & Hd & Hc). rewrite Hd in Hn. injection Hn as ->. by apply (Hc n).
Qed.

Lemma tracks_grows f cs k k' : grows k k' → tracks f cs k → tracks f cs k'.
Proof.
  intros (Hi & Hh & Hup & Hdown) [].
  split; rewrite ?Hi, ?Hh; auto.
  - destruct tk_zero0 as (d & ? & ?). eauto.
  - intros a e Ha. destruct (tk_client0 _ _ Ha) as (n & ? & ?). eauto.
  - eauto.
  - eauto.
  - intros n Hn. destruct (tk_kept0 n Hn) as (a & e & ? & ?). eauto 6.
Qed.

(** A connection whose message could not be sent is no worker's. *)
Lemma tracks_lost f cs k n : f n = None → tracks f cs k → tracks (become n Lost f) cs k.
Proof.
  intros Hn [].
  assert (∀ m, f m = None ∧ become n Lost f m = Some Lost ∨ become n Lost f m = f m) as Hb.
  { intros m. destruct (decide (m = n)) as [->|]; [left|right]; [by rewrite become_eq|by rewrite become_ne]. }
  split; auto; intros.
  - rewrite tk_inbox0. destruct (Hb n0) as [[-> ->]| ->]; by split.
  - destruct (tk_client0 _ _ H) as (m & Hm & Hf). exists m. split; [done|].
    destruct (Hb m) as [[Hm' _]| ->]; [congruence|done].
  - pose proof (tk_fd0 _ _ H) as Hk. unfold kept in *. destruct (Hb n0) as [[Hm' _]| ->]; [|done].
    rewrite Hm' in Hk. by destruct Hk.
  - apply tk_kept0. unfold kept in *. destruct (Hb n0) as [[_ Hm']|<-]; [|done].
    rewrite Hm' in H. by destruct H.
  - rewrite tk_wire0. by destruct (Hb n0) as [[-> ->]| ->].
Qed.

Lemma kept_become n st f m : m ≠ n → kept (become n st f m) ↔ kept (f m).
Proof. intros. unfold kept. by rewrite become_ne. Qed.

(** A new connection, later than all others, was sent to the worker. *)
Lemma tracks_arrive f cs k n :
  f n = None → (∀ m, is_Some (f m) → (m < n)%nat) → tracks f cs k →
  tracks (become n Waiting f) cs (Endpoint (fds k) (inbox k ++ [n]) (history k)).
Proof.
  intros Hn Hlast []. assert (¬ kept (f n)) as Hk by (rewrite Hn; by intros []).
  assert (∀ m, kept (f m) → m ≠ n) as Hne by (intros m Hm ->; done).
  split; cbn; auto.
  - apply StronglySorted_app_2; [|done|by repeat constructor].
    intros m m' Hm ->%list_elem_of_singleton. apply Hlast. apply tk_inbox0 in Hm as ->. done.
  - intros m. rewrite elem_of_app, list_elem_of_singleton, tk_inbox0.
    destruct (decide (m = n)) as [->|Hm]; [rewrite become_eq; naive_solver|].
    rewrite become_ne by done. naive_solver.
  - intros a e Ha. destruct (tk_client0 _ _ Ha) as (m & Hm & Hf). exists m. split; [done|].
    rewrite become_ne; [done|]. intros ->. congruence.
  - intros fd m Hfd. pose proof (tk_fd0 _ _ Hfd) as Hm. by rewrite kept_become by auto.
  - intros m Hm. destruct (decide (m = n)) as [->|Hmn].
    + rewrite become_eq in Hm. by destruct Hm.
    + rewrite kept_become in Hm by done. auto.
  - intros m. rewrite tk_wire0. destruct (decide (m = n)) as [->|Hm].
    + by rewrite become_eq, Hn.
    + by rewrite become_ne.
Qed.

(** The worker takes the oldest connection sent to it. *)
Lemma tracks_take f cs k n rest fd a id ip (on : bool) :
  inbox k = n :: rest → fds k !! fd = None → cs !! a = None → tracks f cs k →
  tracks (become n (if on then Held else Stuck) f) (<[a := ClientEv (new_client fd id ip) on on]> cs)
    (Endpoint (<[fd := Conn n]> (fds k)) rest (history k)).
Proof.
  intros Hin Hfd Ha []. assert (f n = Some Waiting) as Hn by (apply tk_inbox0; rewrite Hin; left).
  assert (¬ kept (f n)) as Hk by (rewrite Hn; by intros []).
  assert (∀ m, kept (f m) → m ≠ n) as Hne by (intros m Hm ->; done).
  assert (∀ b e, cs !! b = Some e → iSockfd (sClient e) ≠ fd) as Hnew.
  { intros b e Hb <-. destruct (tk_client0 _ _ Hb) as (m & Hm & _). congruence. }
  rewrite Hin in *. apply StronglySorted_cons in tk_sorted0 as [Hlt Hsort].
  split; cbn; auto.
  - intros m. destruct (decide (m = n)) as [->|Hm].
    + rewrite become_eq. split; [|by destruct on]. intros Hr.
      eapply Forall_forall in Hlt; [|exact Hr]. lia.
    + rewrite become_ne, <-tk_inbox0 by done. set_solver.
  - by apply clients_ok_insert.
  - destruct tk_zero0 as (d & Hd & Hc). exists d. rewrite lookup_insert_ne; [done|congruence].
  - intros b e [[<- <-]|[Hb He]]%lookup_insert_Some; cbn.
    + exists n. rewrite lookup_insert_eq, become_eq. by destruct on.
    + destruct (tk_client0 _ _ He) as (m & Hm & Hf). exists m.
      rewrite lookup_insert_ne by (intros Heq; by apply (Hnew _ _ He)). split; [done|].
      rewrite become_ne; [done|]. intros ->. destruct (io e); congruence.
  - intros b b' e e' [[<- <-]|[Hb He]]%lookup_insert_Some [[<- <-]|[Hb' He']]%lookup_insert_Some; cbn.
    + done.
    + intros Heq. by destruct (Hnew _ _ He').
    + intros Heq. by destruct (Hnew _ _ He).
    + by eauto.
  - intros fd' m [[<- [= <-]]|[Hne' Hm]]%lookup_insert_Some.
    + rewrite become_eq. destruct on; [by left|by right].
    + pose proof (tk_fd0 _ _ Hm). by rewrite kept_become by auto.
  - intros fd1 fd2 m [[<- [= <-]]|[Hn1 Hm1]]%lookup_insert_Some [[<- Heq]|[Hn2 Hm2]]%lookup_insert_Some; try done.
    + by destruct (Hne n (tk_fd0 _ _ Hm2)).
    + injection Heq as ->. by destruct (Hne m (tk_fd0 _ _ Hm1)).
    + by eauto.
  - intros m Hm. destruct (decide (m = n)) as [->|Hmn].
    + exists a, (ClientEv (new_client fd id ip) on on). cbn. by rewrite !lookup_insert_eq.
    + rewrite kept_become in Hm by done. destruct (tk_kept0 m Hm) as (b & e & Hb & He).
      exists b, e. rewrite !lookup_insert_ne; [done|congruence|congruence].
  - intros m. rewrite tk_wire0. destruct (decide (m = n)) as [->|Hm].
    + rewrite become_eq, Hn. by destruct on.
    + by rewrite become_ne.
Qed.

Lemma wires_app n h h' : wires n (h ++ h') = wires n h ++ wires n h'.
Proof. unfold wires. by rewrite filter_app, fmap_app. Qed.

Lemma wires_other m n ws : m ≠ n → wires m ((n,.) <$> ws) = [].
Proof. intros Hm. unfold wires. induction ws as [|w ws IH]; [done|]. cbn. by rewrite decide_False. Qed.

Lemma wires_own n ws : wires n ((n,.) <$> ws) = ws.
Proof.
  unfold wires. induction ws as [|w ws IH]; [done|]. cbn. rewrite decide_True by done. cbn. by f_equal.
Qed.

(** The worker takes a registered client down; [st] is what became of its connection. *)
Lemma tracks_finish f cs k n a c st :
  cs !! a = Some (ClientEv c true true) → fds k !! iSockfd c = Some (Conn n) →
  is_over st → tracks f cs k →
  tracks (become n st f) (delete a cs)
    (Endpoint (delete (iSockfd c) (fds k)) (inbox k) (history k ++ ((n,.) <$> wire_of (Some st)))).
Proof.
  intros Ha Hfd Hst []. assert (f n = Some Held) as Hn.
  { destruct (tk_client0 _ _ Ha) as (m & Hm & Hf). cbn in Hm, Hf. congruence. }
  assert (∀ x, Some st = Some x → x ≠ Waiting ∧ x ≠ Held ∧ x ≠ Stuck) as Hst'.
  { intros x [= <-]. by destruct st. }
  assert (∀ b e, delete a cs !! b = Some e → cs !! b = Some e ∧ iSockfd (sClient e) ≠ iSockfd c) as Hoth.
  { intros b e [Hb He]%lookup_delete_Some. split; [done|]. intros Heq. apply Hb.
    eapply (tk_once0 a b); [done|done|]. by rewrite Heq. }
  split; cbn; auto.
  - intros m. rewrite tk_inbox0. destruct (decide (m = n)) as [->|Hm]; [|by rewrite become_ne].
    rewrite become_eq, Hn. split; [done|]. intros Hx. by destruct (Hst' _ Hx) as (? & _).
  - by apply clients_ok_delete.
  - destruct tk_zero0 as (d & Hd & Hc). exists d. split; [|done]. rewrite lookup_delete_ne; [done|].
    intros Heq. rewrite Heq, Hd in Hfd. injection Hfd as ->. by apply (Hc n).
  - intros b e Hb. apply Hoth in Hb as [Hb Hne]. destruct (tk_client0 _ _ Hb) as (m & Hm & Hf).
    exists m. rewrite lookup_delete_ne by congruence. split; [done|]. rewrite become_ne; [done|].
    intros ->. apply Hne. by eapply tk_same0.
  - intros b b' e e' Hb Hb'. apply Hoth in Hb as [? _]. apply Hoth in Hb' as [? _]. by eauto.
  - intros fd m [Hne Hm]%lookup_delete_Some. rewrite kept_become; [by eauto|]. intros ->.
    apply Hne. by eapply tk_same0.
  - intros fd fd' m [_ ?]%lookup_delete_Some [_ ?]%lookup_delete_Some. by eauto.
  - intros m Hm. destruct (decide (m = n)) as [->|Hmn].
    { rewrite become_eq in Hm. destruct Hm as [Hm|Hm]; by destruct (Hst' _ Hm) as (? & ? & ?). }
    rewrite kept_become in Hm by done. destruct (tk_kept0 m Hm) as (b & e & Hb & He).
    exists b, e. rewrite !lookup_delete_ne; [done| |]; intros Heq.
    + rewrite <-Heq, Hfd in He. congruence.
    + subst b. rewrite Ha in Hb. injection Hb as <-. cbn in He. congruence.
  - intros m. rewrite wires_app, tk_wire0. destruct (decide (m = n)) as [->|Hm].
    + rewrite become_eq, Hn, wires_own. done.
    + rewrite wires_other, app_nil_r, become_ne by done. done.
Qed.

(** ** What a callback does to the fates *)

(** One connection of a worker gets the fate [st]. *)
Definition moves (f : nat → option status) (n : nat) (st : status) : Prop :=
  (f n = Some Waiting ∧ (∀ m, (m < n)%nat → f m ≠ Some Waiting) ∧ (st = Held ∨ st = Stuck)) ∨
  (f n = Some Held ∧
    ((∃ shut, st = Dropped shut) ∨ ∃ data evs resp sent shut, handled (cprefix data) evs resp ∧
       part_of resp sent ∧ st = Answered data resp sent shut)).

(** The oldest connection of the inbox is the first that waits. *)
Lemma inbox_first f cs k n rest :
  tracks f cs k → inbox k = n :: rest →
  f n = Some Waiting ∧ ∀ m, (m < n)%nat → f m ≠ Some Waiting.
Proof.
  intros [] Hin. split; [apply tk_inbox0; rewrite Hin; left|].
  intros m Hm Hw. apply tk_inbox0 in Hw. rewrite Hin in *.
  apply StronglySorted_cons in tk_sorted0 as [Hlt _].
  apply elem_of_cons in Hw as [->|Hw]; [lia|]. eapply Forall_forall in Hlt; [|exact Hw]. lia.
Qed.

(** A message that the kernel delivers is read as the descriptor it carries. *)
Lemma carried_fd stack r :
  carries (x_data r) (given_fd (x_data r)) = true → message_fd stack r = given_fd (x_data r).
Proof.
  unfold carries. intros [Hl%bool_decide_eq_true _]%andb_prop. unfold message_fd, fd_of_message, given_fd, CMSG_HDR.
  rewrite drop_app_le by lia. rewrite take_app_le; [done|]. rewrite length_drop. lia.
Qed.

Lemma message_refused fd r k k' :
  no_message r → worker_calls [(X_recvmsg fd, r)] k = Some k' → k' = k.
Proof.
  cbn. rewrite orb_comm. intros [Hm|Hm].
  - rewrite Hm, orb_true_r. by intros [= <-].
  - rewrite bool_decide_true by done. by intros [= <-].
Qed.

Lemma message_taken stack fd r k k' :
  worker_call (X_recvmsg fd) r k = Some k' → ¬ no_message r →
  ∃ n rest, inbox k = n :: rest ∧ fds k !! message_fd stack r = None ∧
    k' = Endpoint (<[message_fd stack r := Conn n]> (fds k)) rest (history k).
Proof.
  intros Hk Hm. cbn in Hk. unfold no_message in Hm.
  rewrite (proj2 (Z.eqb_neq (x_ret r) (-1))), bool_decide_false in Hk by tauto. cbn in Hk.
  destruct (fds k !! fd) as [[|i|]|]; try done. destruct (inbox k) as [|n rest]; try done.
  destruct (carries _ _) eqn:Hc; [|done]. cbn in Hk. destruct (free_fd _ _) eqn:Hf; [|done].
  injection Hk as <-. apply free_fd_Some in Hf as [Hr Hf].
  rewrite carried_fd by done. by exists n, rest.
Qed.

(** What the kernel has after a request was answered: possibly one more descriptor, of the
    file that was sent. *)
Lemma served_end k k' a c n r r1 evs resp r2 down :
  fds k !! iSockfd c = Some (Conn n) → 0 < x_ret r →
  handled (cprefix (x_data r)) evs resp → deregistered a (iSockfd c) down →
  worker_calls ([(X_recv (iSockfd c) RECV_BUFF_SIZE, r); (X_ev_timer_again (Zpos a), r1)] ++ evs ++
    [(X_send (iSockfd c) resp, r2)] ++ down) k = Some k' →
  ∃ t sent shut, grows k (Endpoint t (inbox k) (history k)) ∧ part_of resp sent ∧
    k' = Endpoint (delete (iSockfd c) t) (inbox k)
           (history k ++ ((n,.) <$> wire_of (Some (Answered (x_data r) resp sent shut)))).
Proof.
  intros Hfd Hr Hh Hd.
  cbn [app worker_calls worker_call]. rewrite (proj2 (Z.leb_gt (x_ret r) 0) Hr).
  destruct (x_ret r =? _); [|done]. intros (k0 & Hk0 & Hk)%bind_Some.
  apply (on_conn_Some _ _ _ _ _ n Hfd) in Hk0 as [[Hneg _]|(y & [= <-] & ->)]; [lia|].
  cbn [mbind option_bind] in Hk. rewrite worker_calls_app in Hk. apply bind_Some in Hk as (k1 & He & Hk).
  pose proof (handled_grows _ _ _ _ _ Hh He) as (Hi1 & Hh1 & Hup1 & Hdown1).
  cbn in Hi1, Hh1, Hup1. cbn [worker_calls worker_call] in Hk. apply bind_Some in Hk as (k2 & Hk2 & Hk).
  apply (on_conn_Some _ _ _ _ _ n (Hup1 _ _ Hfd)) in Hk2 as [[_ ->]|(y & Hy & ->)].
  - eapply deregistered_calls in Hk as [shut ->]; [|done|by apply Hup1].
    exists (fds k1), None, shut. split_and!; [done..|]. by rewrite Hi1, Hh1, <-!app_assoc.
  - eapply deregistered_calls in Hk as [shut ->]; [|done|by apply Hup1]. unfold sent_part in Hy.
    case_bool_decide; [|done]. injection Hy as <-.
    exists (fds k1), (Some (take (Z.to_nat (x_ret r2)) resp)), shut. split_and!; [done| |].
    + intros d [= <-]. apply prefix_take.
    + cbn. by rewrite Hi1, Hh1, <-!app_assoc.
Qed.

(** A request that was answered. *)
Lemma served_calls f cs k k' a c r r1 evs resp r2 down :
  tracks f cs k → cs !! a = Some (ClientEv c true true) → 0 < x_ret r →
  handled (cprefix (x_data r)) evs resp → deregistered a (iSockfd c) down →
  worker_calls ([(X_recv (iSockfd c) RECV_BUFF_SIZE, r); (X_ev_timer_again (Zpos a), r1)] ++ evs ++
    [(X_send (iSockfd c) resp, r2)] ++ down) k = Some k' →
  ∃ n sent shut, f n = Some Held ∧ part_of resp sent ∧
    tracks (become n (Answered (x_data r) resp sent shut) f) (delete a cs) k'.
Proof.
  intros Htk Ha Hr Hh Hd Hk. destruct (tk_client _ _ _ Htk _ _ Ha) as (n & Hfd & Hn). cbn in Hfd, Hn.
  destruct (served_end _ _ _ _ _ _ _ _ _ _ _ Hfd Hr Hh Hd Hk) as (t & sent & shut & Hg & Hp & ->).
  exists n, sent, shut. split_and!; [done..|]. pose proof Hg as (_ & _ & Hup & _).
  apply (tracks_finish f cs (Endpoint t (inbox k) (history k))); [done|by apply Hup|done|].
  by apply (tracks_grows f cs k).
Qed.

(** A client that was taken down without an answer. *)
Lemma dropped_calls f cs k k' a c down :
  tracks f cs k → cs !! a = Some (ClientEv c true true) →
  deregistered a (iSockfd c) down → worker_calls down k = Some k' →
  ∃ n shut, f n = Some Held ∧ tracks (become n (Dropped shut) f) (delete a cs) k'.
Proof.
  intros Htk Ha Hd Hk. destruct (tk_client _ _ _ Htk _ _ Ha) as (n & Hfd & Hn). cbn in Hfd, Hn.
  eapply deregistered_calls in Hk as [shut ->]; [|done..]. exists n, shut. split; [done|].
  by apply (tracks_finish f cs k n a c (Dropped shut)).
Qed.

Lemma reaction_tracks stack E tr w f cs e new cs' k k' :
  tracks f cs k → reaction stack E tr w cs e new cs' → worker_calls new k = Some k' →
  tracks f cs' k' ∨ ∃ n st, moves f n st ∧ (knows_peers → st ≠ Stuck) ∧ tracks (become n st f) cs' k'.
Proof.
  intros Htk Hre Hk. destruct Hre as [r _ Hm|r a id ip new on _ Hm Ha Hreg Hon|e p _ _|a c r Ha _ Hr
    |a c r down Ha _ Hr Hd|a c r r1 evs resp r2 down Ha _ Hr Hh Hd|a c down Ha Hd|r].
  - left. by rewrite (message_refused _ _ _ _ Hm Hk).
  - right. cbn [worker_calls] in Hk. apply bind_Some in Hk as (k1 & Hk1 & Hk2).
    rewrite worker_calls_registers in Hk2 by done. injection Hk2 as <-.
    apply (message_taken stack) in Hk1 as (n & rest & Hin & Hfd & ->); [|done].
    destruct (inbox_first _ _ _ _ _ Htk Hin) as [Hn Hfirst].
    exists n, (if on then Held else Stuck). split_and!; [| |by apply tracks_take].
    + left. split_and!; [done|done|]. destruct on; auto.
    + intros Hp. by rewrite (Hon Hp).
  - left. by injection Hk as <-.
  - left. cbn in Hk. rewrite (proj2 (Z.leb_le (x_ret r) 0)) in Hk by lia. by injection Hk as <-.
  - right. cbn [worker_calls worker_call] in Hk. rewrite (proj2 (Z.leb_le (x_ret r) 0)) in Hk by lia.
    eapply dropped_calls in Hk as (n & shut & Hn & Ht); [|done..]. exists n, (Dropped shut). split_and!; [|done|done].
    right. eauto.
  - right. eapply served_calls in Hk as (n & sent & shut & Hn & Hp & Ht); [|done..].
    exists n, (Answered (x_data r) resp sent shut). split_and!; [|done|exact Ht].
    right. split; [done|]. right. by exists (x_data r), evs, resp, sent, shut.
  - right. eapply dropped_calls in Hk as (n & shut & Hn & Ht); [|done..]. exists n, (Dropped shut). split_and!; [|done|done].
    right. eauto.
  - left. by injection Hk as <-.
Qed.

(** What is not a connection stays open in a worker. *)
Lemma reaction_keeps stack E tr w f cs e new cs' k k' fd d :
  tracks f cs k → reaction stack E tr w cs e new cs' → worker_calls new k = Some k' →
  (∀ n, d ≠ Conn n) → fds k !! fd = Some d → fds k' !! fd = Some d.
Proof.
  intros Htk Hre Hk Hd Hfd.
  assert (∀ a c (t : fd_table), cs !! a = Some (ClientEv c true true) → t !! fd = Some d →
    delete (iSockfd c) t !! fd = Some d) as Hdel.
  { intros a c t Ha Ht. destruct (tk_client _ _ _ Htk _ _ Ha) as (n & Hn & _). cbn in Hn.
    rewrite lookup_delete_ne; [done|]. intros Heq. rewrite Heq, Hfd in Hn. injection Hn as ->.
    by apply (Hd n). }
  assert (∀ a c down, cs !! a = Some (ClientEv c true true) → deregistered a (iSockfd c) down →
    worker_calls down k = Some k' → fds k' !! fd = Some d) as Hdown.
  { intros a c down Ha Hdo Hk'. destruct (tk_client _ _ _ Htk _ _ Ha) as (n & Hn & _). cbn in Hn.
    eapply deregistered_calls in Hk' as [shut ->]; [|done..]. cbn. by eapply Hdel. }
  destruct Hre as [r _ Hm|r a id ip new on _ Hm Ha Hreg _|e p _ _|a c r Ha _ Hr
    |a c r down Ha _ Hr Hdo|a c r r1 evs resp r2 down Ha _ Hr Hh Hdo|a c down Ha Hdo|r].
  - by rewrite (message_refused _ _ _ _ Hm Hk).
  - cbn [worker_calls] in Hk. apply bind_Some in Hk as (k1 & Hk1 & Hk2).
    rewrite worker_calls_registers in Hk2 by done. injection Hk2 as <-.
    apply (message_taken stack) in Hk1 as (n & rest & Hin & Hfree & ->); [|done]. cbn.
    rewrite lookup_insert_ne; [done|congruence].
  - by injection Hk as <-.
  - cbn in Hk. rewrite (proj2 (Z.leb_le (x_ret r) 0)) in Hk by lia. by injection Hk as <-.
  - cbn [worker_calls worker_call] in Hk. rewrite (proj2 (Z.leb_le (x_ret r) 0)) in Hk by lia. by eapply Hdown.
  - destruct (tk_client _ _ _ Htk _ _ Ha) as (n & Hn & _). cbn in Hn.
    destruct (served_end _ _ _ _ _ _ _ _ _ _ _ Hn Hr Hh Hdo Hk) as (t & sent & shut & (_ & _ & Hup & _) & _ & ->).
    cbn. eapply Hdel; [done|by apply Hup].
  - by eapply Hdown.
  - by injection Hk as <-.
Qed.

(** ** The system and the abstract machine *)

(** The fates of the connections dealt to worker [i]. *)
Definition mine (workers i : nat) (l : list status) (n : nat) : option status :=
  if decide ((n mod workers)%nat = i) then l !! n else None.

Lemma mine_insert workers i l n st :
  mine workers i l n ≠ None →
  ∀ m, mine workers i (<[n := st]> l) m = become n st (mine workers i l) m.
Proof.
  unfold mine, become. intros Hn m. case_decide as Hi; [|done].
  assert (n < length l)%nat by (by apply lookup_lt_is_Some, not_eq_None_Some).
  destruct (decide (m = n)) as [->|Hm].
  - rewrite decide_True by done. by rewrite list_lookup_insert_eq.
  - by rewrite list_lookup_insert_ne by done.
Qed.

Lemma mine_insert_other workers i l n st :
  (n mod workers)%nat ≠ i → ∀ m, mine workers i (<[n := st]> l) m = mine workers i l m.
Proof.
  unfold mine. intros Hn m. case_decide; [|done]. rewrite list_lookup_insert_ne; [done|congruence].
Qed.

Lemma mine_app workers i l st :
  (length l mod workers)%nat = i →
  ∀ m, mine workers i (l ++ [st]) m = become (length l) st (mine workers i l) m.
Proof.
  unfold mine, become. intros Hi m. destruct (decide (m = length l)) as [->|Hm].
  - by rewrite decide_True, lookup_app_r, Nat.sub_diag by done.
  - case_decide; [|done]. destruct (decide (m < length l)%nat); [by rewrite lookup_app_l|].
    rewrite !lookup_ge_None_2; [done|lia|rewrite length_app; cbn; lia].
Qed.

Lemma mine_app_other workers i l st :
  (length l mod workers)%nat ≠ i → ∀ m, mine workers i (l ++ [st]) m = mine workers i l m.
Proof.
  unfold mine. intros Hi m. case_decide as Hm; [|done].
  destruct (decide (m < length l)%nat); [by rewrite lookup_app_l|].
  rewrite !lookup_ge_None_2; [done|lia|]. rewrite length_app. cbn.
  destruct (decide (m = length l)); [by subst|lia].
Qed.

Lemma mine_new workers i l : mine workers i l (length l) = None.
Proof. unfold mine. case_decide; [|done]. by apply lookup_ge_None_2. Qed.

Lemma mine_lt workers i l m : is_Some (mine workers i l m) → (m < length l)%nat.
Proof. unfold mine. case_decide; [|by intros []]. apply lookup_lt_is_Some. Qed.

(** A change of a worker's fates is a step of the abstract machine. *)
Lemma moves_deal workers i l n st :
  moves (mine workers i l) n st → deal_step workers l (<[n := st]> l).
Proof.
  unfold moves, mine. intros [(Hn & Hfirst & Hst)|(Hn & Hst)]; case_decide as Hi; try done.
  - apply deal_take; [done| |done]. intros m Hm Hmod. specialize (Hfirst m Hm).
    by rewrite decide_True in Hfirst by congruence.
  - destruct Hst as [[shut ->]|(data & evs & resp & sent & shut & Hh & Hp & ->)]; [by apply deal_drop|by eapply deal_answer].
Qed.

Section refinement.
Context `{SL : SdsLib, SS : !SdsSpec SL, LA : LoggerAPI}.
Context (stack : bytes) (fuel : nat) (iFd : Z).
Implicit Types (s : system) (p : process) (l : list status).

Record related (ws : list tsWorkerStruct) s l : Prop := {
  rl_workers : ws ≠ [] ∧ length (s_procs s) = length ws ∧ staffed ws (gWorkerAdmin (s_state s));
  rl_next : u32 (NextWorker (s_state s) + 1) mod Z.of_nat (length ws) =
            Z.of_nat (length l) mod Z.of_nat (length ws);
  rl_count : s_accepted s = length l;
  rl_links i w : ws !! i = Some w → s_fds s !! iMasterIPCfd w = Some (Link i);
  rl_open n : (n < length l)%nat → ∃ fd, s_fds s !! fd = Some (Conn n);
  rl_procs i p : s_procs s !! i = Some p →
    tracks (mine (length ws) i l) (p_clients p) (p_end p);
  rl_ipc i p : s_procs s !! i = Some p → fds (p_end p) !! iWorkerIPCfd (p_self p) = Some (Link i);
}.

Lemma start_related ws s : at_start ws s → related ws s [].
Proof.
  intros []. split; try done.
  - cbn. rewrite as_next0, Z.mod_0_l; [done|]. destruct as_workers0 as (? & _). by destruct ws.
  - cbn. lia.
  - intros i p Hp. destruct (as_worker0 i p Hp) as (Hc & Hi & Hh & _ & [d Hd] & Hn). rewrite Hc.
    assert (∀ n, mine (length ws) i [] n = None) as Hm by (intros n; unfold mine; by case_decide).
    split; rewrite ?Hi, ?Hh; try done.
    + constructor.
    + intros n. rewrite Hm. split; [by intros ?%not_elem_of_nil|done].
    + exists d. split; [done|]. intros n ->. by apply (Hn 0 n).
    + intros fd n Hfd. by destruct (Hn fd n).
    + intros fd fd' n Hfd. by destruct (Hn fd n).
    + intros n. rewrite Hm. by intros [].
    + intros n. by rewrite Hm.
  - intros i p Hp. by destruct (as_worker0 i p Hp) as (_ & _ & _ & ? & _).
Qed.

(** The fate of one connection of worker [i] changes. *)
Lemma related_moves ws s l i p q n st :
  related ws s l → s_procs s !! i = Some p →
  moves (mine (length ws) i l) n st → tracks (become n st (mine (length ws) i l)) (p_clients q) (p_end q) →
  fds (p_end q) !! iWorkerIPCfd (p_self q) = Some (Link i) →
  related ws (System (s_state s) (s_machine s) (s_fds s) (s_accepted s) (<[i := q]> (s_procs s)))
    (<[n := st]> l).
Proof.
  intros [] Hp Hmv Htk Hlink.
  assert (mine (length ws) i l n ≠ None) as Hn by (destruct Hmv as [(-> & _)|(-> & _)]; done).
  assert ((n mod length ws)%nat = i) as Hi by (unfold mine in Hn; by case_decide).
  split; cbn; rewrite ?length_insert; auto;
    intros j pj [(<- & <- & _)|[Hj Hpj]]%list_lookup_insert_Some; auto.
  - eapply tracks_ext; [by apply mine_insert|done].
  - eapply tracks_ext; [|by apply rl_procs0]. apply mine_insert_other. congruence.
Qed.

(** A worker changes without a change of fates. *)
Lemma related_same ws s l i p q :
  related ws s l → s_procs s !! i = Some p →
  tracks (mine (length ws) i l) (p_clients q) (p_end q) →
  fds (p_end q) !! iWorkerIPCfd (p_self q) = Some (Link i) →
  related ws (System (s_state s) (s_machine s) (s_fds s) (s_accepted s) (<[i := q]> (s_procs s))) l.
Proof.
  intros [] Hp Htk Hlink. split; cbn; rewrite ?length_insert; auto;
    intros j pj [(<- & <- & _)|[Hj Hpj]]%list_lookup_insert_Some; auto.
Qed.

Lemma calls_between_app (m m' : machine) new :
  m_trace m' = m_trace m ++ new → calls_between m m' = new.
Proof. intros Ht. unfold calls_between. by rewrite Ht, drop_app_length. Qed.

(** The outcome of a failing callback. *)
Definition failed {A} (f : failure) : outcome A :=
  match f with Bad u => Undef u | Endless => NoFuel end.

(** The event [e] of worker [i], whose process is [p], has an accident. *)
Definition breaks (E : Env) (i : nat) p (e : wevent) s : Prop := ∃ f,
  accident fuel E (m_trace (p_machine p)) (heap_of (p_machine p)) (p_self p) (p_clients p) e f ∧
  perform stack fuel iFd (A_event i E e) s = Some (failed f).

(** An event of a running worker is one reaction, or an accident; the step is possible when
    the kernel allows its calls. *)
Lemma event_runs ws s l i p E e :
  related ws s l → @kernel_ok E → s_procs s !! i = Some p → p_running p = true →
  (∃ cs m new, m_trace m = m_trace (p_machine p) ++ new ∧
    reaction stack E (m_trace (p_machine p)) (p_self p) (p_clients p) e new cs ∧
    perform stack fuel iFd (A_event i E e) s =
      (k ← worker_calls new (p_end p);
       Some (Ok (System (s_state s) (s_machine s) (s_fds s) (s_accepted s)
         (<[i := Process (p_self p) cs (bool_decide (e ≠ Ev_sigint)) m k]> (s_procs s)))))) ∨
  breaks E i p e s.
Proof.
  intros Hrel Hk Hp Hrun. pose proof (rl_procs _ _ _ Hrel _ _ Hp) as Htk.
  pose proof (dispatch_wpf (E := E) stack fuel Hk (p_self p) e (p_clients p) (p_machine p)
    (tk_ok _ _ _ Htk) (tracks_proper _ _ _ Htk)) as Hwp. unfold breaks. cbn [perform]. rewrite Hp.
  cbn [mbind option_bind]. rewrite Hrun. cbn [negb].
  destruct (wpf_run _ _ _ _ Hwp) as [(cs & m & Hd & Hh & new & Ht & Hre)|[(u & [m Hd] & Hac)|[Hd Hac]]].
  - left. exists cs, m, new. split_and!; [done|done|]. rewrite Hd. cbn. rewrite (calls_between_app _ _ _ Ht).
    by destruct (worker_calls new (p_end p)).
  - right. exists (Bad u). split; [done|]. by rewrite Hd.
  - right. exists Endless. split; [done|]. by destruct (dispatch _ _ _ _ _ _) as [[] m]; try done.
Qed.

(** Every step is one of the abstract machine, or none; and no connection gets stuck when
    peers are known. *)
Definition advances (workers : nat) (E : Env) (l l' : list status) : Prop :=
  (l' = l ∨ deal_step workers l l') ∧ (knows_peers (E := E) → Stuck ∉ l → Stuck ∉ l').

Lemma advances_same workers E l : advances workers E l l.
Proof. split; auto. Qed.

Lemma event_ok ws s l i E e o :
  related ws s l → @kernel_ok E → perform stack fuel iFd (A_event i E e) s = Some o →
  (∃ s' l', o = Ok s' ∧ advances (length ws) E l l' ∧ related ws s' l') ∨
  (∃ p f, s_procs s !! i = Some p ∧ o = failed f ∧
     accident fuel E (m_trace (p_machine p)) (heap_of (p_machine p)) (p_self p) (p_clients p) e f).
Proof.
  intros Hrel Hke Ho. assert (∃ p, s_procs s !! i = Some p ∧ p_running p = true) as (p & Hp & Hrun).
  { cbn in Ho. destruct (s_procs s !! i) as [p|]; [|done]. exists p. split; [done|].
    cbn in Ho. by destruct (p_running p). }
  destruct (event_runs ws s l i p E e) as [(cs & m & new & _ & Hre & Hperf)|(f & Hac & Hperf)]; [done..| |].
  2:{ rewrite Hperf in Ho. injection Ho as <-. right. by exists p, f. }
  left. rewrite Hperf in Ho. apply bind_Some in Ho as (k & Hk & [= <-]).
  pose proof (rl_procs _ _ _ Hrel _ _ Hp) as Htk.
  assert (fds k !! iWorkerIPCfd (p_self p) = Some (Link i)) as Hlink.
  { eapply reaction_keeps; [done..|]. by apply (rl_ipc _ _ _ Hrel). }
  destruct (reaction_tracks _ _ _ _ _ _ _ _ _ _ _ Htk Hre Hk) as [Hsame|(n & st & Hmv & Hst & Htk')].
  - eexists _, l. split_and!; [done|apply advances_same|]. by eapply related_same.
  - eexists _, (<[n := st]> l). split_and!; [done| |by eapply related_moves].
    split; [right; by apply (moves_deal _ i)|]. intros Hpeer Hl [j Hj]%list_elem_of_lookup.
    apply list_lookup_insert_Some in Hj as [(_ & Hj & _)|[_ Hj]]; [by apply Hst|].
    by apply Hl, list_elem_of_lookup_2 with j.
Qed.

(** A callback that returned. *)
Lemma event_returned ws s l i E e s' :
  related ws s l → @kernel_ok E → perform stack fuel iFd (A_event i E e) s = Some (Ok s') →
  ∃ l', advances (length ws) E l l' ∧ related ws s' l'.
Proof.
  intros Hrel Hke Ho. destruct (event_ok _ _ _ _ _ _ _ Hrel Hke Ho)
    as [(s1 & l' & [= <-] & ?)|(p & [u|] & _ & [=] & _)]. by exists l'.
Qed.

(** A new connection, in turn for worker [length l mod length ws]. *)
Lemma related_arrive ws s l fd g m procs st :
  related ws s l → s_fds s !! fd = None →
  g = set_next (Z.of_nat (length l) mod Z.of_nat (length ws)) (s_state s) →
  length procs = length ws →
  (∀ i p, procs !! i = Some p → tracks (mine (length ws) i (l ++ [st])) (p_clients p) (p_end p)) →
  (∀ i p, procs !! i = Some p → fds (p_end p) !! iWorkerIPCfd (p_self p) = Some (Link i)) →
  related ws (System g m (<[fd := Conn (s_accepted s)]> (s_fds s)) (S (s_accepted s)) procs) (l ++ [st]).
Proof.
  intros [] Hfd -> Hlen Hprocs Hlinks. destruct rl_workers0 as (Hne & Hl & Hst).
  pose proof Hst as (_ & Hmax & _). unfold WORKER_MAX_WORKERS in Hmax.
  assert (0 < Z.of_nat (length ws)) as Hpos by (destruct ws; [done|cbn; lia]).
  pose proof (Z.mod_pos_bound (Z.of_nat (length l)) (Z.of_nat (length ws)) Hpos) as Hb.
  split; cbn; auto; rewrite ?length_app; cbn [length].
  - unfold u32. rewrite uwrap_small by lia. rewrite Zplus_mod_idemp_l. f_equal. lia.
  - lia.
  - intros i w Hw. rewrite lookup_insert_ne; [by auto|]. intros ->. by rewrite (rl_links0 i w Hw) in Hfd.
  - intros n Hn. destruct (decide (n = length l)) as [->|Hnl].
    + exists fd. by rewrite lookup_insert_eq, rl_count0.
    + destruct (rl_open0 n) as [fd' Hfd']; [lia|]. exists fd'. rewrite lookup_insert_ne; [done|congruence].
Qed.

Lemma lost_procs ws s l i p :
  related ws s l → s_procs s !! i = Some p →
  tracks (mine (length ws) i (l ++ [Lost])) (p_clients p) (p_end p).
Proof.
  intros Hrel Hp. pose proof (rl_procs _ _ _ Hrel _ _ Hp) as Htk.
  destruct (decide ((length l mod length ws)%nat = i)) as [Hi|Hi].
  - eapply tracks_ext; [by apply mine_app|]. apply tracks_lost; [apply mine_new|done].
  - eapply tracks_ext; [by apply mine_app_other|done].
Qed.

Lemma sent_procs ws s l i p :
  related ws s l → alter (deliver (s_accepted s)) (length l mod length ws)%nat (s_procs s) !! i = Some p →
  tracks (mine (length ws) i (l ++ [Waiting])) (p_clients p) (p_end p).
Proof.
  intros Hrel Hp. rewrite (rl_count _ _ _ Hrel) in Hp.
  destruct (decide ((length l mod length ws)%nat = i)) as [Hi|Hi].
  - rewrite <-Hi, list_lookup_alter_eq in Hp. rewrite Hi in Hp.
    apply fmap_Some in Hp as (q & Hq & ->). pose proof (rl_procs _ _ _ Hrel _ _ Hq) as Htk.
    eapply tracks_ext; [by apply mine_app|].
    apply tracks_arrive; [apply mine_new|apply mine_lt|done].
  - rewrite list_lookup_alter_ne in Hp by done.
    eapply tracks_ext; [by apply mine_app_other|]. by apply (rl_procs _ _ _ Hrel).
Qed.

Lemma sent_links ws s l n j i p :
  related ws s l → alter (deliver n) j (s_procs s) !! i = Some p →
  fds (p_end p) !! iWorkerIPCfd (p_self p) = Some (Link i).
Proof.
  intros Hrel Hp. destruct (decide (j = i)) as [->|Hj].
  - rewrite list_lookup_alter_eq in Hp. apply fmap_Some in Hp as (q & Hq & ->).
    by apply (rl_ipc _ _ _ Hrel i q).
  - rewrite list_lookup_alter_ne in Hp by done. by apply (rl_ipc _ _ _ Hrel).
Qed.

Lemma advances_arrive workers E l st :
  st = Waiting ∨ st = Lost → st ≠ Stuck → advances workers E l (l ++ [st]).
Proof.
  intros Hst Hne. split; [right; by apply deal_arrive|]. intros _ Hl [|Hin]%elem_of_app; [done|].
  by apply list_elem_of_singleton in Hin.
Qed.

Lemma accept_ok ws s l E o :
  related ws s l → perform stack fuel iFd (A_accept E) s = Some o →
  ∃ s' l', o = Ok s' ∧ advances (length ws) E l l' ∧ related ws s' l'.
Proof.
  intros Hrel. pose proof (rl_workers _ _ _ Hrel) as (Hne & Hl & Hst). cbn.
  destruct (decide (x_ret (env (m_trace (s_machine s)) (X_accept iFd)) = -1)) as [Hr|Hr].
  { pose proof (accept_failed_wp (E := E) stack iFd (s_state s) (s_machine s) Hr) as Hwp.
    apply wp_run in Hwp as (g & m & -> & -> & _ & r & Hx & Ht). cbn.
    rewrite (calls_between_app _ _ _ Ht). cbn. rewrite Hx. cbn. intros [= <-].
    eexists _, l. split_and!; [done|apply advances_same|]. destruct Hrel. by split. }
  destruct (accept_wp (E := E) stack ws (s_state s) (Z.of_nat (length l)) iFd (s_machine s))
    as (w & Hw & Hwp); [done|done|lia|apply Hrel|done|].
  apply wp_run in Hwp as (g & m & -> & Hg & _ & r & x & Hx & Ht). cbn -[kernel_takes fd_message].
  rewrite (calls_between_app _ _ _ Ht). cbn -[kernel_takes fd_message]. set (fd := x_ret (env _ _)) in *. rewrite Hx.
  rewrite (proj2 (Z.eqb_neq fd (-1)) Hr). destruct (free_fd fd (s_fds s)) eqn:Hf; [|done].
  apply free_fd_Some in Hf as [Hrange Hf]. cbn -[kernel_takes fd_message].
  rewrite Z2Nat.inj_mod, !Nat2Z.id in Hw by lia.
  rewrite (kernel_takes_message fd stack) by (unfold in_i32; lia). rewrite lookup_insert_eq.
  rewrite lookup_insert_ne by (intros ->; by rewrite (rl_links _ _ _ Hrel _ _ Hw) in Hf).
  rewrite (rl_links _ _ _ Hrel _ _ Hw). destruct (x_ret x =? -1); cbn; intros [= <-].
  - eexists _, (l ++ [Lost]). split_and!; [done|by apply advances_arrive; [right|]|].
    eapply related_arrive; try done; [|apply Hrel]. intros i p. by apply lost_procs.
  - eexists _, (l ++ [Waiting]). split_and!; [done|by apply advances_arrive; [left|]|].
    eapply related_arrive; try done; [by rewrite length_alter| |]; intros i p; [by apply sent_procs|].
    by eapply sent_links.
Qed.

Lemma perform_ok ws s l a s' :
  related ws s l → @kernel_ok (surroundings_of a) → perform stack fuel iFd a s = Some (Ok s') →
  ∃ l', advances (length ws) (surroundings_of a) l l' ∧ related ws s' l'.
Proof.
  destruct a as [E|i E e]; [intros Hrel _ Ha|by apply event_returned].
  destruct (accept_ok _ _ _ _ _ Hrel Ha) as (s1 & l' & [= <-] & ?). by exists l'.
Qed.

Lemma reachable_related ws s0 s :
  at_start ws s0 → rtc (sys_step stack fuel iFd) s0 s →
  ∃ l, rtc (deal_step (length ws)) [] l ∧ related ws s l.
Proof.
  intros H0 Hs. assert (∀ l, related ws s0 l → ∃ l', rtc (deal_step (length ws)) l l' ∧ related ws s l') as Hgen.
  { clear H0. induction Hs as [s|s1 s2 s3 (a & Hk & Ha) _ IH]; intros l Hl; [by exists l|].
    destruct (perform_ok _ _ _ _ _ Hl Hk Ha) as (l' & [Hd _] & Hl').
    destruct (IH _ Hl') as (l'' & Hd' & Hl''). exists l''. split; [|done].
    destruct Hd as [->|Hd]; [done|by eapply rtc_l]. }
  by apply Hgen, start_related.
Qed.

(** An answer of the abstract machine is one of the cases of [handled]. *)
Lemma answered_handled workers l n data resp sent shut :
  rtc (deal_step workers) [] l → l !! n = Some (Answered data resp sent shut) →
  (∃ evs, handled (cprefix data) evs resp) ∧ part_of resp sent.
Proof.
  set (P := λ st, ∀ d r x b, st = Answered d r x b → (∃ evs, handled (cprefix d) evs r) ∧ part_of r x).
  intros Hl. assert (Forall P l) as Hall.
  2: { intros Hn. by eapply Forall_lookup_1 in Hall; [eapply Hall|exact Hn]. }
  assert (Forall P []) as Hnil by constructor. revert Hnil.
  generalize (@nil status) Hl. clear Hl. intros l0 Hl.
  induction Hl as [|l1 l2 l3 Hstep _ IH]; [done|]. intros H1. apply IH. destruct Hstep as [l' st Hst|
    l' m st _ _ Hst|l' m d evs r x b _ Hh Hp|l' m b _].
  - apply Forall_app. split; [done|]. constructor; [|constructor]. intros d r x b ->. by destruct Hst.
  - apply Forall_insert; [done|]. intros d r x b ->. by destruct Hst.
  - apply Forall_insert; [done|]. intros d' r' x' b' [= <- <- <- <-]. split; [by exists evs|done].
  - by apply Forall_insert.
Qed.

(** C1: The master and its workers, in every interleaving of their callbacks and with every
    answer of the kernel about clients, files and sockets that keeps to [worker_call],
    [master_call] and [kernel_ok] (no call stores more bytes than it was asked for), refine the
    abstract machine as long as the callbacks return ([system_safe] says when they do not):
    connection number [n] belongs to worker [n mod length ws]; each worker takes its
    connections in the order of their arrival; a connection that was taken is answered at most
    once, with a response that [handled] allows for the data received on it, or closed without
    an answer; and the clients, descriptors and messages of all processes are at every moment
    those of the fates ([related]). *)
Theorem system_refines ws s0 s :
  at_start ws s0 → rtc (sys_step stack fuel iFd) s0 s →
  ∃ l, rtc (deal_step (length ws)) [] l ∧ related ws s l.
Proof. apply reachable_related. Qed.

(** C11: When a reachable callback goes wrong: from every reachable state every step, whatever
    the kernel answers within [kernel_ok], ends with the callback returning, or it is an event
    of a worker that has an [accident], and fails in the way said there: [malloc] fails for a
    new client; a request fills all 4096 bytes of the buffer without a zero; the append of the
    media type moves the string; or a socket that was shut down cannot be read to its end.
    The master's callback always returns, and no callback ends its process. *)
Theorem system_safe ws s0 s a o :
  at_start ws s0 → rtc (sys_step stack fuel iFd) s0 s →
  @kernel_ok (surroundings_of a) → perform stack fuel iFd a s = Some o →
  (∃ s', o = Ok s') ∨
  (∃ i E e p f, a = A_event i E e ∧ s_procs s !! i = Some p ∧ o = failed f ∧
     accident fuel E (m_trace (p_machine p)) (heap_of (p_machine p)) (p_self p) (p_clients p) e f).
Proof.
  intros H0 Hs Hk Ha. destruct (reachable_related ws s0 s H0 Hs) as (l & _ & Hl).
  destruct a as [E|i E e].
  - destruct (accept_ok ws s l E o Hl Ha) as (s' & _ & -> & _). left. by exists s'.
  - destruct (event_ok ws s l i E e o Hl Hk Ha) as [(s' & _ & -> & _)|(p & f & Hp & -> & Hac)]; [left; by exists s'|].
    right. by exists i, E, e, p, f.
Qed.

(** C12: What can be seen of the connections, in every state reachable by callbacks that
    return: worker [i] only ever has connections with number [i] modulo the number of workers;
    those on their way to it are in the order of arrival; on each connection nothing has
    happened, or it was shut without an answer, or one request was received, for which the
    kernel then took at most once data to send, which begins a response that [handled] allows,
    and which was then shut, as far as the calls succeeded; where anything has happened the
    connection is closed in the worker; but the master keeps a descriptor of every connection
    it ever accepted. *)
Theorem connections_answered_once ws s0 s i p :
  at_start ws s0 → rtc (sys_step stack fuel iFd) s0 s → s_procs s !! i = Some p →
  let k := p_end p in
  StronglySorted lt (inbox k) ∧
  (∀ n, n ∈ inbox k ∨ wires n (history k) ≠ [] ∨ (∃ fd, fds k !! fd = Some (Conn n)) →
     (n < s_accepted s)%nat ∧ (n mod length ws)%nat = i) ∧
  (∀ n, wires n (history k) = [] ∨ wires n (history k) = [Shut] ∨ ∃ data evs resp sent shut,
     wires n (history k) = Received data :: (Replied <$> option_list sent) ++ shut_wire shut ∧
     handled (cprefix data) evs resp ∧ part_of resp sent) ∧
  (∀ n fd, wires n (history k) ≠ [] → fds k !! fd ≠ Some (Conn n)) ∧
  (∀ n, (n < s_accepted s)%nat → ∃ fd, s_fds s !! fd = Some (Conn n)).
Proof.
  intros H0 Hs Hp k. destruct (reachable_related ws s0 s H0 Hs) as (l & Hl & Hrel).
  destruct (rl_procs _ _ _ Hrel _ _ Hp) as [Hsort Hin _ _ _ _ Hfd _ _ Hw]. fold k in Hsort, Hin, Hfd, Hw.
  assert (∀ n, is_Some (mine (length ws) i l n) → (n < s_accepted s)%nat ∧ (n mod length ws)%nat = i) as Hmine.
  { intros n Hn. split; [rewrite (rl_count _ _ _ Hrel); by eapply mine_lt|].
    unfold mine in Hn. case_decide; [done|by destruct Hn]. }
  split_and!.
  - done.
  - intros n Hn. apply Hmine. rewrite Hin, Hw in Hn. destruct Hn as [->|[Hn|[fd Hn]]]; [done| |].
    + destruct (mine _ _ _ n); [done|by destruct Hn].
    + apply Hfd in Hn. destruct Hn as [-> | ->]; done.
  - intros n. rewrite Hw. unfold mine. case_decide; [|by left].
    destruct (l !! n) as [[| | | |data resp sent shut|[]]|] eqn:Hn; cbn; auto.
    right. right. destruct (answered_handled _ _ _ _ _ _ _ Hl Hn) as [[evs He] Hpart].
    by exists data, evs, resp, sent, shut.
  - intros n fd. rewrite Hw. intros Hn Hc. apply Hfd in Hc. destruct Hc as [Hc|Hc]; by rewrite Hc in Hn.
  - intros n Hn. apply (rl_open _ _ _ Hrel). by rewrite <-(rl_count _ _ _ Hrel).
Qed.

(** Client [a] of [p] waits, with both its watchers on, for data of connection [n]. *)
Definition holds (p : process) (a : sds) (n : nat) : Prop :=
  ∃ c, p_clients p !! a = Some (ClientEv c true true) ∧ fds (p_end p) !! iSockfd c = Some (Conn n).

(** The kernel hands over the next message: a descriptor that is free in the worker. *)
Definition delivers (r : ext_ret) (p : process) : Prop :=
  ¬ no_message r ∧ carries (x_data r) (given_fd (x_data r)) = true ∧
  free_fd (given_fd (x_data r)) (fds (p_end p)) = true.

(** The event [e] of worker [i] is possible, and leaves the worker as [Q] says. *)
Definition leads_to (E : Env) (i : nat) (e : wevent) s (Q : process → Prop) : Prop :=
  ∃ s' p', perform stack fuel iFd (A_event i E e) s = Some (Ok s') ∧ s_procs s' !! i = Some p' ∧ Q p'.

(** The process after an event whose calls the kernel allows. *)
Lemma leads_intro E i p e s cs m k (Q : process → Prop) :
  s_procs s !! i = Some p →
  perform stack fuel iFd (A_event i E e) s =
    Some (Ok (System (s_state s) (s_machine s) (s_fds s) (s_accepted s)
         (<[i := Process (p_self p) cs (bool_decide (e ≠ Ev_sigint)) m k]> (s_procs s)))) →
  Q (Process (p_self p) cs (bool_decide (e ≠ Ev_sigint)) m k) → leads_to E i e s Q.
Proof.
  intros Hp Hperf HQ. eexists _, _. split_and!; [exact Hperf| |exact HQ].
  apply list_lookup_insert_eq. by eapply lookup_lt_Some.
Qed.

(** The connection is closed in the worker, with at most a shutdown on it. *)
Definition closed_quietly (n : nat) (p : process) : Prop :=
  (∀ fd, fds (p_end p) !! fd ≠ Some (Conn n)) ∧ ∃ shut, wires n (history (p_end p)) = shut_wire shut.

Lemma message_leads ws s l i p E n rest :
  related ws s l → @kernel_ok E → s_procs s !! i = Some p → p_running p = true →
  knows_peers (E := E) → inbox (p_end p) = n :: rest →
  delivers (env (m_trace (p_machine p)) (X_recvmsg (iWorkerIPCfd (p_self p)))) p →
  leads_to E i Ev_ipc s (λ p', inbox (p_end p') = rest ∧ ∃ a, holds p' a n) ∨ breaks E i p Ev_ipc s.
Proof.
  intros Hrel Hke Hp Hrun Hpeer Hin (Hm & Hc & Hf).
  destruct (event_runs ws s l i p E Ev_ipc) as [(cs & m & new & _ & Hre & Hperf)|?]; [done..| |by right]. left.
  inversion Hre as [r -> Hno|r a id ip new' on Hr _ Ha Hreg Hon| | | | | |]; subst;
    [done| |by destruct H].
  set (r := env _ _) in *. rewrite (Hon Hpeer) in *.
  assert (worker_call (X_recvmsg (iWorkerIPCfd (p_self p))) r (p_end p) =
    Some (Endpoint (<[given_fd (x_data r) := Conn n]> (fds (p_end p))) rest (history (p_end p)))) as Hcall.
  { cbn. unfold no_message in Hm. rewrite (proj2 (Z.eqb_neq (x_ret r) (-1))), bool_decide_false by tauto. cbn.
    by rewrite (rl_ipc _ _ _ Hrel _ _ Hp), Hin, Hc, Hf. }
  cbn [worker_calls] in Hperf. rewrite Hcall in Hperf. cbn [mbind option_bind] in Hperf.
  rewrite worker_calls_registers in Hperf by done. cbn [mbind option_bind] in Hperf.
  eapply leads_intro; [done|exact Hperf|]. split; [done|]. exists a. eexists. cbn.
  rewrite lookup_insert_eq. split; [done|]. cbn.
  rewrite carried_fd by done. apply lookup_insert_eq.
Qed.

(** A connection that has left the clients of its worker is closed there. *)
Lemma finished_closed f cs k n st : tracks (become n st f) cs k → is_over st → ∀ fd, fds k !! fd ≠ Some (Conn n).
Proof.
  intros Htk Hst fd Hfd. pose proof (tk_fd _ _ _ Htk _ _ Hfd) as Hk. unfold kept in Hk. rewrite become_eq in Hk.
  by destruct Hk as [[= ->]|[= ->]].
Qed.

Lemma timeout_leads ws s l i p E a n :
  related ws s l → @kernel_ok E → s_procs s !! i = Some p → p_running p = true → holds p a n →
  (∃ o, perform stack fuel iFd (A_event i E (Ev_timeout a)) s = Some o) →
  leads_to E i (Ev_timeout a) s (λ p', p_clients p' = delete a (p_clients p) ∧ closed_quietly n p') ∨
  breaks E i p (Ev_timeout a) s.
Proof.
  intros Hrel Hke Hp Hrun (c & Ha & Hfd) [o Ho].
  pose proof (rl_procs _ _ _ Hrel _ _ Hp) as Htk.
  destruct (tk_client _ _ _ Htk _ _ Ha) as (n' & Hn' & Hheld). cbn in Hn', Hheld. simplify_eq.
  destruct (event_runs ws s l i p E (Ev_timeout a)) as [(cs & m & new & _ & Hre & Hperf)|?]; [done..| |by right]. left.
  inversion Hre as [| |e b Hb Hoff| | | |b c' down Hb Hdown|]; subst.
  { destruct Hb as [|[= <-]]; [done|]. by rewrite Ha in Hoff. }
  rewrite Ha in Hb. injection Hb as <-.
  rewrite Hperf in Ho. apply bind_Some in Ho as (k & Hk & _). rewrite Hk in Hperf.
  eapply leads_intro; [done|exact Hperf|]. split; [done|].
  pose proof Hk as Hk'. eapply deregistered_calls in Hk' as [shut ->]; [|done..].
  assert (tracks (become n (Dropped shut) (mine (length ws) i l)) (delete a (p_clients p))
    (Endpoint (delete (iSockfd c) (fds (p_end p))) (inbox (p_end p)) (history (p_end p) ++ ((n,.) <$> shut_wire shut)))) as Ht.
  { by apply (tracks_finish (mine (length ws) i l) (p_clients p) (p_end p) n a c (Dropped shut)). }
  split; [by eapply finished_closed|]. exists shut. cbn.
  rewrite wires_app, (tk_wire _ _ _ Htk), Hheld. apply (wires_own n (shut_wire shut)).
Qed.

Lemma data_leads ws s l i p E a n c o :
  related ws s l → @kernel_ok E → s_procs s !! i = Some p → p_running p = true →
  p_clients p !! a = Some (ClientEv c true true) → fds (p_end p) !! iSockfd c = Some (Conn n) →
  let got := env (m_trace (p_machine p)) (X_recv (iSockfd c) RECV_BUFF_SIZE) in
  0 < x_ret got → perform stack fuel iFd (A_event i E (Ev_client a)) s = Some o →
  leads_to E i (Ev_client a) s (λ p', p_clients p' = delete a (p_clients p) ∧
    (∀ fd, fds (p_end p') !! fd ≠ Some (Conn n)) ∧ ∃ evs resp sent shut,
    handled (cprefix (x_data got)) evs resp ∧ part_of resp sent ∧
    wires n (history (p_end p')) = Received (x_data got) :: (Replied <$> option_list sent) ++ shut_wire shut) ∨
  breaks E i p (Ev_client a) s.
Proof.
  intros Hrel Hke Hp Hrun Ha Hfd got Hgot Ho.
  pose proof (rl_procs _ _ _ Hrel _ _ Hp) as Htk.
  destruct (tk_client _ _ _ Htk _ _ Ha) as (n' & Hn' & Hheld). cbn in Hn', Hheld. simplify_eq.
  destruct (event_runs ws s l i p E (Ev_client a)) as [(cs & m & new & _ & Hre & Hperf)|?]; [done..| |by right]. left.
  rewrite Hperf in Ho. apply bind_Some in Ho as (k & Hk & _). rewrite Hk in Hperf. cbn [mbind option_bind] in Hperf.
  inversion Hre as [| |e b Hb Hoff|b c' r Hb Hr Hneg|b c' r down Hb Hr Hz _
    |b c' r r1 evs resp r2 down Hb Hr Hpos Hh Hdown| |]; subst.
  - destruct Hb as [[= <-]|]; [|done]. by rewrite Ha in Hoff.
  - rewrite Ha in Hb. injection Hb as <-. fold got in Hneg. lia.
  - rewrite Ha in Hb. injection Hb as <-. fold got in Hz. lia.
  - rewrite Ha in Hb. injection Hb as <-. fold got in Hpos, Hh, Hk.
    destruct (served_end _ _ _ _ _ _ _ _ _ _ _ Hfd Hpos Hh Hdown Hk) as (t & sent & shut & Hg & Hpart & ->).
    eapply leads_intro; [done|exact Hperf|]. split; [done|]. cbn. split.
    + pose proof Hg as (_ & _ & Hup & _).
      assert (tracks (mine (length ws) i l) (p_clients p) (Endpoint t (inbox (p_end p)) (history (p_end p)))) as Ht
        by (by apply (tracks_grows _ _ (p_end p))).
      exact (finished_closed _ _ _ _ _ (tracks_finish _ _ _ _ _ _ (Answered (x_data got) resp sent shut)
        Ha (Hup _ _ Hfd) I Ht) I).
    + exists evs, resp, sent, shut. split_and!; [done|done|].
      rewrite wires_app, (tk_wire _ _ _ Htk), Hheld.
      apply (wires_own n (wire_of (Some (Answered (x_data got) resp sent shut)))).
Qed.

(** C13: Progress of every running worker in every state reachable by callbacks that return,
    whatever else is going on, in each step the kernel allows (within [kernel_ok]).  If a
    message waits and the kernel hands it over, and the address of the peer can be found, the
    worker takes the connection and waits on it with both watchers; if data arrives on a
    connection it waits on, in that same step one response that [handled] allows is handed to
    the kernel, and the connection is closed; if the timer of such a connection expires, the
    connection is closed.  Or else the step has an [accident] and fails in the way said there.
    No connection a worker waits on can be forgotten. *)
Theorem worker_progress ws s0 s i p E :
  at_start ws s0 → rtc (sys_step stack fuel iFd) s0 s → s_procs s !! i = Some p → p_running p = true →
  @kernel_ok E →
  (∀ n rest, inbox (p_end p) = n :: rest → knows_peers (E := E) →
     delivers (env (m_trace (p_machine p)) (X_recvmsg (iWorkerIPCfd (p_self p)))) p →
     leads_to E i Ev_ipc s (λ p', inbox (p_end p') = rest ∧ ∃ a, holds p' a n) ∨ breaks E i p Ev_ipc s) ∧
  (∀ a n c o, p_clients p !! a = Some (ClientEv c true true) → fds (p_end p) !! iSockfd c = Some (Conn n) →
     let got := env (m_trace (p_machine p)) (X_recv (iSockfd c) RECV_BUFF_SIZE) in
     0 < x_ret got → perform stack fuel iFd (A_event i E (Ev_client a)) s = Some o →
     leads_to E i (Ev_client a) s (λ p', p_clients p' = delete a (p_clients p) ∧
       (∀ fd, fds (p_end p') !! fd ≠ Some (Conn n)) ∧ ∃ evs resp sent shut,
       handled (cprefix (x_data got)) evs resp ∧ part_of resp sent ∧
       wires n (history (p_end p')) = Received (x_data got) :: (Replied <$> option_list sent) ++ shut_wire shut) ∨
     breaks E i p (Ev_client a) s) ∧
  (∀ a n o, holds p a n → perform stack fuel iFd (A_event i E (Ev_timeout a)) s = Some o →
     leads_to E i (Ev_timeout a) s (λ p', p_clients p' = delete a (p_clients p) ∧ closed_quietly n p') ∨
     breaks E i p (Ev_timeout a) s).
Proof.
  intros H0 Hs Hp Hrun Hk. destruct (reachable_related ws s0 s H0 Hs) as (l & _ & Hl). split_and!.
  - intros. by eapply message_leads.
  - intros. by eapply data_leads.
  - intros. by eapply timeout_leads; [..|eexists].
Qed.

End refinement.

(** ** Runs *)

Section runs.
Context `{SL : SdsLib, LA : LoggerAPI}.
Context (stack : bytes) (fuel : nat) (iFd : Z).

Fixpoint sys_run (acts : list action) (s : system) : option system :=
  match acts with
  | [] => Some s
  | a :: acts' =>
      match perform stack fuel iFd a s with
      | Some (Ok s') => sys_run acts' s'
      | _ => None
      end
  end.

Lemma sys_run_app acts acts' s :
  sys_run (acts ++ acts') s = (s' ← sys_run acts s; sys_run acts' s').
Proof.
  revert s. induction acts as [|a acts IH]; intros s; [done|]. cbn.
  destruct (perform stack fuel iFd a s) as [[]|]; [apply IH|done..].
Qed.

(** An expired timer of nobody changes nothing. *)
Lemma idle_event E i p a s :
  s_procs s !! i = Some p → p_running p = true → p_clients p !! a = None →
  perform stack fuel iFd (A_event i E (Ev_timeout a)) s = Some (Ok s).
Proof.
  intros Hp Hrun Ha. cbn. rewrite Hp. cbn. rewrite Hrun, Ha. cbn. unfold calls_between. rewrite drop_all. cbn.
  replace (Process _ _ _ _ _) with p by (destruct p; cbn in *; by subst).
  rewrite list_insert_id by done. by destruct s.
Qed.

(** One step of a run. *)
Lemma sys_run_step acts t a s s' :
  acts !! t = Some a → is_Some (sys_run acts s) → sys_run (take t acts) s = Some s' →
  ∃ s'', perform stack fuel iFd a s' = Some (Ok s'') ∧ sys_run (take (S t) acts) s = Some s''.
Proof.
  intros Ha Hr Hs. rewrite (take_S_r _ _ _ Ha), sys_run_app, Hs. cbn.
  rewrite <-(take_drop t acts), (drop_S _ _ _ Ha), sys_run_app, Hs in Hr. cbn in Hr.
  destruct (perform stack fuel iFd a s') as [[s''| | |]|]; try by destruct Hr. by exists s''.
Qed.

Lemma sys_run_steps acts s s' :
  Forall (λ a, @kernel_ok (surroundings_of a)) acts → sys_run acts s = Some s' →
  rtc (sys_step stack fuel iFd) s s'.
Proof.
  intros Hacts. revert s. induction Hacts as [|a acts Ha _ IH]; intros s; cbn; [by intros [= ->]|].
  destruct (perform stack fuel iFd a s) as [[s1| | |]|] eqn:Hp; try done.
  intros Hr. eapply rtc_l; [by exists a|by apply IH].
Qed.

End runs.
