(* ===== verification/Fair.v ===== *)
(** * Fair runs

    Endless runs of the processes of System.v.  The event library and the kernel are fair:
    a message that waits in the IPC connection of a worker is handed to it some time, and
    the timer of a client that goes on waiting expires some time.  Nothing is assumed about
    when this happens, about the order of events, or about the clients.  Under this
    assumption every connection a worker is sent comes to an end. *)

From S2P Require Import Prelude CString Machine SdsModel Http Worker Socket Client WorkerProc Reaction System.
Local Open Scope Z_scope.

(** ** Fates along a run *)

(** A connection that was sent to its worker stays with it. *)
Definition sent (n : nat) (l : list status) : Prop := ∃ st, l !! n = Some st ∧ st ≠ Lost.

(** It has come to this end. *)
Definition over (n : nat) (st : status) (l : list status) : Prop :=
  l !! n = Some st ∧ is_over st.

(** The connections before [n] of worker [i] have been taken. *)
Definition taken (workers i n : nat) (l : list status) : Prop :=
  (n ≤ length l)%nat ∧ ∀ m, (m < n)%nat → (m mod workers)%nat = i → l !! m ≠ Some Waiting.

Section fates.
Context (workers : nat).
Implicit Types (l : list status) (n m : nat).

(** What one step of the abstract machine does to one connection. *)
Lemma deal_fate l l' n st :
  deal_step workers l l' → l !! n = Some st →
  l' !! n = Some st ∨ ∃ st', l' !! n = Some st' ∧ (st = Waiting ∨ st = Held) ∧ st' ≠ Lost ∧ st' ≠ Waiting.
Proof.
  intros Hd Hn. assert (n < length l)%nat as Hlt by by eapply lookup_lt_Some.
  assert (∀ m st0 st', l !! m = Some st0 → st0 = Waiting ∨ st0 = Held → st' ≠ Lost → st' ≠ Waiting →
    <[m := st']> l !! n = Some st ∨ ∃ st1, <[m := st']> l !! n = Some st1 ∧
      (st = Waiting ∨ st = Held) ∧ st1 ≠ Lost ∧ st1 ≠ Waiting) as Hins; [|destruct Hd as
      [l st' Hst|l m st' Hm _ Hst|l m data evs resp sent shut Hm Hh _|l m shut Hm]].
  - intros m st0 st' Hm Hst0 Hl Hw. destruct (decide (m = n)) as [->|Hne].
    + right. simplify_eq. eexists. by rewrite list_lookup_insert_eq.
    + left. by rewrite list_lookup_insert_ne.
  - left. by rewrite lookup_app_l.
  - apply (Hins _ Waiting); [done|by left|by destruct Hst as [-> | ->]..].
  - apply (Hins _ Held); [done|by right|done..].
  - apply (Hins _ Held); [done|by right|done..].
Qed.

Lemma deal_length l l' : deal_step workers l l' → (length l ≤ length l')%nat.
Proof. destruct 1; rewrite ?length_app, ?length_insert; cbn; lia. Qed.

Lemma deal_sent n l l' : deal_step workers l l' → sent n l → sent n l'.
Proof. intros Hd (st & Hn & Hst). destruct (deal_fate _ _ _ _ Hd Hn) as [|(st' & ? & _ & ? & _)]; by eexists. Qed.

Lemma deal_ended n st l l' : deal_step workers l l' → over n st l → over n st l'.
Proof.
  intros Hd [Hn Hst]. destruct (deal_fate _ _ _ _ Hd Hn) as [?|(_ & _ & [-> | ->] & _)]; by try split.
Qed.

Lemma deal_taken i n l l' : deal_step workers l l' → taken workers i n l → taken workers i n l'.
Proof.
  intros Hd [Hn Hm]. pose proof (deal_length _ _ Hd). split; [lia|]. intros m Hlt Hi Hw.
  destruct (lookup_lt_is_Some_2 l m) as [st Hst]; [lia|].
  destruct (deal_fate _ _ _ _ Hd Hst) as [Hs|(st' & Hs & _ & _ & Hne)]; [|congruence].
  apply (Hm m Hlt Hi). congruence.
Qed.

End fates.

(** ** Fairness *)

Section fair.
Context `{SL : SdsLib, SS : !SdsSpec SL, LA : LoggerAPI}.
Context (stack : bytes) (fuel : nat) (iFd : Z).
Context (ws : list tsWorkerStruct) (run : nat → system) (acts : nat → action).
Implicit Types (p : process) (l : list status).

(** Some time from [t] on, worker [i] is in a state of [Q]. *)
Definition eventually (i t : nat) (Q : nat → process → Prop) : Prop :=
  ∃ t' p, (t ≤ t')%nat ∧ s_procs (run t') !! i = Some p ∧ Q t' p.

(** From some time after [t] on, worker [i] is for ever in a state of [Q]. *)
Definition finally (i t : nat) (Q : process → Prop) : Prop :=
  ∃ T, (t ≤ T)%nat ∧ ∀ t', (T ≤ t')%nat → ∃ p, s_procs (run t') !! i = Some p ∧ Q p.

Record fair : Prop := {
  fr_start : at_start ws (run 0%nat);
  fr_step t : perform stack fuel iFd (acts t) (run t) = Some (Ok (run (S t)));
  fr_behaved t : @kernel_ok (surroundings_of (acts t)) ∧ knows_peers (E := surroundings_of (acts t));
  fr_messages i t : (i < length ws)%nat → eventually i t (λ t' p,
    inbox (p_end p) = [] ∨ ∃ E, acts t' = A_event i E Ev_ipc ∧
      delivers (env (m_trace (p_machine p)) (X_recvmsg (iWorkerIPCfd (p_self p)))) p);
  fr_timers i t n : (i < length ws)%nat → eventually i t (λ t' p,
    (∀ a, ¬ holds p a n) ∨ ∃ E a, acts t' = A_event i E (Ev_timeout a) ∧ holds p a n);
}.

(** The fates at time [t]. *)
Definition follows (t : nat) l : Prop :=
  related ws (run t) l ∧ rtc (deal_step (length ws)) [] l ∧ Stuck ∉ l.

Context (is_fair : fair).

Lemma follows_step t l :
  follows t l → ∃ l', (l' = l ∨ deal_step (length ws) l l') ∧ follows (S t) l'.
Proof.
  intros (Hrel & Hd & Hl). destruct (fr_behaved is_fair t) as [Hwb Hpeers].
  destruct (perform_ok stack fuel iFd ws _ l _ _ Hrel Hwb (fr_step is_fair t))
    as (l' & [Hstep Hno] & Hrel').
  exists l'. split; [done|]. split_and!; [done| |by apply Hno].
  destruct Hstep as [->|Hstep]; [done|by eapply rtc_r].
Qed.

(** What the abstract machine keeps is kept. *)
Lemma follows_keeps (P : list status → Prop) t t' l :
  (∀ l l', deal_step (length ws) l l' → P l → P l') →
  follows t l → P l → (t ≤ t')%nat → ∃ l', follows t' l' ∧ P l'.
Proof.
  intros HP Hf Hl. induction 1 as [|t' _ (l1 & Hf1 & HP1)]; [by exists l|].
  destruct (follows_step _ _ Hf1) as (l2 & [->|Hd] & Hf2); [by exists l1|exists l2]. split; [done|by eapply HP].
Qed.

Lemma follows_any t : ∃ l, follows t l.
Proof.
  destruct (follows_keeps (λ _, True) 0 t []) as (l & Hl & _); [done| |done|lia|by exists l].
  split_and!; [apply start_related, is_fair|done|apply not_elem_of_nil].
Qed.

Lemma follows_proc t l i : follows t l → (i < length ws)%nat → ∃ p, s_procs (run t) !! i = Some p.
Proof.
  intros (Hrel & _) Hi. destruct (rl_workers _ _ _ Hrel) as (_ & Hlen & _).
  apply lookup_lt_is_Some. by rewrite Hlen.
Qed.

Lemma follows_tracks t l i p :
  follows t l → s_procs (run t) !! i = Some p → tracks (mine (length ws) i l) (p_clients p) (p_end p).
Proof. intros (Hrel & _). apply (rl_procs _ _ _ Hrel). Qed.

Lemma mine_own n l : mine (length ws) (n mod length ws)%nat l n = l !! n.
Proof. unfold mine. by rewrite decide_True. Qed.

(** An event that was performed and whose outcome is known. *)
Lemma performed t i E e p (Q : process → Prop) :
  acts t = A_event i E e → s_procs (run t) !! i = Some p →
  (@kernel_ok E → knows_peers (E := E) → p_running p = true →
   (∃ o, perform stack fuel iFd (A_event i E e) (run t) = Some o) →
   leads_to stack fuel iFd E i e (run t) Q ∨ breaks stack fuel iFd E i p e (run t)) →
  ∃ p', s_procs (run (S t)) !! i = Some p' ∧ Q p'.
Proof.
  intros Ha Hp HQ. destruct (fr_behaved is_fair t) as [Hwb Hpeers]. pose proof (fr_step is_fair t) as Hs.
  rewrite Ha in Hwb, Hpeers, Hs.
  destruct (HQ Hwb Hpeers) as [(s' & p' & Hs' & Hp')|(f & _ & Hs')]; [|by eexists|..].
  - cbn in Hs. rewrite Hp in Hs. cbn in Hs. by destruct (p_running p).
  - rewrite Hs in Hs'. injection Hs' as <-. by exists p'.
  - rewrite Hs in Hs'. by destruct f.
Qed.

(** One more connection is taken. *)
Lemma take_next (P : list status → Prop) t l i n :
  (∀ l l', deal_step (length ws) l l' → P l → P l') → (i < length ws)%nat →
  follows t l → P l → taken (length ws) i n l → (n < length l)%nat →
  ∃ t' l', (t ≤ t')%nat ∧ follows t' l' ∧ P l' ∧ taken (length ws) i (S n) l'.
Proof.
  intros HP Hi Hf Hl Hn Hlen.
  set (P' := λ l, P l ∧ taken (length ws) i n l ∧ (n < length l)%nat).
  assert (∀ l l', deal_step (length ws) l l' → P' l → P' l') as HP'.
  { intros l1 l2 Hd (H1 & H2 & H3). pose proof (deal_length _ _ _ Hd).
    split_and!; [by eapply HP|by eapply deal_taken|lia]. }
  assert (∀ t l p, follows t l → P' l → s_procs (run t) !! i = Some p →
    (∀ m, m ∈ inbox (p_end p) → (n < m)%nat) → taken (length ws) i (S n) l) as Hdone.
  { intros t1 l1 p1 Hf1 (_ & [_ Ht] & Hlt) Hp1 Hin. split; [lia|]. intros m Hm Hmod Hw.
    destruct (decide (m = n)) as [->|]; [|by apply (Ht m); [lia| |]].
    assert (n < n)%nat; [|lia]. apply Hin, (tk_inbox _ _ _ (follows_tracks _ _ _ _ Hf1 Hp1)).
    unfold mine. by rewrite decide_True. }
  destruct (fr_messages is_fair i t Hi) as (t1 & p1 & Hle & Hp1 & Hor).
  destruct (follows_keeps P' t t1 l) as (l1 & Hf1 & HP1); [done..|].
  destruct Hor as [Hnil|(E & Ha & Hdel)].
  { exists t1, l1. split_and!; [done|done|apply HP1|]. eapply Hdone; [done..|]. rewrite Hnil.
    by intros m ?%not_elem_of_nil. }
  pose proof (follows_tracks _ _ _ _ Hf1 Hp1) as Htk.
  destruct (inbox (p_end p1)) as [|x rest] eqn:Hin.
  { exists t1, l1. split_and!; [done|done|apply HP1|]. eapply Hdone; [done..|]. rewrite Hin.
    by intros m ?%not_elem_of_nil. }
  destruct (performed t1 i E Ev_ipc p1 (λ p', inbox (p_end p') = rest ∧ ∃ a, holds p' a x)) as (p2 & Hp2 & Hr2 & _);
    [done|done|intros; eapply (message_leads stack fuel iFd ws); [apply Hf1|done..]|].
  destruct (follows_keeps P' t1 (S t1) l1) as (l2 & Hf2 & HP2); [done..|lia|].
  exists (S t1), l2. split_and!; [lia|done|apply HP2|]. eapply Hdone; [done..|]. rewrite Hr2. intros m Hm.
  pose proof (tk_sorted _ _ _ Htk) as Hsort. rewrite Hin in Hsort.
  apply StronglySorted_inv in Hsort as [_ Hsort]. eapply Forall_forall in Hsort; [|exact Hm].
  assert (¬ (x < n)%nat); [|lia]. intros Hx. destruct HP1 as (_ & [_ Ht] & _).
  assert (mine (length ws) i l1 x = Some Waiting) as Hw by (apply (tk_inbox _ _ _ Htk); rewrite Hin; by left).
  unfold mine in Hw. case_decide; [|done]. by apply (Ht x).
Qed.

(** Every connection of a worker is taken some time. *)
Lemma take_all (P : list status → Prop) t l i n :
  (∀ l l', deal_step (length ws) l l' → P l → P l') → (i < length ws)%nat →
  follows t l → P l → (n ≤ length l)%nat →
  ∃ t' l', (t ≤ t')%nat ∧ follows t' l' ∧ P l' ∧ taken (length ws) i n l'.
Proof.
  intros HP Hi Hf Hl Hn. set (P' := λ l, P l ∧ (n ≤ length l)%nat).
  assert (∀ l l', deal_step (length ws) l l' → P' l → P' l') as HP'.
  { intros l1 l2 Hd [H1 H2]. pose proof (deal_length _ _ _ Hd). split; [by eapply HP|lia]. }
  assert (∀ k, (k ≤ n)%nat → ∃ t' l', (t ≤ t')%nat ∧ follows t' l' ∧ P' l' ∧ taken (length ws) i k l') as Hk.
  { induction k as [|k IH]; intros Hkn.
    { exists t, l. split_and!; [done|done|by split|split; [lia|intros; lia]]. }
    destruct IH as (t1 & l1 & Hle & Hf1 & HP1 & Ht1); [lia|]. pose proof HP1 as [_ Hlen].
    destruct (take_next P' t1 l1 i k) as (t2 & l2 & Hle2 & ?); [done..|lia|]. exists t2, l2. split; [lia|done]. }
  destruct (Hk n) as (t' & l' & Hle & Hf' & [HP1 _] & Ht'); [done|]. by exists t', l'.
Qed.

(** A connection that waits for data is held by a client, and its timer runs. *)
Lemma held_holds t l n p :
  follows t l → s_procs (run t) !! (n mod length ws)%nat = Some p → l !! n = Some Held → ∃ a, holds p a n.
Proof.
  intros Hf Hp Hn. pose proof (follows_tracks _ _ _ _ Hf Hp) as Htk.
  destruct (tk_kept _ _ _ Htk n) as (a & e & Ha & Hfd); [left; by rewrite mine_own|].
  destruct (tk_client _ _ _ Htk _ _ Ha) as (n' & Hn' & Hheld). simplify_eq. rewrite mine_own, Hn in Hheld.
  destruct (active_client _ a (tk_ok _ _ _ Htk)) as (c & Hc & _).
  - rewrite Ha. cbn. by destruct (io e).
  - exists a, c. simplify_eq. done.
Qed.

(** A connection that was taken comes to an end. *)
Lemma held_ends t l n :
  (n mod length ws < length ws)%nat → follows t l → sent n l →
  taken (length ws) (n mod length ws) (S n) l →
  ∃ t' l' st, (t ≤ t')%nat ∧ follows t' l' ∧ over n st l'.
Proof.
  intros Hi Hf Hs Ht. set (P := λ l, sent n l ∧ taken (length ws) (n mod length ws) (S n) l).
  assert (∀ l l', deal_step (length ws) l l' → P l → P l') as HP.
  { intros l1 l2 Hd [H1 H2]. split; [by eapply deal_sent|by eapply deal_taken]. }
  assert (∀ t l, follows t l → P l → l !! n = Some Held ∨ ∃ st, over n st l) as Hcases.
  { intros t1 l1 (_ & _ & Hstuck) [(st & Hn & Hl) [_ Hw]].
    destruct st; [done| | | |right; by eexists|right; by eexists].
    - by destruct (Hw n); [lia| |].
    - by left.
    - destruct Hstuck. by apply list_elem_of_lookup_2 with n. }
  destruct (fr_timers is_fair _ t n Hi) as (t1 & p1 & Hle & Hp1 & Hor).
  destruct (follows_keeps P t t1 l) as (l1 & Hf1 & HP1); [done|done|by split|done|].
  destruct (Hcases _ _ Hf1 HP1) as [Hheld|[st Hst]]; [|by exists t1, l1, st].
  destruct (held_holds _ _ _ _ Hf1 Hp1 Hheld) as [b Hb].
  destruct Hor as [Hno|(E & a & Ha & Hh)]; [by destruct (Hno b)|].
  destruct (performed t1 (n mod length ws)%nat E (Ev_timeout a) p1 (λ p', p_clients p' = delete a (p_clients p1) ∧
    closed_quietly n p')) as (p2 & Hp2 & _ & Hcl & _);
    [done|done|intros; eapply (timeout_leads stack fuel iFd ws); [apply Hf1|done..]|].
  destruct (follows_keeps P t1 (S t1) l1) as (l2 & Hf2 & HP2); [done..|lia|].
  destruct (Hcases _ _ Hf2 HP2) as [Hheld2|[st Hst]]; [|exists (S t1), l2, st; by split; [lia|]].
  destruct (held_holds _ _ _ _ Hf2 Hp2 Hheld2) as (b2 & c & _ & Hc). by destruct (Hcl (iSockfd c)).
Qed.

(** What can be seen of a connection that has come to an end. *)
Lemma ended_seen t l n st :
  (n mod length ws < length ws)%nat → follows t l → over n st l →
  ∃ p, s_procs (run t) !! (n mod length ws)%nat = Some p ∧
    wires n (history (p_end p)) = wire_of (Some st) ∧
    (∀ data resp sent shut, st = Answered data resp sent shut →
       (∃ evs, handled (cprefix data) evs resp) ∧ part_of resp sent) ∧
    (n ∉ inbox (p_end p)) ∧ ∀ fd, fds (p_end p) !! fd ≠ Some (Conn n).
Proof.
  intros Hi Hf [Hn Hst]. destruct (follows_proc _ _ _ Hf Hi) as [p Hp]. exists p. split; [done|].
  pose proof (follows_tracks _ _ _ _ Hf Hp) as Htk. split_and!.
  - by rewrite (tk_wire _ _ _ Htk), mine_own, Hn.
  - intros data resp sent shut ->. destruct Hf as (_ & Hd & _). by eapply answered_handled.
  - rewrite (tk_inbox _ _ _ Htk), mine_own, Hn. by intros [= ->].
  - intros fd Hfd. apply (tk_fd _ _ _ Htk) in Hfd. rewrite mine_own, Hn in Hfd.
    by destruct Hfd as [[= ->]|[= ->]].
Qed.

(** C4: Every connection a worker is sent, or has, comes to an end in every fair run: from
    some time on it is for ever closed in the worker, and nothing was received on it, or one
    request was, for which one response that [handled] allows was handed to the kernel, once
    (as far as the kernel took it).  The client needs to do nothing for this: the timer is
    enough.  The run is one in which the callbacks return ([system_safe] says when they do
    not), the kernel stores no more bytes than asked for and finds the address of every peer;
    fairness is of the kernel and of the event library only, and a run in which a worker is
    told to stop while connections wait in it is not fair. *)
Theorem every_connection_ends n t p :
  s_procs (run t) !! (n mod length ws)%nat = Some p →
  n ∈ inbox (p_end p) ∨ (∃ fd, fds (p_end p) !! fd = Some (Conn n)) →
  finally (n mod length ws)%nat t (λ p',
    ((∃ shut, wires n (history (p_end p')) = shut_wire shut) ∨ ∃ data evs resp sent shut,
       wires n (history (p_end p')) = Received data :: (Replied <$> option_list sent) ++ shut_wire shut ∧
       handled (cprefix data) evs resp ∧ part_of resp sent) ∧
    (n ∉ inbox (p_end p')) ∧ ∀ fd, fds (p_end p') !! fd ≠ Some (Conn n)).
Proof.
  intros Hp Hn. destruct (follows_any t) as [l Hf]. pose proof Hf as (Hrel & _ & _).
  destruct (rl_workers _ _ _ Hrel) as (Hne & _ & _).
  assert (n mod length ws < length ws)%nat as Hi by (apply Nat.mod_upper_bound; by destruct ws).
  pose proof (follows_tracks _ _ _ _ Hf Hp) as Htk.
  assert (sent n l) as Hs.
  { destruct Hn as [Hin|[fd Hfd]].
    - apply (tk_inbox _ _ _ Htk) in Hin. rewrite mine_own in Hin. by eexists.
    - pose proof (tk_fd _ _ _ Htk _ _ Hfd) as Hk. rewrite mine_own in Hk. unfold sent.
      by destruct Hk as [-> | ->]; eexists. }
  assert (S n ≤ length l)%nat as Hlen by (destruct Hs as (st & Hst & _); by apply lookup_lt_Some in Hst).
  destruct (take_all (sent n) t l _ (S n) (deal_sent _ n) Hi Hf Hs Hlen) as (t1 & l1 & Hle1 & Hf1 & Hs1 & Ht1).
  destruct (held_ends _ _ _ Hi Hf1 Hs1 Ht1) as (t2 & l2 & st & Hle2 & Hf2 & He2).
  exists t2. split; [lia|]. intros t' Hle.
  destruct (follows_keeps (over n st) t2 t' l2) as (l' & Hf' & He'); [apply deal_ended|done..|].
  destruct (ended_seen _ _ _ _ Hi Hf' He') as (p' & Hp' & Hw & Hh & Hend). exists p'. split; [done|].
  split; [|done]. destruct He' as [_ Hst]. destruct st as [| | | |data resp sent shut|shut]; try done.
  - right. destruct (Hh data resp sent shut) as [[evs ?] ?]; [done|]. by exists data, evs, resp, sent, shut.
  - left. by exists shut.
Qed.

End fair.
