(* ===== verification/Exhaustion.v ===== *)
(** * Running out of descriptors

    Neither the master nor a worker closes everything it opens.  The kernel gives a process
    no more than a limited number of descriptors, so what is left open bounds how many
    connections the master can ever accept and how many files a worker can ever serve. *)

From S2P Require Import Prelude CString Machine SdsModel Http Worker Socket Client WorkerProc Reaction System.
Local Open Scope Z_scope.

(** ** Counting descriptors *)

(** All numbers are below the limit of the process. *)
Definition within (limit : Z) (t : fd_table) : Prop := ∀ fd, is_Some (t !! fd) → 0 ≤ fd < limit.

Lemma within_size limit t : 0 ≤ limit → within limit t → Z.of_nat (size t) ≤ limit.
Proof.
  intros Hl Ht. rewrite <-(size_dom (D := gset Z) t).
  assert (dom t ⊆ list_to_set (C := gset Z) (seqZ 0 limit)) as Hsub.
  { intros fd [d Hd]%elem_of_dom. apply elem_of_list_to_set, elem_of_seqZ. assert (0 ≤ fd < limit) by eauto. lia. }
  apply subseteq_size in Hsub. rewrite size_list_to_set, length_seqZ in Hsub by apply NoDup_seqZ. lia.
Qed.

(** Different values need different keys. *)
Lemma values_size {A} (vals : list A) : ∀ t : gmap Z A,
  NoDup vals → (∀ v, v ∈ vals → ∃ fd, t !! fd = Some v) → (length vals ≤ size t)%nat.
Proof.
  induction vals as [|v vals IH]; intros t Hnd Hin; [cbn; lia|]. apply NoDup_cons in Hnd as [Hv Hnd].
  destruct (Hin v) as [fd Hfd]; [left|]. cbn.
  assert (length vals ≤ size (delete fd t))%nat as Hle.
  { apply IH; [done|]. intros u Hu. destruct (Hin u) as [fd' Hfd']; [by right|]. exists fd'.
    rewrite lookup_delete_ne; [done|]. intros ->. congruence. }
  rewrite map_size_delete_Some in Hle by (by eexists).
  assert (size t ≠ 0%nat); [|lia]. rewrite map_size_ne_0_lookup. by exists fd, v.
Qed.

(** The descriptors that are no connections. *)
Definition others (t : fd_table) : nat := size (filter (λ x : Z * fdesc, x.2 = Other) t).

Lemma others_insert fd d t :
  t !! fd = None → others (<[fd := d]> t) = (others t + if decide (d = Other) then 1 else 0)%nat.
Proof.
  intros Hfd. unfold others. case_decide as Hd.
  - rewrite map_filter_insert_True by done. rewrite map_size_insert_None; [lia|].
    apply map_lookup_filter_None. by left.
  - rewrite map_filter_insert_False by done. rewrite delete_id by done. lia.
Qed.

Lemma others_delete fd n t : t !! fd = Some (Conn n) → others (delete fd t) = others t.
Proof.
  intros Hfd. unfold others. rewrite map_filter_delete, delete_id; [done|].
  apply map_lookup_filter_None. right. intros d Hd. by simplify_eq.
Qed.

Lemma others_size fd d t : t !! fd = Some d → d ≠ Other → (others t < size t)%nat.
Proof.
  intros Hfd Hd. rewrite <-(insert_delete_id t fd d Hfd).
  rewrite others_insert, map_size_insert_None by apply lookup_delete_eq. rewrite decide_False by done.
  assert (others (delete fd t) ≤ size (delete fd t))%nat; [|lia].
  apply map_subseteq_size, map_filter_subseteq.
Qed.

(** ** What a worker leaves open *)

(** The files a process opened. *)
Definition opens (e : event) : bool := match e with (X_open _, r) => negb (x_ret r =? -1) | _ => false end.
Definition opened (tr : list event) : nat := length (filter (λ e, opens e = true) tr).

Lemma opened_app tr tr' : opened (tr ++ tr') = (opened tr + opened tr')%nat.
Proof. unfold opened. by rewrite filter_app, length_app. Qed.

Lemma opened_cons e tr : opened (e :: tr) = ((if opens e then 1 else 0) + opened tr)%nat.
Proof. unfold opened. rewrite filter_cons. by destruct (opens e). Qed.

(** Calls that close nothing, and open nothing but files and connections. *)
Definition mild (c : ext_call) : Prop :=
  match c with X_close _ | X_socket | X_unix_socket | X_accept _ | X_dup _ => False | _ => True end.

Lemma on_conn_fds fd x r k k' : on_conn fd x r k = Some k' → fds k' = fds k.
Proof. unfold on_conn. intros. repeat case_match; by simplify_eq. Qed.

Lemma mild_call c r k k' :
  mild c → worker_call c r k = Some k' →
  others (fds k') = (others (fds k) + if opens (c, r) then 1 else 0)%nat ∧
  ∀ fd d, fds k !! fd = Some d → fds k' !! fd = Some d.
Proof.
  intros Hc Hk. assert (∀ fd d, free_fd fd (fds k) = true → fds k' = <[fd := d]> (fds k) →
    others (fds k') = (others (fds k) + if decide (d = Other) then 1 else 0)%nat ∧
    ∀ fd d, fds k !! fd = Some d → fds k' !! fd = Some d) as Hins.
  { intros fd d [_ Hf]%free_fd_Some ->. split; [by apply others_insert|]. intros fd' d' Hd'.
    rewrite lookup_insert_ne; [done|congruence]. }
  assert (fds k' = fds k → opens (c, r) = false →
    others (fds k') = (others (fds k) + if opens (c, r) then 1 else 0)%nat ∧
    ∀ fd d, fds k !! fd = Some d → fds k' !! fd = Some d) as Hsame.
  { intros -> ->. split; [lia|done]. }
  destruct c; try done; cbn in Hk; try (by injection Hk as <-; apply Hsame);
    try (by apply Hsame; [by eapply on_conn_fds|]).
  - destruct (Z.eqb_spec (x_ret r) (-1)) as [Hr|Hr].
    + injection Hk as <-. apply Hsame; [done|]. cbn. by rewrite Hr.
    + destruct (free_fd _ _) eqn:Hf; [|done]. injection Hk as <-. cbn [opens].
      rewrite (proj2 (Z.eqb_neq _ _) Hr). by apply (Hins (x_ret r) Other).
  - apply Hsame; [|done]. destruct (x_ret r <=? 0); [by injection Hk as <-|].
    destruct (x_ret r =? _); [|done]. by eapply on_conn_fds.
  - destruct (_ || _); [injection Hk as <-; by apply Hsame|].
    destruct (fds k !! fd) as [[]|]; try done. destruct (inbox k) as [|n rest]; [done|].
    destruct (carries _ _ && _) eqn:Hf; [|done]. apply andb_prop in Hf as [_ Hf]. injection Hk as <-.
    by apply (Hins (given_fd (x_data r)) (Conn n)).
Qed.

Lemma mild_calls evs : ∀ k k', Forall mild evs.*1 → worker_calls evs k = Some k' →
  others (fds k') = (others (fds k) + opened evs)%nat ∧
  ∀ fd d, fds k !! fd = Some d → fds k' !! fd = Some d.
Proof.
  induction evs as [|[c r] evs IH]; intros k k' Hm Hk.
  - injection Hk as <-. split; [cbn; lia|done].
  - cbn in Hm, Hk. apply Forall_cons in Hm as [Hc Hm]. apply bind_Some in Hk as (k1 & Hk1 & Hk).
    destruct (mild_call _ _ _ _ Hc Hk1) as [Ho Hup]. destruct (IH _ _ Hm Hk) as [Ho' Hup'].
    split; [rewrite opened_cons; lia|auto].
Qed.

Lemma handled_mild req evs resp : handled req evs resp → Forall mild evs.*1.
Proof. destruct 1; by repeat constructor. Qed.

Lemma deregistered_mild p fd down :
  deregistered p fd down → ∃ evs r, down = evs ++ [(X_close fd, r)] ∧ Forall mild evs.*1.
Proof.
  intros (r1 & r2 & r3 & rs & r4 & ->). eexists _, r4. rewrite (assoc_L (++)). split; [done|].
  rewrite fmap_app. apply Forall_app. split; [by repeat constructor|].
  unfold read_events. induction rs; [constructor|by constructor].
Qed.

(** A worker closes at most one descriptor in an event, that of a client, and that last. *)
Lemma reaction_mild stack E tr w cs e new cs' :
  reaction stack E tr w cs e new cs' →
  Forall mild new.*1 ∨ ∃ p c evs r, cs !! p = Some (ClientEv c true true) ∧
    new = evs ++ [(X_close (iSockfd c), r)] ∧ Forall mild evs.*1.
Proof.
  destruct 1 as [| r p id ip new on _ _ _ Hreg _| | |p c r down Hp _ _ Hd
    |p c r r1 evs resp r2 down Hp _ _ Hh Hd|p c down Hp Hd|].
  - left. by repeat constructor.
  - left. constructor; [done|]. eapply Forall_impl; [exact Hreg|]. by intros [].
  - left. constructor.
  - left. by repeat constructor.
  - right. apply deregistered_mild in Hd as (evs & r' & -> & Hm). eexists p, c, (_ :: evs), r'. split_and!; [done..|].
    by constructor.
  - right. apply deregistered_mild in Hd as (evs' & r' & -> & Hm). eexists p, c, _, r'.
    rewrite !(assoc_L (++)). split_and!; [done..|]. rewrite !fmap_app, !Forall_app.
    split_and!; try by repeat constructor. by eapply handled_mild.
  - right. apply deregistered_mild in Hd as (evs & r' & -> & Hm). by exists p, c, evs, r'.
  - left. by repeat constructor.
Qed.

(** So the files it opens stay open. *)
Lemma reaction_leaks stack E tr w f cs e new cs' k k' :
  tracks f cs k → reaction stack E tr w cs e new cs' → worker_calls new k = Some k' →
  others (fds k') = (others (fds k) + opened new)%nat.
Proof.
  intros Htk Hre Hk. destruct (reaction_mild _ _ _ _ _ _ _ _ Hre) as [Hm|(p & c & evs & r & Hp & -> & Hm)].
  - by destruct (mild_calls _ _ _ Hm Hk).
  - rewrite worker_calls_app in Hk. apply bind_Some in Hk as (k1 & Hk1 & [= <-]).
    destruct (mild_calls _ _ _ Hm Hk1) as [Ho Hup]. destruct (tk_client _ _ _ Htk _ _ Hp) as (n & Hn & _).
    cbn. rewrite (others_delete _ n) by (by apply Hup). rewrite Ho, opened_app. change (opened [_]) with 0%nat. lia.
Qed.

(** ** The processes together *)

Section exhaustion.
Context `{SL : SdsLib, SS : !SdsSpec SL, LA : LoggerAPI}.
Context (stack : bytes) (fuel : nat) (iFd : Z).
Implicit Types (s : system) (p q : process).

(** The descriptors [p] has besides connections are those [q] had and one for each file
    opened since. *)
Definition leaked q p : Prop :=
  (others (fds (p_end p)) + opened (m_trace (p_machine q)) =
   others (fds (p_end q)) + opened (m_trace (p_machine p)))%nat.

(** The calls of the master only put messages into inboxes. *)
Lemma master_calls_procs evs : ∀ s s' i p', master_calls evs s = Some s' → s_procs s' !! i = Some p' →
  ∃ p, s_procs s !! i = Some p ∧ p_self p' = p_self p ∧ p_clients p' = p_clients p ∧
    p_machine p' = p_machine p ∧ fds (p_end p') = fds (p_end p) ∧ history (p_end p') = history (p_end p).
Proof.
  induction evs as [|[c r] evs IH]; intros s s' i p' Hs Hp'; [injection Hs as <-; by exists p'|].
  cbn in Hs. apply bind_Some in Hs as (s1 & Hs1 & Hs). destruct (IH _ _ _ _ Hs Hp') as (p1 & Hp1 & Heq).
  assert (s_procs s1 = s_procs s ∨ ∃ n j, s_procs s1 = alter (deliver n) j (s_procs s)) as [Hsame|(n & j & Halt)].
  { destruct c; cbn in Hs1; repeat case_match; simplify_eq; eauto. }
  - rewrite Hsame in Hp1. by exists p1.
  - rewrite Halt in Hp1. destruct (decide (j = i)) as [->|Hj].
    + rewrite list_lookup_alter_eq in Hp1. apply fmap_Some in Hp1 as (p & Hp & ->). by exists p.
    + rewrite list_lookup_alter_ne in Hp1 by done. by exists p1.
Qed.

Lemma accept_runs E s s' :
  perform stack fuel iFd (A_accept E) s = Some (Ok s') →
  ∃ s1, master_calls (calls_between (s_machine s) (s_machine s')) s = Some s1 ∧
    s_fds s' = s_fds s1 ∧ s_accepted s' = s_accepted s1 ∧ s_procs s' = s_procs s1.
Proof.
  cbn. destruct (socket_accept_client _ _ _ _) as [[g| | |] m]; try done. cbn.
  destruct (master_calls _ s) as [s1|] eqn:Hs1; [|done]. cbn. intros [= <-]. by exists s1.
Qed.

Lemma step_leaks ws s l a s' i p' :
  related ws s l → @kernel_ok (surroundings_of a) → perform stack fuel iFd a s = Some (Ok s') →
  s_procs s' !! i = Some p' → ∃ p, s_procs s !! i = Some p ∧ leaked p p'.
Proof.
  intros Hrel Hwb Ha Hp'. destruct a as [E|j E e].
  - apply accept_runs in Ha as (s1 & Hs1 & _ & _ & Hprocs). rewrite Hprocs in Hp'.
    destruct (master_calls_procs _ _ _ _ _ Hs1 Hp') as (p & Hp & _ & _ & Hm & Hf & _).
    exists p. split; [done|]. unfold leaked. by rewrite Hm, Hf.
  - assert (∃ q, s_procs s !! j = Some q ∧ p_running q = true) as (q & Hq & Hrun).
    { cbn in Ha. destruct (s_procs s !! j) as [q|]; [|done]. exists q. split; [done|]. cbn in Ha. by destruct (p_running q). }
    destruct (event_runs stack fuel iFd ws s l j q E e) as [(cs & m & new & Ht & Hre & Hperf)|([] & _ & Hperf)];
      [done..| |by rewrite Ha in Hperf|by rewrite Ha in Hperf].
    rewrite Hperf in Ha. apply bind_Some in Ha as (k & Hk & [= <-]). cbn in Hp'.
    apply list_lookup_insert_Some in Hp' as [(<- & <- & _)|[Hij Hp']]; [|by exists p'].
    exists q. split; [done|]. unfold leaked. cbn. rewrite Ht, opened_app.
    rewrite (reaction_leaks _ _ _ _ _ _ _ _ _ _ _ (rl_procs _ _ _ Hrel _ _ Hq) Hre Hk). lia.
Qed.

Lemma reachable_leaks ws s0 s i p :
  at_start ws s0 → rtc (sys_step stack fuel iFd) s0 s → s_procs s !! i = Some p →
  ∃ p0, s_procs s0 !! i = Some p0 ∧ leaked p0 p.
Proof.
  intros H0 Hs. revert s Hs p. apply (rtc_ind_r (λ s, ∀ p, s_procs s !! i = Some p → _)).
  { intros p Hp. by exists p. }
  intros s1 s2 Hs1 (a & Hwb & Ha) IH p Hp.
  destruct (reachable_related stack fuel iFd ws s0 s1 H0 Hs1) as (l & _ & Hrel).
  destruct (step_leaks _ _ _ _ _ _ _ Hrel Hwb Ha Hp) as (p1 & Hp1 & Hl).
  destruct (IH p1 Hp1) as (p0 & Hp0 & Hl0). exists p0. split; [done|]. unfold leaked in *. lia.
Qed.

(** C17: Descriptors run out, in every state, reachable by callbacks that return with answers
    of the kernel within [kernel_ok], of a system whose processes may have [limit] descriptors
    each.  The master has accepted no more connections than its limit
    leaves beside its workers, however long ago all of them ended: after that many, [accept]
    can only fail.  A worker has opened no more files than its limit leaves beside its
    connection to the master: after that many, every request for a file is answered by a
    header alone. *)
Theorem descriptors_run_out ws s0 s limit :
  at_start ws s0 → rtc (sys_step stack fuel iFd) s0 s → 0 ≤ limit →
  (within limit (s_fds s) → Z.of_nat (s_accepted s) + Z.of_nat (length ws) ≤ limit) ∧
  ∀ i p0 p, s_procs s0 !! i = Some p0 → s_procs s !! i = Some p → within limit (fds (p_end p)) →
    Z.of_nat (opened (m_trace (p_machine p))) - Z.of_nat (opened (m_trace (p_machine p0))) +
    Z.of_nat (others (fds (p_end p0))) + 1 ≤ limit.
Proof.
  intros H0 Hs Hlim. destruct (reachable_related stack fuel iFd ws s0 s H0 Hs) as (l & _ & Hrel).
  split.
  - intros Hw. apply within_size in Hw; [|done].
    assert (length ((Conn <$> seq 0 (s_accepted s)) ++ (Link <$> seq 0 (length ws))) ≤ size (s_fds s))%nat as Hle.
    { apply values_size.
      - apply NoDup_app. split_and!; [apply NoDup_fmap; [by intros ?? [=]|apply NoDup_seq]| |
          apply NoDup_fmap; [by intros ?? [=]|apply NoDup_seq]].
        intros d (n & -> & _)%list_elem_of_fmap (i & ? & _)%list_elem_of_fmap. done.
      - intros d [(n & -> & Hn%elem_of_seq)%list_elem_of_fmap|(i & -> & Hi%elem_of_seq)%list_elem_of_fmap]%elem_of_app.
        + apply (rl_open _ _ _ Hrel). rewrite <-(rl_count _ _ _ Hrel). lia.
        + destruct (lookup_lt_is_Some_2 ws i) as [w Hw']; [lia|]. exists (iMasterIPCfd w). by apply (rl_links _ _ _ Hrel). }
    rewrite length_app, !length_fmap, !length_seq in Hle. lia.
  - intros i p0 p Hp0 Hp Hw. apply within_size in Hw; [|done].
    destruct (reachable_leaks _ _ _ _ _ H0 Hs Hp) as (p0' & Hp0' & Hl). simplify_eq. unfold leaked in Hl.
    pose proof (others_size _ _ _ (rl_ipc _ _ _ Hrel _ _ Hp) ltac:(done)). lia.
Qed.

End exhaustion.
