(* ===== verification/DeadWorker.v ===== *)
(** * A worker that has ended

    A worker process can end at any time, by a signal or by itself.  The master does not
    notice: nothing calls [worker_monitor], and [worker_route_client] goes on dealing
    connections to every entry of the table.  Here the processes of System.v run with workers
    that end: an ended worker takes no more steps, and a message to it cannot be sent, since
    nobody has the other end of the connection. *)

From S2P Require Import Prelude CString Machine SdsModel Http Worker Socket Client WorkerProc Reaction System.
From S2P Require Import Exhaustion.
Local Open Scope Z_scope.

(** The processes, and the workers that have ended. *)
Record mortals `{SL : SdsLib, LA : LoggerAPI} : Type := Mortals {
  b_sys : system;
  b_dead : gset nat;
}.
#[global] Arguments Mortals {_ _} _ _.

Section dead.
Context `{SL : SdsLib, LA : LoggerAPI}.
Context (stack : bytes) (fuel : nat) (iFd : Z).
Implicit Types (s : system) (dead : gset nat) (w : mortals).

(** The call sends a message to a worker that has ended. *)
Definition dead_letter dead (c : ext_call) s : bool :=
  match c with
  | X_sendmsg fd _ =>
      match s_fds s !! fd with
      | Some (Link j) => bool_decide (j ∈ dead)
      | _ => false
      end
  | _ => false
  end.

(** Such a call fails; the others are as ever. *)
Definition mortal_call dead (c : ext_call) (r : ext_ret) s : option system :=
  if dead_letter dead c s && negb (x_ret r =? -1) then None else master_call c r s.

Fixpoint mortal_calls dead (evs : list event) s : option system :=
  match evs with
  | [] => Some s
  | (c, r) :: evs' => s' ← mortal_call dead c r s; mortal_calls dead evs' s'
  end.

Inductive mortal_step : mortals → mortals → Prop :=
  | ms_ends s dead i : mortal_step (Mortals s dead) (Mortals s ({[i]} ∪ dead))
  | ms_event s dead i E e s' :
      i ∉ dead → @kernel_ok E → perform stack fuel iFd (A_event i E e) s = Some (Ok s') →
      mortal_step (Mortals s dead) (Mortals s' dead)
  | ms_accept s dead E s' :
      @kernel_ok E → perform stack fuel iFd (A_accept E) s = Some (Ok s') →
      is_Some (mortal_calls dead (calls_between (s_machine s) (s_machine s')) s) →
      mortal_step (Mortals s dead) (Mortals s' dead).

(** Without the ends they are runs of the processes. *)
Lemma mortal_step_sys w w' : mortal_step w w' → rtc (sys_step stack fuel iFd) (b_sys w) (b_sys w').
Proof.
  destruct 1 as [s dead i|s dead i E e s' _ Hwb Hs|s dead E s' Hwb Hs _]; cbn; [done|..]; apply rtc_once.
  - by exists (A_event i E e).
  - by exists (A_accept E).
Qed.

Lemma mortal_steps_sys w w' :
  rtc mortal_step w w' → rtc (sys_step stack fuel iFd) (b_sys w) (b_sys w').
Proof. induction 1 as [|w1 w2 w3 H1 _ IH]; [done|]. etrans; [by apply mortal_step_sys|done]. Qed.

Lemma mortal_calls_dead dead j evs : ∀ s s', j ∈ dead → mortal_calls dead evs s = Some s' →
  master_calls evs s = Some s' ∧ s_procs s' !! j = s_procs s !! j.
Proof.
  induction evs as [|[c r] evs IH]; intros s s' Hj Hs; [by injection Hs as <-|]. cbn in Hs |- *.
  apply bind_Some in Hs as (s1 & Hs1 & Hs). destruct (IH _ _ Hj Hs) as [Hm Hp].
  unfold mortal_call in Hs1. destruct (dead_letter dead c s && _) eqn:Hd; [done|]. rewrite Hs1. cbn.
  split; [done|]. rewrite Hp. destruct c;
    try (cbn in Hs1; repeat case_match; by simplify_eq).
  cbn in Hs1, Hd. destruct (x_ret r =? -1); [by injection Hs1 as <-|].
  destruct (s_fds s !! fd) as [[|i|]|]; try done. destruct (kernel_takes control) as [[|fd' [|]]|]; try done.
  destruct (s_fds s !! fd') as [[n| |]|]; try done. injection Hs1 as <-. cbn. rewrite list_lookup_alter_ne; [done|]. intros ->. by rewrite bool_decide_true in Hd.
Qed.

(** What is dead stays as it is. *)
Lemma mortal_step_dead w w' j :
  mortal_step w w' → j ∈ b_dead w → j ∈ b_dead w' ∧ s_procs (b_sys w') !! j = s_procs (b_sys w) !! j.
Proof.
  destruct 1 as [s dead i|s dead i E e s' Hi Hwb Hs|s dead E s' Hwb Hs [s1 Hs1]]; cbn; intros Hj.
  - split; [set_solver|done].
  - split; [done|]. cbn in Hs. destruct (s_procs s !! i) as [p|]; [|done]. cbn in Hs.
    destruct (negb (p_running p)); [done|]. destruct (dispatch _ _ _ _ _ _) as [[cs| | |] m]; try done. cbn in Hs.
    destruct (worker_calls _ _); [|done]. injection Hs as <-. cbn.
    rewrite list_lookup_insert_ne; [done|]. by intros ->.
  - split; [done|]. apply accept_runs in Hs as (s2 & Hs2 & _ & _ & ->).
    destruct (mortal_calls_dead _ _ _ _ _ Hj Hs1) as [Hm Hp]. rewrite Hm in Hs2. by injection Hs2 as <-.
Qed.

Lemma mortal_steps_dead w w' j :
  rtc mortal_step w w' → j ∈ b_dead w → s_procs (b_sys w') !! j = s_procs (b_sys w) !! j.
Proof.
  induction 1 as [|w1 w2 w3 H1 _ IH]; [done|]. intros Hj.
  destruct (mortal_step_dead _ _ _ H1 Hj) as [Hj2 <-]. by apply IH.
Qed.

End dead.

Section starving.
Context `{SL : SdsLib, SS : !SdsSpec SL, LA : LoggerAPI}.
Context (stack : bytes) (fuel : nat) (iFd : Z).

(** Nothing has happened on a connection that has not been accepted, and whatever happens
    on a connection happens in its worker. *)
Lemma wires_elsewhere ws s l n i p :
  related ws s l → s_procs s !! i = Some p → (s_accepted s ≤ n)%nat ∨ (n mod length ws)%nat ≠ i →
  wires n (history (p_end p)) = [].
Proof.
  intros Hrel Hp Hn. rewrite (tk_wire _ _ _ (rl_procs _ _ _ Hrel _ _ Hp)). unfold mine. case_decide as Hi; [|done].
  destruct Hn as [Hn|]; [|done]. rewrite lookup_ge_None_2; [done|]. by rewrite <-(rl_count _ _ _ Hrel).
Qed.

(** C7: A worker that has ended (by a signal, an accident in a callback, or by itself) is
    never noticed.  From then on, in every run of callbacks that return, with answers of the
    kernel within [kernel_ok], and with other workers ending or not: every connection of its
    number on which nothing had happened (those on their way to it, those it held, and all
    that are dealt to it later, for ever) is neither read, answered nor shut by any process,
    while the master keeps it open, so that its client waits for ever.  The rest of the system
    still refines the abstract machine.  (A message to the ended worker fails; no signal ends
    the master.) *)
Theorem dead_worker_starves ws s0 w w' j p n :
  at_start ws s0 → rtc (mortal_step stack fuel iFd) (Mortals s0 ∅) w →
  rtc (mortal_step stack fuel iFd) w w' → j ∈ b_dead w → s_procs (b_sys w) !! j = Some p →
  (n mod length ws)%nat = j → (n < s_accepted (b_sys w'))%nat →
  wires n (history (p_end p)) = [] ∨ (s_accepted (b_sys w) ≤ n)%nat →
  (∀ i q, s_procs (b_sys w') !! i = Some q → wires n (history (p_end q)) = []) ∧
  (∃ fd, s_fds (b_sys w') !! fd = Some (Conn n)) ∧
  ∃ l, rtc (deal_step (length ws)) [] l ∧ related ws (b_sys w') l.
Proof.
  intros H0 Hw Hw' Hj Hp Hn Hacc Hnew.
  pose proof (mortal_steps_sys _ _ _ _ _ Hw) as Hs. pose proof (mortal_steps_sys _ _ _ _ _ Hw') as Hs'. cbn in Hs.
  destruct (reachable_related stack fuel iFd ws s0 (b_sys w) H0 Hs) as (l & _ & Hrel).
  destruct (reachable_related stack fuel iFd ws s0 (b_sys w') H0) as (l' & Hl' & Hrel');
    [by etrans|].
  split_and!; [|by apply (rl_open _ _ _ Hrel'); rewrite <-(rl_count _ _ _ Hrel')|by exists l'].
  intros i q Hq. destruct (decide (i = j)) as [->|Hi]; [|eapply wires_elsewhere; [done..|right; congruence]].
  rewrite (mortal_steps_dead _ _ _ _ _ _ Hw' Hj), Hp in Hq. injection Hq as <-.
  destruct Hnew as [|Hnew]; [done|]. eapply wires_elsewhere; [exact Hrel|done|by left].
Qed.

End starving.
