(* ===== verification/WorkerLife.v ===== *)
(** * The life of a worker process

    [workerp_entry] from the fork to the end of the process: the logger is started anew, the
    worker connects to the master, its event loop handles whatever comes until the signal,
    and [do_exit] releases what the process has, the inherited workers included. *)

From S2P Require Import Prelude CString Machine SdsModel Settings Http Worker Socket Exit Client WorkerProc Reaction.
Local Open Scope Z_scope.

(** The socket file exists, as seen from the history [tr] on, within [n] looks. *)
Fixpoint appears `{Env} (n : nat) (path : bytes) (tr : list event) : Prop :=
  match n with
  | O => False
  | S n' => let r := env tr (X_access path) in
            x_ret r = 0 ∨ appears n' path (tr ++ [(X_access path, r)])
  end.

(** The calls with which a worker joins succeed. *)
Record joins (fuel : nat) `{Env} : Prop := {
  jo_chdir tr p : 0 ≤ x_ret (env tr (X_chdir p));
  jo_access tr p : appears fuel p tr;
  jo_socket tr : x_ret (env tr X_unix_socket) ≠ -1;
  jo_connect tr fd p : x_ret (env tr (X_connect_unix fd p)) ≠ -1;
  jo_nonblock tr fd : x_ret (env tr (X_set_nonblock fd)) ≠ -1;
  jo_loop tr : x_ret (env tr X_ev_default_loop) ≠ 0;
}.

Section life.
Context `{SL : SdsLib, SS : !SdsSpec SL, LA : LoggerAPI, E : Env, EV : EvLib}.
Context (stack : bytes) (fuel : nat).
Implicit Types (s : machine) (ps xs ys : list (sds * sds_obj)).

(** Looking for the file, once or more often. *)
Definition looks (path : bytes) (new : list event) : Prop := Forall (λ e : event, e.1 = X_access path) new.

Lemma wait_wp path s :
  appears fuel path (m_trace s) →
  wp (wait_for_file fuel path) (λ _ s', heap_of s' = heap_of s ∧
    ∃ pre r, m_trace s' = m_trace s ++ pre ++ [(X_access path, r)] ∧ looks path pre ∧ x_ret r = 0) s.
Proof.
  revert s. induction fuel as [|n IH]; intros s Ha; [done|]. cbn [wait_for_file].
  apply wp_bind, wp_ext. intros r s1 Hr Hh1 _ Ht1. cbn in Ha. rewrite <-Hr in Ha.
  destruct (Z.eqb_spec (x_ret r) 0) as [Hz|Hz].
  { apply wp_ret. split; [done|]. exists [], r. split_and!; [done|constructor|done]. }
  destruct Ha as [Ha|Ha]; [done|]. rewrite <-Ht1 in Ha.
  eapply wp_mono; [by apply IH|]. intros [] s2 (Hh2 & pre & r' & Ht2 & Hpre & Hr'). split; [congruence|].
  exists ((X_access path, r) :: pre), r'. rewrite Ht2, Ht1, <-app_assoc. split_and!; [done|by constructor|done].
Qed.

(** The calls with which a worker connects to the socket file [path] through [fd]. *)
Definition connect_events (fd : Z) (path : bytes) (new : list event) : Prop :=
  ∃ pre x1 x2 x3 x4, looks path pre ∧ x_ret x1 = 0 ∧ x_ret x2 = fd ∧ x_ret x2 ≠ -1 ∧ x_ret x3 ≠ -1 ∧
    new = pre ++ [(X_access path, x1); (X_unix_socket, x2); (X_connect_unix fd path, x3);
                  (X_set_nonblock fd, x4)].

(** Connecting to the master. *)
Lemma connect_wp w f rnd sp ps F s :
  joins fuel → 0 ≤ rnd < 2 ^ 31 → IPCFile w = Some f →
  heap_is ((f, SdsObj (ipc_path rnd) sp) :: ps) F (heap_of s) →
  wp (workerp_connect_ipc_socket fuel w) (λ r s', r.1 = EXIT_SUCCESS ∧ heap_of s' = heap_of s ∧
    ∃ fd new, r.2 = set_workerfd fd w ∧ m_trace s' = m_trace s ++ new ∧
      connect_events fd (ipc_path rnd) new) s.
Proof.
  intros [] Hrnd Hf Hheap. pose proof (ipc_path_length rnd Hrnd). pose proof (ipc_path_no_nul rnd) as Hnul.
  unfold workerp_connect_ipc_socket. rewrite Hf. cbn [non_null].
  apply wp_bind, wp_ret, wp_bind. eapply wp_sds_arg; [exact Hheap|apply pick_here|].
  apply wp_bind; log_step. intros _ s1 Hh1 Ht1. rewrite <-Hh1 in Hheap.
  apply wp_bind. eapply wp_deref; [exact Hheap|apply pick_here|]. cbn [sds_buf].
  rewrite cprefix_id by done. apply wp_bind. eapply wp_mono; [apply wait_wp, jo_access0|].
  intros [] s2 (Hh2 & pre & x1 & Ht2 & Hpre & Hx1).
  apply wp_bind; log_step. intros _ s3 Hh3 Ht3. apply wp_bind, wp_ext. intros r s4 Hr Hh4 _ Ht4.
  assert (x_ret r ≠ -1) as Hr1 by (rewrite Hr; apply jo_socket0). rewrite (proj2 (Z.eqb_neq _ _) Hr1).
  rewrite <-Hh2, <-Hh3, <-Hh4 in Hheap.
  apply wp_bind. eapply wp_sds_len; [exact Hheap|apply pick_here|]. cbn [sds_buf].
  rewrite (proj2 (Z.leb_gt (Z.of_nat SUN_PATH_SIZE) _)) by (unfold SUN_PATH_SIZE; lia).
  rewrite sun_path_id by (done || (unfold SOCKADDR_UN_SIZE; lia)).
  apply wp_bind, wp_ext. intros x3 s5 Hx3 Hh5 _ Ht5.
  assert (x_ret x3 ≠ -1) as Hx3' by (rewrite Hx3; apply jo_connect0). rewrite (proj2 (Z.eqb_neq _ _) Hx3').
  apply wp_bind, wp_ext. intros x4 s6 Hx4 Hh6 _ Ht6.
  rewrite (proj2 (Z.eqb_neq (x_ret x4) _)) by (rewrite Hx4; apply jo_nonblock0).
  apply wp_bind; log_step. intros _ s7 Hh7 Ht7. apply wp_ret. split_and!; [done|congruence|].
  eexists (x_ret r), _. split; [done|].
  rewrite Ht7, Ht6, Ht5, Ht4, Ht3, Ht2, Ht1, <-!app_assoc. split; [done|].
  by exists pre, x1, r, x3, x4.
Qed.

(** The calls of a worker before its event loop. *)
Definition join_events (w : tsWorkerStruct) (path : bytes) (new : list event) : Prop :=
  ∃ x1 x2 x3 x4 mid x5 x6 x7, connect_events (iWorkerIPCfd w) path mid ∧
    new = [(X_close 0, x1); (X_close 0, x2); (X_getpid, x3); (X_chdir (lit "/"), x4)] ++ mid ++
          [(X_ev_default_loop, x5); (X_ev_signal_start SIGINT, x6); (X_ev_io_start (iWorkerIPCfd w), x7)].

Lemma workerp_start_wp i f rnd sp cfg ys ps F g s :
  joins fuel → 0 ≤ rnd < 2 ^ 31 → represents (g_settings g) cfg ys →
  heap_is ((f, SdsObj (ipc_path rnd) sp) :: ys ++ ps) F (heap_of s) →
  wp (workerp_start fuel i (zero_worker (Z.of_nat i) f) g) (λ r s', heap_of s' = heap_of s ∧
    iMe r.1 = 1 ∧ IPCFile r.1 = Some f ∧ r.2 = set_evloop LoopLive (set_slot i (Some r.1) g) ∧
    ∃ new, m_trace s' = m_trace s ++ new ∧ join_events r.1 (ipc_path rnd) new) s.
Proof.
  intros Hj Hrnd Hrep Hheap. pose proof Hj as [Hdir _ _ _ _ Hloop].
  unfold workerp_start. apply wp_bind, wp_upd_log. intros _ s1 Hh1 Ht1. rewrite <-Hh1 in Hheap.
  apply wp_bind. eapply wp_mono; [eapply (logfile_name_wp _ cfg ys ((f, _) :: ps)); [exact Hrep|]|].
  { eapply heap_is_perm; [exact Hheap|]. solve_Permutation. }
  intros name ? [_ ->]. apply wp_bind, wp_upd_log. intros _ s2 Hh2 Ht2.
  apply wp_bind, wp_ext. intros r3 s3 _ Hh3 _ Ht3. apply wp_bind, wp_ext. intros r4 s4 _ Hh4 _ Ht4.
  apply wp_bind, wp_ext. intros me s5 _ Hh5 _ Ht5. apply wp_bind, wp_ext. intros r6 s6 Hr6 Hh6 _ Ht6.
  rewrite (proj2 (Z.ltb_ge (x_ret r6) 0)) by (rewrite Hr6; apply Hdir).
  apply wp_bind; log_step. intros _ s7 Hh7 Ht7.
  rewrite <-Hh2, <-Hh3, <-Hh4, <-Hh5, <-Hh6, <-Hh7 in Hheap.
  apply wp_bind. eapply wp_mono; [by eapply (connect_wp _ f rnd sp (ys ++ ps) F)|].
  intros [z w] s8 (Hz & Hh8 & fd & mid & Hw & Ht8 & Hmid). cbn [fst snd] in Hz, Hw. subst z w. cbn [EXIT_SUCCESS Z.eqb negb].
  apply wp_bind, wp_ext. intros r9 s9 Hr9 Hh9 _ Ht9.
  rewrite (proj2 (Z.eqb_neq (x_ret r9) 0)) by (rewrite Hr9; apply Hloop).
  apply wp_bind, wp_ext. intros r10 s10 _ Hh10 _ Ht10. apply wp_bind, wp_ext. intros r11 s11 _ Hh11 _ Ht11.
  apply wp_ret. split_and!; [congruence|done|done|done|]. eexists.
  rewrite Ht11, Ht10, Ht9, Ht8, Ht7, Ht6, Ht5, Ht4, Ht3, Ht2, Ht1, <-!app_assoc. split; [done|].
  by exists r3, r4, me, r6, mid, r9, r10, r11.
Qed.

(** ** The worker's own entry of the table *)

(** What releasing it amounts to. *)
Definition own_teardown (i : Z) (w : tsWorkerStruct) : list ext_call :=
  close_calls (iWorkerIPCfd w) ++ [X_free i].

Lemma destroy_own_wp i w f o ps F s :
  iMe w ≠ 0 → IPCFile w = Some f → loop_freeable = true → heap_is ((f, o) :: ps) F (heap_of s) →
  wp (destroy_slot i w LoopLive) (λ r s', r = LoopNull ∧ heap_is ps F (heap_of s') ∧
    did (own_teardown i w) s s') s.
Proof.
  intros Hme Hf Hev Hheap. unfold destroy_slot. rewrite (proj2 (Z.eqb_neq _ _) Hme). cbn [negb].
  apply wp_bind, wp_bind. unfold destroy_loop. rewrite Hev.
  apply wp_bind, wp_ext. intros r1 s1 _ Hh1 _ Ht1. apply wp_bind, wp_ext. intros r2 s2 _ Hh2 _ Ht2.
  apply wp_ret, wp_bind, wp_ext. intros r3 s3 _ Hh3 _ Ht3. apply wp_bind; log_step. intros _ s4 Hh4 Ht4.
  apply wp_ret. rewrite Hf. apply wp_bind. eapply wp_mono; [by apply (acts_close (heap_of s4))|].
  intros _ s5 (_ & Hh5 & Hd5). assert (heap_of s5 = heap_of s) as Hh by congruence. rewrite <-Hh in Hheap.
  apply wp_bind. eapply wp_sds_free; [exact Hheap|apply pick_here|]. intros s6 Hheap6 _ Ht6.
  apply wp_bind, wp_ext. intros r7 s7 _ Hh7 _ Ht7. apply wp_bind; log_step. intros _ s8 Hh8 Ht8.
  apply wp_bind, wp_ext. intros r9 s9 _ Hh9 _ Ht9. apply wp_ret.
  split_and!; [done|by rewrite Hh9, Hh8, Hh7|]. apply (did_trans [] _ s s4).
  - exists [(X_ev_suspend, r1); (X_ev_loop_destroy, r2); (X_getpid, r3)].
    by rewrite Ht4, Ht3, Ht2, Ht1, <-!app_assoc.
  - eapply did_trans; [exact Hd5|]. exists [(X_getpid, r7); (X_free i, r9)].
    by rewrite Ht9, Ht8, Ht7, Ht6, <-app_assoc.
Qed.

Lemma destroy_none n : ∀ i l s, destroy_slots i (replicate n None) l s = (Ok l, s).
Proof. induction n as [|n IH]; intros i l s; [done|]. apply IH. Qed.

(** The table of a worker: those started before it, and itself. *)
Lemma own_table ws w :
  (length ws < WORKER_MAX_WORKERS)%nat →
  table_of (ws ++ [w]) = (Some <$> ws) ++ Some w :: replicate (WORKER_MAX_WORKERS - length ws - 1) None.
Proof.
  intros Hl. unfold table_of. rewrite fmap_app, length_app, <-app_assoc. cbn [length fmap list_fmap app].
  do 3 f_equal. lia.
Qed.

Lemma destroy_slots_app_wp l1 l2 i l (Q : loop_ptr → machine → Prop) s :
  wp (destroy_slots i l1 l) (λ l' s', wp (destroy_slots (i + Z.of_nat (length l1)) l2 l') Q s') s →
  wp (destroy_slots i (l1 ++ l2) l) Q s.
Proof. intros H%wp_bind. unfold wp in *. by rewrite destroy_slots_app. Qed.

Lemma own_destroy_wp ws w xs f o ps F g s :
  psWorker (gWorkerAdmin g) = table_of (ws ++ [w]) → (length ws < WORKER_MAX_WORKERS)%nat →
  (∀ v, v ∈ ws → iMe v = 0) → iMe w ≠ 0 → IPCFile w = Some f → own_names (Some <$> ws) xs →
  psWorkerEVLoop g = LoopLive → loop_freeable = true →
  heap_is (xs ++ (f, o) :: ps) F (heap_of s) →
  wp (worker_destroy g) (λ _ s', heap_is ps F (heap_of s') ∧
    did (teardown_all 0 (Some <$> ws) xs ++ own_teardown (Z.of_nat (length ws)) w) s s') s.
Proof.
  intros Hg Hl Hws Hme Hf Hown Hloop Hev Hheap. unfold worker_destroy. rewrite Hg, own_table, Hloop by done.
  apply wp_bind, destroy_slots_app_wp. eapply wp_mono; [apply (destroy_slots_wp _ 0 _ xs ((f, o) :: ps) F)|].
  { intros v (v' & [= ->] & Hv)%list_elem_of_fmap. by apply Hws. }
  { done. }
  { done. }
  intros ? s1 (-> & Hheap1 & Hd1). rewrite length_fmap. cbn [destroy_slots Z.add].
  apply wp_bind. eapply wp_mono; [by apply (destroy_own_wp _ w f o ps F)|]. intros ? s2 (-> & Hheap2 & Hd2).
  unfold wp at 1. rewrite destroy_none.
  apply wp_bind, wp_ext. intros r s3 _ Hh3 _ Ht3. apply wp_bind; log_step. intros _ s4 Hh4 Ht4. apply wp_ret.
  split; [by rewrite Hh4, Hh3|]. rewrite <-(app_nil_r (_ ++ _)).
  eapply did_trans; [by eapply did_trans|]. exists [(X_getpid, r)]. by rewrite Ht4, Ht3.
Qed.

(** Where the event loop cannot be destroyed. *)
Lemma own_destroy_fails ws w xs ps F g u s :
  psWorker (gWorkerAdmin g) = table_of (ws ++ [w]) → (length ws < WORKER_MAX_WORKERS)%nat →
  (∀ v, v ∈ ws → iMe v = 0) → iMe w ≠ 0 → own_names (Some <$> ws) xs →
  (∀ s1, fails (destroy_loop (psWorkerEVLoop g)) u s1) → heap_is (xs ++ ps) F (heap_of s) →
  fails (worker_destroy g) u s.
Proof.
  intros Hg Hl Hws Hme Hown Hloop Hheap. unfold worker_destroy. rewrite Hg, own_table by done.
  apply fails_bind_l. unfold fails. rewrite destroy_slots_app. apply fails_bind.
  eapply wp_mono; [apply (destroy_slots_wp _ 0 _ xs ps F)|].
  { intros v (v' & [= ->] & Hv)%list_elem_of_fmap. by apply Hws. }
  { done. }
  { done. }
  intros ? s1 (-> & _ & _). cbn [destroy_slots]. apply fails_bind_l. unfold destroy_slot.
  rewrite (proj2 (Z.eqb_neq _ _) Hme). cbn [negb]. apply fails_bind_l, fails_bind_l, Hloop.
Qed.

(** A loop that may not be freed after it was destroyed, and one that was never made. *)
Lemma destroy_live_fails s : loop_freeable = false → fails (destroy_loop LoopLive) BadFree s.
Proof.
  intros Hev. unfold destroy_loop. rewrite Hev. apply fails_bind, wp_ext. intros ? ? _ _ _ _.
  apply fails_bind, wp_ext. intros ? ? _ _ _ _. by eexists.
Qed.

Lemma destroy_null_fails s : fails (destroy_loop LoopNull) NullDeref s.
Proof. by eexists. Qed.

(** ** The whole process *)

(** The variables with which [do_exit] is called. *)
Definition own_globals (ws : list tsWorkerStruct) (w : tsWorkerStruct) (g : globals) : globals :=
  set_evloop LoopLive (set_slot (length ws) (Some w) g).

Lemma own_globals_table ws xs w g :
  set_up ws xs g → (length ws < WORKER_MAX_WORKERS)%nat →
  psWorker (gWorkerAdmin (g_workers (own_globals ws w g))) = table_of (ws ++ [w]).
Proof. intros (Ha & _) Hl. cbn. rewrite Ha. cbn. by apply table_insert. Qed.

Lemma set_up_siblings ws xs g :
  set_up ws xs g → (∀ v, v ∈ ws → iMe v = 0) ∧ own_names (Some <$> ws) xs.
Proof.
  intros (_ & Hn & _ & Hw). split.
  - intros v [i Hi]%list_elem_of_lookup. by destruct (Hw i v Hi) as (_ & ? & _).
  - unfold own_names. pose proof (omap_table ws 0) as Ho. cbn [replicate] in Ho.
    rewrite app_nil_r in Ho. by rewrite Ho.
Qed.

Lemma worker_exit_exits (A : Type) v ws xs w f o cfg ys ps F g s :
  set_up ws xs g → (length ws < WORKER_MAX_WORKERS)%nat → iMe w ≠ 0 → IPCFile w = Some f →
  represents (g_settings g) cfg ys → loop_freeable = true →
  heap_is (xs ++ (f, o) :: ys ++ ps) F (heap_of s) →
  exits (do_exit (A := A) v (own_globals ws w g)) v (λ s', heap_is ps F (heap_of s') ∧
    did (socket_close_calls (g_iFd g) ++ teardown_all 0 (Some <$> ws) xs ++
         own_teardown (Z.of_nat (length ws)) w) s s') s.
Proof.
  intros Hup Hl Hme Hf Hrep Hev Hheap. destruct (set_up_siblings _ _ _ Hup) as [Hws Hown].
  unfold do_exit. apply exits_bind, wp_ext. intros r s1 _ Hh1 _ Ht1.
  apply exits_bind; log_step. intros _ s2 Hh2 Ht2. apply exits_bind. unfold exit_cleanup.
  apply wp_bind. eapply wp_mono; [apply socket_close_wp|]. intros [z fd] s3 (_ & Hh3 & Hd3).
  rewrite <-Hh1, <-Hh2, <-Hh3 in Hheap. apply wp_bind.
  eapply wp_mono; [eapply (own_destroy_wp ws w xs f o (ys ++ ps) F); try done; by eapply own_globals_table|].
  intros [z2 g2] s4 (Hheap4 & Hd4). apply wp_bind.
  eapply wp_mono; [by apply (settings_destroy_wp _ cfg ys ps F)|].
  intros [z3 st] s5 ([= -> ->] & Hheap5 & _ & x & Ht5). apply wp_bind, wp_upd_log.
  intros _ s6 Hh6 Ht6. apply wp_ret. apply exits_bind, wp_ext. intros x7 s7 _ Hh7 _ Ht7. apply exits_exit.
  split; [by rewrite Hh7, Hh6|]. apply (did_trans [] _ s s2).
  { exists [(X_getpid, r)]. by rewrite Ht2, Ht1. }
  eapply did_trans; [exact Hd3|]. rewrite <-(app_nil_r (_ ++ _)).
  eapply did_trans; [exact Hd4|]. exists [(X_getpid, x); (X_printf bye, x7)].
  by rewrite Ht7, Ht6, Ht5, <-app_assoc.
Qed.

Lemma worker_exit_fails (A : Type) v ws xs w ps F g u s :
  (∀ v, v ∈ ws → iMe v = 0) → own_names (Some <$> ws) xs →
  psWorker (gWorkerAdmin (g_workers g)) = table_of (ws ++ [w]) → (length ws < WORKER_MAX_WORKERS)%nat →
  iMe w ≠ 0 → (∀ s1, fails (destroy_loop (psWorkerEVLoop (g_workers g))) u s1) →
  heap_is (xs ++ ps) F (heap_of s) → fails (do_exit (A := A) v g) u s.
Proof.
  intros Hws Hown Htab Hl Hme Hloop Hheap.
  unfold do_exit. apply fails_bind, wp_ext. intros r s1 _ Hh1 _ _.
  apply fails_bind; log_step. intros _ s2 Hh2 _. apply fails_bind_l. unfold exit_cleanup.
  apply fails_bind. eapply wp_mono; [apply socket_close_wp|]. intros [z fd] s3 (_ & Hh3 & _).
  rewrite <-Hh1, <-Hh2, <-Hh3 in Hheap. apply fails_bind_l. by eapply (own_destroy_fails ws w xs ps F).
Qed.

(** From its start to its last call: a worker that joins handles the events and then calls
    [do_exit], in its own name and with the strings it had; or one of the events fails. *)
Lemma worker_reaches_exit (A : Type) evs ws xs f rnd sp cfg ys ps F g s :
  joins fuel → kernel_ok → 0 ≤ rnd < 2 ^ 31 →
  represents (g_settings g) cfg ys → heap_is ((f, SdsObj (ipc_path rnd) sp) :: ys ++ ps) F (heap_of s) →
  let life := workerp_entry (A := A) stack fuel (evs ++ [Ev_sigint]) (length ws)
                (zero_worker (Z.of_nat (length ws)) f) g in
  (∃ w s', life s = do_exit 0 (own_globals ws w g) s' ∧
    iMe w = 1 ∧ IPCFile w = Some f ∧ heap_of s' = heap_of s) ∨
  (∃ x, mishap fuel (heap_of s) x ∧ failing x (life s)).
Proof.
  intros Hj Hk Hrnd Hrep Hheap.
  set (P := λ r, (∃ w s', r = do_exit (A := A) 0 (own_globals ws w g) s' ∧ iMe w = 1 ∧
    IPCFile w = Some f ∧ heap_of s' = heap_of s) ∨ ∃ x, mishap fuel (heap_of s) x ∧ failing x r).
  intros life. change (P (life s)). unfold life, workerp_entry. apply bind_result.
  eapply wp_mono; [by eapply (workerp_start_wp (length ws) f rnd sp cfg ys ps F g)|].
  intros [w g'] s1 (Hh1 & Hme & Hf & Hg & _). cbn [fst snd] in *. subst g'.
  apply bind_failing. eapply wpf_mono; [by apply (ev_run_wpf stack fuel Hk)| |].
  - intros cs s2 (_ & Hh2). apply bind_result; log_step. intros _ s3 Hh3 _.
    left. exists w, s3. split_and!; [done|done|done|congruence].
  - intros x Hx r Hr. right. exists x. by rewrite <-Hh1.
Qed.


(** ** A worker that cannot start *)

(** The socket file appears, but one of the calls with which a worker joins fails. *)
Record cannot_join : Prop := {
  cj_access tr p : appears fuel p tr;
  cj_fails : (∀ tr p, x_ret (env tr (X_chdir p)) < 0) ∨ (∀ tr, x_ret (env tr X_unix_socket) = -1) ∨
    (∀ tr fd p, x_ret (env tr (X_connect_unix fd p)) = -1) ∨ (∀ tr fd, x_ret (env tr (X_set_nonblock fd)) = -1);
}.

Lemma connect_fails_wp w f rnd sp ps F s :
  (∀ tr p, appears fuel p tr) → (∀ tr, x_ret (env tr X_unix_socket) = -1) ∨
    (∀ tr fd p, x_ret (env tr (X_connect_unix fd p)) = -1) ∨ (∀ tr fd, x_ret (env tr (X_set_nonblock fd)) = -1) →
  IPCFile w = Some f → heap_is ((f, SdsObj (ipc_path rnd) sp) :: ps) F (heap_of s) →
  wp (workerp_connect_ipc_socket fuel w) (λ r s', r.1 = EXIT_FAILURE ∧ iMe r.2 = iMe w ∧ heap_of s' = heap_of s) s.
Proof.
  intros Hacc Hfail Hf Hheap. unfold workerp_connect_ipc_socket. rewrite Hf. cbn [non_null].
  apply wp_bind, wp_ret, wp_bind. eapply wp_sds_arg; [exact Hheap|apply pick_here|].
  apply wp_bind; log_step. intros _ s1 Hh1 _. rewrite <-Hh1 in Hheap.
  apply wp_bind. eapply wp_deref; [exact Hheap|apply pick_here|]. cbn [sds_buf].
  apply wp_bind. eapply wp_mono; [apply wait_wp, Hacc|]. intros [] s2 (Hh2 & _).
  apply wp_bind; log_step. intros _ s3 Hh3 _. apply wp_bind, wp_ext. intros r4 s4 Hr4 Hh4 _ _.
  destruct (Z.eqb_spec (x_ret r4) (-1)) as [_|Hne4]; [apply wp_ret; by split_and!; [| |congruence]|].
  rewrite <-Hh2, <-Hh3, <-Hh4 in Hheap. apply wp_bind. eapply wp_sds_len; [exact Hheap|apply pick_here|].
  destruct (_ <=? _); [apply wp_ret; by split_and!; [| |congruence]|].
  apply wp_bind, wp_ext. intros r5 s5 Hr5 Hh5 _ _.
  destruct (Z.eqb_spec (x_ret r5) (-1)) as [_|Hne5]; [apply wp_ret; by split_and!; [| |congruence]|].
  apply wp_bind, wp_ext. intros r6 s6 Hr6 Hh6 _ _.
  destruct (Z.eqb_spec (x_ret r6) (-1)) as [_|Hne6]; [apply wp_ret; by split_and!; [| |congruence]|].
  subst r4 r5 r6. destruct Hfail as [Hfail|[Hfail|Hfail]]; by rewrite Hfail in *.
Qed.

(** C16: Whichever of its calls to join fails, the directory, the socket, the connection or
    its mode, and however many workers were started before it, a worker ends in undefined
    behaviour: [do_exit] destroys an event loop that does not exist yet. *)
Theorem failed_start_crashes (A : Type) evs ws xs f rnd sp cfg ys ps F g s :
  cannot_join → set_up ws xs g → (length ws < WORKER_MAX_WORKERS)%nat →
  psWorkerEVLoop (g_workers g) = LoopNull → represents (g_settings g) cfg ys →
  heap_is ((f, SdsObj (ipc_path rnd) sp) :: ys ++ xs ++ ps) F (heap_of s) →
  fails (workerp_entry (A := A) stack fuel evs (length ws) (zero_worker (Z.of_nat (length ws)) f) g) NullDeref s.
Proof.
  intros [Hacc Hfail] Hup Hl Hloop Hrep Hheap. destruct (set_up_siblings _ _ _ Hup) as [Hws Hown].
  assert (∀ w s', iMe w ≠ 0 → heap_of s' = heap_of s →
    fails (do_exit (A := tsWorkerStruct * globals) EXIT_FAILURE (set_slot (length ws) (Some w) g)) NullDeref s') as Hexit.
  { intros w s' Hme Hh. eapply (worker_exit_fails _ _ ws xs w ((f, SdsObj (ipc_path rnd) sp) :: ys ++ ps) F);
      [done|done|by apply (own_globals_table ws xs w g)|done|done|intros; cbn; rewrite Hloop; apply destroy_null_fails|].
    rewrite Hh. eapply heap_is_perm; [exact Hheap|]. solve_Permutation. }
  unfold workerp_entry. apply fails_bind_l. unfold workerp_start.
  apply fails_bind, wp_upd_log. intros _ s1 Hh1 _. rewrite <-Hh1 in Hheap.
  apply fails_bind. eapply wp_mono; [eapply (logfile_name_wp _ cfg ys ((f, _) :: xs ++ ps)); [exact Hrep|]|].
  { eapply heap_is_perm; [exact Hheap|]. solve_Permutation. }
  intros name ? [_ ->]. apply fails_bind, wp_upd_log. intros _ s2 Hh2 _.
  apply fails_bind, wp_ext. intros ? s3 _ Hh3 _ _. apply fails_bind, wp_ext. intros ? s4 _ Hh4 _ _.
  apply fails_bind, wp_ext. intros me s5 _ Hh5 _ _. apply fails_bind, wp_ext. intros r6 s6 Hr6 Hh6 _ _.
  destruct (Z.ltb_spec (x_ret r6) 0) as [_|Hdir]; [apply Hexit; [done|congruence]|].
  assert (¬ (∀ tr p, x_ret (env tr (X_chdir p)) < 0)) as Hnd.
  { intros Hd. subst r6. specialize (Hd (m_trace s5) (lit "/")). lia. }
  apply fails_bind; log_step. intros _ s7 Hh7 _. rewrite <-Hh2, <-Hh3, <-Hh4, <-Hh5, <-Hh6, <-Hh7 in Hheap.
  apply fails_bind. eapply wp_mono; [eapply (connect_fails_wp _ f rnd sp); [done|by destruct Hfail|done|exact Hheap]|].
  intros [z w] s8 (Hz & Hme & Hh8). cbn [fst snd] in *. subst z. cbn [EXIT_FAILURE Z.eqb negb].
  apply Hexit; [by rewrite Hme|congruence].
Qed.

End life.
