(* ===== verification/Startup.v ===== *)
(** * Starting up together

    The master starts its workers while those already connect to it: the calls of all the
    processes interleave.  A start-up is a history in which each call is marked with the
    process that made it; what the kernel answers depends on the calls of the others, by the
    descriptors, the socket files and the waiting connections it keeps ([boot_call]).  The
    calls of each process, taken by themselves, are those of [worker_init] or
    [workerp_start]; beside them the logging thread of a worker opens and closes the log
    file, with descriptors of the same process.  What comes out is a state from which the system of [System.v] runs. *)

From S2P Require Import Prelude CString Machine SdsModel Settings Http Worker Socket Exit Client WorkerProc.
From S2P Require Import Reaction System WorkerLife.
Local Open Scope Z_scope.

(** ** The kernel *)

(** The master, the process of its fork number [i], the logging thread of that process, or
    somebody else, who can only send signals. *)
Inductive who : Type := TheMaster | TheWorker (i : nat) | TheLogger (i : nat) | Outside.

#[global] Instance who_eq_dec : EqDecision who.
Proof. solve_decision. Defined.

Abbreviation history_of := (list (who * event)).

(** The calls of one process. *)
Definition calls_of (x : who) (H : history_of) : list event :=
  omap (λ e, if decide (e.1 = x) then Some e.2 else None) H.

(** The descriptors of the master and of the workers; the names the master's sockets are
    bound to; the socket files, with the socket behind each if there still is one; and the
    workers that wait to be accepted on each listening socket. *)
Record boot : Type := Boot {
  b_master : fd_table;
  b_workers : list fd_table;
  b_bound : gmap Z bytes;
  b_files : gmap bytes (option Z);
  b_queue : gmap Z (list nat);
}.

(** A new descriptor gets the lowest number that is free. *)
Definition lowest_fd (fd : Z) (t : fd_table) : bool :=
  free_fd fd t && forallb (λ j, bool_decide (t !! j ≠ None)) (seqZ 0 fd).

(** A call of the master: [None] when the kernel would not give this answer. *)
Definition boot_master (c : ext_call) (r : ext_ret) (k : boot) : option boot :=
  match c with
  | X_fork =>
      if 0 <? x_ret r
      then Some (Boot (b_master k) (b_workers k ++ [b_master k]) (b_bound k) (b_files k) (b_queue k))
      else if x_ret r =? 0 then None else Some k
  | X_unix_socket | X_socket | X_open _ | X_dup _ =>
      if x_ret r =? -1 then Some k
      else if lowest_fd (x_ret r) (b_master k)
      then Some (Boot (<[x_ret r := Other]> (b_master k)) (b_workers k) (b_bound k) (b_files k) (b_queue k))
      else None
  | X_unlink path =>
      Some (Boot (b_master k) (b_workers k) (b_bound k) (delete path (b_files k)) (b_queue k))
  | X_bind_unix a path =>
      if x_ret r =? -1 then Some k else
      match b_bound k !! a, b_files k !! path with
      | None, None =>
          Some (Boot (b_master k) (b_workers k) (<[a := path]> (b_bound k))
                  (<[path := Some a]> (b_files k)) (b_queue k))
      | _, _ => None
      end
  | X_listen a _ =>
      if x_ret r =? -1 then Some k
      else Some (Boot (b_master k) (b_workers k) (b_bound k) (b_files k) (<[a := []]> (b_queue k)))
  | X_accept a =>
      if x_ret r =? -1 then Some k else
      match b_queue k !! a with
      | Some (j :: rest) =>
          if lowest_fd (x_ret r) (b_master k)
          then Some (Boot (<[x_ret r := Link j]> (b_master k)) (b_workers k) (b_bound k) (b_files k)
                       (<[a := rest]> (b_queue k)))
          else None
      | _ => None
      end
  | X_close fd =>
      Some (Boot (delete fd (b_master k)) (b_workers k) (delete fd (b_bound k))
              ((λ o, if decide (o = Some fd) then None else o) <$> b_files k) (delete fd (b_queue k)))
  | _ => Some k
  end.

(** What a call of worker [i] does to its own descriptors. *)
Definition boot_own (i : nat) (c : ext_call) (r : ext_ret) (t : fd_table) : option fd_table :=
  match c with
  | X_close fd => Some (delete fd t)
  | X_unix_socket | X_socket | X_open _ | X_dup _ =>
      if x_ret r =? -1 then Some t
      else if lowest_fd (x_ret r) t then Some (<[x_ret r := Other]> t) else None
  | X_connect_unix fd _ =>
      if x_ret r =? -1 then Some t
      else if bool_decide (t !! fd ≠ None) then Some (<[fd := Link i]> t) else None
  | _ => Some t
  end.

(** What it does to the rest. *)
Definition boot_shared (i : nat) (c : ext_call) (r : ext_ret) (k : boot) : option boot :=
  match c with
  | X_access path =>
      if bool_decide (x_ret r = 0 ↔ is_Some (b_files k !! path)) then Some k else None
  | X_connect_unix _ path =>
      if x_ret r =? -1 then Some k else
      match b_files k !! path with
      | Some (Some a) =>
          match b_queue k !! a with
          | Some l => Some (Boot (b_master k) (b_workers k) (b_bound k) (b_files k)
                              (<[a := l ++ [i]]> (b_queue k)))
          | None => None
          end
      | _ => None
      end
  | _ => Some k
  end.

Definition boot_worker (i : nat) (c : ext_call) (r : ext_ret) (k : boot) : option boot :=
  t ← b_workers k !! i;
  t' ← boot_own i c r t;
  k' ← boot_shared i c r k;
  Some (Boot (b_master k') (<[i := t']> (b_workers k')) (b_bound k') (b_files k') (b_queue k')).

(** The logging thread of worker [i] uses the worker's descriptors. *)
Definition boot_logger (i : nat) (c : ext_call) (r : ext_ret) (k : boot) : option boot :=
  t ← b_workers k !! i;
  t' ← boot_own i c r t;
  Some (Boot (b_master k) (<[i := t']> (b_workers k)) (b_bound k) (b_files k) (b_queue k)).

Definition boot_call (x : who) (e : event) (k : boot) : option boot :=
  match x with
  | TheMaster => boot_master e.1 e.2 k
  | TheWorker i => boot_worker i e.1 e.2 k
  | TheLogger i => boot_logger i e.1 e.2 k
  | Outside => Some k
  end.

Fixpoint boot_calls (H : history_of) (k : boot) : option boot :=
  match H with
  | [] => Some k
  | (x, e) :: H' => k' ← boot_call x e k; boot_calls H' k'
  end.

(** What a call of worker [i] does to its descriptor 0. *)
Definition zero_own (i : nat) (c : ext_call) (r : ext_ret) (z : option fdesc) : option (option fdesc) :=
  match c with
  | X_close fd => Some (if fd =? 0 then None else z)
  | X_unix_socket | X_socket | X_open _ | X_dup _ =>
      if x_ret r =? -1 then Some z else
      match z with
      | None => if x_ret r =? 0 then Some (Some Other) else None
      | Some _ => if x_ret r =? 0 then None else Some z
      end
  | X_connect_unix fd _ =>
      if x_ret r =? -1 then Some z else Some (if fd =? 0 then Some (Link i) else z)
  | _ => Some z
  end.

Fixpoint zero_calls (i : nat) (evs : list event) (z : option fdesc) : option (option fdesc) :=
  match evs with
  | [] => Some z
  | (c, r) :: evs' => z' ← zero_own i c r z; zero_calls i evs' z'
  end.

(** The calls of the logging thread (lines 113 and 157 of [cew_logger.c]): each pass opens the
    log file and closes the descriptor it got. *)
Inductive log_passes : list event → Prop :=
  | lp_nil : log_passes []
  | lp_open path r : log_passes [(X_open path, r)]
  | lp_pass path r r' evs :
      x_ret r ≠ -1 → log_passes evs →
      log_passes ((X_open path, r) :: (X_close (x_ret r), r') :: evs).

(** None of its passes gets the descriptor 0, which the worker closes before it opens its
    socket: none begins between those two calls. *)
Definition avoids_zero (evs : list event) : Prop :=
  ∀ path r, (X_open path, r) ∈ evs → x_ret r ≠ 0.

(** Before the start: no workers, no listening sockets, and files at most left over. *)
Record boot_fresh (k : boot) : Prop := {
  bf_workers : b_workers k = [];
  bf_bound : b_bound k = ∅;
  bf_queue : b_queue k = ∅;
  bf_files p a : b_files k !! p ≠ Some (Some a);
  bf_master fd n : b_master k !! fd ≠ Some (Conn n);
}.

(** ** Histories *)

Lemma calls_of_app x H H' : calls_of x (H ++ H') = calls_of x H ++ calls_of x H'.
Proof. apply omap_app. Qed.

Lemma calls_of_cons x y e H :
  calls_of x ((y, e) :: H) = if decide (y = x) then e :: calls_of x H else calls_of x H.
Proof. unfold calls_of. cbn. by case_decide. Qed.

(** A call of a process has its place in the history. *)
Lemma calls_of_split x H l1 e l2 :
  calls_of x H = l1 ++ e :: l2 →
  ∃ H1 H2, H = H1 ++ (x, e) :: H2 ∧ calls_of x H1 = l1 ∧ calls_of x H2 = l2.
Proof.
  revert l1. induction H as [|[y e'] H IH]; intros l1; [by destruct l1|].
  rewrite calls_of_cons. case_decide as Hy.
  - subst y. destruct l1 as [|e1 l1]; cbn; intros [= -> HH].
    + by exists [], H.
    + destruct (IH _ HH) as (H1 & H2 & -> & <- & <-). exists ((x, e1) :: H1), H2.
      split_and!; [done| |done]. rewrite calls_of_cons. by rewrite decide_True.
  - intros HH. destruct (IH _ HH) as (H1 & H2 & -> & <- & <-). exists ((y, e') :: H1), H2.
    split_and!; [done| |done]. rewrite calls_of_cons. by rewrite decide_False.
Qed.

Lemma boot_calls_app H H' k : boot_calls (H ++ H') k = (k' ← boot_calls H k; boot_calls H' k').
Proof.
  revert k. induction H as [|[x e] H IH]; intros k; [done|]. cbn.
  destruct (boot_call x e k); [apply IH|done].
Qed.

(** What holds before and is kept by every call of the history holds after. *)
Lemma boot_calls_invariant (P : boot → Prop) H k k' :
  (∀ x e k1 k2, (x, e) ∈ H → P k1 → boot_call x e k1 = Some k2 → P k2) →
  P k → boot_calls H k = Some k' → P k'.
Proof.
  revert k. induction H as [|[x e] H IH]; intros k Hinv Hk; cbn; [by intros [= <-]|].
  intros (k1 & Hk1 & Hk')%bind_Some. eapply IH; [|by eapply Hinv; [left| |]|done].
  intros y e' k2 k3 He. apply Hinv. by right.
Qed.

(** ** The tables of the workers *)

Definition no_conn (t : fd_table) : Prop := ∀ fd n, t !! fd ≠ Some (Conn n).

Lemma no_conn_insert fd d t : (∀ n, d ≠ Conn n) → no_conn t → no_conn (<[fd := d]> t).
Proof. intros Hd Ht fd' n [[_ ?]|[_ ?]]%lookup_insert_Some; [by eapply Hd|by eapply Ht]. Qed.

Lemma no_conn_delete fd t : no_conn t → no_conn (delete fd t).
Proof. intros Ht fd' n [_ ?]%lookup_delete_Some. by eapply Ht. Qed.

#[local] Hint Resolve no_conn_insert no_conn_delete : cew.

Lemma boot_shared_frame i c r k k' :
  boot_shared i c r k = Some k' →
  b_master k' = b_master k ∧ b_workers k' = b_workers k ∧ b_bound k' = b_bound k ∧ b_files k' = b_files k.
Proof.
  destruct c; cbn; try (by intros [= <-]).
  - case_bool_decide; [by intros [= <-]|done].
  - destruct (x_ret r =? -1); [by intros [= <-]|].
    destruct (b_files k !! _) as [[a|]|]; [|done..]. by destruct (b_queue k !! a); [intros [= <-]|].
Qed.

(** A call of worker [i] changes of the tables only its own. *)
Lemma boot_worker_frame i c r k k' :
  boot_worker i c r k = Some k' →
  b_master k' = b_master k ∧ b_bound k' = b_bound k ∧ b_files k' = b_files k ∧
  ∃ t t', b_workers k !! i = Some t ∧ boot_own i c r t = Some t' ∧ b_workers k' = <[i := t']> (b_workers k).
Proof.
  unfold boot_worker. intros (t & Ht & (t' & Ht' & (k1 & Hk1 & [= <-])%bind_Some)%bind_Some)%bind_Some.
  apply boot_shared_frame in Hk1 as (H1 & H2 & H3 & H4). cbn. rewrite H2. split_and!; try done.
  by exists t, t'.
Qed.

(** A call of the master leaves the tables of the workers, up to a new one. *)
Lemma boot_master_frame c r k k' :
  boot_master c r k = Some k' →
  (b_workers k' = b_workers k ∨ b_workers k' = b_workers k ++ [b_master k]) ∧
  (no_conn (b_master k) → no_conn (b_master k')).
Proof.
  intros Hk. destruct c; cbn in Hk; repeat case_match; simplify_eq; cbn; auto with cew.
Qed.

(** The descriptor 0, which a worker has just closed, is the first one it gets. *)
Lemma lowest_is_zero fd t : lowest_fd fd t = true → t !! 0 = None → fd = 0.
Proof.
  unfold lowest_fd. intros [[Hr _]%free_fd_Some Hall]%andb_prop H0.
  destruct (decide (fd = 0)) as [|Hne]; [done|]. rewrite forallb_forall in Hall.
  specialize (Hall 0). case_bool_decide as Hb; [by destruct Hb|].
  discriminate Hall. apply list_elem_of_In, elem_of_seqZ. lia.
Qed.

Lemma lowest_free fd t : lowest_fd fd t = true → t !! fd = None.
Proof. by intros [[_ ?]%free_fd_Some _]%andb_prop. Qed.

Lemma open_zero fd t :
  lowest_fd fd t = true →
  match t !! 0 with
  | None => if fd =? 0 then Some (Some Other) else None
  | Some _ => if fd =? 0 then None else Some (t !! 0)
  end = Some (<[fd := Other]> t !! 0).
Proof.
  intros Hl. destruct (t !! 0) as [d|] eqn:H0.
  - destruct (Z.eqb_spec fd 0) as [->|Hne]; [apply lowest_free in Hl; congruence|].
    rewrite lookup_insert_ne by done. congruence.
  - pose proof (lowest_is_zero _ _ Hl H0) as ->. by rewrite lookup_insert_eq.
Qed.

Lemma boot_own_zero i c r t t' :
  boot_own i c r t = Some t' →
  zero_own i c r (t !! 0) = Some (t' !! 0) ∧ (no_conn t → no_conn t').
Proof.
  destruct c; cbn; try (intros [= <-]; auto with cew; fail).
  all: try (destruct (x_ret r =? -1); [by intros [= <-]|]).
  all: try (destruct (lowest_fd _ t) eqn:Hl; [|done]; intros [= <-];
    split; [by apply open_zero|auto with cew]; fail).
  - intros [= <-]. split; [|auto with cew]. destruct (Z.eqb_spec fd 0) as [->|Hne];
      [by rewrite lookup_delete_eq|by rewrite lookup_delete_ne].
  - case_bool_decide; [|done]. intros [= <-]. split; [|auto with cew].
    destruct (Z.eqb_spec fd 0) as [->|Hne]; [by rewrite lookup_insert_eq|by rewrite lookup_insert_ne].
Qed.

(** The logging thread never closes the descriptor 0 either. *)
Lemma log_passes_close evs fd r :
  log_passes evs → avoids_zero evs → (X_close fd, r) ∈ evs → fd ≠ 0.
Proof.
  induction 1 as [|path r0|path r0 r' evs Hr _ IH]; intros Ha Hin.
  - by apply not_elem_of_nil in Hin.
  - apply list_elem_of_singleton in Hin. done.
  - rewrite !elem_of_cons in Hin. destruct Hin as [|[[= -> ->]|Hin]]; [done| |].
    + apply (Ha path r0). left.
    + apply IH; [|done]. intros path' r1 Hin'. apply (Ha path' r1). by do 2 right.
Qed.

Lemma log_passes_kind evs c r :
  log_passes evs → (c, r) ∈ evs → (∃ path, c = X_open path) ∨ ∃ fd, c = X_close fd.
Proof.
  induction 1 as [|path r0|path r0 r' evs Hr _ IH]; intros Hin.
  - by apply not_elem_of_nil in Hin.
  - apply list_elem_of_singleton in Hin as [= -> ->]. eauto.
  - rewrite !elem_of_cons in Hin. destruct Hin as [[= -> ->]|[[= -> ->]|Hin]]; eauto.
Qed.

(** So it leaves that descriptor alone. *)
Definition leaves_zero (e : event) : Prop :=
  match e.1 with X_open _ => x_ret e.2 ≠ 0 | X_close fd => fd ≠ 0 | _ => False end.

Lemma log_passes_leave evs : log_passes evs → avoids_zero evs → Forall leaves_zero evs.
Proof.
  intros Hp Ha. apply Forall_forall. intros [c r] Hin.
  destruct (log_passes_kind _ _ _ Hp Hin) as [[path ->]|[fd ->]]; cbn.
  - by eapply Ha.
  - by eapply log_passes_close.
Qed.

Lemma boot_own_left i c r t t' :
  leaves_zero (c, r) → boot_own i c r t = Some t' → t' !! 0 = t !! 0 ∧ (no_conn t → no_conn t').
Proof.
  intros Hz Ht. split; [|by apply boot_own_zero in Ht as [_ ?]].
  destruct c; cbn in Hz, Ht; try done.
  - destruct (x_ret r =? -1); [by simplify_eq|]. destruct (lowest_fd _ _); [|done]. simplify_eq.
    by apply lookup_insert_ne.
  - simplify_eq. by apply lookup_delete_ne.
Qed.

Lemma boot_logger_frame i c r k k' :
  boot_logger i c r k = Some k' →
  b_master k' = b_master k ∧ b_bound k' = b_bound k ∧ b_files k' = b_files k ∧ b_queue k' = b_queue k ∧
  ∃ t t', b_workers k !! i = Some t ∧ boot_own i c r t = Some t' ∧ b_workers k' = <[i := t']> (b_workers k).
Proof.
  unfold boot_logger. intros (t & Ht & (t' & Ht' & [= <-])%bind_Some)%bind_Some.
  split_and!; try done. by exists t, t'.
Qed.

(** The logging thread of worker [i] never touches its descriptor 0. *)
Definition log_apart (i : nat) (H : history_of) : Prop := ∀ e, (TheLogger i, e) ∈ H → leaves_zero e.

Lemma log_apart_cons i x e H : log_apart i ((x, e) :: H) → log_apart i H.
Proof. intros Ha e' Hin. apply Ha. by right. Qed.

Lemma worker_table_evolves H : ∀ i k k' t,
  log_apart i H → boot_calls H k = Some k' → b_workers k !! i = Some t →
  ∃ t', zero_calls i (calls_of (TheWorker i) H) (t !! 0) = Some (t' !! 0) ∧
    (no_conn t → no_conn t') ∧ b_workers k' !! i = Some t'.
Proof.
  induction H as [|[x [c r]] H IH]; intros i k k' t Ha; cbn [boot_calls].
  { intros [= <-] Ht. by exists t. }
  pose proof (log_apart_cons _ _ _ _ Ha) as Ha'.
  intros (k1 & Hk1 & Hk')%bind_Some Ht. rewrite calls_of_cons. destruct x as [|j|j|]; cbn in Hk1.
  - rewrite decide_False by done. eapply IH; [done|done|].
    apply boot_master_frame in Hk1 as [[->| ->] _]; [done|]. by apply lookup_app_l_Some.
  - apply boot_worker_frame in Hk1 as (_ & _ & _ & t1 & t2 & Ht1 & Ht2 & Hw). case_decide as Hj.
    + injection Hj as ->. rewrite Ht in Ht1. injection Ht1 as <-.
      destruct (boot_own_zero _ _ _ _ _ Ht2) as [Hz Hc]. cbn. rewrite Hz. cbn.
      destruct (IH i k1 k' t2 Ha' Hk') as (t' & ? & ? & ?); [|by exists t'; auto].
      rewrite Hw. apply list_lookup_insert_eq. by eapply lookup_lt_Some.
    + eapply IH; [done|done|]. rewrite Hw, list_lookup_insert_ne; [done|congruence].
  - rewrite decide_False by done.
    apply boot_logger_frame in Hk1 as (_ & _ & _ & _ & t1 & t2 & Ht1 & Ht2 & Hw).
    destruct (decide (j = i)) as [->|Hj].
    + rewrite Ht in Ht1. injection Ht1 as <-.
      destruct (boot_own_left i c r t t2) as [Hz Hc]; [apply Ha; left|done|]. rewrite <-Hz.
      destruct (IH i k1 k' t2 Ha' Hk') as (t' & ? & ? & ?); [|by exists t'; auto].
      rewrite Hw. apply list_lookup_insert_eq. by eapply lookup_lt_Some.
    + eapply IH; [done|done|]. by rewrite Hw, list_lookup_insert_ne.
  - rewrite decide_False by done. simplify_eq. by eapply IH.
Qed.

(** The table of a worker comes from the master's by the worker's own calls, as far as its
    descriptor 0 is concerned. *)
Lemma worker_table_origin H : ∀ i k k' t',
  log_apart i H → boot_calls H k = Some k' → b_workers k !! i = None → no_conn (b_master k) →
  b_workers k' !! i = Some t' →
  ∃ z0, no_conn t' ∧ zero_calls i (calls_of (TheWorker i) H) z0 = Some (t' !! 0).
Proof.
  induction H as [|[x [c r]] H IH]; intros i k k' t' Ha; cbn [boot_calls].
  { intros [= <-] ->. done. }
  pose proof (log_apart_cons _ _ _ _ Ha) as Ha'.
  intros (k1 & Hk1 & Hk')%bind_Some Hn Hc Ht'. rewrite calls_of_cons. destruct x as [|j|j|]; cbn in Hk1.
  - rewrite decide_False by done. apply boot_master_frame in Hk1 as [Hw Hc1]. specialize (Hc1 Hc).
    destruct (b_workers k1 !! i) as [t|] eqn:Ht; [|by eapply IH].
    destruct (worker_table_evolves H i k1 k' t) as (t2 & Ht2 & Hc2 & Ht3); [done..|].
    assert (t' = t2) as -> by congruence. exists (t !! 0). split; [|done]. apply Hc2.
    destruct Hw as [Hw|Hw]; rewrite Hw in Ht; [congruence|].
    apply lookup_app_Some in Ht as [Ht|[_ Ht]]; [congruence|].
    apply list_lookup_singleton_Some in Ht as [_ <-]. done.
  - apply boot_worker_frame in Hk1 as (Hm & _ & _ & t1 & t2 & Ht1 & _ & Hw). case_decide as Hj.
    + injection Hj as ->. congruence.
    + eapply IH; [done|done| |by rewrite Hm|done]. rewrite Hw, list_lookup_insert_ne; [done|congruence].
  - rewrite decide_False by done.
    apply boot_logger_frame in Hk1 as (Hm & _ & _ & _ & t1 & t2 & Ht1 & _ & Hw).
    destruct (decide (j = i)) as [->|Hj]; [congruence|].
    eapply IH; [done|done| |by rewrite Hm|done]. by rewrite Hw, list_lookup_insert_ne.
  - rewrite decide_False by done. simplify_eq. by eapply IH.
Qed.

Lemma zero_calls_app i evs1 evs2 z :
  zero_calls i (evs1 ++ evs2) z = (z' ← zero_calls i evs1 z; zero_calls i evs2 z').
Proof.
  revert z. induction evs1 as [|[c r] evs1 IH]; intros z; [done|]. cbn.
  destruct (zero_own i c r z); [apply IH|done].
Qed.

Lemma zero_calls_looks i path evs z : looks path evs → zero_calls i evs z = Some z.
Proof. induction 1 as [|[c r] evs Hc _ IH]; [done|]. cbn in *. subst c. exact IH. Qed.

Lemma joined_table i w path evs z0 z' :
  join_events w path evs → zero_calls i evs z0 = Some z' →
  iWorkerIPCfd w = 0 ∧ z' = Some (Link i).
Proof.
  intros (x1 & x2 & x3 & x4 & mid & x5 & x6 & x7 & Hmid & ->).
  destruct Hmid as (pre & y1 & y2 & y3 & y4 & Hpre & _ & Hfd & Hy2 & Hy3 & ->). cbn.
  rewrite !zero_calls_app, (zero_calls_looks _ path) by done. cbn.
  rewrite (proj2 (Z.eqb_neq _ _) Hy2), (proj2 (Z.eqb_neq _ _) Hy3).
  destruct (Z.eqb_spec (x_ret y2) 0) as [Hz|]; [|done]. cbn.
  rewrite <-Hfd, Hz. cbn. by intros [= <-].
Qed.

(** ** The links of the master *)

(** The master closes nothing. *)
Definition keeps_open (H : history_of) : Prop := ∀ fd r, (TheMaster, (X_close fd, r)) ∉ H.

Lemma keeps_open_app H H' : keeps_open (H ++ H') → keeps_open H ∧ keeps_open H'.
Proof. intros Ho. split; intros fd r Hin; apply (Ho fd r), elem_of_app; auto. Qed.

(** What is kept as long as the master closes nothing. *)
Lemma boot_master_keeps c r k k' :
  boot_master c r k = Some k' → (∀ fd, c ≠ X_close fd) →
  (∀ fd d, b_master k !! fd = Some d → b_master k' !! fd = Some d) ∧
  (∀ a p, b_bound k !! a = Some p → b_bound k' !! a = Some p).
Proof.
  intros Hk Hc. assert (∀ fd d d' (t : fd_table), t !! fd = Some d → ∀ fd', t !! fd' = None →
    <[fd' := d']> t !! fd = Some d) as Hins.
  { intros fd d d' t Ht fd' Hn. rewrite lookup_insert_ne; [done|congruence]. }
  destruct c; cbn in Hk; try (by destruct (Hc fd)); repeat case_match; simplify_eq; cbn; try done;
    repeat match goal with Hl : lowest_fd _ _ = true |- _ => apply lowest_free in Hl end; eauto.
  split; [done|]. intros a p Ha. rewrite lookup_insert_ne; [done|congruence].
Qed.

Lemma master_stays H k k' :
  keeps_open H → boot_calls H k = Some k' →
  (∀ fd d, b_master k !! fd = Some d → b_master k' !! fd = Some d) ∧
  (∀ a p, b_bound k !! a = Some p → b_bound k' !! a = Some p).
Proof.
  intros Hopen Hk. revert Hk. apply (boot_calls_invariant (λ k', (∀ fd d, _ → b_master k' !! fd = Some d) ∧
    (∀ a p, _ → b_bound k' !! a = Some p))); [|done].
  intros [|i|i|] [c r] k1 k2 Hin [Hm Hb]; cbn.
  - intros Hk. apply boot_master_keeps in Hk as [Hm' Hb']; [auto|]. intros fd ->. by eapply Hopen.
  - intros (Hm' & Hb' & _)%boot_worker_frame. rewrite Hm', Hb'. done.
  - intros (Hm' & Hb' & _)%boot_logger_frame. rewrite Hm', Hb'. done.
  - by intros [= <-].
Qed.

(** Every worker connects to the file of its own name. *)
Definition own_names_only (path : nat → bytes) (H : history_of) : Prop :=
  ∀ i fd p r, (TheWorker i, (X_connect_unix fd p, r)) ∈ H → x_ret r ≠ -1 → p = path i.

(** The file leads to the socket bound to its name, and only workers of that name wait there. *)
Definition in_order (path : nat → bytes) (k : boot) : Prop :=
  (∀ p a, b_files k !! p = Some (Some a) → b_bound k !! a = Some p) ∧
  (∀ a l j, b_queue k !! a = Some l → j ∈ l → b_bound k !! a = Some (path j)).

Lemma fresh_in_order path k : boot_fresh k → in_order path k.
Proof.
  intros []. split.
  - intros p a Hp. by destruct (bf_files0 p a).
  - intros a l j. by rewrite bf_queue0.
Qed.

Lemma boot_master_order path c r k k' :
  boot_master c r k = Some k' → in_order path k → in_order path k'.
Proof.
  intros Hk [Hf Hq]. destruct c; cbn in Hk; repeat case_match; simplify_eq; try done; split; cbn.
  - intros p a. rewrite lookup_fmap. intros (o & Ho & Hp)%fmap_Some.
    case_decide as Hd; [done|]. subst o. rewrite lookup_delete_ne; [by apply Hf|]. intros ->. by apply Hd.
  - intros a l j [Hne Hl]%lookup_delete_Some Hj. rewrite lookup_delete_ne by done. by eapply Hq.
  - intros p a [_ Hp]%lookup_delete_Some. by apply Hf.
  - done.
  - intros p a [[<- [= <-]]|[_ Hp]]%lookup_insert_Some; [by rewrite lookup_insert_eq|].
    apply Hf in Hp. rewrite lookup_insert_ne; [done|congruence].
  - intros a l j Hl Hj. pose proof (Hq _ _ _ Hl Hj). rewrite lookup_insert_ne; [done|congruence].
  - done.
  - intros a l j [[<- <-]|[_ Hl]]%lookup_insert_Some; [by intros ?%not_elem_of_nil|by apply Hq].
  - done.
  - intros a l' j' [[<- <-]|[_ Hl]]%lookup_insert_Some Hj; [|by eapply Hq].
    eapply Hq; [eassumption|by right].
Qed.

Lemma boot_worker_order path i c r k k' :
  boot_worker i c r k = Some k' →
  (∀ fd p, c = X_connect_unix fd p → x_ret r ≠ -1 → p = path i) → in_order path k → in_order path k'.
Proof.
  unfold boot_worker. intros (t & Ht & (t' & Ht' & (k1 & Hk1 & [= <-])%bind_Some)%bind_Some)%bind_Some Hown [Hf Hq].
  unfold in_order. cbn. change (in_order path k1).
  destruct c; cbn in Hk1; repeat case_match; simplify_eq; try done. split; cbn; [done|].
  assert (x_ret r ≠ -1) as Hr by (by apply Z.eqb_neq). pose proof (Hown _ _ eq_refl Hr) as ->.
  intros a l' j [[<- <-]|[_ Hl]]%lookup_insert_Some Hj; [|by eapply Hq].
  apply elem_of_app in Hj as [Hj| ->%list_elem_of_singleton]; [by eapply Hq|by apply Hf].
Qed.

Lemma boot_order path H k k' :
  own_names_only path H → in_order path k → boot_calls H k = Some k' → in_order path k'.
Proof.
  intros Hown. apply boot_calls_invariant. intros [|i|i|] [c r] k1 k2 Hin Ho; cbn; intros Hk.
  - by eapply boot_master_order.
  - eapply boot_worker_order; [done| |done]. intros fd p -> Hr. by eapply Hown.
  - apply boot_logger_frame in Hk as (_ & Hb & Hf & Hq & _). unfold in_order. by rewrite Hb, Hf, Hq.
  - by simplify_eq.
Qed.

(** The connection that the master accepts on the socket of a worker is that worker's. *)
Lemma accepted_link path H k0 k i a m l1 x1 l2 x2 l3 :
  boot_fresh k0 → boot_calls H k0 = Some k → keeps_open H → own_names_only path H →
  calls_of TheMaster H = l1 ++ (X_bind_unix a (path i), x1) :: l2 ++ (X_accept a, x2) :: l3 →
  x_ret x1 ≠ -1 → x_ret x2 = m → m ≠ -1 → (∀ j, path j = path i → j = i) →
  b_master k !! m = Some (Link i).
Proof.
  intros Hfresh Hk Hopen Hown Hcalls Hx1 Hm Hm1 Hinj.
  apply calls_of_split in Hcalls as (H1 & H2 & -> & _ & Hcalls).
  apply calls_of_split in Hcalls as (H3 & H4 & -> & _ & _).
  rewrite boot_calls_app in Hk. apply bind_Some in Hk as (k1 & Hk1 & Hk). cbn [boot_calls] in Hk.
  apply bind_Some in Hk as (k2 & Hk2 & Hk). rewrite boot_calls_app in Hk. apply bind_Some in Hk as (k3 & Hk3 & Hk).
  cbn [boot_calls] in Hk. apply bind_Some in Hk as (k4 & Hk4 & Hk).
  apply keeps_open_app in Hopen as [_ Hopen2]. apply (keeps_open_app [_]) in Hopen2 as [_ Hopen2].
  apply keeps_open_app in Hopen2 as [Hopen3 Hopen4]. apply (keeps_open_app [_]) in Hopen4 as [_ Hopen4].
  assert (b_bound k2 !! a = Some (path i)) as Hb2.
  { cbn in Hk2. rewrite (proj2 (Z.eqb_neq _ _) Hx1) in Hk2. repeat case_match; simplify_eq. apply lookup_insert_eq. }
  assert (in_order path k3) as [_ Hq3].
  { eapply (boot_order path (H1 ++ (TheMaster, (X_bind_unix a (path i), x1)) :: H3)); [|by apply fresh_in_order|].
    - intros j fd p r Hin. apply (Hown j fd p r). set_solver.
    - rewrite boot_calls_app, Hk1. cbn [mbind option_bind boot_calls]. by rewrite Hk2. }
  destruct (master_stays _ _ _ Hopen3 Hk3) as [_ Hb3]. specialize (Hb3 _ _ Hb2).
  cbn in Hk4. rewrite Hm, (proj2 (Z.eqb_neq _ _) Hm1) in Hk4.
  destruct (b_queue k3 !! a) as [[|j rest]|] eqn:Hq; [done| |done]. destruct (lowest_fd _ _); [|done].
  injection Hk4 as <-. assert (j = i) as ->.
  { apply Hinj. pose proof (Hq3 _ _ j Hq ltac:(left)). congruence. }
  apply (master_stays _ _ _ Hopen4 Hk). apply lookup_insert_eq.
Qed.

(** ** The processes *)

Lemma calls_of_elem x e H : (x, e) ∈ H ↔ e ∈ calls_of x H.
Proof.
  unfold calls_of. rewrite list_elem_of_omap. split.
  - intros Hin. exists (x, e). split; [done|]. by rewrite decide_True.
  - intros ([y e'] & Hin & He). cbn in He. case_decide; [|done]. by simplify_eq.
Qed.

(** The name of a worker's socket file. *)
Definition name_of (xs : list (sds * sds_obj)) (i : nat) : bytes := from_option (λ x, sds_buf x.2) [] (xs !! i).

Lemma name_of_inj xs i j :
  NoDup ((λ x : sds * sds_obj, sds_buf x.2) <$> xs) → is_Some (xs !! i) → name_of xs i ≠ [] →
  name_of xs j = name_of xs i → j = i.
Proof.
  unfold name_of. intros Hnd [x Hx] Hne Heq. destruct (xs !! j) as [y|] eqn:Hy.
  - eapply (NoDup_lookup _ _ _ (sds_buf x.2)); [exact Hnd|rewrite list_lookup_fmap, Hy; cbn; rewrite Hx in Heq; cbn in Heq; congruence|].
    by rewrite list_lookup_fmap, Hx.
  - rewrite <-Heq in Hne. done.
Qed.

Lemma started_no_close w path evs fd r : start_events w path evs → (X_close fd, r) ∉ evs.
Proof.
  intros (? & ? & ? & ? & _ & _ & _ & (? & ? & ? & ? & ? & ? & ? & _ & _ & _ & _ & _ & _ & ->) & ->).
  set_solver.
Qed.

(** The place of a worker's start among the calls of the master. *)
Lemma all_started_split ws xs new i w x :
  all_started ws xs new → ws !! i = Some w → xs !! i = Some x →
  ∃ l1 evs l2, new = l1 ++ evs ++ l2 ∧ start_events w (sds_buf x.2) evs.
Proof.
  intros (news & -> & _ & Hl & Hall) Hw Hx.
  destruct (lookup_lt_is_Some_2 news i) as [evs He]; [rewrite Hl; by eapply lookup_lt_Some|].
  exists (concat (take i news)), evs, (concat (drop (S i) news)). split; [|by eapply Hall].
  rewrite <-(take_drop_middle news i evs He) at 1. by rewrite concat_app, concat_cons.
Qed.

Lemma all_started_no_close ws xs new fd r : all_started ws xs new → (X_close fd, r) ∉ new.
Proof.
  intros (news & -> & Hlx & Hl & Hall) (evs & He & Hin)%list_elem_of_In%in_concat.
  apply list_elem_of_In, list_elem_of_lookup in He as [i Hi]. pose proof (lookup_lt_Some _ _ _ Hi).
  destruct (lookup_lt_is_Some_2 ws i) as [w Hw]; [lia|].
  destruct (lookup_lt_is_Some_2 xs i) as [x Hx]; [lia|].
  eapply started_no_close; [by eapply (Hall i)|]. by apply list_elem_of_In.
Qed.

(** The names of the workers are the strings behind their pointers. *)
Lemma set_up_strings ws xs g ps F m :
  set_up ws xs g → heap_is (xs ++ ps) F m →
  xs = omap (λ w, f ← IPCFile w; o ← m !! f; Some (f, o)) ws.
Proof.
  intros (_ & Hnames & _) Hheap.
  assert (∀ x, x ∈ xs → m !! x.1 = Some x.2) as Hm.
  { intros [f o] (l1 & l2 & ->)%list_elem_of_split. cbn.
    assert (heap_is ((f, o) :: l1 ++ l2 ++ ps) F m) as [? _]; [|done].
    eapply heap_is_perm; [exact Hheap|]. solve_Permutation. }
  clear Hheap. induction Hnames as [|w x ws xs Hw _ IH]; [done|]. cbn. rewrite Hw. cbn.
  rewrite (Hm x) by left. cbn. destruct x. f_equal. apply IH. intros y Hy. apply Hm. by right.
Qed.

Section startup.
Context `{SL : SdsLib, SS : !SdsSpec SL, LA : LoggerAPI, EV : EvLib}.
Context (stack : bytes).
Implicit Types (s : machine) (p : process).

(** [p] is the process of worker [i] before its event loop: from its fork on it ran
    [workerp_start], with answers of its own and with the name that the master made for it,
    and its calls are those of the history. *)
Definition joined (xs : list (sds * sds_obj)) (H : history_of) (k : boot) (i : nat) p : Prop :=
  ∃ (E : Env) fuel f sp rnd cfg ys ps F g g' s t,
    joins fuel ∧ 0 ≤ rnd < 2 ^ 31 ∧ xs !! i = Some (f, SdsObj (ipc_path rnd) sp) ∧
    represents (g_settings g) cfg ys ∧
    heap_is ((f, SdsObj (ipc_path rnd) sp) :: ys ++ ps) F (heap_of s) ∧
    workerp_start (E := E) fuel i (zero_worker (Z.of_nat i) f) g s = (Ok (p_self p, g'), p_machine p) ∧
    calls_of (TheWorker i) H = calls_between s (p_machine p) ∧
    b_workers k !! i = Some t ∧ p_clients p = ∅ ∧ p_end p = Endpoint t [] [].

Lemma joined_events xs H k i p :
  joined xs H k i p → join_events (p_self p) (name_of xs i) (calls_of (TheWorker i) H).
Proof.
  intros (E & fuel & f & sp & rnd & cfg & ys & ps & F & g & g' & s & t & Hj & Hrnd & Hx & Hrep & Hheap &
    Hrun & -> & _). unfold name_of. rewrite Hx. cbn.
  pose proof (workerp_start_wp fuel i f rnd sp cfg ys ps F g s Hj Hrnd Hrep Hheap) as Hwp.
  unfold wp in Hwp. rewrite Hrun in Hwp. destruct Hwp as (_ & _ & _ & _ & new & Ht & Hev).
  by rewrite (calls_between_app _ _ _ Ht).
Qed.

Lemma join_connects w path evs fd q r :
  join_events w path evs → (X_connect_unix fd q, r) ∈ evs → q = path.
Proof.
  intros (? & ? & ? & ? & ? & ? & ? & ? & (pre & ? & ? & ? & ? & Hpre & _ & _ & _ & _ & ->) & ->) Hin.
  rewrite !elem_of_app in Hin. destruct Hin as [Hin|[[Hin|Hin]|Hin]].
  - set_solver.
  - eapply Forall_forall in Hpre; [|exact Hin]. done.
  - set_solver.
  - set_solver.
Qed.

(** A worker that joined is where the system starts from. *)
Lemma joined_process xs H k0 k i p :
  log_passes (calls_of (TheLogger i) H) → avoids_zero (calls_of (TheLogger i) H) → boot_fresh k0 → boot_calls H k0 = Some k → joined xs H k i p →
  p_clients p = ∅ ∧ inbox (p_end p) = [] ∧ history (p_end p) = [] ∧
  fds (p_end p) !! iWorkerIPCfd (p_self p) = Some (Link i) ∧
  is_Some (fds (p_end p) !! 0) ∧ (∀ fd n, fds (p_end p) !! fd ≠ Some (Conn n)).
Proof.
  intros Hlog Hz Hfresh Hk Hj. pose proof (joined_events _ _ _ _ _ Hj) as Hev.
  assert (log_apart i H) as Ha.
  { intros e Hin%calls_of_elem. pose proof (log_passes_leave _ Hlog Hz) as Hall.
    rewrite Forall_forall in Hall. by apply Hall. }
  destruct Hj as (? & ? & ? & ? & ? & ? & ? & ? & ? & ? & ? & ? & t & _ & _ & _ & _ & _ & _ & _ & Ht & Hcs & ->).
  destruct (worker_table_origin H i k0 k t) as (z0 & Hnc & Hown);
    [done|done|by rewrite (bf_workers _ Hfresh)|exact (bf_master _ Hfresh)|done|].
  destruct (joined_table _ _ _ _ _ _ Hev Hown) as [-> H0]. cbn. rewrite H0.
  by split_and!.
Qed.

(** C5: Starting up together, in every interleaving of the calls of the master, of its
    workers and of their logging threads that the kernel allows, with files left over from
    earlier runs and with further calls of the master that close nothing: when the calls
    succeed, the random names differ, and no logging thread opens the log file in the moment
    between a worker's closing of descriptor 0 and its opening of the socket (which would
    take that descriptor, [avoids_zero]), each worker ends up connected to the master through
    the very descriptor that the master keeps for it, as its descriptor 0; so the processes
    are in a state from which the system of [System.v] starts. *)
Theorem startup_connects {E : Env} fuel evs children n g ps F s :
  starts children → (children ≤ fork_calls (m_trace s))%nat → 0 < n ≤ Z.of_nat WORKER_MAX_WORKERS →
  heap_is ps F (heap_of s) → NextWorker (g_workers g) = NextWorker worker_zero →
  wp (worker_init stack fuel evs n g) (λ r s', ∃ ws xs, Z.of_nat (length ws) = n ∧ set_up ws xs r.2 ∧
    heap_is (xs ++ ps) F (heap_of s') ∧ ∀ H k0 k more procs,
      NoDup ((λ x : sds * sds_obj, sds_buf x.2) <$> xs) → boot_fresh k0 → boot_calls H k0 = Some k →
      calls_of TheMaster H = calls_between s s' ++ more → (∀ fd x, (X_close fd, x) ∉ more) →
      length procs = length ws → (∀ i p, procs !! i = Some p → joined xs H k i p) →
      (∀ i, (length ws ≤ i)%nat → calls_of (TheWorker i) H = []) →
      (∀ i, log_passes (calls_of (TheLogger i) H) ∧ avoids_zero (calls_of (TheLogger i) H)) →
      at_start ws (System (g_workers r.2) s' (b_master k) 0 procs)) s.
Proof.
  intros Hst Hch Hn Hheap Hnext. eapply wp_mono; [by apply (worker_init_wp stack fuel evs children n g ps F); [..|lia|]|].
  intros [z g1] s1 (_ & ws & xs & Hl & Hup & Hstaff & _ & _ & Hheap1 & Hnext1 & _ & _ & new & Ht & Hall).
  cbn [fst snd] in *. exists ws, xs. split_and!; [done|done|done|].
  intros H k0 k more procs Hnd Hfresh Hk Hcalls Hmore Hlen Hjoin Hnone Hlog.
  rewrite (calls_between_app _ _ _ Ht) in Hcalls.
  assert (keeps_open H) as Hopen.
  { intros fd x Hin%calls_of_elem. rewrite Hcalls in Hin. apply elem_of_app in Hin as [Hin|Hin].
    - by eapply all_started_no_close.
    - by eapply Hmore. }
  assert (own_names_only (name_of xs) H) as Hown.
  { intros i fd p x Hin%calls_of_elem _. destruct (decide (i < length ws)%nat) as [Hi|Hi].
    - destruct (lookup_lt_is_Some_2 procs i) as [q Hq]; [lia|].
      eapply join_connects; [by eapply joined_events, Hjoin|done].
    - rewrite Hnone in Hin by lia. by apply not_elem_of_nil in Hin. }
  split; cbn.
  - split_and!; [by intros ->; cbn in *; lia|done|done].
  - by rewrite Hnext1.
  - done.
  - intros i w Hw. destruct (lookup_lt_is_Some_2 xs i) as [x Hx].
    { destruct Hall as (_ & _ & -> & _). by eapply lookup_lt_Some. }
    destruct (all_started_split _ _ _ _ _ _ Hall Hw Hx) as (l1 & evs' & l2 & -> & Hev).
    destruct Hev as (y1 & y2 & y3 & rest & Hpath & _ & _ & Hipc & ->).
    destruct Hipc as (x1 & x2 & x3 & x4 & x5 & x6 & x7 & Ha & Hm & Ha1 & Hm1 & Hx4 & _ & ->).
    assert (name_of xs i = sds_buf x.2) as Hname by (unfold name_of; by rewrite Hx).
    rewrite <-Hname in Hcalls. eapply (accepted_link (name_of xs) H k0 k i (iMasterIPCAccept w) _
      (l1 ++ [(X_malloc, y1); (X_random, y2); (X_fork, y3); (X_unix_socket, x1);
              (X_stat WORKER_IPC_FOLDER, x2); (X_unlink (name_of xs i), x3)]) x4
      [(X_chmod (name_of xs i), x5); (X_listen (iMasterIPCAccept w) 20, x6)] x7 (l2 ++ more)); try done.
    + rewrite Hcalls, <-!app_assoc. done.
    + intros j Hj. eapply name_of_inj; [done|by eexists| |done]. rewrite Hname, Hpath. done.
  - intros i p Hp. destruct (Hlog i). by eapply joined_process; [..|by apply Hjoin].
Qed.

End startup.

(** Why [avoids_zero] is needed: the logging thread opens the log file between the two
    times the worker closes descriptor 0, the worker closes the file under it and gets the
    number for its socket, and the thread, closing its file, closes the socket. *)
Example log_file_on_zero :
  let answer z := ExtRet z 0 0 [] in
  let worker := {[ 0 := Other; 1 := Other; 2 := Other ]} : fd_table in
  let log := lit "/tmp/cew.log" in
  (k ← boot_calls
     [(TheWorker 0, (X_close 0, answer 0)); (TheLogger 0, (X_open log, answer 0));
      (TheWorker 0, (X_close 0, answer 0)); (TheWorker 0, (X_unix_socket, answer 0));
      (TheLogger 0, (X_close 0, answer 0))]
     (Boot worker [worker] ∅ ∅ ∅);
   t ← b_workers k !! 0%nat; Some (t !! 0, t !! 1)) = Some (None, Some Other).
Proof. vm_compute. reflexivity. Qed.
