(* ===== verification/Shutdown.v ===== *)
(** * Ending together

    The master ends while its workers are in their event loops: its clean-up sends each of
    them a signal and waits for it.  As in Startup.v the calls of all processes interleave in
    a history, in which somebody outside can send signals as well; the kernel ([end_call])
    keeps of each worker its number, the signals it handles, those that wait to be handled,
    and whether it still runs. *)

From S2P Require Import Prelude CString Machine SdsModel Settings Http Worker Socket Exit Client WorkerProc.
From S2P Require Import Reaction System WorkerLife Startup.
Local Open Scope Z_scope.

(** ** The kernel *)

(** A process that a signal has ended keeps its number until its parent has waited for it. *)
Inductive life : Type := Alive | Zombie (sig : Z) | Reaped (sig : Z).

Record kproc : Type := KProc {
  k_pid : Z;
  k_handles : gset Z;
  k_pending : list Z;
  k_life : life;
}.

Definition has_pid (pid : Z) (p : kproc) : Prop :=
  k_pid p = pid ∧ match k_life p with Reaped _ => False | _ => True end.

#[global] Instance has_pid_dec pid p : Decision (has_pid pid p).
Proof. unfold has_pid. destruct (k_life p); apply _. Defined.

(** A signal without a handler ends the process, and so does [SIGKILL] always. *)
Definition signalled (sig : Z) (p : kproc) : kproc :=
  match k_life p with
  | Alive =>
      if bool_decide (sig ∈ k_handles p) && negb (sig =? SIGKILL)
      then KProc (k_pid p) (k_handles p) (k_pending p ++ [sig]) Alive
      else KProc (k_pid p) (k_handles p) (k_pending p) (Zombie sig)
  | _ => p
  end.

Definition reap (p : kproc) : kproc :=
  match k_life p with
  | Zombie sig => KProc (k_pid p) (k_handles p) (k_pending p) (Reaped sig)
  | _ => p
  end.

(** A call of any process. *)
Definition end_effect (x : who) (c : ext_call) (r : ext_ret) (k : list kproc) : option (list kproc) :=
  match c with
  | X_kill pid sig =>
      match list_find (has_pid pid) k with
      | Some (j, _) => if x_ret r =? 0 then Some (alter (signalled sig) j k) else None
      | None => if x_ret r =? -1 then Some k else None
      end
  | X_waitpid pid =>
      match x, list_find (has_pid pid) k with
      | TheMaster, Some (j, p) =>
          match k_life p with
          | Zombie _ => if x_ret r =? pid then Some (alter reap j k) else None
          | _ => None
          end
      | _, _ => if x_ret r =? -1 then Some k else None
      end
  | _ => Some k
  end.

(** A worker makes calls only while it runs; [ev_signal_start] sets a handler, and the
    callback of the signal runs, and breaks the loop, only when the signal has come. *)
Definition end_call (x : who) (c : ext_call) (r : ext_ret) (k : list kproc) : option (list kproc) :=
  match x with
  | TheMaster => end_effect x c r k
  | Outside => match c with X_kill _ _ => end_effect x c r k | _ => None end
  | TheLogger i => p ← k !! i; match k_life p with Alive => Some k | _ => None end
  | TheWorker i =>
      p ← k !! i;
      match k_life p, c with
      | Alive, X_ev_signal_start sig =>
          Some (<[i := KProc (k_pid p) (k_handles p ∪ {[sig]}) (k_pending p) Alive]> k)
      | Alive, X_ev_break => if bool_decide (SIGINT ∈ k_pending p) then Some k else None
      | Alive, _ => end_effect x c r k
      | _, _ => None
      end
  end.

Fixpoint end_calls (H : history_of) (k : list kproc) : option (list kproc) :=
  match H with
  | [] => Some k
  | (x, (c, r)) :: H' => k' ← end_call x c r k; end_calls H' k'
  end.

Lemma end_calls_app H1 H2 k : end_calls (H1 ++ H2) k = (k' ← end_calls H1 k; end_calls H2 k').
Proof.
  revert k. induction H1 as [|[x [c r]] H1 IH]; intros k; [done|]. cbn.
  destruct (end_call x c r k) as [k'|]; [apply IH|done].
Qed.

(** ** A worker in its event loop *)

(** The calls of events other than the signal. *)
Inductive busy_calls (stack : bytes) (E : Env) (w : tsWorkerStruct) : list event → clients → list event → Prop :=
  | busy_nil tr cs : busy_calls stack E w tr cs []
  | busy_cons tr cs e new cs' rest :
      e ≠ Ev_sigint → reaction stack E tr w cs e new cs' →
      busy_calls stack E w (tr ++ new) cs' rest → busy_calls stack E w tr cs (new ++ rest).

(** All calls of the process from a moment in its loop on: some events, of which the last may
    be unfinished; or the signal, and then whatever comes after the loop. *)
Definition loop_calls (evs : list event) : Prop :=
  ∃ stack E w tr cs busy, busy_calls stack E w tr cs busy ∧
    (evs `prefix_of` busy ∨ ∃ r after, evs = busy ++ (X_ev_break, r) :: after).

(** What a busy worker never calls. *)
Definition stays_busy (c : ext_call) : Prop :=
  match c with X_ev_break | X_ev_signal_start _ | X_kill _ _ | X_waitpid _ => False | _ => True end.

Lemma handled_busy req evs resp : handled req evs resp → Forall stays_busy evs.*1.
Proof. destruct 1; by repeat constructor. Qed.

Lemma deregistered_busy p fd down : deregistered p fd down → Forall stays_busy down.*1.
Proof.
  intros (r1 & r2 & r3 & rs & r4 & ->). rewrite !fmap_app, !Forall_app. split_and!; try by repeat constructor.
  unfold read_events. induction rs; [constructor|by constructor].
Qed.

Lemma reaction_busy stack E tr w cs e new cs' :
  reaction stack E tr w cs e new cs' → e ≠ Ev_sigint → Forall stays_busy new.*1.
Proof.
  destruct 1 as [| r p id ip new on _ _ _ Hreg _| | | p c r down _ _ _ Hd
    |p c r r1 evs resp r2 down _ _ _ Hh Hd|p c down _ Hd|]; intros He; cbn.
  - by repeat constructor.
  - constructor; [done|]. eapply Forall_impl; [exact Hreg|]. by intros [].
  - constructor.
  - by repeat constructor.
  - constructor; [done|by eapply deregistered_busy].
  - rewrite !fmap_app. do 2 (constructor; [done|]). apply Forall_app. split; [by eapply handled_busy|].
    constructor; [done|by eapply deregistered_busy].
  - by eapply deregistered_busy.
  - done.
Qed.

Lemma busy_stays stack E w tr cs evs : busy_calls stack E w tr cs evs → Forall stays_busy evs.*1.
Proof.
  induction 1 as [|tr cs e new cs' rest He Hr _ IH]; [constructor|]. rewrite fmap_app. apply Forall_app.
  split; [by eapply reaction_busy|done].
Qed.

(** The next call of a worker that has not left its loop. *)
Lemma loop_next evs pre c r post :
  loop_calls evs → evs = pre ++ (c, r) :: post → Forall stays_busy pre.*1 →
  stays_busy c ∨ c = X_ev_break.
Proof.
  intros (stack & E & w & tr & cs & busy & Hb & Hev) -> Hpre. apply busy_stays in Hb.
  destruct Hev as [[more ->]|(r' & after & Heq)].
  { left. rewrite !fmap_app, <-app_assoc in Hb. apply Forall_app in Hb as [_ Hb]. by inversion Hb. }
  apply app_eq_inv in Heq as [(k & -> & Hk)|(k & -> & Hk)].
  - destruct k as [|[c' r''] k]; cbn in Hk; injection Hk as ? ?; subst; [by right|].
    rewrite fmap_app in Hpre. apply Forall_app in Hpre as [_ Hpre]. by inversion Hpre.
  - destruct k as [|[c' r''] k]; cbn in Hk; injection Hk as ? ?; subst; [by right|].
    left. rewrite fmap_app in Hb. apply Forall_app in Hb as [_ Hb]. by inversion Hb.
Qed.

(** ** What the kernel's side of the workers can become *)

Definition deadly (sig : Z) : Prop := sig = SIGTERM ∨ sig = SIGKILL.

(** A worker that was never sent the signal it handles. *)
Definition unasked (p : kproc) : Prop :=
  k_handles p = {[SIGINT]} ∧ (SIGINT ∉ k_pending p) ∧
  match k_life p with Alive => True | Zombie sig | Reaped sig => deadly sig end.

Definition unasked_all (pids : list Z) (k : list kproc) : Prop :=
  NoDup pids ∧ k_pid <$> k = pids ∧ Forall unasked k.

Definition reaped (i : nat) (k : list kproc) : Prop :=
  ∃ p sig, k !! i = Some p ∧ k_life p = Reaped sig.

Inductive end_step : list kproc → list kproc → Prop :=
  | es_same k : end_step k k
  | es_signal k j sig : deadly sig → end_step k (alter (signalled sig) j k)
  | es_reap k j : end_step k (alter reap j k).

Lemma signalled_unasked sig p : deadly sig → unasked p → unasked (signalled sig p).
Proof.
  intros Hsig (Hh & Hp & Hl). unfold signalled. destruct (k_life p) eqn:Hlife; [|by split_and!; rewrite ?Hlife..].
  rewrite Hh. rewrite bool_decide_false; [by split_and!|].
  intros Hin%elem_of_singleton. destruct Hsig as [-> | ->]; done.
Qed.

Lemma reap_unasked p : unasked p → unasked (reap p).
Proof.
  intros (Hh & Hp & Hl). unfold reap. destruct (k_life p) eqn:Hlife; split_and!; cbn; rewrite ?Hlife; done.
Qed.

Lemma signalled_pid sig p : k_pid (signalled sig p) = k_pid p.
Proof. unfold signalled. destruct (k_life p); [|done..]. by destruct (_ && _). Qed.

Lemma reap_pid p : k_pid (reap p) = k_pid p.
Proof. unfold reap. by destruct (k_life p). Qed.

Lemma unasked_alter f j pids k :
  (∀ p, k_pid (f p) = k_pid p) → (∀ p, unasked p → unasked (f p)) →
  unasked_all pids k → unasked_all pids (alter f j k).
Proof.
  intros Hpid Hf (Hnd & Hp & Hall). split_and!; [done| |].
  - rewrite <-Hp. apply list_eq. intros i. rewrite !list_lookup_fmap.
    destruct (decide (i = j)) as [->|]; [|by rewrite list_lookup_alter_ne].
    rewrite list_lookup_alter_eq. destruct (k !! j); cbn; [by rewrite Hpid|done].
  - apply Forall_alter; [done|]. intros p _. apply Hf.
Qed.

Lemma end_step_unasked pids k k' : end_step k k' → unasked_all pids k → unasked_all pids k'.
Proof.
  destruct 1 as [|k j sig Hsig|k j]; [done| |]; apply unasked_alter; intros p.
  - apply signalled_pid.
  - by apply signalled_unasked.
  - apply reap_pid.
  - apply reap_unasked.
Qed.

Lemma reaped_alter f i j k :
  (∀ p sig, k_life p = Reaped sig → f p = p) → reaped i k → reaped i (alter f j k).
Proof.
  intros Hf (p & sig & Hp & Hl). exists p, sig. split; [|done].
  destruct (decide (j = i)) as [->|]; [|by rewrite list_lookup_alter_ne].
  rewrite list_lookup_alter_eq, Hp. cbn. by rewrite (Hf p sig).
Qed.

Lemma end_step_reaped i k k' : end_step k k' → reaped i k → reaped i k'.
Proof.
  destruct 1 as [|k j sig Hsig|k j]; [done| |]; apply reaped_alter; intros p sg Hl.
  - unfold signalled. by rewrite Hl.
  - unfold reap. by rewrite Hl.
Qed.

(** What a process may call here. *)
Definition may_call (x : who) (c : ext_call) : Prop :=
  match x with
  | TheMaster | Outside => ∀ pid sig, c = X_kill pid sig → deadly sig
  | TheWorker _ => stays_busy c ∨ c = X_ev_break
  | TheLogger _ => True
  end.

Lemma end_effect_step x c r k k' :
  (∀ pid sig, c = X_kill pid sig → deadly sig) → end_effect x c r k = Some k' → end_step k k'.
Proof.
  intros Hc Hk. destruct c; cbn in Hk; try (injection Hk as <-; apply es_same).
  - destruct (list_find _ k) as [[j p]|].
    + destruct (x_ret r =? 0); [|done]. injection Hk as <-. by eapply es_signal, Hc.
    + destruct (x_ret r =? -1); [|done]. injection Hk as <-. apply es_same.
  - destruct x as [|i|i|]; [destruct (list_find _ k) as [[j p]|]|..].
    { destruct (k_life p); [done| |done]. destruct (x_ret r =? _); [|done]. injection Hk as <-. apply es_reap. }
    all: destruct (x_ret r =? -1); [|done]; injection Hk as <-; apply es_same.
Qed.

Lemma end_call_step pids x c r k k' :
  may_call x c → unasked_all pids k → end_call x c r k = Some k' →
  end_step k k' ∧ ∀ i, x = TheWorker i → stays_busy c.
Proof.
  intros Hc (_ & _ & Hall) Hk. destruct x as [|i|i|]; cbn in Hk.
  { split; [by eapply end_effect_step|done]. }
  2: { apply bind_Some in Hk as (p & _ & Hk). destruct (k_life p); [|done..].
       injection Hk as <-. split; [apply es_same|done]. }
  2: { split; [|done]. apply (end_effect_step Outside c r); [done|]. by destruct c. }
  apply bind_Some in Hk as (p & Hp & Hk). destruct Hc as [Hc| ->].
  - split; [|done]. destruct (k_life p); [|done..].
    apply (end_effect_step (TheWorker i) c r); [by intros ? ? ->|]. by destruct c.
  - eapply Forall_lookup_1 in Hall as (_ & Hpend & _); [|exact Hp].
    destruct (k_life p); [|done..]. by rewrite bool_decide_false in Hk.
Qed.

(** The master has waited for the process. *)
Lemma waited pids i pid r k k' :
  unasked_all pids k → pids !! i = Some pid → end_call TheMaster (X_waitpid pid) r k = Some k' → reaped i k'.
Proof.
  intros (Hnd & Hp & _) Hi Hk. rewrite <-Hp, list_lookup_fmap in Hi.
  apply fmap_Some in Hi as (p & Hpi & ->). cbn in Hk.
  destruct (list_find _ k) as [[j q]|] eqn:Hf.
  - apply list_find_Some in Hf as (Hj & [Hq _] & _).
    assert (j = i) as ->; [|rewrite Hpi in Hj; injection Hj as <-].
    { rewrite <-Hp in Hnd. eapply NoDup_lookup; [exact Hnd|by rewrite list_lookup_fmap, Hj; cbn; rewrite Hq|].
      by rewrite list_lookup_fmap, Hpi. }
    destruct (k_life p) as [|sig|] eqn:Hl; [done| |done]. destruct (x_ret r =? _); [|done]. injection Hk as <-.
    exists (reap p), sig. rewrite list_lookup_alter_eq, Hpi. split; [done|]. unfold reap. by rewrite Hl.
  - destruct (x_ret r =? -1); [|done]. injection Hk as <-.
    apply list_find_None in Hf. eapply Forall_lookup_1 in Hf; [|exact Hpi].
    destruct (k_life p) as [| |sig] eqn:Hl; [..|by exists p, sig]; destruct Hf; split; by rewrite ?Hl.
Qed.

(** A whole history; [before] is what the workers did in their loops earlier. *)
Lemma end_history pids H : ∀ (before : nat → list event) k k',
  (∀ i, Forall stays_busy (before i).*1 ∧ loop_calls (before i ++ calls_of (TheWorker i) H)) →
  (∀ pid sig r, (X_kill pid sig, r) ∈ calls_of TheMaster H → deadly sig) →
  (∀ pid sig r, (X_kill pid sig, r) ∈ calls_of Outside H → deadly sig) →
  unasked_all pids k → end_calls H k = Some k' →
  unasked_all pids k' ∧ (∀ i, reaped i k → reaped i k') ∧
  (∀ i, Forall stays_busy (calls_of (TheWorker i) H).*1) ∧
  (∀ i pid r, (X_waitpid pid, r) ∈ calls_of TheMaster H → pids !! i = Some pid → reaped i k').
Proof.
  induction H as [|[x [c r]] H IH]; intros before k k' Hloop Hkill Hout Hinv Hk.
  { injection Hk as <-. split_and!; [done|done|intros; constructor|by intros ? ? ? ?%not_elem_of_nil]. }
  cbn in Hk. apply bind_Some in Hk as (k1 & Hk1 & Hk).
  setoid_rewrite calls_of_cons in Hloop. rewrite calls_of_cons in Hkill, Hout. repeat setoid_rewrite calls_of_cons.
  assert (may_call x c) as Hmay.
  { destruct x as [|i|i|]; cbn; [| |done|].
    - intros pid sig ->. rewrite decide_True in Hkill by done. apply (Hkill pid sig r). left.
    - destruct (Hloop i) as [Hb Hl]. rewrite decide_True in Hl by done. by eapply loop_next.
    - intros pid sig ->. rewrite decide_True in Hout by done. apply (Hout pid sig r). left. }
  destruct (end_call_step pids x c r k k1 Hmay Hinv Hk1) as [Hstep Hbusy].
  pose proof (end_step_unasked _ _ _ Hstep Hinv) as Hinv1.
  destruct (IH (λ i, before i ++ if decide (x = TheWorker i) then [(c, r)] else []) k1 k') as (Hinv' & Hre & Hb' & Hw);
    [| | |done|done|].
  - intros i. destruct (Hloop i) as [Hb Hl]. destruct (decide (x = TheWorker i)) as [Hx|Hx].
    + rewrite fmap_app, Forall_app, <-app_assoc. split; [|done]. split; [done|]. constructor; [by eapply Hbusy|constructor].
    + by rewrite app_nil_r.
  - intros pid sig r' Hin. apply (Hkill pid sig r'). destruct (decide (x = TheMaster)); [by right|done].
  - intros pid sig r' Hin. apply (Hout pid sig r'). destruct (decide (x = Outside)); [by right|done].
  - split_and!; [done| | |].
    + intros i Hi. by eapply Hre, end_step_reaped.
    + intros i. destruct (decide (x = TheWorker i)) as [Hx|Hx]; [|apply Hb']. cbn. constructor; [by eapply Hbusy|apply Hb'].
    + intros i pid r' Hin Hi. destruct (decide (x = TheMaster)) as [Hx|Hx]; [|by eapply Hw].
      apply elem_of_cons in Hin as [Heq|Hin]; [|by eapply Hw]. simplify_eq. by eapply Hre, (waited pids i pid _ k).
Qed.

(** ** The clean-up of the master *)

(** The signals and the waits of a clean-up. *)
Lemma teardown_kills i slots xs pid sig :
  X_kill pid sig ∈ teardown_all i slots xs → sig = SIGTERM.
Proof.
  revert i xs. induction slots as [|[w|] slots IH]; intros i xs; cbn [teardown_all];
    [by intros ?%not_elem_of_nil| |apply IH].
  destruct xs as [|[f o] xs]; [by intros ?%not_elem_of_nil|]. rewrite elem_of_app. intros [Hin|Hin]; [|by eapply IH].
  revert Hin. unfold teardown, close_calls. repeat case_match; set_solver.
Qed.

Lemma teardown_waits i slots xs w :
  own_names slots xs → Some w ∈ slots → X_waitpid (Pid w) ∈ teardown_all i slots xs.
Proof.
  unfold own_names. revert i xs. induction slots as [|[w'|] slots IH]; intros i xs; cbn [teardown_all omap list_omap id];
    [by intros _ ?%not_elem_of_nil| |].
  - intros (x & xs' & _ & Hown & ->)%Forall2_cons_inv_l Hin. destruct x as [f o]. unfold teardown.
    apply elem_of_app. apply elem_of_cons in Hin as [[= ->]|Hin]; [left; set_solver|right; by apply IH].
  - intros Hown Hin. apply elem_of_cons in Hin as [|Hin]; [done|by apply IH].
Qed.

(** Each worker of [ws] runs in its event loop, and handles the one signal that
    [workerp_start] set a handler for. *)
Definition in_loops (ws : list tsWorkerStruct) (k : list kproc) : Prop :=
  Forall2 (λ w p, p = KProc (Pid w) {[SIGINT]} [] Alive) ws k.

Lemma end_calls_busy i evs k p :
  k !! i = Some p → k_life p = Alive → Forall stays_busy evs.*1 →
  end_calls ((λ e, (TheWorker i, e)) <$> evs) k = Some k.
Proof.
  intros Hp Hl Hevs. induction evs as [|[c r] evs IH]; [done|]. cbn in Hevs. apply Forall_cons in Hevs as [Hc Hevs].
  cbn. rewrite Hp. cbn. rewrite Hl. destruct c; try done; by apply IH.
Qed.

(** That is the signal of a worker that has started. *)
Lemma join_handles w path evs i pid k :
  join_events w path evs → k !! i = Some (KProc pid ∅ [] Alive) →
  end_calls ((λ e, (TheWorker i, e)) <$> evs) k = Some (<[i := KProc pid {[SIGINT]} [] Alive]> k).
Proof.
  intros (x1 & x2 & x3 & x4 & mid & x5 & x6 & x7 & (pre & y1 & y2 & y3 & y4 & Hpre & _ & _ & _ & _ & ->) & ->) Hk.
  rewrite !(assoc_L (++)), fmap_app, end_calls_app, (end_calls_busy i _ k _ Hk); [|done|].
  - cbn. rewrite Hk. cbn. rewrite Hk. cbn. rewrite list_lookup_insert_eq by (by eapply lookup_lt_Some). cbn. by rewrite (left_id_L ∅ (∪)).
  - cbn. rewrite fmap_app. do 4 (constructor; [done|]). apply Forall_app. split; [|by repeat constructor].
    apply Forall_fmap. eapply Forall_impl; [exact Hpre|]. by intros [c r] [= ->].
Qed.

Lemma in_loops_unasked ws k : NoDup (Pid <$> ws) → in_loops ws k → unasked_all (Pid <$> ws) k.
Proof.
  intros Hnd Hk. split; [done|]. clear Hnd. induction Hk as [|w p ws k -> _ [IH1 IH2]]; [by split|].
  split; cbn; [by rewrite IH1|]. constructor; [|done]. split_and!; cbn; [done|apply not_elem_of_nil|done].
Qed.

Section shutdown.
Context `{SL : SdsLib, SS : !SdsSpec SL, LA : LoggerAPI, E : Env, EV : EvLib}.
Implicit Types (s : machine).

(** C6: Ending together: while the master cleans up, in every interleaving of its calls
    with those its workers make in their event loops and with [SIGTERM] and [SIGKILL] sent
    from outside, as the kernel allows, every worker is ended by a signal it has no handler
    for, and reaped; no worker ever breaks its loop, so none runs the clean-up that follows
    it.  The master sends [SIGTERM], and a worker handles [SIGINT] only.  This is about
    workers to which nobody sends [SIGINT]: none is pending when the clean-up begins and none
    comes from outside.  The key that interrupts at a terminal sends it to the workers too,
    and those do break their loops ([interrupt_breaks_loop]). *)
Theorem shutdown_kills_workers (A : Type) v g cfg ws xs ys ps F s k0 :
  is_master g → owns g cfg xs ys → heap_is (xs ++ ys ++ ps) F (heap_of s) →
  psWorker (gWorkerAdmin (g_workers g)) = table_of ws → NoDup (Pid <$> ws) → in_loops ws k0 →
  exits (do_exit (A := A) v g) v (λ s', ∀ H k,
    end_calls H k0 = Some k → calls_of TheMaster H = calls_between s s' →
    (∀ i, loop_calls (calls_of (TheWorker i) H)) →
    (∀ pid sig r, (X_kill pid sig, r) ∈ calls_of Outside H → sig = SIGTERM ∨ sig = SIGKILL) →
    length k = length ws ∧ ∀ i p, k !! i = Some p →
      (∃ sig, k_life p = Reaped sig ∧ (sig = SIGTERM ∨ sig = SIGKILL)) ∧
      ∀ r, (X_ev_break, r) ∉ calls_of (TheWorker i) H) s.
Proof.
  intros Hm Hown Hheap Htab Hnd Hk0. pose proof (in_loops_unasked _ _ Hnd Hk0) as Hinv.
  destruct (do_exit_exits A v g cfg xs ys ps F s s) as (s' & Hrun & _ & (new & Ht & Hcs & _) & _);
    [done..|by apply did_refl|].
  exists s'. split; [done|]. intros H k Hk Hcalls Hloop Hout. rewrite (calls_between_app _ _ _ Ht) in Hcalls.
  assert (∀ c, teardown_call c = true → c ∈ new.*1 ↔
    c ∈ socket_close_calls (g_iFd g) ++ teardown_all 0 (table_of ws) xs) as Hnew.
  { intros c Hc. rewrite <-Htab, <-Hcs. unfold teardown_calls. rewrite list_elem_of_filter. naive_solver. }
  destruct (end_history (Pid <$> ws) H (λ _, []) k0 k) as ((_ & Hpids & Hall) & _ & Hbusy & Hwait).
  - intros i. split; [constructor|apply Hloop].
  - intros pid sig r Hin. rewrite Hcalls in Hin. destruct (Z.eqb_spec sig SIGKILL) as [->|Hne]; [by right|]. left.
    assert (X_kill pid sig ∈ new.*1) as Hin' by (apply list_elem_of_fmap; by exists (X_kill pid sig, r)).
    apply Hnew in Hin'; [|cbn; by apply negb_true_iff, Z.eqb_neq].
    apply elem_of_app in Hin' as [Hin'|Hin']; [|by eapply teardown_kills].
    unfold socket_close_calls in Hin'. case_match; set_solver.
  - exact Hout.
  - done.
  - done.
  - split; [by rewrite <-(length_fmap k_pid), Hpids, length_fmap|]. intros i p Hp. split.
    + assert ((Pid <$> ws) !! i = Some (k_pid p)) as Hpid by (by rewrite <-Hpids, list_lookup_fmap, Hp).
      assert (∃ w, ws !! i = Some w ∧ k_pid p = Pid w) as (w & Hw & Hpw).
      { rewrite list_lookup_fmap in Hpid. apply fmap_Some in Hpid as (w & ? & ?). by exists w. }
      assert (X_waitpid (Pid w) ∈ new.*1) as ([c r] & Hc & Hin)%list_elem_of_fmap.
      { apply Hnew; [done|]. apply elem_of_app. right. apply teardown_waits.
        - rewrite <-Htab. apply Hown.
        - unfold table_of. apply elem_of_app. left. apply list_elem_of_fmap. exists w. split; [done|].
          by eapply list_elem_of_lookup_2. }
      cbn in Hc. subst c. rewrite <-Hcalls in Hin. rewrite Hpw in Hpid.
      destruct (Hwait i _ _ Hin Hpid) as (p' & sig & Hp' & Hl). simplify_eq.
      eapply Forall_lookup_1 in Hall as (_ & _ & Hd); [|exact Hp]. rewrite Hl in Hd. by exists sig.
    + intros r Hin. specialize (Hbusy i). rewrite Forall_fmap, Forall_forall in Hbusy. exact (Hbusy _ Hin).
Qed.

End shutdown.

(** With [SIGINT] from outside a worker in its loop breaks it. *)
Example interrupt_breaks_loop :
  end_calls [(Outside, (X_kill 7 SIGINT, ExtRet 0 0 0 [])); (TheWorker 0, (X_ev_break, ExtRet 0 0 0 []))]
    [KProc 7 {[SIGINT]} [] Alive] = Some [KProc 7 {[SIGINT]} [SIGINT] Alive].
Proof. vm_compute. reflexivity. Qed.
