(* ===== verification/Main.v ===== *)
(** * The program: [src/src/cew_main.c]

    [main] from its arguments to the end of the process: the settings, the logger, the
    optional turning into a daemon, the workers, the socket, and the event loop of the
    master over arriving clients and the signals that end it. *)

From S2P Require Import Prelude CString Machine SdsModel Settings Http Worker Socket Exit Client WorkerProc.
Local Open Scope Z_scope.

(** What the event loop of the master can report. *)
Inductive mevent : Type :=
  | Mv_client    (** a client is waiting on the listening socket *)
  | Mv_signal.   (** SIGINT or SIGTERM *)

#[global] Instance mevent_eq_dec : EqDecision mevent.
Proof. solve_decision. Defined.

Definition SETTINGS_FILE : bytes := lit "/work/test/ini/valid_settings.ini".
Definition RET_OK : Z := 0.
Definition SOCKET_FAIL : Z := -2.
Definition RLIM_INFINITY : Z := 2 ^ 64 - 1.

(** The test of the arguments: more than one, and the first (the name of the program)
    different from [-d]. *)
Definition bDeamonize (argv : list bytes) : bool :=
  (1 <? Z.of_nat (length argv)) && negb (strcmp (default [] (head argv)) (lit "-d") =? 0).

(** [(int16_t) lPort] passed as a [uint16_t]. *)
Definition port_argument (lPort : Z) : Z := u16 (i16 lPort).

Section main.
Context `{SL : SdsLib, LA : LoggerAPI, E : Env, EV : EvLib, LI : LibIni}.
Context (stack : bytes).

Fixpoint close_all (n : nat) (i : Z) : M unit :=
  match n with
  | O => mret tt
  | S n' => _ ← ext (X_close i); close_all n' (i + 1)
  end.

(** [fork] of the daemon: the parent leaves, the child goes on; [Some] is an error. *)
Definition fork_child : M (option Z) :=
  pid ← ext X_fork;
  if x_ret pid <? 0 then mret (Some (x_errno pid))
  else if negb (x_ret pid =? 0) then st_exit EXIT_SUCCESS
  else _ ← logger_in_child; mret None.

Definition daemonize (g : globals) : M Z :=
  _ ← ext X_umask;
  lim ← ext X_getrlimit;
  _ ← (if x_ret lim <? 0 then
         _ ← log_error "Can't get file limit. Line %d." [];
         do_exit 1 g
       else mret tt);
  e ← fork_child;
  match e with
  | Some err => mret err
  | None =>
    _ ← ext X_setsid;
    r ← ext X_sigaction;
    if x_ret r <? 0 then mret (x_errno r) else
    e ← fork_child;
    match e with
    | Some err => mret err
    | None =>
      r ← ext (X_chdir (lit "/"));
      if x_ret r <? 0 then mret (x_errno r) else
      let rlim_max := if x_out lim =? RLIM_INFINITY then 1024 else x_out lim in
      _ ← close_all (Z.to_nat rlim_max) 0;
      fd0 ← ext (X_open (lit "/dev/null"));
      fd1 ← ext (X_dup 0);
      fd2 ← ext (X_dup 0);
      if negb (x_ret fd0 =? 0) || negb (x_ret fd1 =? 1) || negb (x_ret fd2 =? 2) then
        _ ← log_error "Error setting up file descriptors." [];
        do_exit 1 g
      else mret RET_OK
    end
  end.

(** The product is a [long]; [srand] takes it as an [unsigned int].  Of the two numbers
    that [gettimeofday] stores, the answer to the call has the seconds as [x_ret] and the
    microseconds as [x_out]. *)
Definition seed_random : M unit :=
  t ← ext X_gettimeofday;
  me ← ext X_getpid;
  let p1 := x_out t * x_ret t in
  let p2 := p1 * x_ret me in
  if negb ((LONG_MIN <=? p1) && (p1 <=? LONG_MAX) && (LONG_MIN <=? p2) && (p2 <=? LONG_MAX))
  then st_undef SignedOverflow
  else _ ← ext (X_srand (u32 p2)); mret tt.

(** [ev_run] of the master: every waiting client is accepted, until a signal. *)
Fixpoint master_run (evs : list mevent) (g : globals) : M globals :=
  match evs with
  | [] => st_nofuel
  | Mv_client :: evs' =>
      ws ← socket_accept_client stack (g_iFd g) (g_workers g);
      master_run evs' (Globals (g_iFd g) ws (g_settings g))
  | Mv_signal :: _ => _ ← ext X_ev_break; mret g
  end.

Definition waiting_text (lPort : Z) : bytes :=
  lit "Waiting for connections on port " ++ dec lPort ++ lit "..." ++ ["010"%char].
Definition daemon_text (lPort : Z) : bytes :=
  lit "Demonizing, listening on port " ++ dec lPort ++ ["010"%char].

(** From the start of the workers on. *)
Definition serve (fuel : nat) (wevs : list wevent) (evs : list mevent) (daemon : bool)
    (g : globals) : M unit :=
  let sCurrSettings := settings_get (g_settings g) in
  '(iRet, g) ← worker_init stack fuel wevs 4 g;
  if negb (iRet =? WORKER_EXIT_SUCCESS) then do_exit_with_errno iRet g else
  '(iRet, iFd, gFd) ← socket_setup (port_argument (lPort sCurrSettings)) 0 (g_iFd g);
  let g := Globals gFd (g_workers g) (g_settings g) in
  if negb (iRet =? SOCK_EXIT_SUCCESS) then
    e ← ext (X_strerror iRet);
    _ ← log_error "Exit with %d: %s. Line %d.
" [AInt iRet; AStr (region (x_data e))];
    do_exit SOCKET_FAIL g
  else
  _ ← (if daemon then mret tt
       else _ ← ext (X_printf (waiting_text (lPort sCurrSettings))); mret tt);
  _ ← ext X_ev_default_loop;
  _ ← ext (X_ev_signal_start SIGINT);
  _ ← ext (X_ev_signal_start SIGTERM);
  _ ← ext (X_ev_io_start iFd);
  g ← master_run evs g;
  do_exit EXIT_SUCCESS g.

(** [wevs] and [evs] are what the event loops of the workers and of the master report. *)
Definition main (fuel : nat) (wevs : list wevent) (evs : list mevent) (argv : list bytes) : M unit :=
  let g := globals_zero in
  _ ← seed_random;
  iRet ← settings_init;
  if negb (iRet =? 0) then do_exit_with_errno iRet g else
  '(iRet, st) ← settings_load fuel SETTINGS_FILE (g_settings g);
  let g := Globals (g_iFd g) (g_workers g) st in
  if negb (iRet =? 0) then do_exit_with_errno iRet g else
  name ← logfile_name (settings_get st);
  iRet ← logger_init name (lLogLevel st);
  if negb (iRet =? 0) then do_exit_with_errno iRet g else
  _ ← log_error "----- STARTING -------" [];
  _ ← settings_to_log st;
  iRet ← (if bDeamonize argv then
            _ ← ext (X_printf (daemon_text (lPort st)));
            daemonize g
          else mret 0);
  if negb (iRet =? 0) then do_exit_with_errno iRet g else
  serve fuel wevs evs (bDeamonize argv) g.

End main.

(** ** Theorems *)

Lemma port_argument_mod p : port_argument p = p mod 2 ^ 16.
Proof. unfold port_argument, u16, i16. by rewrite uwrap_swrap by lia. Qed.

(** C36: The configured port survives its two conversions and its printing: between 0 and
    65535 the resolver gets its decimal text; any other value is taken modulo 65536. *)
Theorem port_reaches_resolver p :
  port_text (port_argument p) = dec (p mod 2 ^ 16) ∧
  (0 ≤ p < 2 ^ 16 → port_text (port_argument p) = dec p).
Proof.
  rewrite port_argument_mod.
  pose proof (Z.mod_pos_bound p (2 ^ 16) ltac:(lia)) as Hb.
  rewrite port_text_dec by done. split; [done|]. intros Hp. by rewrite Z.mod_small.
Qed.

(** What turns the server into a daemon: any argument at all.  The option [-d] is
    compared with the name of the program and not with the argument, so it is neither
    needed nor looked for; only a program named [-d] stays in the foreground. *)
Theorem any_argument_daemonizes prog args :
  NUL ∉ prog →
  bDeamonize (prog :: args) = true ↔ args ≠ [] ∧ prog ≠ lit "-d".
Proof.
  intros Hn. unfold bDeamonize. change (default [] (head (prog :: args))) with prog.
  rewrite andb_true_iff, negb_true_iff, Z.ltb_lt, Z.eqb_neq.
  rewrite strcmp_zero. rewrite (cprefix_id prog Hn).
  change (cprefix (lit "-d")) with (lit "-d").
  split; intros [H1 H2]; (split; [|done]).
  - intros ->. simpl in H1. lia.
  - destruct args; [done|]. simpl. lia.
Qed.

(** ** Becoming a daemon *)

Section daemon.
Context `{SL : SdsLib, SS : !SdsSpec SL, LA : LoggerAPI, E : Env, EV : EvLib, LI : LibIni}.

Lemma close_all_wp n : ∀ i s,
  wp (close_all n i) (λ _ s', heap_of s' = heap_of s ∧ ∃ new, m_trace s' = m_trace s ++ new ∧
    fds_closed new = seqZ i (Z.of_nat n) ∧ fds_opened new = [] ∧ fork_calls new = O ∧ sends new = []) s.
Proof.
  induction n as [|n IH]; intros i s; cbn [close_all].
  - apply wp_ret. split; [done|]. exists []. by rewrite app_nil_r.
  - apply wp_bind, wp_ext. intros r s1 _ Hh1 _ Ht1. eapply wp_mono; [apply IH|].
    intros _ s2 (Hh2 & new & Ht2 & Hc & Ho & Hf & Hs). split; [congruence|].
    exists ((X_close i, r) :: new). split_and!.
    + by rewrite Ht2, Ht1, <-app_assoc.
    + change (fds_closed ((X_close i, r) :: new)) with (i :: fds_closed new).
      rewrite (seqZ_cons i) by lia. rewrite Hc. f_equal. f_equal; lia.
    + exact Ho.
    + exact Hf.
    + exact Hs.
Qed.

Lemma fds_closed_app tr tr' : fds_closed (tr ++ tr') = fds_closed tr ++ fds_closed tr'.
Proof. apply omap_app. Qed.
Lemma fds_opened_app tr tr' : fds_opened (tr ++ tr') = fds_opened tr ++ fds_opened tr'.
Proof. apply omap_app. Qed.

Lemma fork_child_wp n s :
  (∀ tr, (fork_calls tr < n)%nat → x_ret (env tr X_fork) = 0) → (fork_calls (m_trace s) < n)%nat →
  wp fork_child (λ r s', r = None ∧ heap_of s' = heap_of s ∧
    ∃ x, m_trace s' = m_trace s ++ [(X_fork, x)]) s.
Proof.
  intros Hf Hn. apply wp_bind, wp_ext. intros r s1 Hr Hh1 _ Ht1.
  assert (x_ret r = 0) as -> by (rewrite Hr; by apply Hf). cbn [Z.ltb Z.compare Z.eqb negb].
  apply wp_bind, wp_upd_log. intros _ s2 Hh2 Ht2. apply wp_ret.
  split_and!; [done|congruence|exists r; congruence].
Qed.

(** The number of descriptors that are closed. *)
Definition closed_count (rlim_max : Z) : Z := if rlim_max =? RLIM_INFINITY then 1024 else rlim_max.

(** The process is the child of its first [children] forks, and the other calls of
    [daemonize] succeed. *)
Record becomes_daemon (children : nat) : Prop := {
  bd_limit tr : 0 ≤ x_ret (env tr X_getrlimit) ∧ 0 ≤ x_out (env tr X_getrlimit);
  bd_fork tr : (fork_calls tr < children)%nat → x_ret (env tr X_fork) = 0;
  bd_sigaction tr : 0 ≤ x_ret (env tr X_sigaction);
  bd_chdir tr p : 0 ≤ x_ret (env tr (X_chdir p));
  bd_open tr : x_ret (env tr (X_open (lit "/dev/null"))) = 0;
  bd_dup tr r : x_ret (env (tr ++ [(X_open (lit "/dev/null"), r)]) (X_dup 0)) = 1;
  bd_dup2 tr r : x_ret (env (tr ++ [(X_dup 0, r)]) (X_dup 0)) = 2;
}.

Lemma daemonize_wp children g s :
  becomes_daemon children → (fork_calls (m_trace s) + 2 ≤ children)%nat →
  wp (daemonize g) (λ z s', z = RET_OK ∧ heap_of s' = heap_of s ∧ ∃ new lim,
    m_trace s' = m_trace s ++ new ∧ fork_calls new = 2%nat ∧ sends new = [] ∧
    fds_closed new = seqZ 0 (closed_count lim) ∧ fds_opened new = [0; 1; 2]) s.
Proof.
  intros [] Hn. unfold daemonize.
  apply wp_bind, wp_ext. intros r1 s1 _ Hh1 _ Ht1. apply wp_bind, wp_ext. intros lim s2 Hr2 Hh2 _ Ht2.
  destruct (bd_limit0 (m_trace s1)) as [Hlim Hmax]. rewrite <-Hr2 in Hlim, Hmax.
  rewrite (proj2 (Z.ltb_ge (x_ret lim) 0)) by done. apply wp_bind, wp_ret.
  apply wp_bind. eapply wp_mono; [apply (fork_child_wp children); [done|]|].
  { rewrite Ht2, Ht1, !fork_calls_app. cbn. lia. }
  intros ? s3 (-> & Hh3 & r3 & Ht3).
  apply wp_bind, wp_ext. intros r4 s4 _ Hh4 _ Ht4. apply wp_bind, wp_ext. intros r5 s5 -> Hh5 _ Ht5.
  rewrite (proj2 (Z.ltb_ge _ _) (bd_sigaction0 _)).
  apply wp_bind. eapply wp_mono; [apply (fork_child_wp children); [done|]|].
  { rewrite Ht5, Ht4, Ht3, Ht2, Ht1, !fork_calls_app. cbn. lia. }
  intros ? s6 (-> & Hh6 & r6 & Ht6).
  apply wp_bind, wp_ext. intros r7 s7 -> Hh7 _ Ht7. rewrite (proj2 (Z.ltb_ge _ _) (bd_chdir0 _ _)).
  apply wp_bind. eapply wp_mono; [apply close_all_wp|]. intros _ s8 (Hh8 & new & Ht8 & Hc & Ho & Hf & Hs).
  apply wp_bind, wp_ext. intros fd0 s9 Hr9 Hh9 _ Ht9. apply wp_bind, wp_ext. intros fd1 s10 Hr10 Hh10 _ Ht10.
  apply wp_bind, wp_ext. intros fd2 s11 Hr11 Hh11 _ Ht11.
  assert (x_ret fd0 = 0) as H0 by (rewrite Hr9; apply bd_open0).
  assert (x_ret fd1 = 1) as H1 by (rewrite Hr10, Ht9; apply bd_dup0).
  assert (x_ret fd2 = 2) as H2 by (rewrite Hr11, Ht10; apply bd_dup3).
  rewrite H0, H1, H2. cbn [Z.eqb Pos.eqb negb orb]. apply wp_ret. split_and!; [done|congruence|].
  eexists _, (x_out lim). rewrite Ht11, Ht10, Ht9, Ht8, Ht7, Ht6, Ht5, Ht4, Ht3, Ht2, Ht1, <-!app_assoc.
  split; [done|]. rewrite !fds_closed_app, !fds_opened_app, !fork_calls_app, !sends_app, Hc, Ho, Hf, Hs.
  unfold fds_closed, fds_opened, fork_calls, sends. cbn. rewrite H0, H1, H2, ?app_nil_r. cbn.
  split_and!; [done|done| |done]. unfold closed_count.
  destruct (x_out lim =? RLIM_INFINITY); f_equal; lia.
Qed.

(** Becoming a daemon: in each of its two forks the parent leaves with status 0 at
    once, without any clean-up.  The grandchild, when its calls succeed, closes every
    descriptor from 0 up to the limit (1024 where there is none), ends up with 0, 1 and 2
    on the null device, and returns success. *)
Theorem daemonize_correct g s :
  (∀ tr, 0 ≤ x_ret (env tr X_getrlimit)) → (∀ tr, 0 ≤ x_out (env tr X_getrlimit)) →
  ((∀ tr, 0 < x_ret (env tr X_fork)) → exits (daemonize g) EXIT_SUCCESS
     (λ s', heap_of s' = heap_of s ∧ fds_closed (m_trace s') = fds_closed (m_trace s)) s) ∧
  ((∀ tr, x_ret (env tr X_fork) = 0) → (∀ tr, 0 ≤ x_ret (env tr X_sigaction)) →
   (∀ tr p, 0 ≤ x_ret (env tr (X_chdir p))) → (∀ tr p, x_ret (env tr (X_open p)) = 0) →
   (∀ tr p r, x_ret (env (tr ++ [(X_open p, r)]) (X_dup 0)) = 1) →
   (∀ tr r, x_ret (env (tr ++ [(X_dup 0, r)]) (X_dup 0)) = 2) →
   wp (daemonize g) (λ z s', z = RET_OK ∧ heap_of s' = heap_of s ∧ ∃ lim,
     fds_closed (m_trace s') = fds_closed (m_trace s) ++ seqZ 0 (closed_count lim) ∧
     fds_opened (m_trace s') = fds_opened (m_trace s) ++ [0; 1; 2]) s).
Proof.
  intros Hlim Hmax. split.
  - intros Hfork. unfold daemonize. apply exits_bind, wp_ext. intros r1 s1 _ Hh1 _ Ht1.
    apply exits_bind, wp_ext. intros r2 s2 -> Hh2 _ Ht2. rewrite (proj2 (Z.ltb_ge _ _) (Hlim _)).
    apply exits_bind, wp_ret. apply exits_bind_l. unfold fork_child.
    apply exits_bind, wp_ext. intros r3 s3 Hr3 Hh3 _ Ht3. pose proof (Hfork (m_trace s2)) as Hf.
    rewrite <-Hr3 in Hf. rewrite (proj2 (Z.ltb_ge _ _)), (proj2 (Z.eqb_neq _ _)) by lia.
    apply exits_exit. split; [congruence|]. unfold fds_closed.
    rewrite Ht3, Ht2, Ht1, !omap_app. cbn. by rewrite !app_nil_r.
  - intros Hfork Hsig Hdir Hopen Hdup1 Hdup2.
    eapply wp_mono; [apply (daemonize_wp (fork_calls (m_trace s) + 2)); [|done]|].
    { split; auto. }
    intros z s' (-> & Hh & new & lim & -> & _ & _ & Hc & Ho). split_and!; [done|done|]. exists lim.
    by rewrite fds_closed_app, fds_opened_app, Hc, Ho.
Qed.

End daemon.

(** ** A whole run of the master *)

(** The network calls succeed; the listening socket is not descriptor 0. *)
Record listens `{Env} : Prop := {
  ls_resolve tr p : x_ret (env tr (X_getaddrinfo p)) = 0;
  ls_socket tr : 0 < x_ret (env tr X_socket);
  ls_option tr fd : x_ret (env tr (X_setsockopt fd)) ≠ -1;
  ls_bind tr fd : 0 ≤ x_ret (env tr (X_bind fd));
  ls_listen tr fd n : 0 ≤ x_ret (env tr (X_listen fd n));
  ls_nonblock tr fd : x_ret (env tr (X_set_nonblock fd)) ≠ -1;
}.

(** Whether the seed is computed without overflow, after the calls [tr]. *)
Definition seed_fits `{Env} (tr : list event) : bool :=
  let t := env tr X_gettimeofday in
  let me := env (tr ++ [(X_gettimeofday, t)]) X_getpid in
  let p1 := x_out t * x_ret t in
  let p2 := p1 * x_ret me in
  (LONG_MIN <=? p1) && (p1 <=? LONG_MAX) && (LONG_MIN <=? p2) && (p2 <=? LONG_MAX).

Section run.
Context `{SL : SdsLib, SS : !SdsSpec SL, LA : LoggerAPI, LS : !LoggerSpec LA, E : Env, EV : EvLib,
  LI : LibIni}.
Context (stack : bytes) (fuel : nat) (wevs : list wevent) (children : nat).
Hypothesis workers_start : starts children.
Hypothesis socket_listens : listens.
Implicit Types (s : machine) (ps xs ys : list (sds * sds_obj)).

Lemma seed_wp s :
  seed_fits (m_trace s) = true → wp seed_random (λ _ s', heap_of s' = heap_of s ∧ ∃ t me z r,
    m_trace s' = m_trace s ++ [(X_gettimeofday, t); (X_getpid, me); (X_srand z, r)]) s.
Proof.
  unfold seed_fits, seed_random. intros Hfit. apply wp_bind, wp_ext. intros t s1 -> Hh1 _ Ht1.
  apply wp_bind, wp_ext. intros me s2 -> Hh2 _ Ht2. rewrite Ht1, Hfit. cbn [negb].
  apply wp_bind, wp_ext. intros r s3 _ Hh3 _ Ht3. apply wp_ret. split; [congruence|].
  eexists _, _, _, _. by rewrite Ht3, Ht2, Ht1, <-!app_assoc.
Qed.

(** Otherwise the program is undefined from its first step. *)
Lemma seed_fails s :
  seed_fits (m_trace s) = false → fails seed_random SignedOverflow s.
Proof.
  unfold seed_fits, seed_random. intros Hfit. apply fails_bind, wp_ext. intros t s1 -> _ _ Ht1.
  apply fails_bind, wp_ext. intros me s2 -> _ _ _. rewrite Ht1, Hfit. by eexists.
Qed.

Lemma socket_ready_wp iPort iRetFd iFd s :
  wp (socket_setup iPort iRetFd iFd) (λ r s', heap_of s' = heap_of s ∧ ∃ fd new, 0 < fd ∧
    r = (SOCK_EXIT_SUCCESS, fd, fd) ∧ m_trace s' = m_trace s ++ new ∧
    new.*1 = setup_calls iPort fd) s.
Proof.
  pose proof socket_listens as []. unfold socket_setup.
  apply wp_bind, wp_ext. intros r1 s1 -> Hh1 _ Ht1. rewrite ls_resolve0. cbn [Z.eqb negb].
  apply wp_bind, wp_ext. intros r2 s2 Hr2 Hh2 _ Ht2.
  assert (0 < x_ret r2) by (rewrite Hr2; apply ls_socket0).
  rewrite (proj2 (Z.ltb_ge (x_ret r2) 0)) by lia.
  apply wp_bind, wp_ext. intros r3 s3 -> Hh3 _ Ht3. rewrite (proj2 (Z.eqb_neq _ _) (ls_option0 _ _)).
  apply wp_bind, wp_ext. intros r4 s4 -> Hh4 _ Ht4. rewrite (proj2 (Z.ltb_ge _ _) (ls_bind0 _ _)).
  apply wp_bind, wp_ext. intros r5 s5 _ Hh5 _ Ht5.
  apply wp_bind, wp_ext. intros r6 s6 -> Hh6 _ Ht6. rewrite (proj2 (Z.ltb_ge _ _) (ls_listen0 _ _ _)).
  apply wp_bind, wp_ext. intros r7 s7 -> Hh7 _ Ht7. rewrite (proj2 (Z.eqb_neq _ _) (ls_nonblock0 _ _)).
  apply wp_bind; log_step. intros _ s8 Hh8 Ht8. apply wp_ret. split; [congruence|].
  eexists (x_ret r2), _. split; [done|]. split; [done|].
  rewrite Ht8, Ht7, Ht6, Ht5, Ht4, Ht3, Ht2, Ht1, <-!app_assoc. done.
Qed.

(** The clients numbered from [j] on, to the workers in turn. *)
Definition dealt (ws : list tsWorkerStruct) (j : nat) (fds : list Z) : list (Z * bytes) :=
  imap (λ i fd, (from_option iMasterIPCfd 0 (ws !! ((j + i) mod length ws)%nat),
                 fd_message stack fd)) fds.

Lemma master_run_wp ws k : ∀ g (j : nat) s,
  staffed ws (gWorkerAdmin (g_workers g)) → ws ≠ [] →
  u32 (NextWorker (g_workers g) + 1) mod Z.of_nat (length ws) = Z.of_nat j mod Z.of_nat (length ws) →
  wp (master_run stack (replicate k Mv_client ++ [Mv_signal]) g) (λ g' s',
    heap_of s' = heap_of s ∧ (∃ n, g' = Globals (g_iFd g) (set_next n (g_workers g)) (g_settings g)) ∧
    m_trace s `prefix_of` m_trace s' ∧ ∃ fds, length fds = k ∧ sends (m_trace s') = sends (m_trace s) ++ dealt ws j fds) s.
Proof.
  induction k as [|k IH]; intros g j s Hst Hne Hj; cbn [replicate app master_run].
  - apply wp_bind, wp_ext. intros r s1 _ Hh1 _ Ht1. apply wp_ret. split_and!; [done| | |].
    + exists (NextWorker (g_workers g)). by destruct g as [? [] ?].
    + rewrite Ht1. by apply prefix_app_r.
    + exists []. rewrite Ht1, sends_app. cbn. by rewrite !app_nil_r.
  - pose proof Hst as (_ & Hmax & _). unfold WORKER_MAX_WORKERS in Hmax.
    assert (0 < Z.of_nat (length ws)) as Hpos by (destruct ws; simpl in *; [done|lia]).
    pose proof (Z.mod_pos_bound (Z.of_nat j) _ Hpos) as Hb.
    destruct (accept_wp stack ws (g_workers g) (Z.of_nat j) (g_iFd g) s) as (w & Hw & Hwp);
      [done|done|lia|done|apply workers_start|].
    apply wp_bind. eapply wp_mono; [exact Hwp|]. intros gw s1 (-> & Hh1 & r & x & Hr & Ht1).
    eapply wp_mono; [apply (IH _ (S j)); [done|done|]|].
    + cbn [g_workers set_next NextWorker]. unfold u32. rewrite uwrap_small by lia.
      rewrite Zplus_mod_idemp_l. f_equal. lia.
    + intros g' s2 (Hh2 & (n & ->) & Hpre & fds & Hl & Hs2). split_and!; [congruence|by exists n| |].
      { etrans; [|exact Hpre]. rewrite Ht1. by apply prefix_app_r. }
      exists (x_ret r :: fds). split; [cbn; congruence|].
      rewrite Hs2, Ht1, sends_app, <-app_assoc. f_equal. cbn. rewrite Nat.add_0_r.
      assert (ws !! (j mod length ws)%nat = Some w) as ->.
      { rewrite <-Hw. f_equal. rewrite Z2Nat.inj_mod by lia. by rewrite !Nat2Z.id. }
      cbn. rewrite Hr. f_equal. apply imap_ext. intros i y _. cbn. do 3 f_equal. f_equal. lia.
Qed.

(** The part of [main] after the settings and the logger. *)
Lemma serve_exits k daemon cfg g ys F s :
  represents (g_settings g) cfg ys → heap_is ys F (heap_of s) →
  NextWorker (g_workers g) = NextWorker worker_zero → (children ≤ fork_calls (m_trace s))%nat →
  exits (serve stack fuel wevs (replicate k Mv_client ++ [Mv_signal]) daemon g) EXIT_SUCCESS
    (λ s', heap_of s' = F ∧ ∃ ws xs fds fd, length ws = 4%nat ∧ length fds = k ∧
      sends (m_trace s') = sends (m_trace s) ++ dealt ws 0 fds ∧
      (X_close fd :: teardown_all 0 (table_of ws) xs) `suffix_of` teardown_calls (m_trace s') ∧
      setup_calls (port_argument (lPort (g_settings g))) fd `sublist_of` (m_trace s').*1) s.
Proof.
  intros Hrep Hheap Hnext Hch. unfold serve. apply exits_bind.
  eapply wp_mono; [apply (worker_init_wp stack fuel wevs children 4 g ys F); [done|done|unfold WORKER_MAX_WORKERS; lia|done]|].
  intros [z g1] s1 (Hz & ws & xs & Hl & Hup & Hst & Hnames & Hma & Hheap1 & Hn1 & _ & Hset1 & new1 & Ht1 & Hall).
  assert (sends (m_trace s1) = sends (m_trace s)) as Hs1
    by (by rewrite Ht1, sends_app, (all_started_sends _ _ _ Hall), app_nil_r).
  cbn [fst snd] in *. subst z. cbn [WORKER_EXIT_SUCCESS EXIT_SUCCESS Z.eqb negb].
  apply exits_bind. eapply wp_mono; [apply socket_ready_wp|].
  intros ? s2 (Hh2 & fd & new & Hfd & -> & Ht2 & Hnew). cbn [SOCK_EXIT_SUCCESS Z.eqb negb].
  apply exits_bind. eapply (wp_mono _ (λ _ s', heap_of s' = heap_of s2 ∧
    ∃ n', m_trace s' = m_trace s2 ++ n' ∧ sends n' = [])).
  { destruct daemon; [apply wp_ret; split; [done|]; exists []; by rewrite app_nil_r|].
    apply wp_bind, wp_ext. intros r s3 _ Hh3 _ Ht3. apply wp_ret. split; [done|by eexists]. }
  intros _ s3 (Hh3 & n3 & Ht3 & Hn3). apply exits_bind, wp_ext. intros r4 s4 _ Hh4 _ Ht4.
  apply exits_bind, wp_ext. intros r5 s5 _ Hh5 _ Ht5. apply exits_bind, wp_ext. intros r6 s6 _ Hh6 _ Ht6.
  apply exits_bind, wp_ext. intros r7 s7 _ Hh7 _ Ht7. apply exits_bind.
  assert (sends new = []) as Hsn by (unfold sends; by rewrite Hnew).
  assert (sends (m_trace s7) = sends (m_trace s)) as Hs7.
  { rewrite Ht7, Ht6, Ht5, Ht4, Ht3, Ht2, !sends_app, Hs1, Hsn, Hn3. cbn. by rewrite !app_nil_r. }
  eapply wp_mono; [apply (master_run_wp ws k _ 0 s7)|].
  { exact Hst. }
  { by intros ->. }
  { cbn [g_workers]. rewrite Hn1, Hnext. done. }
  intros g8 s8 (Hh8 & (n & ->) & Hpre & fds & Hlf & Hs8). cbn [g_iFd g_workers g_settings].
  set (g8 := Globals fd _ _).
  assert (gWorkerAdmin (g_workers g8) = WorkerAdmin (Z.of_nat (length ws)) (table_of ws)) as Hadm
    by (by destruct Hup as [? _]).
  eapply exits_mono; [eapply (do_exit_exits unit EXIT_SUCCESS g8 cfg xs ys [] F s8 s8)|].
  - exact Hma.
  - split; [exact Hnames|]. cbn. by rewrite Hset1.
  - rewrite Hh8, Hh7, Hh6, Hh5, Hh4, Hh3, Hh2, app_nil_r. exact Hheap1.
  - done.
  - by apply did_refl.
  - intros s9 (Hheap9 & (n9 & Ht9 & Hcs & Hs9) & _). split; [exact Hheap9|].
    exists ws, xs, fds, fd. split_and!; [lia|done| | |].
    + by rewrite Ht9, sends_app, Hs9, app_nil_r, Hs8, Hs7.
    + rewrite Ht9, teardown_app, Hcs, Hadm. cbn. unfold socket_close_calls.
      rewrite (proj2 (Z.ltb_lt _ _) Hfd). by eexists.
    + destruct Hpre as [n8 Hn8]. rewrite Ht9, Hn8, Ht7, Ht6, Ht5, Ht4, Ht3, Ht2, <-!app_assoc, !fmap_app.
      rewrite Hnew. apply sublist_inserts_l, sublist_inserts_r. done.
Qed.

Lemma logger_init_starts name lvl s :
  log_stopped (m_log s) → log_can_open name = true →
  wp (logger_init name lvl) (λ z s', z = 0 ∧ heap_of s' = heap_of s ∧ m_trace s' = m_trace s) s.
Proof.
  intros Hs Hn. unfold logger_init, upd_log, wp. pose proof (stopped_init name lvl _ Hs) as H0.
  rewrite Hn in H0. destruct (api_logger_init _ _ _) as [z l]. cbn in H0. by subst z.
Qed.

(** The forks of [daemonize]. *)
Definition daemon_forks (argv : list bytes) : nat := if bDeamonize argv then 2 else 0.

Lemma background_wp argv g s :
  children = (fork_calls (m_trace s) + daemon_forks argv)%nat →
  (bDeamonize argv = true → becomes_daemon children) →
  wp (if bDeamonize argv then
        _ ← ext (X_printf (daemon_text (lPort (g_settings g))));
        daemonize g
      else mret 0) (λ z s', z = 0 ∧ heap_of s' = heap_of s ∧
    ∃ new, m_trace s' = m_trace s ++ new ∧ sends new = [] ∧ fork_calls new = daemon_forks argv) s.
Proof.
  unfold daemon_forks. intros Hch Hd. destruct (bDeamonize argv).
  - apply wp_bind, wp_ext. intros r s1 _ Hh1 _ Ht1.
    eapply wp_mono; [apply (daemonize_wp children); [by apply Hd|rewrite Ht1, fork_calls_app; cbn; lia]|].
    intros z s2 (-> & Hh2 & new & lim & Ht2 & Hf & Hs & _). split_and!; [done|congruence|].
    eexists. rewrite Ht2, Ht1, <-app_assoc. split_and!; [done| |].
    + rewrite sends_app, Hs. done.
    + rewrite fork_calls_app, Hf. done.
  - apply wp_ret. split_and!; [done|done|]. exists []. by rewrite app_nil_r.
Qed.


End run.

(** The seed of the random numbers overflows: the product of the microseconds, the
    seconds and the process number exceeds a [long] already at moderate values, and a
    signed overflow is undefined. *)
Theorem seed_overflows `{SdsLib, LoggerAPI, Env} s :
  (∀ tr, 10 ^ 9 ≤ x_ret (env tr X_gettimeofday) ∧ 10 ^ 5 ≤ x_out (env tr X_gettimeofday)) →
  (∀ tr, 10 ^ 5 ≤ x_ret (env tr X_getpid)) →
  fails seed_random SignedOverflow s.
Proof.
  intros Ht Hp. unfold seed_random. apply fails_bind, wp_ext. intros t s1 Hr _ _ _.
  apply fails_bind, wp_ext. intros me s2 Hme _ _ _.
  destruct (Ht (m_trace s)) as [Hsec Husec]. rewrite <-Hr in *.
  pose proof (Hp (m_trace s1)) as Hpid. rewrite <-Hme in *.
  assert (10 ^ 19 ≤ x_out t * x_ret t * x_ret me) as Hbig by nia.
  rewrite (proj2 (Z.leb_gt (x_out t * x_ret t * x_ret me) _)) by (unfold LONG_MAX; lia).
  rewrite andb_false_r. by eexists.
Qed.
