(* ===== verification/Errors.v ===== *)
(** * The program when calls fail

    [main], in the foreground and as a daemon, with every system call free to fail: which
    status the process ends with, and what is left behind.  Everything here is about the
    master: the parent of the forks that make the workers. *)

From S2P Require Import Prelude CString Machine SdsModel Settings Http Worker Socket Exit Client WorkerProc Main.
Local Open Scope Z_scope.

(** The process is not the child of a fork, except perhaps of the first [children];
    [random] is in its range, and the calls of [daemonize] set [errno] when they fail; every
    call may fail otherwise. *)
Record parent `{Env} (children : nat) : Prop := {
  pa_random tr : 0 ≤ x_ret (env tr X_random) < 2 ^ 31;
  pa_fork tr : (children ≤ fork_calls tr)%nat →
    0 < x_ret (env tr X_fork) ∨ x_ret (env tr X_fork) = -1;
  pa_errno tr c : c = X_fork ∨ c = X_sigaction ∨ c = X_chdir (lit "/") →
    x_ret (env tr c) < 0 → x_errno (env tr c) ≠ 0;
}.

(** The way [worker_create_ipc_socket] ends the process itself, without any clean-up, when
    the worker's connection cannot be accepted. *)
Definition refused `{SdsLib, LoggerAPI} (z : Z) (s' : machine) : Prop :=
  z = EXIT_FAILURE ∧ ∃ fd r, last (m_trace s') = Some (X_accept fd, r) ∧ x_ret r = -1.

(** A call of [worker_init] that failed. *)
Definition start_failed (e : event) : Prop :=
  match e.1 with
  | X_malloc => x_ret e.2 = 0
  | X_fork | X_unix_socket | X_mkdir _ | X_bind_unix _ _ | X_chmod _ | X_listen _ _ => x_ret e.2 = -1
  | _ => False
  end.

(** A call of [socket_setup] that failed, with the error it set. *)
Definition setup_failed_with (e : event) : Prop := ¬ setup_call_ok e.1 e.2 ∧ x_errno e.2 ≠ 0.

(** Some call before [s'] was such. *)
Definition happened `{SdsLib, LoggerAPI} (P : event → Prop) (s' : machine) : Prop :=
  ∃ e, e ∈ m_trace s' ∧ P e.

Section happened.
Context `{SL : SdsLib, LA : LoggerAPI}.
Implicit Types s : machine.

Lemma happened_now (P : event → Prop) c r s s' :
  m_trace s' = m_trace s ++ [(c, r)] → P (c, r) → happened P s'.
Proof. intros Ht HP. exists (c, r). rewrite Ht. split; [|done]. set_solver. Qed.

Lemma happened_before P s s' : m_trace s `prefix_of` m_trace s' → happened P s → happened P s'.
Proof. intros [new Ht] (e & He & HP). exists e. rewrite Ht. split; [set_solver|done]. Qed.

Lemma happened_same P s s' : m_trace s' = m_trace s → happened P s → happened P s'.
Proof. intros Ht. apply happened_before. by rewrite Ht. Qed.

Lemma happened_app P s s' new : m_trace s' = m_trace s ++ new → happened P s → happened P s'.
Proof. intros Ht. apply happened_before. rewrite Ht. by apply prefix_app_r. Qed.

(** The processes that the calls of a trace made, and those made between two states. *)
Definition forks (tr : list event) : list Z :=
  omap (λ e : event, match e.1 with
        | X_fork => if 0 <? x_ret e.2 then Some (x_ret e.2) else None
        | _ => None
        end) tr.

Definition forked (pids : list Z) s s' : Prop :=
  ∃ new, m_trace s' = m_trace s ++ new ∧ forks new = pids.

Lemma forked_refl s s' : m_trace s' = m_trace s → forked [] s s'.
Proof. intros Ht. exists []. by rewrite Ht, app_nil_r. Qed.

Lemma forked_trans a b s s' s'' : forked a s s' → forked b s' s'' → forked (a ++ b) s s''.
Proof.
  intros (n1 & Ht1 & <-) (n2 & Ht2 & <-). exists (n1 ++ n2). rewrite Ht2, Ht1, app_assoc.
  split; [done|]. apply omap_app.
Qed.

(** One more call that is no fork. *)
Lemma forked_ext pids c r s s' s'' :
  c ≠ X_fork → m_trace s'' = m_trace s' ++ [(c, r)] → forked pids s s' → forked pids s s''.
Proof.
  intros Hc Ht Hf. rewrite <-(app_nil_r pids). eapply forked_trans; [exact Hf|].
  exists [(c, r)]. split; [done|]. by destruct c.
Qed.

Lemma forked_log pids s s' s'' : m_trace s'' = m_trace s' → forked pids s s' → forked pids s s''.
Proof. intros Ht (new & ? & ?). exists new. by rewrite Ht. Qed.

(** Calls among which there is no fork. *)
Lemma forked_none pids s s' s'' new :
  m_trace s'' = m_trace s' ++ new → fork_calls new = O → forked pids s s' → forked pids s s''.
Proof.
  intros Ht Hn Hf. rewrite <-(app_nil_r pids). eapply forked_trans; [exact Hf|]. exists new. split; [done|].
  clear Ht. induction new as [|[c r] new IH]; [done|]. unfold forks, fork_calls in *. cbn in *.
  destruct c; cbn in *; auto; lia.
Qed.

Lemma forked_prefix pids s s' : forked pids s s' → m_trace s `prefix_of` m_trace s'.
Proof. intros (new & -> & _). by apply prefix_app_r. Qed.

End happened.

(** Goes back over the calls that were made since [forked] was last known. *)
Ltac forked_tac :=
  repeat first [ eassumption | eapply forked_ext; [|eassumption|]; [done|] | eapply forked_log; [eassumption|]
               | by apply forked_refl ].

Section workers.
Context `{SL : SdsLib, SS : !SdsSpec SL, LA : LoggerAPI, E : Env, EV : EvLib}.
Context (stack : bytes) (fuel : nat) (evs : list wevent) (children : nat).
Implicit Types (s : machine) (ps xs : list (sds * sds_obj)).

(** Taking one call: it fails, and [worker_create_ipc_socket] reports that, or goes on. *)
Lemma create_ipc_runs w f rnd sp ps F s :
  0 ≤ rnd < 2 ^ 31 → IPCFile w = Some f →
  heap_is ((f, SdsObj (ipc_path rnd) sp) :: ps) F (heap_of s) →
  runs (worker_create_ipc_socket w) (λ r s', heap_of s' = heap_of s ∧ forked [] s s' ∧
    (r.1 = EXIT_FAILURE ∧ happened start_failed s' ∨
     r.1 = EXIT_SUCCESS ∧ ∃ a m, r.2 = set_masterfd m (set_accept a w)))
    refused no_ub s.
Proof.
  intros Hrnd Hf Hheap. unfold worker_create_ipc_socket. rewrite Hf. cbn [non_null].
  pose proof (ipc_path_length rnd Hrnd) as Hlen.
  set (Q := λ (r : Z * tsWorkerStruct) s', heap_of s' = heap_of s ∧ forked [] s s' ∧
    (r.1 = EXIT_FAILURE ∧ happened start_failed s' ∨
     r.1 = EXIT_SUCCESS ∧ ∃ a m, r.2 = set_masterfd m (set_accept a w))).
  assert (∀ c r w' s1 s', m_trace s' = m_trace s1 ++ [(c, r)] → start_failed (c, r) →
    heap_of s' = heap_of s → forked [] s s' → runs (mret (EXIT_FAILURE, w')) Q refused no_ub s') as Hfail.
  { intros c r w' s1 s' Ht Hc Hh Hf'. apply runs_wp, wp_ret. split_and!; [done|done|]. left. split; [done|].
    by eapply happened_now. }
  apply runs_bind_wp, wp_ret. apply runs_bind_wp. eapply wp_sds_arg; [exact Hheap|apply pick_here|].
  apply runs_bind_wp; log_step. intros _ s1 Hh1 Ht1. apply runs_bind_wp, wp_ext. intros r1 s2 _ Hh2 _ Ht2.
  assert (forked [] s s2) as Hf2 by forked_tac.
  destruct (Z.eqb_spec (x_ret r1) (-1)); [by eapply Hfail; [exact Ht2|done|congruence|]|].
  assert (heap_is ((f, SdsObj (ipc_path rnd) sp) :: ps) F (heap_of s2)) as Hheap2 by (by rewrite Hh2, Hh1).
  apply runs_bind_wp. eapply wp_sds_len; [exact Hheap2|apply pick_here|]. cbn [sds_buf].
  rewrite (proj2 (Z.leb_gt (Z.of_nat SUN_PATH_SIZE) _)) by (unfold SUN_PATH_SIZE; lia).
  apply runs_bind_wp. eapply wp_deref; [exact Hheap2|apply pick_here|]. cbn [sds_buf].
  apply runs_bind_wp, wp_ext. intros r2 s3 _ Hh3 _ Ht3. apply runs_bind_wp.
  assert (forked [] s s3) as Hf3 by forked_tac.
  eapply (wp_mono _ (λ ok s', heap_of s' = heap_of s3 ∧ forked [] s s' ∧
    (ok = false → happened start_failed s'))).
  { destruct (x_ret r2 =? -1); [|by apply wp_ret]. apply wp_bind, wp_ext. intros rm ? _ ? _ Htm. apply wp_ret.
    split_and!; [done|by forked_tac|]. intros Hm. eapply happened_now; [exact Htm|].
    destruct (Z.eqb_spec (x_ret rm) (-1)); [done|discriminate]. }
  intros ok s4 (Hh4 & Hf4 & Hok). destruct ok; cbn [negb].
  2: { apply runs_wp, wp_ret. split_and!; [congruence|done|]. left. auto. }
  apply runs_bind_wp, wp_ext. intros ? s5 _ Hh5 _ Ht5.
  apply runs_bind_wp, wp_ext. intros r6 s6 _ Hh6 _ Ht6.
  assert (forked [] s s6) as Hf6 by forked_tac.
  destruct (Z.eqb_spec (x_ret r6) (-1)); [by eapply Hfail; [exact Ht6|done|congruence|]|].
  apply runs_bind_wp, wp_ext. intros r7 s7 _ Hh7 _ Ht7.
  assert (forked [] s s7) as Hf7 by forked_tac.
  destruct (Z.eqb_spec (x_ret r7) (-1)); [by eapply Hfail; [exact Ht7|done|congruence|]|].
  apply runs_bind_wp, wp_ext. intros r8 s8 _ Hh8 _ Ht8.
  assert (forked [] s s8) as Hf8 by forked_tac.
  destruct (Z.eqb_spec (x_ret r8) (-1)); [by eapply Hfail; [exact Ht8|done|congruence|]|].
  apply runs_bind_wp, wp_ext. intros r9 s9 _ Hh9 _ Ht9.
  destruct (Z.eqb_spec (x_ret r9) (-1)) as [Hr9|_].
  { eapply runs_exits, exits_exit. split; [done|]. exists (x_ret r1), r9. by rewrite Ht9, last_snoc. }
  apply runs_bind_wp; log_step. intros _ s10 Hh10 Ht10. apply runs_wp, wp_ret.
  split_and!; [congruence|by forked_tac|]. right. split; [done|]. by eexists _, _.
Qed.

Lemma table_insert_none ws :
  (length ws < WORKER_MAX_WORKERS)%nat → <[length ws := None]> (table_of ws) = table_of ws.
Proof.
  intros Hl. apply list_insert_id. unfold table_of.
  rewrite lookup_app_r, length_fmap, Nat.sub_diag by (rewrite length_fmap; lia).
  apply lookup_replicate. split; [done|lia].
Qed.

Lemma set_up_slot_none ws xs g :
  set_up ws xs g → (length ws < WORKER_MAX_WORKERS)%nat →
  set_up ws xs (set_slot (length ws) None g).
Proof.
  intros (Ha & ? & ? & ?) Hl. split_and!; [|done..]. cbn. rewrite Ha. cbn. by rewrite table_insert_none.
Qed.

(** The variables a start of workers does not touch. *)
Definition same_rest (g g' : globals) : Prop :=
  NextWorker (g_workers g') = NextWorker (g_workers g) ∧ g_iFd g' = g_iFd g ∧
  g_settings g' = g_settings g ∧ psWorkerEVLoop (g_workers g') = psWorkerEVLoop (g_workers g).

(** What was set up since [s0], with at most [n] strings and [n] processes lost: the workers
    of the table are those whose forks succeeded, in order. *)
Definition started (ws : list tsWorkerStruct) (g' : globals) ps F s0 s' (n : nat) : Prop :=
  ∃ xs lost orphans, set_up ws xs g' ∧ heap_is (xs ++ lost ++ ps) F (heap_of s') ∧
    forked ((Pid <$> ws) ++ orphans) s0 s' ∧ (length lost ≤ n)%nat ∧ (length orphans ≤ n)%nat.

Lemma started_set_up ws xs g ps F s0 s :
  set_up ws xs g → heap_is (xs ++ ps) F (heap_of s) → forked (Pid <$> ws) s0 s →
  started ws g ps F s0 s 0.
Proof. intros. exists xs, [], []. rewrite app_nil_r. by split_and!. Qed.

(** A worker that could not be set up: its slot is empty again, its name stays. *)
Lemma started_without ws xs g x ps F s0 s orphans :
  set_up ws xs g → (length ws < WORKER_MAX_WORKERS)%nat → heap_is (x :: xs ++ ps) F (heap_of s) →
  forked ((Pid <$> ws) ++ orphans) s0 s → (length orphans ≤ 1)%nat →
  started ws (set_slot (length ws) None g) ps F s0 s 1.
Proof.
  intros. exists xs, [x], orphans. split_and!; [by apply set_up_slot_none| |done|done|done].
  eapply heap_is_perm; [done|]. solve_Permutation.
Qed.

(** How starting one worker ends: there is one more, or a call failed, and then at most the
    name made for it is lost, and its process, which nobody will end. *)
Definition one_more ws g ps F s0 (r : bool * globals) s' : Prop :=
  same_rest g r.2 ∧
  if r.1 then ∃ w, started (ws ++ [w]) r.2 ps F s0 s' 0
  else happened start_failed s' ∧ started ws r.2 ps F s0 s' 1.

(** The parent after the fork of process [pid]. *)
Lemma connect_worker_runs ws xs g f rnd sp pid ps F s0 s :
  0 ≤ rnd < 2 ^ 31 → 0 < pid → set_up ws xs g → (length ws < WORKER_MAX_WORKERS)%nat →
  heap_is ((f, SdsObj (ipc_path rnd) sp) :: xs ++ ps) F (heap_of s) →
  forked ((Pid <$> ws) ++ [pid]) s0 s →
  runs ('(z, w) ← worker_create_ipc_socket (set_Pid pid (zero_worker (Z.of_nat (length ws)) f));
    if negb (z =? 0) then
      _ ← ext (X_free (Z.of_nat (length ws)));
      mret (false, set_slot (length ws) None g)
    else
      let g := set_slot (length ws) (Some w) g in
      let a := gWorkerAdmin (g_workers g) in
      mret (true, Globals (g_iFd g)
        (set_admin (WorkerAdmin (u32 (uiCurrWorkers a + 1)) (psWorker a)) (g_workers g))
        (g_settings g))) (one_more ws g ps F s0) refused no_ub s.
Proof.
  intros Hrnd Hpid Hup Hlen Hheap Hf. apply runs_bind.
  eapply runs_mono; [by eapply (create_ipc_runs _ f rnd sp)| |done|done].
  intros [z w] s1 (Hh1 & Hf1 & Hcase). cbn [fst snd] in *. rewrite <-Hh1 in Hheap.
  assert (forked ((Pid <$> ws) ++ [pid]) s0 s1) as Hf1'.
  { rewrite <-(app_nil_r (_ ++ [pid])). by eapply forked_trans. }
  destruct Hcase as [(-> & Hhap)|(-> & a & m & Hw)]; cbn [EXIT_FAILURE EXIT_SUCCESS Z.eqb negb].
  - apply runs_bind_wp, wp_ext. intros ? s2 _ Hh2 _ Ht2. apply runs_wp, wp_ret. split; [done|].
    rewrite <-Hh2 in Hheap. split; [by eapply happened_app|].
    eapply (started_without ws xs g _ ps F s0 s2 [pid]); [done|done|exact Hheap|by forked_tac|done].
  - apply runs_wp, wp_ret. split; [done|]. exists w.
    apply (started_set_up _ (xs ++ [(f, SdsObj (ipc_path rnd) sp)])).
    + subst w. apply set_up_snoc; try done. by eexists.
    + eapply heap_is_perm; [exact Hheap|solve_Permutation].
    + rewrite fmap_app. by subst w.
Qed.

Lemma init_worker_runs ws g ps F s0 s :
  parent children → (children ≤ fork_calls (m_trace s0))%nat → started ws g ps F s0 s 0 → (length ws < WORKER_MAX_WORKERS)%nat →
  runs (init_worker stack fuel evs (length ws) g) (one_more ws g ps F s0) refused no_ub s.
Proof.
  intros [Hrand Hfork _] Hch (xs & [|] & [|] & Hup & Hheap & Hf0 & Hl1 & Hl2) Hlen; try (cbn in Hl1, Hl2; lia).
  rewrite app_nil_r in Hf0. unfold init_worker. apply runs_bind_wp; log_step. intros _ s1 Hh1 Ht1.
  apply runs_bind_wp, wp_ext. intros r1 s2 _ Hh2 _ Ht2.
  rewrite decide_False by lia. rewrite <-Hh1, <-Hh2 in Hheap.
  assert (forked (Pid <$> ws) s0 s2) as Hf2 by forked_tac.
  destruct (Z.eqb_spec (x_ret r1) 0).
  { apply runs_wp, wp_ret. split; [done|]. split; [by eapply happened_now|]. exists xs, [], [].
    rewrite app_nil_r. split_and!; [by apply set_up_slot_none|done|done|cbn; lia..]. }
  apply runs_bind_wp; log_step. intros _ s3 Hh3 Ht3. rewrite <-Hh3 in Hheap.
  apply runs_bind_wp. eapply wp_sds_empty; [exact Hheap|]. intros f sp s4 Hheap4 _ Ht4.
  apply runs_bind_wp, wp_ext. intros r5 s5 Hr5 Hh5 _ Ht5. rewrite <-Hh5 in Hheap4.
  assert (0 ≤ x_ret r5 < 2 ^ 31) as Hrnd by (rewrite Hr5; apply Hrand).
  apply runs_bind_wp. eapply wp_sds_catprintf; [apply ipc_file_text|exact Hheap4|apply pick_here|].
  cbn [sds_buf app]. intros f' sp' s6 Hheap6 _ Ht6. apply runs_bind_wp, wp_upd_log. intros _ s7 Hh7 Ht7.
  assert (forked (Pid <$> ws) s0 s7) as Hf7 by forked_tac.
  apply runs_bind_wp, wp_ext. intros r8 s8 Hr8 Hh8 _ Ht8. rewrite <-Hh7, <-Hh8 in Hheap6.
  assert (∀ new, forks [(X_fork, r8)] = new → forked ((Pid <$> ws) ++ new) s0 s8) as Hf8.
  { intros new Hnew. eapply forked_trans; [exact Hf7|]. by exists [(X_fork, r8)]. }
  destruct (Z.eqb_spec (x_ret r8) (-1)) as [Hfail|Hpid].
  - apply runs_bind_wp; log_step. intros _ s9 Hh9 Ht9. apply runs_bind_wp, wp_ext. intros ? s10 _ Hh10 _ Ht10.
    apply runs_wp, wp_ret. rewrite <-Hh9, <-Hh10 in Hheap6. split; [done|]. split.
    + eapply happened_app; [exact Ht10|]. eapply happened_same; [exact Ht9|]. by eapply happened_now.
    + specialize (Hf8 [] ltac:(cbn; by rewrite Hfail)).
      eapply (started_without ws xs g _ ps F s0 s10 []); [done|done|exact Hheap6|by forked_tac|cbn; lia].
  - destruct (Hfork (m_trace s7)) as [Hpos|]; [by eapply fork_calls_prefix; [eapply forked_prefix|]| |congruence].
    rewrite <-Hr8 in Hpos.
    rewrite (proj2 (Z.eqb_neq (x_ret r8) 0)) by lia.
    specialize (Hf8 [x_ret r8] ltac:(cbn; by rewrite (proj2 (Z.ltb_lt 0 (x_ret r8)) Hpos))).
    apply runs_bind_wp; log_step. intros _ s9 Hh9 Ht9. rewrite <-Hh9 in Hheap6.
    by eapply connect_worker_runs; [..|forked_tac].
Qed.

Lemma init_loop_runs n : ∀ ws g ps F s0 s,
  parent children → (children ≤ fork_calls (m_trace s0))%nat →
  (length ws + n ≤ WORKER_MAX_WORKERS)%nat → started ws g ps F s0 s 0 →
  runs (init_loop stack fuel evs n (length ws) g) (λ r s', same_rest g r.2 ∧
    ∃ ws', if decide (r.1 = WORKER_EXIT_SUCCESS)
           then length ws' = (length ws + n)%nat ∧ started ws' r.2 ps F s0 s' 0
           else r.1 = WORKER_EXIT_FAILURE ∧ happened start_failed s' ∧ started ws' r.2 ps F s0 s' 1)
    refused no_ub s.
Proof.
  induction n as [|n IH]; intros ws g ps F s0 s Hpar Hch Hlen Hst; cbn [init_loop].
  - apply runs_bind_wp; log_step. intros _ s1 Hh1 Ht1. apply runs_wp, wp_ret. split; [done|].
    exists ws. cbn. split; [lia|]. destruct Hst as (xs & lost & orphans & ? & ? & ? & ? & ?).
    exists xs, lost, orphans. rewrite Hh1. split_and!; try done. by forked_tac.
  - apply runs_bind. eapply runs_mono; [by apply (init_worker_runs ws g ps F s0); [..|lia]| |done|done].
    intros [ok g1] s1 (Hsame & Hok). cbn [fst snd] in *. destruct ok.
    + destruct Hok as (w & Hst').
      replace (S (length ws)) with (length (ws ++ [w])) by (rewrite length_app; simpl; lia).
      eapply runs_mono; [apply (IH (ws ++ [w]) g1 ps F s0); [done|done|rewrite length_app; simpl; lia|done]| |done|done].
      intros r s2 (Hsame2 & ws' & Hcase). split; [unfold same_rest in *; naive_solver congruence|].
      exists ws'. case_decide; [|done]. rewrite length_app in Hcase. cbn in Hcase. split; [lia|apply Hcase].
    + apply runs_wp, wp_ret. split; [done|]. exists ws. by case_decide.
Qed.

End workers.

Section main.
Context `{SL : SdsLib, SS : !SdsSpec SL, LA : LoggerAPI, LS : !LoggerSpec LA, E : Env, EV : EvLib,
  LI : LibIni}.
Context (stack : bytes) (fuel : nat) (wevs : list wevent) (children : nat).
Implicit Types (s : machine) (ps xs ys : list (sds * sds_obj)).

(** The end of a process that cleaned up.  The processes it had made when it was done
    starting workers (at [s1]) were those of the workers [ws], and at most [n] others; all of
    [ws] were released, in order; and besides the strings that were there at [s] at most [n]
    are left. *)
Definition orderly s s' (n : nat) : Prop :=
  ∃ ws xs lost orphans s1, heap_is lost (heap_of s) (heap_of s') ∧ (length lost ≤ n)%nat ∧
    forked ((Pid <$> ws) ++ orphans) s s1 ∧ (length orphans ≤ n)%nat ∧
    m_trace s1 `prefix_of` m_trace s' ∧
    teardown_all 0 (table_of ws) xs `suffix_of` teardown_calls (m_trace s') ∧
    ∃ x, last (m_trace s') = Some (X_printf bye, x).

(** Setting up the socket, whatever fails. *)
Lemma socket_any_wp iPort iRetFd iFd s :
  wp (socket_setup iPort iRetFd iFd) (λ r s', heap_of s' = heap_of s ∧ m_trace s `prefix_of` m_trace s' ∧
    (r.1.1 ≠ SOCK_EXIT_SUCCESS → happened setup_failed_with s')) s.
Proof.
  assert (wp (socket_setup iPort iRetFd iFd) (λ _ s', heap_of s' = heap_of s) s) as Hh.
  { unfold socket_setup.
    repeat (apply wp_bind, wp_ext; intros ? ? _ ? _ _; try (destruct (_ : bool); [apply wp_ret; congruence|])).
    apply wp_bind; log_step. intros ? ? ? ?. apply wp_ret. congruence. }
  eapply wp_mono; [exact (wp_and _ _ _ _ Hh (socket_setup_wp iPort iRetFd iFd s))|].
  intros [[z fd] gfd] s' [Hheap (new & Ht & _ & Hcase)]. cbn [fst snd]. split_and!; [done|rewrite Ht; by apply prefix_app_r|].
  intros Hz. destruct Hcase as [(? & _)|(pre & c & x & -> & _ & Hc & He & _)]; [done|].
  exists (c, x). rewrite Ht. split; [set_solver|]. split; [done|]. cbn. by rewrite <-He.
Qed.

(** The event loop, whether clients can be accepted or not. *)
Lemma master_run_any ws k : ∀ g s,
  staffed ws (gWorkerAdmin (g_workers g)) → ws ≠ [] →
  wp (master_run stack (replicate k Mv_client ++ [Mv_signal]) g) (λ g' s', heap_of s' = heap_of s ∧
    m_trace s `prefix_of` m_trace s' ∧ happened (λ e, e.1 = X_ev_break) s' ∧
    ∃ n, g' = Globals (g_iFd g) (set_next n (g_workers g)) (g_settings g)) s.
Proof.
  induction k as [|k IH]; intros g s Hst Hne; cbn [replicate app master_run].
  - apply wp_bind, wp_ext. intros r s1 _ Hh1 _ Ht1. apply wp_ret. split_and!; [done| |by eapply happened_now|].
    + rewrite Ht1. by apply prefix_app_r.
    + exists (NextWorker (g_workers g)). by destruct g as [? [] ?].
  - apply wp_bind. eapply (wp_mono _ (λ gw s', heap_of s' = heap_of s ∧
      m_trace s `prefix_of` m_trace s' ∧ ∃ n, gw = set_next n (g_workers g))).
    + destruct (decide (x_ret (env (m_trace s) (X_accept (g_iFd g))) = -1)) as [Hr|Hr].
      * eapply wp_mono; [by apply accept_failed_wp|]. intros gw s' (-> & Hh & r & _ & Ht).
        split_and!; [done|rewrite Ht; by apply prefix_app_r|].
        exists (NextWorker (g_workers g)). by destruct (g_workers g).
      * destruct (accept_wp stack ws (g_workers g) (u32 (NextWorker (g_workers g) + 1)) (g_iFd g) s)
          as (w & Hw & Hwp); [done|done|apply uwrap_range; lia|done|done|].
        eapply wp_mono; [exact Hwp|]. intros gw s' (-> & Hh & r & x & _ & Ht).
        split_and!; [done|rewrite Ht; by apply prefix_app_r|by eexists].
    + intros gw s1 (Hh1 & Hp1 & n & ->). eapply wp_mono; [by apply IH|].
      intros g' s2 (Hh2 & Hp2 & Hb & n' & ->). split_and!; [congruence|by etrans|done|]. by exists n'.
Qed.

(** What the start of the workers [ws] left at [s1], seen from [s]. *)
Definition leaves ws xs lost cfg ys g s0 s n : Prop :=
  set_up ws xs g ∧ represents (g_settings g) cfg ys ∧ heap_is (xs ++ lost ++ ys) (heap_of s0) (heap_of s) ∧
  (length lost ≤ n)%nat ∧ ∃ orphans s1, forked ((Pid <$> ws) ++ orphans) s0 s1 ∧
    (length orphans ≤ n)%nat ∧ m_trace s1 `prefix_of` m_trace s.

(** [do_exit] and [do_exit_with_errno] then. *)
Lemma exits_orderly (A : Type) ws xs lost cfg ys g s0 s s1 n z :
  leaves ws xs lost cfg ys g s0 s n → heap_of s1 = heap_of s → did [] s s1 →
  exits (do_exit (A := A) z g) z (λ s', orderly s0 s' n ∧ m_trace s `prefix_of` m_trace s') s1.
Proof.
  intros (Hup & Hrep & Hheap & Hl & orphans & s' & Hf & Ho & Hpre) Hh Hd. eapply exits_mono.
  - eapply (do_exit_exits A z g cfg xs ys lost (heap_of s0) s s1); [by eapply set_up_master| | |done|done].
    + split; [by eapply set_up_names|done].
    + eapply heap_is_perm; [exact Hheap|]. solve_Permutation.
  - intros s2 (Hheap2 & (new & Ht & Hc & _) & Hlast).
    assert (m_trace s `prefix_of` m_trace s2) as Hp by (rewrite Ht; by apply prefix_app_r).
    split; [|done]. exists ws, xs, lost, orphans, s'. split_and!; try done; [by etrans|].
    rewrite Ht, teardown_app, Hc. destruct Hup as (-> & _). by do 2 eapply suffix_app_r.
Qed.

(** A message that lacks an argument, with the logger formatting it, after [s]. *)
Definition message_undefined s (u : ub) (s' : machine) : Prop :=
  u = Unspecified ∧ api_formats eERROR (m_log s') = true ∧ m_trace s `prefix_of` m_trace s'.

Lemma errno_orderly ws xs lost cfg ys g s0 s n z :
  leaves ws xs lost cfg ys g s0 s n →
  runs (do_exit_with_errno (A := unit) z g) (λ _ _, False)
    (λ z' s', z' = z ∧ orderly s0 s' n ∧ m_trace s `prefix_of` m_trace s')
    (λ u s', api_formats eERROR (m_log s) = true ∧ message_undefined s u s') s.
Proof.
  intros Hs. unfold do_exit_with_errno. apply runs_bind_wp, wp_ext. intros r s1 _ Hh1 Hl1 Ht1.
  apply runs_bind_wp, wp_ext. intros r2 s2 _ Hh2 Hl2 Ht2.
  assert (m_log s2 = m_log s) as Hlog by congruence.
  assert (m_trace s2 = m_trace s ++ [(X_getpid, r); (X_strerror z, r2)]) as Ht
    by (by rewrite Ht2, Ht1, <-app_assoc).
  destruct (api_formats eERROR (m_log s2)) eqn:Hfmt.
  - apply runs_bind. apply (runs_undef _ _ _ _ Unspecified s2 s2).
    + unfold log_error, log_msg. by rewrite Hfmt.
    + split; [congruence|]. split_and!; [done|done|]. rewrite Ht. by apply prefix_app_r.
  - apply runs_bind_wp, wp_log_ignored; [done|]. intros _ s3 Hh3 Ht3. eapply runs_exits.
    eapply exits_mono; [eapply exits_orderly; [exact Hs|congruence|]|done].
    exists [(X_getpid, r); (X_strerror z, r2)]. by rewrite Ht3.
Qed.

(** How the process can end from the start of the workers on: the loop ran until the signal;
    the socket could not be set up; a worker could not be started; or the connection of a
    worker could not be accepted. *)
Inductive serve_ends s : Z → machine → Prop :=
  | se_signal s' : happened (λ e, e.1 = X_ev_break) s' → orderly s s' 0 → serve_ends s EXIT_SUCCESS s'
  | se_socket s' : happened setup_failed_with s' → orderly s s' 0 → serve_ends s SOCKET_FAIL s'
  | se_worker s' : happened start_failed s' → orderly s s' 1 → serve_ends s WORKER_EXIT_FAILURE s'
  | se_refused z s' : refused z s' → serve_ends s z s'.

(** What it can be undefined by: the message about a worker that could not be started, or
    about the socket that could not be set up. *)
Definition serve_undef (u : ub) (s' : machine) : Prop :=
  u = Unspecified ∧ api_formats eERROR (m_log s') = true ∧
  (happened start_failed s' ∨ happened setup_failed_with s').

Lemma serve_runs k daemon cfg g ys s0 s :
  parent children → (children ≤ fork_calls (m_trace s))%nat →
  represents (g_settings g) cfg ys → heap_is ys (heap_of s0) (heap_of s) → forked [] s0 s →
  runs (serve stack fuel wevs (replicate k Mv_client ++ [Mv_signal]) daemon g) (λ _ _, False)
    (serve_ends s0) serve_undef s.
Proof.
  intros Hpar Hch Hrep Hheap Hf. unfold serve. apply runs_bind.
  eapply runs_mono; [eapply (init_loop_runs stack fuel wevs children 4 [] _ ys (heap_of s0) s); [done|done|cbn; unfold WORKER_MAX_WORKERS; lia|]| | |done].
  { apply (started_set_up [] []); [apply set_up_none|done|]. by apply forked_refl. }
  2: { intros z s' Hz. by apply se_refused. }
  intros [z g1] s1 ((_ & _ & Hset & _) & ws & Hcase). cbn [fst snd g_settings] in *. rewrite <-Hset in Hrep.
  case_decide as Hz.
  2: { destruct Hcase as (-> & Hhap & xs & lost & orphans & ? & ? & ? & ? & ?).
    cbn [WORKER_EXIT_FAILURE EXIT_FAILURE Z.eqb negb].
    eapply runs_mono; [eapply (errno_orderly ws xs lost cfg ys); split_and!; [done..|]|done| |].
    { exists orphans, s1. split_and!; [|done|done]. by eapply (forked_trans []). }
    - intros z s' (-> & Ho & Hpre). apply se_worker; [by eapply happened_before|done].
    - intros u s' (_ & -> & Hfmt & Hpre). split_and!; [done|done|]. left. by eapply happened_before. }
  subst z. destruct Hcase as (Hlen & xs & lost & orphans & Hup & Hheap1 & Hf1 & Hl & Ho).
  assert (forked ((Pid <$> ws) ++ orphans) s0 s1) as Hf01 by (by eapply (forked_trans [])).
  cbn [WORKER_EXIT_SUCCESS EXIT_SUCCESS Z.eqb negb].
  assert (staffed ws (gWorkerAdmin (g_workers g1))) as Hst.
  { eapply set_up_staffed; [done|]. rewrite Hlen. cbn. unfold WORKER_MAX_WORKERS. lia. }
  apply runs_bind_wp. eapply wp_mono; [apply socket_any_wp|]. intros [[iRet iFd] gFd] s2 (Hh2 & Hp2 & Hbad).
  rewrite <-Hh2 in Hheap1. cbn [fst] in Hbad.
  assert (∀ n s3, heap_of s3 = heap_of s2 → m_trace s2 `prefix_of` m_trace s3 →
    leaves ws xs lost cfg ys (Globals gFd (set_next n (g_workers g1)) (g_settings g1)) s0 s3 0) as Hlv.
  { intros n s3 Hh3 Hp3. split_and!; [exact Hup|done|by rewrite Hh3|done|]. exists orphans, s1. split_and!; [done|done|].
    by etrans. }
  destruct (Z.eqb_spec iRet SOCK_EXIT_SUCCESS) as [Hi|Hi]; cbn [negb].
  2: { apply runs_bind_wp, wp_ext. intros e s3 _ Hh3 _ Ht3.
    destruct (api_formats eERROR (m_log s3)) eqn:Hfmt.
    { apply runs_bind. apply (runs_undef _ _ _ _ Unspecified s3 s3).
      - unfold log_error, log_msg. by rewrite Hfmt.
      - split_and!; [done|done|]. right. eapply happened_app; [exact Ht3|]. by apply Hbad. }
    apply runs_bind_wp, wp_log_ignored; [done|]. intros _ s4 Hh4 Ht4.
    eapply runs_exits. eapply exits_mono;
      [eapply (exits_orderly unit ws xs lost cfg ys _ s0 s2 s4); [|congruence|]|].
    - specialize (Hlv (NextWorker (g_workers g1)) s2 eq_refl ltac:(done)). by destruct (g_workers g1).
    - exists [(X_strerror iRet, e)]. by rewrite Ht4, Ht3.
    - intros s' [Ho' Hpre]. apply se_socket; [|done]. eapply happened_before; [exact Hpre|]. by apply Hbad. }
  apply runs_bind_wp. eapply (wp_mono _ (λ _ s', heap_of s' = heap_of s2 ∧ m_trace s2 `prefix_of` m_trace s')).
  { destruct daemon; [by apply wp_ret|]. apply wp_bind, wp_ext. intros ? ? _ ? _ Ht3. apply wp_ret.
    split; [done|]. rewrite Ht3. by apply prefix_app_r. }
  intros _ s3 [Hh3 Hp3]. do 4 (apply runs_bind_wp, wp_ext; intros ? ? _ ? _ ?).
  apply runs_bind_wp. eapply wp_mono; [apply (master_run_any ws k); [done|by intros ->]|].
  intros g' s8 (Hh8 & Hp8 & Hbreak & n & ->). eapply runs_exits.
  eapply exits_mono; [eapply (exits_orderly unit ws xs lost cfg ys _ s0 s8 s8); [|done|by apply did_refl]|].
  - apply Hlv; [congruence|]. etrans; [exact Hp3|]. etrans; [|exact Hp8].
    repeat match goal with H : m_trace ?s' = _ |- _ `prefix_of` m_trace ?s' =>
      rewrite H; apply prefix_app_r; clear H end. done.
  - intros s9 [Ho' Hpre]. apply se_signal; [by eapply happened_before|done].
Qed.

(** Loading the settings, of a file that may be missing or broken. *)
Lemma load_any size `{!LibIniFinite LI size} s :
  (∀ i, ini_open SETTINGS_FILE = Some i → (S (size i) ≤ fuel)%nat) → log_stopped (m_log s) →
  wp (settings_load fuel SETTINGS_FILE settings_zero) (λ r s', log_stopped (m_log s') ∧ forked [] s s' ∧
    fork_calls (m_trace s') = fork_calls (m_trace s) ∧
    match ini_open SETTINGS_FILE with
    | None => r = (SET_NOFILE, settings_zero) ∧ heap_of s' = heap_of s
    | Some i => ∃ doc e ys lost, reads_sections i doc e ∧ r.1 = load_code e ∧
        represents r.2 (load_doc doc config_zero) ys ∧ heap_is (ys ++ lost) (heap_of s) (heap_of s') ∧
        length lost = strings_lost e
    end) s.
Proof.
  intros Hfuel Hst. destruct (ini_open SETTINGS_FILE) as [i|] eqn:Hi.
  - destruct (sections_total size (S (size i)) i) as (doc & e & Hd & Hf); [lia|].
    specialize (Hfuel i eq_refl). eapply wp_mono; [apply (wp_keeps log_stopped); [|exact Hst|]|].
    { apply settings_load_keeps. intros. by apply stopped_log_msg. }
    { apply (settings_load_wp fuel SETTINGS_FILE i doc e settings_zero config_zero [] [] (heap_of s));
        [done|done|lia|done|done]. }
    intros [z st] s1 ((Hz & (ys & lost & Hrep & Hl & Hheap) & x & Ht) & Hst1). cbn [fst snd] in *. subst z.
    rewrite !app_nil_r in Hheap. split_and!; [done|by exists [(X_ini_close, x)]| |].
    { rewrite Ht, fork_calls_app. cbn. lia. }
    by exists doc, e, ys, lost.
  - unfold settings_load. rewrite Hi. apply wp_ret. split_and!; [done|by apply forked_refl|done|done|done].
Qed.

Lemma logger_init_any name lvl s :
  log_stopped (m_log s) →
  wp (logger_init name lvl) (λ z s', z = (if log_can_open name then EXIT_SUCCESS else EXIT_FAILURE) ∧
    (log_can_open name = false → log_stopped (m_log s')) ∧
    heap_of s' = heap_of s ∧ m_trace s' = m_trace s) s.
Proof.
  intros Hs. unfold logger_init, upd_log, wp. pose proof (stopped_init name lvl _ Hs) as H0.
  pose proof (stopped_init_failed name lvl _ Hs) as H1.
  destruct (api_logger_init _ _ _) as [z l]. cbn in H0. by subst z.
Qed.

(** A call of [daemonize] that failed, and the status it leads to. *)
Definition daemon_failed (z : Z) (e : event) : Prop :=
  match e.1 with
  | X_fork | X_sigaction | X_chdir _ => x_ret e.2 < 0 ∧ z = x_errno e.2
  | X_getrlimit => x_ret e.2 < 0 ∧ z = 1
  | _ => False
  end.

(** The null device was opened under other numbers than 0, 1 and 2. *)
Definition null_failed (s' : machine) : Prop :=
  ∃ pre x0 x1 x2 post,
    m_trace s' = pre ++ [(X_open (lit "/dev/null"), x0); (X_dup 0, x1); (X_dup 0, x2)] ++ post ∧
    ¬ (x_ret x0 = 0 ∧ x_ret x1 = 1 ∧ x_ret x2 = 2).

(** The parent of a fork of [daemonize]. *)
Definition left_behind (z : Z) (s' : machine) : Prop :=
  z = EXIT_SUCCESS ∧ ∃ r, last (m_trace s') = Some (X_fork, r) ∧ 0 < x_ret r.

(** How [daemonize] can end the process: as the parent of a fork, or because a call failed. *)
Definition daemon_exits s (z : Z) (s' : machine) : Prop :=
  left_behind z s' ∨
  (orderly s s' 0 ∧ (happened (daemon_failed z) s' ∨ z = 1 ∧ null_failed s')).

(** The message about the limit of descriptors can make it undefined. *)
Definition daemon_undef (u : ub) (s' : machine) : Prop :=
  u = Unspecified ∧ api_formats eERROR (m_log s') = true ∧ ∃ z, happened (daemon_failed z) s'.

(** How [main] can end, with the cause of each status. *)
Inductive main_ends (argv : list bytes) s : Z → machine → Prop :=
  | me_no_settings s' :
      ini_open SETTINGS_FILE = None → orderly s s' 0 → main_ends argv s SET_NOFILE s'
  | me_broken_settings i doc e s' :
      ini_open SETTINGS_FILE = Some i → reads_sections i doc e → e ≠ AtEnd → orderly s s' 1 →
      main_ends argv s SET_EXIT_FAILURE s'
  | me_no_log i doc s' :
      ini_open SETTINGS_FILE = Some i → reads_sections i doc AtEnd →
      log_can_open (log_path (load_doc doc config_zero)) = false → orderly s s' 0 →
      main_ends argv s EXIT_FAILURE s'
  | me_serve i doc z s' :
      ini_open SETTINGS_FILE = Some i → reads_sections i doc AtEnd →
      log_can_open (log_path (load_doc doc config_zero)) = true → serve_ends s z s' →
      main_ends argv s z s'
  | me_daemon z s' : bDeamonize argv = true → daemon_exits s z s' → main_ends argv s z s'.

(** An end before any worker was started. *)
Lemma early_exit (st : tsSSettings) cfg ys lost s0 s n z :
  represents st cfg ys → heap_is (ys ++ lost) (heap_of s0) (heap_of s) → (length lost ≤ n)%nat →
  forked [] s0 s → log_stopped (m_log s) →
  runs (do_exit_with_errno (A := unit) z (Globals 0 worker_zero st)) (λ _ _, False)
    (λ z' s', z' = z ∧ orderly s0 s' n) no_ub s.
Proof.
  intros Hrep Hheap Hl Hf Hst. eapply runs_mono; [eapply (errno_orderly [] [] lost cfg ys); split_and!|done| |].
  - apply (set_up_none (Globals 0 worker_zero st)).
  - done.
  - eapply heap_is_perm; [exact Hheap|]. solve_Permutation.
  - done.
  - exists [], s. split_and!; [done|cbn; lia|done].
  - by intros z' s' (-> & ? & _).
  - intros u s' [Hfmt _]. by rewrite (stopped_formats eERROR (m_log s) Hst) in Hfmt.
Qed.

(** The same from [do_exit]. *)
Lemma early_do_exit (A : Type) (st : tsSSettings) cfg ys s0 s s1 z :
  represents st cfg ys → heap_is ys (heap_of s0) (heap_of s) → forked [] s0 s →
  heap_of s1 = heap_of s → m_trace s1 = m_trace s →
  exits (do_exit (A := A) z (Globals 0 worker_zero st)) z
    (λ s', orderly s0 s' 0 ∧ m_trace s `prefix_of` m_trace s') s1.
Proof.
  intros Hrep Hheap Hf Hh Ht. eapply exits_mono; [eapply (exits_orderly A [] [] [] cfg ys _ s0 s s1 0)|done].
  - split_and!; [apply (set_up_none (Globals 0 worker_zero st))|done|done|done|].
    exists [], s. split_and!; [done|done|done].
  - done.
  - by apply did_refl.
Qed.

(** One fork of [daemonize]: an error, the child, or the parent, which leaves. *)
Lemma fork_child_runs s :
  runs fork_child (λ r s', heap_of s' = heap_of s ∧ forked [] s s' ∧
    ∃ x, m_trace s' = m_trace s ++ [(X_fork, x)] ∧ x = env (m_trace s) X_fork ∧
      match r with Some z => x_ret x < 0 ∧ z = x_errno x | None => x_ret x = 0 end) left_behind no_ub s.
Proof.
  unfold fork_child. apply runs_bind_wp, wp_ext. intros r s1 Hr Hh1 _ Ht1.
  destruct (Z.ltb_spec (x_ret r) 0) as [Hneg|Hneg].
  - apply runs_wp, wp_ret. split_and!; [done| |by exists r].
    exists [(X_fork, r)]. split; [done|]. cbn. by rewrite (proj2 (Z.ltb_ge 0 (x_ret r))) by lia.
  - destruct (Z.eqb_spec (x_ret r) 0) as [Hz|Hz]; cbn [negb].
    + apply runs_bind_wp, wp_upd_log. intros _ s2 Hh2 Ht2. apply runs_wp, wp_ret.
      split_and!; [congruence| |exists r; by rewrite Ht2].
      exists [(X_fork, r)]. rewrite Ht2. split; [done|]. cbn. by rewrite Hz.
    + eapply runs_exits. apply exits_exit. split; [done|]. exists r. rewrite Ht1, last_snoc.
      split; [done|lia].
Qed.

(** What [daemonize] comes to: it goes on as the grandchild, reports the error of a call
    that failed, or ends the process. *)
Lemma daemonize_runs cfg ys (st : tsSSettings) s0 s :
  parent children → represents st cfg ys → heap_is ys (heap_of s0) (heap_of s) → forked [] s0 s →
  runs (daemonize (Globals 0 worker_zero st)) (λ z s', heap_of s' = heap_of s ∧ forked [] s0 s' ∧
    (z = 0 ∧ fork_calls (m_trace s') = (fork_calls (m_trace s) + 2)%nat ∨
     z ≠ 0 ∧ happened (daemon_failed z) s')) (daemon_exits s0) daemon_undef s.
Proof.
  intros Hpar Hrep Hheap Hf. pose proof (pa_errno _ Hpar) as Herr. unfold daemonize.
  apply runs_bind_wp, wp_ext. intros r1 s1 _ Hh1 _ Ht1. apply runs_bind_wp, wp_ext. intros lim s2 _ Hh2 _ Ht2.
  assert (forked [] s0 s2) as Hf2 by forked_tac. apply runs_bind.
  destruct (Z.ltb_spec (x_ret lim) 0) as [Hlim|Hlim].
  { destruct (api_formats eERROR (m_log s2)) eqn:Hfmt.
    { apply runs_bind. apply (runs_undef _ _ _ _ Unspecified s2 s2).
      - unfold log_error, log_msg. by rewrite Hfmt.
      - split_and!; [done|done|]. exists 1. by eapply happened_now. }
    apply runs_bind_wp, wp_log_ignored; [done|]. intros _ s3 Hh3 Ht3. eapply runs_exits, exits_mono;
      [eapply (early_do_exit _ st cfg ys s0 s2 s3); [done|congruence|done|done|done]|].
    intros s' [Ho Hpre]. right. split; [done|]. left. eapply happened_before; [exact Hpre|].
    by eapply happened_now. }
  apply runs_wp, wp_ret. apply runs_bind. eapply runs_mono; [apply fork_child_runs| |by left|done].
  intros e s3 (Hh3 & Hf3 & x3 & Ht3 & Hx3 & He). apply (forked_trans [] [] _ _ _ Hf2) in Hf3.
  destruct e as [z|].
  { destruct He as [Hneg ->]. apply runs_wp, wp_ret. split_and!; [congruence|done|]. right. split.
    - rewrite Hx3. apply Herr; [by left|by rewrite <-Hx3].
    - by eapply happened_now. }
  apply runs_bind_wp, wp_ext. intros r4 s4 _ Hh4 _ Ht4. apply runs_bind_wp, wp_ext. intros r5 s5 Hr5 Hh5 _ Ht5.
  assert (forked [] s0 s5) as Hf5 by forked_tac. destruct (Z.ltb_spec (x_ret r5) 0) as [Hneg|_].
  { apply runs_wp, wp_ret. split_and!; [congruence|done|]. right. split; [|by eapply happened_now].
    rewrite Hr5. apply Herr; [by right; left|by rewrite <-Hr5]. }
  apply runs_bind. eapply runs_mono; [apply fork_child_runs| |by left|done].
  intros e s6 (Hh6 & Hf6 & x6 & Ht6 & Hx6 & He6). apply (forked_trans [] [] _ _ _ Hf5) in Hf6.
  destruct e as [z|].
  { destruct He6 as [Hneg ->]. apply runs_wp, wp_ret. split_and!; [congruence|done|]. right. split.
    - rewrite Hx6. apply Herr; [by left|by rewrite <-Hx6].
    - by eapply happened_now. }
  apply runs_bind_wp, wp_ext. intros r7 s7 Hr7 Hh7 _ Ht7.
  assert (forked [] s0 s7) as Hf7 by forked_tac. destruct (Z.ltb_spec (x_ret r7) 0) as [Hneg|_].
  { apply runs_wp, wp_ret. split_and!; [congruence|done|]. right. split; [|by eapply happened_now].
    rewrite Hr7. apply Herr; [by right; right|by rewrite <-Hr7]. }
  apply runs_bind_wp. eapply wp_mono; [apply close_all_wp|].
  intros _ s8 (Hh8 & new & Ht8 & _ & _ & Hfc & _).
  assert (forked [] s0 s8) as Hf8 by (by eapply forked_none).
  apply runs_bind_wp, wp_ext. intros x0 s9 _ Hh9 _ Ht9. apply runs_bind_wp, wp_ext. intros x1 s10 _ Hh10 _ Ht10.
  apply runs_bind_wp, wp_ext. intros x2 s11 _ Hh11 _ Ht11. assert (forked [] s0 s11) as Hf11 by forked_tac.
  assert (heap_of s11 = heap_of s) as Hh by congruence.
  assert (m_trace s11 = m_trace s8 ++ [(X_open (lit "/dev/null"), x0); (X_dup 0, x1); (X_dup 0, x2)]) as Ht
    by (by rewrite Ht11, Ht10, Ht9, <-!app_assoc).
  destruct (_ || _) eqn:Hfds.
  - apply runs_bind_wp; log_step. intros _ s12 Hh12 Ht12. eapply runs_exits, exits_mono;
      [eapply (early_do_exit _ st cfg ys s0 s11 s12); [done|congruence|done|done|done]|].
    intros s' [Ho [post Hpre]]. right. split; [done|]. right. split; [done|].
    exists (m_trace s8), x0, x1, x2, post. rewrite Hpre, Ht, <-app_assoc. split; [done|].
    intros (H0 & H1 & H2). by rewrite H0, H1, H2 in Hfds.
  - apply runs_wp, wp_ret. split_and!; [done|done|]. left. split; [done|].
    rewrite Ht, Ht8, Ht7, Ht6, Ht5, Ht4, Ht3, Ht2, Ht1, !fork_calls_app, Hfc. cbn. lia.
Qed.

(** Turning into a daemon, if asked to. *)
Lemma background_runs argv cfg ys (st : tsSSettings) s0 s :
  parent children → children = (fork_calls (m_trace s) + daemon_forks argv)%nat →
  represents st cfg ys → heap_is ys (heap_of s0) (heap_of s) → forked [] s0 s →
  runs (if bDeamonize argv then
          _ ← ext (X_printf (daemon_text (lPort st)));
          daemonize (Globals 0 worker_zero st)
        else mret 0) (λ z s', heap_of s' = heap_of s ∧ forked [] s0 s' ∧
    (z = 0 ∧ fork_calls (m_trace s') = children ∨
     z ≠ 0 ∧ bDeamonize argv = true ∧ happened (daemon_failed z) s'))
    (λ z s', bDeamonize argv = true ∧ daemon_exits s0 z s')
    (λ u s', bDeamonize argv = true ∧ daemon_undef u s') s.
Proof.
  unfold daemon_forks. intros Hpar Hch Hrep Hheap Hf. destruct (bDeamonize argv).
  - apply runs_bind_wp, wp_ext. intros r s1 _ Hh1 _ Ht1. rewrite <-Hh1 in Hheap.
    eapply runs_mono; [eapply (daemonize_runs cfg ys st s0 s1); [done|done|done|by forked_tac]| |done|done].
    intros z s2 (Hh2 & Hf2 & Hz). split_and!; [congruence|done|].
    destruct Hz as [[-> Hc]|[? ?]]; [left|right; by split_and!]. split; [done|].
    rewrite Hc, Ht1, fork_calls_app, Hch. cbn. lia.
  - apply runs_wp, wp_ret. split_and!; [done|done|]. left. split; [done|lia].
Qed.

(** What can make [main] undefined: the seed of the random numbers overflows; or a call
    failed whose failure is reported by a message with a missing argument, and the logger,
    which has been started, formats that message. *)
Inductive main_undef (argv : list bytes) s : ub → machine → Prop :=
  | mu_seed s' : seed_fits (m_trace s) = false → main_undef argv s SignedOverflow s'
  | mu_message i doc s' :
      seed_fits (m_trace s) = true →
      ini_open SETTINGS_FILE = Some i → reads_sections i doc AtEnd →
      log_can_open (log_path (load_doc doc config_zero)) = true →
      api_formats eERROR (m_log s') = true →
      happened start_failed s' ∨ happened setup_failed_with s' ∨
      bDeamonize argv = true ∧ (∃ z, happened (daemon_failed z) s') →
      main_undef argv s Unspecified s'.

(** The part of [main] after the settings. *)
Lemma logged_runs argv k i doc ys (st : tsSSettings) s0 s :
  parent children → children = (fork_calls (m_trace s) + daemon_forks argv)%nat →
  seed_fits (m_trace s0) = true → ini_open SETTINGS_FILE = Some i → reads_sections i doc AtEnd →
  represents st (load_doc doc config_zero) ys → heap_is ys (heap_of s0) (heap_of s) →
  forked [] s0 s → log_stopped (m_log s) →
  runs (name ← logfile_name (settings_get st);
        iRet ← logger_init name (lLogLevel st);
        if negb (iRet =? 0) then do_exit_with_errno iRet (Globals 0 worker_zero st) else
        _ ← log_error "----- STARTING -------" [];
        _ ← settings_to_log st;
        iRet ← (if bDeamonize argv then
                  _ ← ext (X_printf (daemon_text (lPort st)));
                  daemonize (Globals 0 worker_zero st)
                else mret 0);
        if negb (iRet =? 0) then do_exit_with_errno iRet (Globals 0 worker_zero st) else
        serve stack fuel wevs (replicate k Mv_client ++ [Mv_signal]) (bDeamonize argv)
          (Globals 0 worker_zero st))
    (λ _ _, False) (main_ends argv s0) (main_undef argv s0) s.
Proof.
  intros Hpar Hch Hseed Hi Hread Hrep Hheap Hf Hst.
  apply runs_bind_wp. eapply wp_mono; [eapply (logfile_name_wp _ _ ys []); [done|by rewrite app_nil_r]|].
  intros name ? [-> ->].
  apply runs_bind_wp. eapply wp_mono; [by apply logger_init_any|]. intros z s3 (-> & Hst3 & Hh3 & Ht3).
  rewrite <-Hh3 in Hheap. destruct (log_can_open _) eqn:Hlog; cbn [EXIT_SUCCESS EXIT_FAILURE Z.eqb negb].
  2: { eapply runs_mono; [eapply (early_exit _ _ ys [] s0 s3 0); try done|done| |done].
    - by rewrite app_nil_r.
    - by eapply forked_log.
    - by apply Hst3.
    - intros z s' [-> Ho]. by eapply me_no_log. }
  apply runs_bind_wp; log_step. intros _ s4 Hh4 Ht4. apply runs_bind_wp, settings_to_log_wp.
  intros s5 Hh5 Ht5. assert (forked [] s0 s5) as Hf5 by forked_tac.
  assert (heap_is ys (heap_of s0) (heap_of s5)) as Hheap5 by (by rewrite Hh5, Hh4).
  apply runs_bind. eapply runs_mono; [eapply (background_runs argv _ ys st s0 s5);
    [done|by rewrite Ht5, Ht4, Ht3|exact Hrep|done|done]| | |].
  2: { intros z s' [? ?]. by apply me_daemon. }
  2: { intros u s' (? & -> & ? & ?). apply (mu_message argv s0 i doc); [done..|]. by right; right. }
  intros z s6 (Hh6 & Hf6 & Hz). rewrite <-Hh6 in Hheap5. destruct (Z.eqb_spec z 0) as [->|Hnz]; cbn [negb].
  2: { destruct Hz as [[? _]|(_ & Hd & Hhap)]; [done|]. eapply runs_mono;
      [eapply (errno_orderly [] [] [] _ ys _ s0 s6 0); split_and!;
       [apply (set_up_none (Globals 0 worker_zero st))|exact Hrep|done|done|]|done| |].
    - exists [], s6. by split_and!.
    - intros z' s' (-> & Ho & Hpre). apply me_daemon; [done|]. right. split; [done|]. left. by eapply happened_before.
    - intros u s' (_ & -> & ? & Hpre). apply (mu_message argv s0 i doc); [done..|].
      right; right. split; [done|]. eexists. by eapply happened_before. }
  eapply runs_mono; [eapply (serve_runs k (bDeamonize argv) _ _ ys s0 s6); [done| |exact Hrep|done|done]|done| |].
  - destruct Hz as [[_ Hc]|[? _]]; [lia|done].
  - intros z s' He. by eapply me_serve.
  - intros u s' (-> & ? & H). apply (mu_message argv s0 i doc); [done..|]. destruct H; auto.
Qed.


End main.
