(* ===== verification/Examples.v ===== *)
(** * Concrete runs

    Surroundings in which the assumptions of the theorems about workers, clients, the
    socket and the whole program hold, and the theorems applied there. *)

From S2P Require Import Prelude CString Machine SdsModel Queue Settings Http Logger LoggerSafety LoggerLife LoggerApi.
From S2P Require Import Worker Socket Exit Client WorkerProc Monitor Reaction System Fair Exhaustion DeadWorker WorkerLife Startup Shutdown Main Errors.
Local Open Scope Z_scope.

(** ** The surroundings *)

(** Every call succeeds; the process is the parent of its forks. *)
Definition good_answer (c : ext_call) : ext_ret :=
  match c with
  | X_malloc | X_inet_ntop => ExtRet 1 0 0 []
  | X_random => ExtRet 42 0 0 []
  | X_fork => ExtRet 100 0 0 []
  | X_unix_socket => ExtRet 5 0 0 []
  | X_socket => ExtRet 3 0 0 []
  | X_accept _ => ExtRet 7 0 0 []
  | X_getpid => ExtRet 99 0 0 []
  | X_gettimeofday => ExtRet 1000 0 5 []
  | X_recvmsg _ => ExtRet 0 0 0 (fd_message (replicate 4 NUL) 11)
  | X_recv _ _ => ExtRet 14 0 0 (lit "GET / HTTP/1.1")
  | X_sendmsg _ _ => ExtRet 0 0 0 []
  | X_send _ data => ExtRet (Z.of_nat (length data)) 0 0 []
  | X_fstat _ => ExtRet 0 0 5 []
  | _ => ExtRet 0 0 0 []
  end.

#[export] Instance good_world : Env := env_of good_answer.

(** The same with some calls answered otherwise. *)
Definition world_but (f : ext_call → option ext_ret) : Env :=
  env_of (λ c, default (good_answer c) (f c)).

#[export] Instance ev_frees : EvLib := false.

Definition stk : bytes := replicate 24 NUL.

Abbreviation proc := (@machine (sds_model false) null_logger).
Definition idle : proc := start false.

(** A process that owns the given strings. *)
Definition with_strings (h : gmap sds sds_obj) : proc :=
  @Machine (sds_model false) null_logger (h : @sds_heap (sds_model false)) tt [].

Lemma files_fine : @file_calls_ok good_world.
Proof. split; intros; cbn; lia. Qed.

Lemma starts_fine n : @starts good_world n.
Proof. by split; intros; cbn. Qed.

Lemma listens_fine : @listens good_world.
Proof. by split; intros; cbn. Qed.

(** ** Workers *)

Definition worker (i : Z) (f : sds) : tsWorkerStruct :=
  WorkerStruct i (100 + i) (20 + i) (30 + i) 0 0 (Some f).

Definition two_workers : list tsWorkerStruct := [worker 0 1%positive; worker 1 2%positive].

Definition two_admin : worker_state := WState (WorkerAdmin 2 (table_of two_workers)) (u32 (-1)) LoopNull.

Lemma two_staffed : staffed two_workers (gWorkerAdmin two_admin).
Proof. split_and!; [done|cbn; unfold WORKER_MAX_WORKERS; lia|by eexists]. Qed.

Definition two_names : list (sds * sds_obj) :=
  [(1%positive, SdsObj (lit "/run/a") []); (2%positive, SdsObj (lit "/run/b") [])].

Definition two_strings : proc :=
  with_strings {[ 1%positive := SdsObj (lit "/run/a") []; 2%positive := SdsObj (lit "/run/b") [] ]}.

Lemma two_heap : heap_is (two_names ++ []) ∅ (heap_of two_strings).
Proof. vm_compute. done. Qed.

Lemma two_not_me w : Some w ∈ psWorker (gWorkerAdmin two_admin) → iMe w = 0.
Proof.
  intros Hin. change (Some w ∈ (Some <$> two_workers) ++ replicate 62 None) in Hin.
  apply elem_of_app in Hin as [Hin|Hin]; [|by apply elem_of_replicate in Hin as [? _]].
  cbn in Hin. repeat (apply elem_of_cons in Hin as [[= ->]|Hin]; [done|]). by apply elem_of_nil in Hin.
Qed.

Lemma two_own : own_names (psWorker (gWorkerAdmin two_admin)) two_names.
Proof. unfold own_names. cbn. by repeat constructor. Qed.

(** Descriptor 7 of the master becomes descriptor 11 of the worker. *)
Lemma fd_passing_roundtrip_witness :
  wp (send_fd_to_worker stk (worker 0 1%positive) 7) (λ z (t : proc), z = WORKER_EXIT_SUCCESS ∧ ∃ ctl r d,
    m_trace t = [] ++ [(X_sendmsg 30 ctl, r)] ∧
    kernel_takes ctl = Some [7] ∧ kernel_passes CMSG_SPACE (λ fd, fd + 4) (replicate 4 NUL) ctl = Some d ∧
    (fd_message (replicate 4 NUL) 11 = d →
     ∀ junk, wp (receive_fd_from_worker stk (worker 0 1%positive) junk) (λ r (t : proc),
       r = (WORKER_EXIT_SUCCESS, 11)) idle)) idle.
Proof.
  refine (fd_passing_roundtrip stk stk (replicate 4 NUL) (λ fd, fd + 4) (worker 0 1%positive)
    (worker 0 1%positive) 7 idle idle _ _ _ _); done.
Defined.

(** And what the kernel writes for it is the data that the worker gets there. *)
Example passed_on :
  kernel_passes CMSG_SPACE (λ fd, fd + 4) (replicate 4 NUL) (fd_message stk 7) =
    Some (fd_message (replicate 4 NUL) 11).
Proof. vm_compute. reflexivity. Qed.

Lemma round_robin_witness :
  wp (route_all stk [7; 8; 9] two_admin) (λ _ (s' : proc), sends (m_trace s') = [] ++
    imap (λ i fd, (from_option iMasterIPCfd 0 (two_workers !! (i mod 2)%nat), fd_message stk fd))
      [7; 8; 9]) idle.
Proof. apply (round_robin stk two_workers [7; 8; 9] two_admin idle two_staffed); done. Defined.

Lemma master_destroy_correct_witness :
  wp (worker_destroy two_admin) (λ r (s' : proc),
    r.1 = WORKER_EXIT_SUCCESS ∧ uiCurrWorkers (gWorkerAdmin r.2) = 0 ∧
    Forall (eq None) (psWorker (gWorkerAdmin r.2)) ∧
    length (psWorker (gWorkerAdmin r.2)) = length (psWorker (gWorkerAdmin two_admin)) ∧
    psWorkerEVLoop r.2 = psWorkerEVLoop two_admin ∧
    heap_is [] ∅ (heap_of s') ∧
    did (teardown_all 0 (psWorker (gWorkerAdmin two_admin)) two_names) two_strings s') two_strings.
Proof.
  apply (master_destroy_correct two_admin two_names [] ∅ two_strings two_not_me two_own two_heap).
Defined.

(** The second worker, which inherited the first. *)
Definition second_worker : worker_state :=
  WState (WorkerAdmin 1 (Some (worker 0 1%positive) :: Some (set_iMe 1 (worker 1 2%positive)) ::
                         replicate 62 None)) (u32 (-1)) LoopLive.


(** ** The socket and the end *)

Lemma accepted_fd_stays_open_witness :
  wp (socket_accept_client stk 3 (set_next 0 two_admin)) (λ g' (s' : proc), ∃ new w,
    let fd := x_ret (env (m_trace idle) (X_accept 3)) in
    m_trace s' = m_trace idle ++ new ∧ fds_opened new = [fd] ∧ fds_closed new = [] ∧
    two_workers !! Z.to_nat (NextWorker g') = Some w ∧
    NextWorker g' = (NextWorker (set_next 0 two_admin) + 1) mod Z.of_nat (length two_workers) ∧
    sends new = [(iMasterIPCfd w, fd_message stk fd)]) idle.
Proof.
  apply (accepted_fd_stays_open stk two_workers (set_next 0 two_admin) 3 idle two_staffed); done.
Defined.

Definition two_globals : globals := Globals 3 two_admin settings_zero.

Lemma do_exit_correct_witness :
  exits (do_exit (A := unit) 1 two_globals) 1 (ended two_globals two_names [] ∅ two_strings) two_strings ∧
  exits (do_exit_with_errno (A := unit) 1 two_globals) 1 (ended two_globals two_names [] ∅ two_strings)
    two_strings.
Proof.
  apply (do_exit_correct two_globals config_zero two_names [] [] ∅ two_strings 1 unit two_not_me).
  - split; [apply two_own|done].
  - apply two_heap.
Defined.

(** ** Clients *)

Definition fresh_client : tsClientStruct := new_client 11 42 (lit "10.0.0.1").
Definition one_client : clients := {[ 1%positive := ClientEv fresh_client true true ]}.

Lemma one_client_there : one_client !! 1%positive = Some (ClientEv fresh_client true true).
Proof. done. Qed.

(** The client has closed its side. *)
Definition gone_world : Env :=
  world_but (λ c, match c with X_recv _ _ => Some (ExtRet 0 0 0 []) | _ => None end).

Lemma gone_behaves : @kernel_ok gone_world.
Proof. split; [split; intros; cbn; lia|done]. Qed.

Lemma dispatch_correct_witness :
  wpf (@dispatch (sds_model false) null_logger gone_world stk 1 (worker 0 1%positive)
      (Ev_client 1%positive) one_client) (λ cs' (s' : proc), heap_of s' = heap_of idle ∧
    ∃ new, m_trace s' = m_trace idle ++ new ∧
      reaction stk gone_world [] (worker 0 1%positive) one_client (Ev_client 1%positive) new cs')
    (@accident (sds_model false) 1 gone_world [] ∅ (worker 0 1%positive) one_client (Ev_client 1%positive)) idle.
Proof.
  apply (@dispatch_correct (sds_model false) _ null_logger gone_world stk 1 gone_behaves
    (worker 0 1%positive) (Ev_client 1%positive) one_client idle).
  - apply clients_ok_insert; done.
  - intros p e Hp. unfold one_client in Hp. by apply lookup_singleton_Some in Hp as [_ <-].
Defined.

(** A request of exactly the size of the buffer. *)
Definition full_world : Env :=
  world_but (λ c, match c with
    | X_recv _ _ => Some (ExtRet 4096 0 0 (replicate (Z.to_nat 4096) "x"%char))
    | _ => None end).

Lemma full_buffer_overread_witness :
  fails (@client_callback_serve (sds_model false) null_logger full_world 1 1%positive one_client)
    OutOfBounds idle.
Proof.
  apply (@full_buffer_overread (sds_model false) _ null_logger full_world 1 1%positive one_client fresh_client idle).
  - apply one_client_there.
  - done.
  - done.
  - vm_compute. done.
  - intros [? _]%elem_of_replicate. done.
  - done.
Defined.

(** Reading fails forever. *)
Definition failing_world : Env :=
  world_but (λ c, match c with X_read _ _ => Some (ExtRet (-1) 11 0 []) | _ => None end).

Lemma deregister_diverges_witness :
  (@client_deregister (sds_model false) null_logger failing_world 1000 1%positive one_client idle).1 = NoFuel.
Proof.
  apply (@deregister_diverges (sds_model false) null_logger failing_world 1000 1%positive one_client
    fresh_client true true idle); [apply one_client_there|done|done].
Defined.

(** ** Worker processes *)

Lemma ipc_path_agrees_witness :
  format (lit "%s/%s_%ld") (ipc_file_args 42) = Some (ipc_path 42) ∧
  (length (ipc_path 42) ≤ 36)%nat ∧
  sun_path (ipc_path 42) (SUN_PATH_SIZE - 1) = ipc_path 42 ∧
  sun_path (ipc_path 42) SOCKADDR_UN_SIZE = ipc_path 42 ∧
  (ipc_path 42 = ipc_path 43 → 42 = 43).
Proof. apply (ipc_path_agrees 42 43); lia. Defined.

Lemma worker_init_correct_witness :
  wp (worker_init stk 1 [] 4 globals_zero) (λ r (s' : proc), r.1 = WORKER_EXIT_SUCCESS ∧
    ∃ ws xs, Z.of_nat (length ws) = 4 ∧ set_up ws xs r.2 ∧
      staffed ws (gWorkerAdmin (g_workers r.2)) ∧
      own_names (psWorker (gWorkerAdmin (g_workers r.2))) xs ∧ is_master r.2 ∧
      heap_is (xs ++ []) ∅ (heap_of s') ∧
      NextWorker (g_workers r.2) = NextWorker (g_workers globals_zero) ∧
      g_iFd r.2 = g_iFd globals_zero ∧ g_settings r.2 = g_settings globals_zero ∧
      ∃ new, m_trace s' = m_trace idle ++ new ∧ all_started ws xs new) idle.
Proof.
  apply (worker_init_correct stk 1 [] 0 4 globals_zero [] ∅ idle (starts_fine 0));
    [cbn; lia|unfold WORKER_MAX_WORKERS; lia|done].
Defined.

Lemma too_many_workers_witness :
  fails (worker_init stk 1 [] 65 globals_zero) OutOfBounds idle.
Proof.
  apply (too_many_workers stk 1 [] 0 65 globals_zero idle (starts_fine 0)); [cbn; lia|].
  unfold WORKER_MAX_WORKERS. lia.
Defined.

(** A worker that joins, takes one client, answers it and gets the signal. *)
Definition joining_world : Env :=
  world_but (λ c, match c with X_ev_default_loop => Some (ExtRet 1 0 0 []) | _ => None end).

Lemma joining_behaves : @kernel_ok joining_world.
Proof. split; [split; intros; cbn; lia|done]. Qed.

Lemma joining_joins : @joins 9 joining_world.
Proof. split; try done. by left. Qed.

Definition joining : proc := with_strings {[ 1%positive := SdsObj (ipc_path 42) [] ]}.


(** The first worker, refused by the master. *)
Definition refusing_world : Env :=
  world_but (λ c, match c with X_connect_unix _ _ => Some (ExtRet (-1) 111 0 []) | _ => None end).

Lemma refusing_cannot_join : @cannot_join refusing_world 1.
Proof. split; [by left|by right; right; left]. Qed.

Lemma failed_start_crashes_witness :
  fails (@workerp_entry (sds_model false) null_logger refusing_world ev_frees stk unit 1 [] 0
    (zero_worker 0 1%positive) globals_zero) NullDeref joining.
Proof.
  apply (@failed_start_crashes (sds_model false) _ null_logger refusing_world ev_frees stk 1 unit
    [] [] [] 1%positive 42 [] config_zero [] [] ∅ globals_zero joining refusing_cannot_join); try done.
  cbn. unfold WORKER_MAX_WORKERS. lia.
Defined.

(** Two workers are watched for three rounds; both go on running. *)
Lemma worker_monitor_correct_witness :
  goes_on (worker_monitor (A := unit) 3 false two_globals) (λ s' : proc, heap_of s' = heap_of two_strings ∧
    ∃ evs l', m_trace s' = m_trace two_strings ++ evs ∧ watches 3 (Some <$> two_workers) evs l' ∧
      (watched_count (Some <$> two_workers) = told evs + watched_count l')%nat) two_strings ∧
  (∃ s1 : proc, heap_of s1 = heap_of two_strings ∧ m_trace s1 = m_trace two_strings ∧
     worker_monitor (A := unit) 4 true two_globals two_strings = do_exit 0 two_globals s1).
Proof.
  apply (worker_monitor_correct unit 3 two_globals (Some <$> two_workers) (replicate 62 None) two_strings); [done|done|].
  cbn. unfold WORKER_MAX_WORKERS. lia.
Defined.

(** ** The processes together *)

(** The master gets the descriptor [fd] for a client; a worker gets [fd] from the master and
    [fd + 1] for a file. *)
Definition accept_world (fd : Z) : Env :=
  world_but (λ c, match c with X_accept _ => Some (ExtRet fd 0 0 []) | _ => None end).
Definition event_world (fd : Z) : Env :=
  world_but (λ c, match c with
    | X_recvmsg _ => Some (ExtRet 1 0 0 (fd_message (replicate 4 NUL) fd))
    | X_open _ => Some (ExtRet (fd + 1) 0 0 [])
    | _ => None
    end).

Lemma accept_world_behaves fd : @kernel_ok (accept_world fd).
Proof. split; [split; intros; cbn; lia|done]. Qed.

Lemma event_world_behaves fd : @kernel_ok (event_world fd).
Proof. split; [split; intros; cbn; lia|done]. Qed.

(** Worker [i], connected through descriptor 0. *)
Definition worker_process (i : nat) (w : tsWorkerStruct) : @process (sds_model false) null_logger :=
  Process w ∅ true idle (Endpoint {[ 0 := Link i ]} [] []).

Definition two_processes : @System.system (sds_model false) null_logger :=
  System two_admin two_strings {[ 3 := Other; 30 := Link 0; 31 := Link 1 ]} 0
    [worker_process 0 (worker 0 1%positive); worker_process 1 (worker 1 2%positive)].

Lemma two_at_start : at_start two_workers two_processes.
Proof.
  split; [by split_and!; [| |apply two_staffed]|done|done| |].
  - intros [|[|]] w [= <-]; done.
  - intros [|[|]] p [= <-]; (split_and!; [done|done|done|done|done|]);
      cbn; by intros fd n [_ ?]%lookup_singleton_Some.
Qed.

(** Three clients arrive; the first is answered, the second times out, the third waits. *)
Definition busy : list action :=
  [A_accept (accept_world 7); A_accept (accept_world 8); A_event 0 (event_world 5) Ev_ipc;
   A_accept (accept_world 9); A_event 1 (event_world 5) Ev_ipc;
   A_event 0 (event_world 20) (Ev_client 1%positive); A_event 1 (event_world 20) (Ev_timeout 1%positive)].

(** A computation that has a result. *)
Definition present {A} (o : option A) : bool := match o with Some _ => true | None => false end.

Lemma present_default {A} (d : A) o : present o = true → o = Some (default d o).
Proof. by destruct o. Qed.

Definition two_busy : @System.system (sds_model false) null_logger :=
  default two_processes (sys_run stk 9 3 busy two_processes).

Lemma busy_steps : rtc (sys_step stk 9 3) two_processes two_busy.
Proof.
  apply (sys_run_steps stk 9 3 busy); [|apply present_default; vm_cast_no_check (@eq_refl bool true)].
  repeat constructor; apply accept_world_behaves || apply event_world_behaves.
Qed.

Example busy_history :
  (λ p, (inbox (p_end p), history (p_end p))) <$> s_procs two_busy =
    [([2%nat], [(0%nat, Received (lit "GET / HTTP/1.1"));
        (0%nat, Replied (header_200 (lit "text/html") ++ header_length 5 ++ lit "?????")); (0%nat, Shut)]);
     ([], [(1%nat, Shut)])].
Proof. vm_compute. done. Qed.

Lemma system_refines_witness :
  ∃ l, rtc (deal_step 2) [] l ∧ related two_workers two_busy l.
Proof.
  apply (system_refines stk 9 3 two_workers two_processes two_busy two_at_start busy_steps).
Defined.

(** The next step: the first worker takes the third client. *)
Definition next_step : option (outcome (@System.system (sds_model false) null_logger)) :=
  perform stk 9 3 (A_event 0 (event_world 5) Ev_ipc) two_busy.

Lemma system_safe_witness :
  (∃ s', default NoFuel next_step = Ok s') ∨
  (∃ i E e p f, A_event 0 (event_world 5) Ev_ipc = A_event i E e ∧ s_procs two_busy !! i = Some p ∧
     default NoFuel next_step = failed f ∧
     @accident (sds_model false) 9 E (m_trace (p_machine p)) (heap_of (p_machine p)) (p_self p) (p_clients p) e f).
Proof.
  apply (system_safe stk 9 3 two_workers two_processes two_busy
    (A_event 0 (event_world 5) Ev_ipc) (default NoFuel next_step) two_at_start busy_steps).
  - apply event_world_behaves.
  - apply present_default. vm_cast_no_check (@eq_refl bool true).
Defined.

Definition first_process : @process (sds_model false) null_logger :=
  default (worker_process 0 (worker 0 1%positive)) (s_procs two_busy !! 0%nat).

Lemma connections_answered_once_witness :
  let k := p_end first_process in
  StronglySorted lt (inbox k) ∧
  (∀ n, n ∈ inbox k ∨ wires n (history k) ≠ [] ∨ (∃ fd, fds k !! fd = Some (Conn n)) →
     (n < s_accepted two_busy)%nat ∧ (n mod length two_workers)%nat = 0%nat) ∧
  (∀ n, wires n (history k) = [] ∨ wires n (history k) = [Shut] ∨ ∃ data evs resp sent shut,
     wires n (history k) = Received data :: (Replied <$> option_list sent) ++ shut_wire shut ∧
     handled (cprefix data) evs resp ∧ part_of resp sent) ∧
  (∀ n fd, wires n (history k) ≠ [] → fds k !! fd ≠ Some (Conn n)) ∧
  (∀ n, (n < s_accepted two_busy)%nat → ∃ fd, s_fds two_busy !! fd = Some (Conn n)).
Proof.
  apply (connections_answered_once stk 9 3 two_workers two_processes two_busy 0 first_process
    two_at_start busy_steps). apply present_default. vm_cast_no_check (@eq_refl bool true).
Defined.

(** In the middle of it, the first worker waits for data of the first client, and the third
    client is on its way to it. *)
Definition two_held : @System.system (sds_model false) null_logger :=
  default two_processes (sys_run stk 9 3 (take 5 busy) two_processes).

Lemma held_steps : rtc (sys_step stk 9 3) two_processes two_held.
Proof.
  apply (sys_run_steps stk 9 3 (take 5 busy)); [|apply present_default; vm_cast_no_check (@eq_refl bool true)].
  repeat constructor; apply accept_world_behaves || apply event_world_behaves.
Qed.

Definition holding : @process (sds_model false) null_logger :=
  default (worker_process 0 (worker 0 1%positive)) (s_procs two_held !! 0%nat).

Definition held_client : tsClientStruct :=
  default fresh_client (sClient <$> p_clients holding !! 1%positive).

(** The client is there, with both watchers on. *)
Definition watched (o : option tsClientEv) : bool :=
  match o with Some e => io e && timer e | None => false end.

Lemma watched_client d o : watched o = true → o = Some (ClientEv (default d (sClient <$> o)) true true).
Proof. by destruct o as [[c [] []]|]. Qed.

Lemma held_there : p_clients holding !! 1%positive = Some (ClientEv held_client true true).
Proof. apply watched_client. vm_cast_no_check (@eq_refl bool true). Qed.

Lemma held_connection : fds (p_end holding) !! iSockfd held_client = Some (Conn 0).
Proof. apply (bool_decide_unpack _). vm_cast_no_check I. Qed.

Lemma worker_progress_witness :
  (leads_to stk 9 3 (event_world 6) 0 Ev_ipc two_held
     (λ p', inbox (p_end p') = [] ∧ ∃ a, holds p' a 2) ∨
   breaks stk 9 3 (event_world 6) 0 holding Ev_ipc two_held) ∧
  (leads_to stk 9 3 (event_world 6) 0 (Ev_client 1%positive) two_held
     (λ p', p_clients p' = delete 1%positive (p_clients holding) ∧
        (∀ fd, fds (p_end p') !! fd ≠ Some (Conn 0)) ∧ ∃ evs resp sent shut,
        handled (cprefix (lit "GET / HTTP/1.1")) evs resp ∧ part_of resp sent ∧
        wires 0 (history (p_end p')) =
          Received (lit "GET / HTTP/1.1") :: (Replied <$> option_list sent) ++ shut_wire shut) ∨
   breaks stk 9 3 (event_world 6) 0 holding (Ev_client 1%positive) two_held) ∧
  (leads_to stk 9 3 (event_world 6) 0 (Ev_timeout 1%positive) two_held
     (λ p', p_clients p' = delete 1%positive (p_clients holding) ∧ closed_quietly 0 p') ∨
   breaks stk 9 3 (event_world 6) 0 holding (Ev_timeout 1%positive) two_held).
Proof.
  destruct (worker_progress stk 9 3 two_workers two_processes two_held 0 holding (event_world 6)
    two_at_start held_steps) as (Hmsg & Hdata & Htime).
  - apply present_default. vm_cast_no_check (@eq_refl bool true).
  - vm_cast_no_check (@eq_refl bool true).
  - apply event_world_behaves.
  - split_and!.
    + apply Hmsg.
      * apply (bool_decide_unpack _). vm_cast_no_check I.
      * done.
      * split; [by intros [?|?%Nat.ltb_lt]|]. split; vm_cast_no_check (@eq_refl bool true).
    + apply (Hdata 1%positive 0%nat held_client
        (default NoFuel (perform stk 9 3 (A_event 0 (event_world 6) (Ev_client 1%positive)) two_held))
        held_there held_connection).
      * done.
      * apply present_default. vm_cast_no_check (@eq_refl bool true).
    + apply (Htime 1%positive 0%nat
        (default NoFuel (perform stk 9 3 (A_event 0 (event_world 6) (Ev_timeout 1%positive)) two_held))).
      * exists held_client. split; [apply held_there|apply held_connection].
      * apply present_default. vm_cast_no_check (@eq_refl bool true).
Defined.

(** The whole day: then the first worker takes the third client, which never sends
    anything; and after that the loop only reports events of nobody. *)
Definition day : list action :=
  busy ++ [A_event 0 (event_world 5) Ev_ipc; A_event 0 (event_world 5) (Ev_timeout 1%positive)].
Definition night : action := A_event 0 (event_world 5) (Ev_timeout 1%positive).

Definition day_acts (t : nat) : action := default night (day !! t).
Definition day_run (t : nat) : @System.system (sds_model false) null_logger :=
  default two_processes (sys_run stk 9 3 (take t day) two_processes).
Definition evening : @System.system (sds_model false) null_logger := day_run 9.

(** The day runs to its end, and then nobody waits. *)
Definition quiet (p : @process (sds_model false) null_logger) : bool :=
  p_running p && bool_decide (length (inbox (p_end p)) = 0%nat) && bool_decide (size (p_clients p) = 0%nat).

Lemma day_ends :
  match sys_run stk 9 3 day two_processes with
  | Some s => bool_decide (length (s_procs s) = 2%nat) && forallb quiet (s_procs s)
  | None => false
  end = true.
Proof. vm_cast_no_check (@eq_refl bool true). Qed.

Lemma day_prefix t : sys_run stk 9 3 (take t day) two_processes = Some (day_run t).
Proof.
  pose proof day_ends as Hs. unfold day_run. rewrite <-(take_drop t day), sys_run_app in Hs.
  by destruct (sys_run stk 9 3 (take t day) two_processes).
Qed.

Lemma after_day t : (9 ≤ t)%nat → day_run t = evening.
Proof. intros Ht. unfold day_run, evening, day_run. by rewrite !take_ge. Qed.

Lemma evening_quiet i : (i < 2)%nat →
  ∃ p, s_procs evening !! i = Some p ∧ p_running p = true ∧ inbox (p_end p) = [] ∧ p_clients p = ∅.
Proof.
  intros Hi. pose proof day_ends as Hs. pose proof (day_prefix 9) as Hp. rewrite take_ge in Hp by done.
  fold evening in Hp. rewrite Hp in Hs. apply andb_prop in Hs as [Hlen%bool_decide_eq_true Hall].
  destruct (lookup_lt_is_Some_2 (s_procs evening) i) as [p Hpi]; [by rewrite Hlen|]. exists p. split; [done|].
  rewrite forallb_forall in Hall. specialize (Hall p). rewrite <-list_elem_of_In in Hall.
  apply list_elem_of_lookup_2, Hall in Hpi. unfold quiet in Hpi.
  apply andb_prop in Hpi as [[Hrun Hin%bool_decide_eq_true]%andb_prop Hc%bool_decide_eq_true].
  split_and!; [done|by apply nil_length_inv|by apply map_size_empty_iff].
Qed.

Lemma night_same : perform stk 9 3 night evening = Some (Ok evening).
Proof.
  destruct (evening_quiet 0) as (p & Hp & Hrun & _ & Hc); [lia|].
  apply (idle_event stk 9 3 (event_world 5) 0 p); [done|done|]. by rewrite Hc.
Qed.

Lemma day_fair : fair stk 9 3 two_workers day_run day_acts.
Proof.
  assert (∀ i t (Q : nat → @process (sds_model false) null_logger → Prop), (i < 2)%nat →
    (∀ t' p, inbox (p_end p) = [] → p_clients p = ∅ → Q t' p) → eventually day_run i t Q) as Hlate.
  { intros i t Q Hi HQ. destruct (evening_quiet i Hi) as (p & Hp & _ & Hin & Hc).
    exists (t + 9)%nat, p. rewrite after_day by lia. split; [lia|]. split; [done|by apply HQ]. }
  split.
  - apply two_at_start.
  - intros t. destruct (day !! t) as [a|] eqn:Ha.
    + replace (day_acts t) with a by (unfold day_acts; by rewrite Ha). destruct (sys_run_step stk 9 3 day t a two_processes (day_run t)) as (s & -> & Hs); [done|by eexists; apply (day_prefix 9)|apply day_prefix|].
      rewrite day_prefix in Hs. by injection Hs as ->.
    + replace (day_acts t) with night by (unfold day_acts; by rewrite Ha).
      apply lookup_ge_None in Ha. cbn in Ha. rewrite !after_day by lia. apply night_same.
  - intros t. assert (Forall (λ a, @kernel_ok (surroundings_of a) ∧ knows_peers (E := surroundings_of a))
      (night :: day)) as Hall.
    { repeat apply Forall_cons_2; try apply Forall_nil_2;
        (split; [apply accept_world_behaves || apply event_world_behaves|done]). }
    apply Forall_cons in Hall as [Hn Hd]. unfold day_acts. destruct (day !! t) as [a|] eqn:Ha; [|done].
    by eapply Forall_lookup_1 in Hd.
  - intros i t Hi. apply Hlate; [done|]. by left.
  - intros i t n Hi. apply Hlate; [done|]. intros t' p _ Hc. left. intros a (c & Ha & _).
    by rewrite Hc, lookup_empty in Ha.
Qed.

Lemma every_connection_ends_witness :
  finally day_run 0 5 (λ p',
    ((∃ shut, wires 2 (history (p_end p')) = shut_wire shut) ∨ ∃ data evs resp sent shut,
       wires 2 (history (p_end p')) = Received data :: (Replied <$> option_list sent) ++ shut_wire shut ∧
       handled (cprefix data) evs resp ∧ part_of resp sent) ∧
    (2%nat ∉ inbox (p_end p')) ∧ ∀ fd, fds (p_end p') !! fd ≠ Some (Conn 2)).
Proof.
  apply (every_connection_ends stk 9 3 two_workers day_run day_acts day_fair 2 5 holding).
  - apply (present_default (worker_process 0 (worker 0 1%positive))). vm_cast_no_check (@eq_refl bool true).
  - left. apply (bool_decide_unpack _). vm_cast_no_check I.
Defined.

(** ** What is left open *)

Lemma within_decided limit (t : fd_table) :
  bool_decide (map_Forall (λ fd _, 0 ≤ fd < limit) t) = true → within limit t.
Proof. intros H%bool_decide_eq_true fd [d Hd]. by apply (H fd d). Qed.

Lemma descriptors_run_out_witness :
  Z.of_nat (s_accepted two_busy) + 2 ≤ 40 ∧
  Z.of_nat (opened (m_trace (p_machine first_process))) - Z.of_nat 0 + Z.of_nat 0 + 1 ≤ 40.
Proof.
  destruct (descriptors_run_out stk 9 3 two_workers two_processes two_busy 40 two_at_start busy_steps)
    as [Hm Hw]; [lia|]. split.
  - apply Hm, within_decided. vm_cast_no_check (@eq_refl bool true).
  - apply (Hw 0%nat (worker_process 0 (worker 0 1%positive)) first_process); [done| |].
    + apply present_default. vm_cast_no_check (@eq_refl bool true).
    + apply within_decided. vm_cast_no_check (@eq_refl bool true).
Defined.

(** ** A worker that has ended *)

(** The master gets a client and cannot pass it on. *)
Definition lost_world (fd : Z) : Env :=
  world_but (λ c, match c with
    | X_accept _ => Some (ExtRet fd 0 0 [])
    | X_sendmsg _ _ => Some (ExtRet (-1) 32 0 [])
    | _ => None
    end).

Lemma lost_world_behaves fd : @kernel_ok (lost_world fd).
Proof. split; [split; intros; cbn; lia|done]. Qed.

Definition after (a : action) s : @System.system (sds_model false) null_logger :=
  default s (sys_run stk 9 3 [a] s).

Lemma after_performed a s : present (sys_run stk 9 3 [a] s) = true → perform stk 9 3 a s = Some (Ok (after a s)).
Proof. unfold after. cbn [sys_run]. by destruct (perform stk 9 3 a s) as [[]|]. Qed.

(** The second of two workers ends; then two clients arrive. *)
Definition first_client : action := A_accept (accept_world 7).
Definition second_client : action := A_accept (lost_world 8).
Definition halved : @mortals (sds_model false) null_logger := Mortals two_processes {[ 1%nat ]}.
Definition starving : @mortals (sds_model false) null_logger :=
  Mortals (after second_client (after first_client two_processes)) {[ 1%nat ]}.

Definition allowed (a : action) s : bool :=
  present (sys_run stk 9 3 [a] s) &&
  present (mortal_calls {[ 1%nat ]} (calls_between (s_machine s) (s_machine (after a s))) s).

Lemma accept_allowed E s :
  @kernel_ok E → allowed (A_accept E) s = true →
  mortal_step stk 9 3 (Mortals s {[ 1%nat ]}) (Mortals (after (A_accept E) s) {[ 1%nat ]}).
Proof.
  intros HE [Hr Hc]%andb_prop. apply (ms_accept stk 9 3 _ _ E); [done|by apply after_performed|].
  by destruct (mortal_calls _ _ _).
Qed.

Lemma starving_steps : rtc (mortal_step stk 9 3) halved starving.
Proof.
  eapply rtc_l; [apply (accept_allowed (accept_world 7)); [apply (accept_world_behaves 7)|vm_cast_no_check (@eq_refl bool true)]|].
  apply rtc_once, (accept_allowed (lost_world 8)); [apply (lost_world_behaves 8)|vm_cast_no_check (@eq_refl bool true)].
Qed.

Lemma dead_worker_starves_witness :
  (∀ i q, s_procs (b_sys starving) !! i = Some q → wires 1 (history (p_end q)) = []) ∧
  (∃ fd, s_fds (b_sys starving) !! fd = Some (Conn 1)) ∧
  ∃ l, rtc (deal_step 2) [] l ∧ related two_workers (b_sys starving) l.
Proof.
  apply (dead_worker_starves stk 9 3 two_workers two_processes halved starving 1
    (worker_process 1 (worker 1 2%positive)) 1 two_at_start).
  - apply rtc_once. replace halved with (Mortals two_processes ({[ 1%nat ]} ∪ ∅)); [apply ms_ends|].
    unfold halved. by rewrite (right_id_L ∅ (∪)).
  - apply starving_steps.
  - set_solver.
  - done.
  - done.
  - apply Nat.ltb_lt. vm_cast_no_check (@eq_refl bool true).
  - right. cbn. lia.
Defined.

(** ** Ending together *)

(** A wait returns the number of the process. *)
Definition ending_world : Env :=
  world_but (λ c, match c with X_waitpid pid => Some (ExtRet pid 0 0 []) | _ => None end).
(** A worker wakes up for nothing. *)
Definition waking_world : Env :=
  world_but (λ c, match c with X_recvmsg _ => Some (ExtRet (-1) 11 0 []) | _ => None end).

Definition ending_run : outcome unit * proc := do_exit (E := ending_world) 0 two_globals two_strings.
Definition two_looping : list kproc := (λ w, KProc (Pid w) {[SIGINT]} [] Alive) <$> two_workers.

(** The second worker makes one more call before the master comes to it. *)
Definition final_history : history_of :=
  (TheWorker 1, (X_recvmsg 0, ExtRet (-1) 11 0 [])) ::
  ((TheMaster,.) <$> calls_between two_strings ending_run.2).
Definition final_processes : option (list kproc) := end_calls final_history two_looping.

Example ending_processes :
  map k_life (default [] final_processes) = [Reaped SIGTERM; Reaped SIGTERM].
Proof. vm_compute. done. Qed.

Lemma final_possible : end_calls final_history two_looping = Some (default [] final_processes).
Proof.
  unfold final_processes. apply (present_default [] (end_calls final_history two_looping)).
  vm_cast_no_check (@eq_refl bool true).
Qed.

Lemma final_calls x : calls_of x final_history =
  match x with
  | TheMaster => calls_between two_strings ending_run.2
  | TheWorker 1 => [(X_recvmsg 0, ExtRet (-1) 11 0 [])]
  | _ => []
  end.
Proof.
  unfold final_history. generalize (calls_between two_strings ending_run.2). intros l. rewrite calls_of_cons.
  assert (calls_of x ((TheMaster,.) <$> l) = if decide (x = TheMaster) then l else []) as ->.
  { induction l as [|e l IH]; [by case_decide|]. rewrite fmap_cons, calls_of_cons, IH.
    destruct x; by repeat case_decide. }
  destruct x as [|[|[|i]]| |]; done.
Qed.

Lemma no_outside : calls_of Outside final_history = [].
Proof. exact (final_calls Outside). Qed.

Lemma final_loops i : loop_calls (calls_of (TheWorker i) final_history).
Proof.
  assert (loop_calls []) as Hnil.
  { exists stk, waking_world, (worker 0 1%positive), [], ∅, []. split; [constructor|by left]. }
  rewrite final_calls. destruct i as [|[|i]]; [done| |done].
  exists stk, waking_world, (worker 1 2%positive), [], ∅, ([(X_recvmsg 0, ExtRet (-1) 11 0 [])] ++ []).
  split; [|by left]. apply (busy_cons _ _ _ _ _ Ev_ipc _ ∅); [done| |constructor].
  by apply re_no_message; [|left].
Qed.

Lemma shutdown_kills_workers_witness :
  length (default [] final_processes) = 2%nat ∧ ∀ i p, default [] final_processes !! i = Some p →
    (∃ sig, k_life p = Reaped sig ∧ (sig = SIGTERM ∨ sig = SIGKILL)) ∧
    ∀ r, (X_ev_break, r) ∉ calls_of (TheWorker i) final_history.
Proof.
  destruct (shutdown_kills_workers (E := ending_world) unit 0 two_globals config_zero two_workers two_names [] [] ∅
    two_strings two_looping) as (s' & Hrun & Hend).
  - exact two_not_me.
  - split; [apply two_own|done].
  - apply two_heap.
  - done.
  - apply (bool_decide_unpack _). done.
  - by repeat constructor.
  - apply (Hend final_history).
    + exact final_possible.
    + rewrite final_calls. unfold ending_run. by rewrite Hrun.
    + apply final_loops.
    + intros pid sig r. rewrite no_outside. intros []%not_elem_of_nil.
Defined.

(** ** Starting up together *)

(** The master gets the names 40 and 41 for two workers, and the lowest free descriptors. *)
Definition boot_world : Env := λ tr c,
  match c with
  | X_random => ExtRet (40 + Z.of_nat (fork_calls tr) mod 64) 0 0 []
  | X_unix_socket => ExtRet (1 + 2 * Z.of_nat (fork_calls tr)) 0 0 []
  | X_accept _ => ExtRet (2 + 2 * Z.of_nat (fork_calls tr)) 0 0 []
  | _ => good_answer c
  end.

Lemma boot_world_starts : @starts boot_world 0.
Proof.
  split; intros; cbn; try done; try lia. pose proof (Z.mod_pos_bound (Z.of_nat (fork_calls tr)) 64). lia.
Qed.

(** What [worker_init] comes to there. *)
Definition boot_run : outcome (Z * globals) * proc :=
  worker_init (E := boot_world) stk 1 [] 2 globals_zero idle.
Definition booted : proc := boot_run.2.
Definition booted_globals : globals := match boot_run.1 with Ok a => a.2 | _ => globals_zero end.

(** The workers join with the strings they got. *)
Definition join_world : Env :=
  world_but (λ c, match c with
    | X_unix_socket => Some (ExtRet 0 0 0 [])
    | X_ev_default_loop => Some (ExtRet 1 0 0 [])
    | _ => None
    end).

Lemma join_world_joins : @joins 9 join_world.
Proof. split; try done. by left. Qed.

Definition booted_names : list (sds * sds_obj) :=
  [(1%positive, SdsObj (ipc_path 40) []); (2%positive, SdsObj (ipc_path 41) [])].

Definition join_start (x : sds * sds_obj) : proc := with_strings {[ x.1 := x.2 ]}.
Definition join_run (i : nat) (x : sds * sds_obj) : outcome (tsWorkerStruct * globals) * proc :=
  workerp_start (E := join_world) 9 i (zero_worker (Z.of_nat i) x.1) globals_zero (join_start x).
Definition join_self (i : nat) (x : sds * sds_obj) : tsWorkerStruct :=
  match (join_run i x).1 with Ok a => a.1 | _ => worker 0 1%positive end.
Definition join_trace (i : nat) (x : sds * sds_obj) : history_of :=
  (TheWorker i,.) <$> m_trace (join_run i x).2.

(** Each worker joins when the master listens for it, the first while its logging thread has
    the log file open; a file of an earlier run has the name of the first. *)
Definition boot_history : history_of :=
  let tr := (TheMaster,.) <$> m_trace booted in
  take 9 tr ++ [(TheLogger 0, (X_open (lit "/tmp/cew.log"), ExtRet 3 0 0 []))] ++
  join_trace 0 (1%positive, SdsObj (ipc_path 40) []) ++ [(TheLogger 0, (X_close 3, ExtRet 0 0 0 []))] ++
  take 10 (drop 9 tr) ++ join_trace 1 (2%positive, SdsObj (ipc_path 41) []) ++ drop 19 tr.

Definition boot_before : boot :=
  Boot {[ 0 := Other; 1 := Other; 2 := Other ]} [] ∅ {[ ipc_path 40 := None ]} ∅.
Definition boot_after : boot := default boot_before (boot_calls boot_history boot_before).

Lemma boot_before_fresh : boot_fresh boot_before.
Proof.
  split; try done; cbn.
  - by intros p a [_ ?]%lookup_singleton_Some.
  - intros fd n Hfd. repeat apply lookup_insert_Some in Hfd as [[_ ?]|[_ Hfd]]; try done.
    by apply lookup_singleton_Some in Hfd as [_ ?].
Qed.

Definition boot_process (i : nat) (x : sds * sds_obj) : @process (sds_model false) null_logger :=
  Process (join_self i x) ∅ true (join_run i x).2 (Endpoint (default ∅ (b_workers boot_after !! i)) [] []).
Definition boot_procs : list (@process (sds_model false) null_logger) := imap boot_process booted_names.

(** A computation that returns. *)
Definition returns {A S} (r : outcome A * S) : bool := match r.1 with Ok _ => true | _ => false end.

Lemma join_run_eq i x :
  returns (join_run i x) = true →
  ∃ g', join_run i x = (Ok (join_self i x, g'), (join_run i x).2).
Proof. unfold join_self, returns. destruct (join_run i x) as [[[w g']| | |] s]; cbn; try done. by exists g'. Qed.

Lemma zero_represented : represents (g_settings globals_zero) config_zero [].
Proof. done. Qed.

Lemma booted_joined i p :
  boot_procs !! i = Some p → joined booted_names boot_history boot_after i p.
Proof.
  unfold boot_procs. rewrite list_lookup_imap. intros (x & Hx & ->)%fmap_Some_1.
  assert (i = 0%nat ∨ i = 1%nat) as Hi.
  { apply lookup_lt_Some in Hx. cbn in Hx. lia. }
  assert (returns (join_run i x) = true ∧ x.2 = SdsObj (ipc_path (40 + Z.of_nat i)) [] ∧
    calls_of (TheWorker i) boot_history = m_trace (join_run i x).2 ∧
    present (b_workers boot_after !! i) = true) as (Hret & Hname & Hcalls & Hpres).
  { destruct Hi as [-> | ->]; injection Hx as <-; (split; [vm_cast_no_check (@eq_refl bool true)|]);
      (split; [reflexivity|]); (split; [|vm_cast_no_check (@eq_refl bool true)]);
      vm_compute; reflexivity. }
  destruct (join_run_eq i x Hret) as [g' Hrun]. destruct x as [f o]. cbn in Hname. subst o.
  exists join_world, 9%nat, f, [], (40 + Z.of_nat i), config_zero, [], [], ∅, globals_zero, g',
    (join_start (f, SdsObj (ipc_path (40 + Z.of_nat i)) [])), (default ∅ (b_workers boot_after !! i)).
  refine (conj join_world_joins (conj _ (conj Hx (conj _ (conj _ (conj Hrun (conj _ (conj _
    (conj eq_refl eq_refl))))))))).
  - clear -Hi. destruct Hi as [-> | ->]; lia.
  - apply zero_represented.
  - clear. split; [apply lookup_singleton_eq|apply delete_singleton_eq].
  - rewrite Hcalls. unfold calls_between. rewrite drop_0. reflexivity.
  - apply present_default, Hpres.
Qed.

(** Nobody else makes a call. *)
Lemma no_more_workers i : (2 ≤ i)%nat → calls_of (TheWorker i) boot_history = [].
Proof.
  intros Hi. assert (∀ e : who * event, e ∈ boot_history → e.1 ≠ TheWorker i) as Hno.
  { assert (forallb (λ e : who * event, match e.1 with TheWorker j => (j <? 2)%nat | _ => true end)
      boot_history = true) as Hall by vm_cast_no_check (@eq_refl bool true).
    intros e He. rewrite forallb_forall in Hall. specialize (Hall e (proj1 (list_elem_of_In _ _) He)).
    destruct e.1 as [|j| |]; [done| |done|done]. apply Nat.ltb_lt in Hall. intros [= ->]. lia. }
  destruct (calls_of (TheWorker i) boot_history) as [|e l] eqn:Hc; [done|].
  destruct (Hno (TheWorker i, e)); [|done]. apply calls_of_elem. rewrite Hc. left.
Qed.

(** The log file of the first worker. *)
Lemma boot_logs i : calls_of (TheLogger i) boot_history =
  if decide (i = 0%nat)
  then [(X_open (lit "/tmp/cew.log"), ExtRet 3 0 0 []); (X_close 3, ExtRet 0 0 0 [])] else [].
Proof.
  destruct i as [|i]; [vm_compute; reflexivity|].
  assert (∀ e : who * event, e ∈ boot_history → e.1 ≠ TheLogger (S i)) as Hno.
  { assert (forallb (λ e : who * event, match e.1 with TheLogger (S _) => false | _ => true end)
      boot_history = true) as Hall by vm_cast_no_check (@eq_refl bool true).
    intros e He He1. rewrite forallb_forall in Hall. specialize (Hall e (proj1 (list_elem_of_In _ _) He)).
    by rewrite He1 in Hall. }
  destruct (calls_of (TheLogger (S i)) boot_history) as [|e l] eqn:Hc; [done|].
  destruct (Hno (TheLogger (S i), e)); [|done]. apply calls_of_elem. rewrite Hc. left.
Qed.

Lemma boot_logs_apart i :
  log_passes (calls_of (TheLogger i) boot_history) ∧ avoids_zero (calls_of (TheLogger i) boot_history).
Proof.
  rewrite boot_logs. case_decide; (split; [repeat constructor; done|]); intros path r;
    rewrite ?elem_of_cons; intros Hin; [destruct Hin as [[= _ ->]|[|Hin]]; [done|done|]|];
    by apply not_elem_of_nil in Hin.
Qed.

Lemma two_fit : 0 < 2 ≤ Z.of_nat WORKER_MAX_WORKERS.
Proof. unfold WORKER_MAX_WORKERS. lia. Qed.

Lemma startup_connects_witness :
  ∃ ws, at_start ws (System (g_workers booted_globals) booted (b_master boot_after) 0 boot_procs).
Proof.
  pose proof (startup_connects (SL := sds_model false) (LA := null_logger) (E := boot_world) stk 1 [] 0 2
    globals_zero [] ∅ idle boot_world_starts (le_n 0) two_fit eq_refl eq_refl) as Hwp.
  destruct (proj1 (wp_run _ _ _) Hwp) as (r & s & Hrun & ws & xs & Hl & Hup & Hheap & Hall). clear Hwp.
  assert (booted = s) as <- by (unfold booted, boot_run; by rewrite Hrun).
  assert (r.2 = booted_globals) as Hg by (unfold booted_globals, boot_run; by rewrite Hrun).
  rewrite Hg in *. clear Hg Hrun.
  assert (xs = booted_names) as ->.
  { rewrite (set_up_strings _ _ _ _ _ _ Hup Hheap).
    assert (ws = omap id (psWorker (gWorkerAdmin (g_workers booted_globals)))) as ->.
    { destruct Hup as (-> & _). cbn [psWorker]. unfold table_of. by rewrite omap_table. }
    vm_compute. reflexivity. }
  exists ws. apply (Hall boot_history boot_before boot_after []).
  - apply (bool_decide_unpack _). vm_cast_no_check I.
  - apply boot_before_fresh.
  - apply present_default. vm_cast_no_check (@eq_refl bool true).
  - rewrite app_nil_r. vm_compute. reflexivity.
  - intros fd x. apply not_elem_of_nil.
  - change (length boot_procs) with 2%nat. clear -Hl. lia.
  - apply booted_joined.
  - intros i Hi. apply no_more_workers. clear -Hi Hl. lia.
  - apply boot_logs_apart.
Defined.

(** ** The whole program *)

Lemma any_argument_daemonizes_witness :
  bDeamonize (lit "cewserver" :: [lit "-x"]) = true ↔ [lit "-x"] ≠ [] ∧ lit "cewserver" ≠ lit "-d".
Proof. apply (any_argument_daemonizes (lit "cewserver") [lit "-x"]). by apply (bool_decide_unpack _). Defined.

#[export] Instance settings_files : LibIni := SettingsExample.memory_ini (λ path,
  if decide (path = SETTINGS_FILE) then Some [(lit "General", [(lit "port", lit "9000")])] else None).

Definition settings_doc : list (bytes * list (bytes * bytes)) :=
  [(lit "General", [(lit "port", lit "9000")])].

Lemma settings_doc_reads :
  reads_sections (LI := settings_files) (([], settings_doc) : SettingsExample.cursor) settings_doc AtEnd.
Proof.
  eapply (rs_section (LI := settings_files)); [reflexivity|lia| |].
  - eapply (rp_pair (LI := settings_files)); [reflexivity|lia|].
    by eapply (rp_end (LI := settings_files)).
  - by eapply (rs_end (LI := settings_files)).
Qed.

(** The program with its own logger, whose thread gets a turn at each call. *)
Definition logging : LoggerAPI :=
  @cew_logger (sds_model false) LoggerExample.no_text LoggerExample.noon
    (λ path, bool_decide (path ≠ lit "/nowhere")) true 99.

Definition logging_spec : LoggerSpec logging :=
  @cew_logger_spec (sds_model false) (sds_model_spec false) LoggerExample.no_text
    LoggerExample.noon _ _ _.

(** The static variables of the logger before anything has run. *)
Definition logger_zero : @lproc (sds_model false) :=
  LProc (@LState (sds_model false) (LConf None default_settings 0 0 false) STAILQ_INIT ∅
    (∅ : gmap sds sds_obj) 0 0 false false [] [] []) None (replicate 200 7%nat).

Definition fresh_process : @machine (sds_model false) logging :=
  @Machine (sds_model false) logging (∅ : gmap sds sds_obj) logger_zero [].

Lemma logger_zero_stopped : @log_stopped logging logging_spec logger_zero.
Proof. by vm_compute. Qed.

(** A limit of sixteen descriptors; the process is the child of its first two forks. *)
Definition daemon_world : Env := λ tr c,
  match c with
  | X_fork => ExtRet (if decide (fork_calls tr < 2)%nat then 0 else 100) 0 0 []
  | X_getrlimit => ExtRet 0 0 16 []
  | X_dup _ => match last tr with
               | Some (X_dup _, _) => ExtRet 2 0 0 []
               | _ => ExtRet 1 0 0 []
               end
  | _ => good_answer c
  end.

Lemma daemon_world_daemon : @becomes_daemon daemon_world 2.
Proof.
  split; intros; cbn; try done; [by rewrite decide_True| |]; by rewrite last_snoc.
Qed.

Lemma daemon_world_starts : @starts daemon_world 2.
Proof. split; intros; cbn; try done. rewrite decide_False by lia. done. Qed.

Lemma daemon_world_listens : @listens daemon_world.
Proof. by split; intros; cbn. Qed.


(** What a run with two clients leaves in the log file at the default level, 0. *)
Example main_log :
  let '(r, s') := main (SL := sds_model false) (LA := logging) stk 9 []
                    (replicate 2 Mv_client ++ [Mv_signal]) [lit "cewserver"] fresh_process in
  r = Exited 0 ∧ nodes (lp_state (m_log s')) = ∅ ∧
  written (lp_state (m_log s')) =
    [lit "Mon, 01 Jan 2024 12:00:00 +0000 : Error : ----- STARTING -------" ++ [LF]].
Proof. vm_compute. done. Qed.

(** No process can be made: the first worker fails, and so does [main]. *)
Definition no_fork_world : Env :=
  world_but (λ c, match c with X_fork => Some (ExtRet (-1) 11 0 []) | _ => None end).

Lemma no_fork_parent n : @parent no_fork_world n.
Proof. split; [by intros; cbn; lia|by right|]. intros tr c [-> |[-> | ->]]; done. Qed.

Lemma settings_files_fit (i : ini (LibIni := settings_files)) :
  ini_open SETTINGS_FILE = Some i → (S (SettingsExample.size i) ≤ 9)%nat.
Proof. intros [= <-]. cbn. lia. Qed.


(** How it ends: without a settings file; without a process or a socket, where the message
    about it is formatted and lacks an argument; and at an ordinary time, where the seed
    overflows. *)
Definition no_files : LibIni := SettingsExample.memory_ini (λ _, None).
Definition no_socket_world : Env :=
  world_but (λ c, match c with X_socket => Some (ExtRet (-1) 24 0 []) | _ => None end).

Definition late_world : Env :=
  world_but (λ c, match c with
    | X_gettimeofday => Some (ExtRet 1700000000 0 999999 [])
    | X_getpid => Some (ExtRet 100000 0 0 [])
    | _ => None
    end).

Definition status_of (argv : list bytes) (W : Env) (L : LibIni) : outcome unit :=
  (main (SL := sds_model false) (LA := logging) (E := W) (LI := L) stk 9 [] [Mv_signal] argv
     fresh_process).1.

Definition foreground : list bytes := [lit "cewserver"].
Definition background : list bytes := [lit "cewserver"; lit "-d"].

Example main_statuses :
  status_of foreground good_world no_files = Exited (-3) ∧
  status_of foreground no_fork_world settings_files = Undef Unspecified ∧
  status_of foreground no_socket_world settings_files = Undef Unspecified ∧
  status_of foreground late_world settings_files = Undef SignedOverflow ∧
  status_of foreground good_world settings_files = Exited 0 ∧
  status_of background no_fork_world settings_files = Undef Unspecified ∧
  status_of background good_world settings_files = Exited 0 ∧
  status_of background daemon_world settings_files = Exited 0.
Proof. vm_compute. done. Qed.

(** A limit of sixteen descriptors; the process is the child of its forks. *)
Definition child_world : Env := λ tr c,
  match c with
  | X_fork => ExtRet 0 0 0 []
  | X_getrlimit => ExtRet 0 0 16 []
  | X_dup _ => match last tr with
               | Some (X_dup _, _) => ExtRet 2 0 0 []
               | _ => ExtRet 1 0 0 []
               end
  | _ => good_answer c
  end.

Lemma daemonize_correct_witness :
  wp (@daemonize (sds_model false) null_logger child_world ev_frees globals_zero) (λ z s',
    z = RET_OK ∧ heap_of s' = heap_of idle ∧ ∃ lim,
      fds_closed (m_trace s') = fds_closed (m_trace idle) ++ seqZ 0 (closed_count lim) ∧
      fds_opened (m_trace s') = fds_opened (m_trace idle) ++ [0; 1; 2]) idle.
Proof.
  apply (@daemonize_correct (sds_model false) null_logger child_world ev_frees globals_zero idle);
    try done.
  - intros tr p r. unfold env, child_world. by rewrite last_snoc.
  - intros tr r. unfold env, child_world. by rewrite last_snoc.
Defined.
